(* ===== verification/_CoqProject ===== *)
-Q . S2P
Prelude.v
Runs.v
Checked.v
Interfaces.v
MapTable.v
MapLayout.v
MapInvariant.v
MapRefinement.v
MapSpec.v
MapLifecycle.v
MapClone.v
MapProgram.v
MapCost.v
Concrete.v
MapClaims.v
Sort.v
SortSwaps.v
SortOrder.v
SortCorrect.v
SortCost.v
SortClaims.v
Utf8.v
Utf8Codec.v
Strings.v
StringsSpec.v
StringShare.v
StringProgram.v
Args.v
TextClaims.v
Arena.v
ArenaSpec.v
ArenaOps.v
ArenaLife.v
ArenaClaims.v
Printed.v
Alloc.v
AllocSpec.v
AllocClaims.v
Panic.v
PanicClaims.v
Cpu.v
Trace.v
TraceSpec.v
TraceClaims.v
Dynamic.v
DynamicSpec.v
DynamicFill.v
DynamicOps.v
DynamicInsert.v
DynamicArray.v
DynamicLife.v
DynamicMoves.v
DynamicClone.v
DynamicRunes.v
DynamicProgram.v
DynamicCost.v
DynamicClaims.v
Format.v
FormatSpec.v
FormatFloat.v
NumericLocale.v
Rounding.v
Nearest.v
F16.v
F16Claims.v
FormatFloatSpec.v
Ieee.v
IeeeSpec.v
FormatClaims.v
FloatClaims.v
Atomic.v
AtomicSpec.v
AtomicSafe.v
AtomicLive.v
AtomicClaims.v
