(* ===== verification/Prelude.v ===== *)
(** * The Loke runtime, modelled and verified

    Loke is a compiled language; its compiler emits code that calls a runtime
    written in C, [src/runtime/*.c] behind the interface [loke_rt.h]. This
    development models that runtime as executable Rocq functions and proves what
    the generated code relies on. The names below are those of [src/runtime/].

    ** How the code is modelled

    - [Prelude] is the language: integers are [Z] with their wrap-around written
      out ([wrap64], [wrap32], [to_i64]); code that changes state is in the monad
      [M S A], whose answers are a value and a state, the end of the program
      ([Stop], with how it ends), undefined behaviour ([Undefined]: a read or a
      write outside its block) and a loop cut short by its fuel ([NoFuel]).
      [wp m Q P s] is a total-correctness triple: it excludes the last two.
    - Loops are [Fixpoint]s over a fuel computed from the data (the length left
      to walk, the capacity to probe, the span to sort); a triple excludes
      [NoFuel], so every fuel is proved enough. The introsort also takes how
      deep its calls may nest and is proved to need no more than 63.
    - The runtime calls code that is not its own: providers, hash, equality,
      clone and drop hooks, comparators, cleanup thunks, sinks, the C library,
      DbgHelp. These are parameters, over a state of their own. Hypotheses on
      them say what their documentation does: mostly [well_behaved], that they
      return or end the program, in any way.
    - The state of a map and of an array has a trace: every request to a provider
      with its answer, also a refused one, every block given back, every call of
      a drop hook and every call of a clone hook with its answer. What an
      operation does to the outside is stated as the exact list of these that it
      adds ([MapClone.gave_back], [DynamicFill.acts]).
    - [Runs] is the partial counterpart of [wp], with which costs are read off
      the code; no property rests on it alone.
    - [Interfaces] has the promises between components as type classes.
      [AllocApi] and its laws are what containers, strings and regions are
      proved against; [AllocSpec] discharges them for the dispatch of [alloc.c],
      and [AllocClaims] opens a region over that dispatch. [Concrete] has the
      small provider the witnesses run on.

    ** The parts

    - Allocation. [Alloc], [AllocSpec], [AllocClaims]: [alloc.c]; the record
      check, the dispatch to a provider's table, provider selection, the note of
      the last refusal and the report of a failure. [Arena], [ArenaSpec],
      [ArenaOps], [ArenaLife], [ArenaClaims]: [arena.c]; a region's chain of
      blocks, its bump pointer, growth, resize, free, reset and drop. A client
      program's allocations never meet, and every parent block is freed exactly
      once.
    - Containers ([container.c]). [Checked]: checked sizes and growth policies.
      [MapTable] is the open-addressing table behind [map\[K\]V] as the C code
      writes it; [MapLayout] its block, [MapInvariant] the table's invariant and
      its probes, [MapRefinement] and [MapSpec] every operation as a triple over
      an abstract finite map, [MapLifecycle] drops whose hooks may panic,
      [MapClone] clones and walks, [MapProgram] whole programs, [MapCost] how
      seldom a table is rebuilt, [MapClaims] the properties. [Dynamic] is the growable array; [DynamicSpec] to
      [DynamicRunes] prove each operation as a triple over a list of values, and
      [DynamicProgram] that programs refine that list, with the answer of every
      call, and destroy every value exactly once; [DynamicCost] is what growth
      takes from the provider, and what refusals cost;
      [DynamicClaims] has the properties. [Sort] is the introsort;
      [SortSwaps] shows that it only permutes, under any comparator,
      [SortOrder] and [SortCorrect] that it sorts under a strict weak order, and
      [SortCost] what it costs; [SortClaims].
    - Text. [Utf8] and [Utf8Codec]: the UTF-8 routines of [text.c], a decoder
      proved to be the inverse of the encoder and the validator exact. [Strings]
      and [StringsSpec]: the shared buffers of strings with their handle counts;
      [StringShare]: threads that share them, a release being a decrement and
      later a free; [StringProgram]: programs over string variables and the
      typing of their state, each variable a valid text. [Args]: [args.c], the UTF-16 arguments
      made into UTF-8. [TextClaims].
    - Formatting ([format.c]). [Format] and [FormatSpec]: the sink, integers,
      runes, quoted text, and readers of what they spell. [FormatFloat] and
      [FormatFloatSpec]: the search for the shortest float that reads back, its
      layout, and the shared C locale, over any C library; [NumericLocale]: the
      atomic steps of threads that race to make that locale; [Rounding]
      and [Nearest]: exact fractions rounded to integers and to binary formats,
      and when a fraction near a number rounds back to it; [Ieee] and [IeeeSpec]:
      doubles with correctly rounded [%.*e] and [strtod], proved to be such a
      library. [F16] and [F16Claims]: the rounding to [f16]. [FormatClaims] and
      [FloatClaims] have the properties.
    - The end of a program. [Panic], [PanicClaims]: [panic.c] and [fail.c]; the
      chain of cleanup frames, the unwind, nested panics, the abort. [Trace],
      [TraceSpec], [TraceClaims]: [trace.c], the stack trace printed between the
      message and the unwind, and the whole report of a panic. [Printed]: the
      text these share.
    - The processor. [Cpu]: [cpu.c], the level a build needs and the dispatch.
      [Atomic] has the 128-bit operations of [atomic.c] as code whose steps
      interleave, each thread with the store buffer of an x86-64 processor;
      [AtomicSpec] what each does alone, [AtomicSafe] the invariant of the lock,
      of the buffers and of the log of finished calls, [AtomicLive] that threads can
      always finish, [AtomicClaims] the properties.

    ** What the theorems show

    - Refinement: programs over a map or an array behave as programs over an
      abstract finite map or list ([map_refines_finite_map], [dyn_refines_list]);
      threads over 128-bit values, as whole operations one at a time
      ([atomic_linearizable]).
    - Threads: those that share strings and those that race for the locale, in
      any interleaving of their atomic steps ([string_handles_safe],
      [numeric_locale_shared]).
    - Conservation: no block leaks or is freed twice, and no value is destroyed
      twice, also where a hook panics midway and the unwind drops again
      ([map_drop_exactly_once], [map_life_releases_every_block],
      [arena_life_safe], [dyn_drop_exactly_once], [string_handles_safe],
      [panic_unwinds]).
    - Function and failure of single operations: what is answered, what is left
      unchanged when an allocation is refused, what is reported
      ([..._correct], [alloc_failure_reports], [panic_report]).
    - Typing: the state of a string program keeps its type, so that no operation
      needs to validate a text again ([string_programs_typed]).
    - Round trips: of UTF-8, of integers, floats and quoted text. For floats both
      over any C library that meets a specification ([fmt_float_reads_back]) and,
      with no hypothesis on it, over IEEE doubles ([float_text_roundtrip]).
    - Bounds, widths and rounding: block layouts, buffer sizes, 128-bit
      arithmetic on halves ([atomic_rmw_exact]), [f16] ([nearest_f16_correct]),
      [O(n log n)] comparisons of the sort ([sort_comparisons_bounded]), growth
      of arrays that is linear in the elements that come in from outside, but for
      the growths that a refused clone undoes ([growth_amortized]), and map
      rebuilds that a run of insertions pays for ([map_rebuilds_rare]).
    - Termination is part of every triple; [map_scan_enumerates] and
      [atomic_progress] state it of walks and of threads.

    ** Where the code does not do what it says

    [insert_panic_destroys_twice] of [DynamicClaims] runs an insertion whose
    clone hook panics: the array is shifted but its length is not yet changed,
    so the drop that the unwind runs destroys one element twice. An insertion of
    the array's own elements takes a fresh block of twice the capacity, also
    where they fit, so that [n] of them ask for [2^n] times the room
    ([self_insert_doubles] of [DynamicCost]); [growth_amortized] leaves them out,
    and shrinks, which give back what the next append takes. A failed growth of an
    array of zero-sized elements keeps the larger capacity, which
    [loke_rt.h] says no failure does.

    ** Not modelled

    - Addresses are numbers and blocks are cells or bytes; the C memory model
      below that (provenance, effective types) is not. Array cells hold one
      element each rather than its bytes; the swap of the sort, string buffers
      and text are byte by byte.
    - [Atomic] runs threads on the memory of x86-64, the processor the runtime
      is built for: plain stores wait in a buffer of their thread, in order, and
      the locked exchange that takes the gate waits for them. Reorderings by the
      compiler are not modelled; the two barriers, which forbid them, are steps
      that change nothing.
    - The C library: [printf] and [strtod] of floats, the aligned heap, locales,
      streams; DbgHelp; the processor query. They are parameters. [Ieee] is what
      the C and IEEE 754 standards ask of the float functions, not code of a
      library; it reads only what the runtime spells.
    - The compiler, the language server and the core libraries, which are not
      C. *)
From stdpp Require Export base tactics numbers list option gmap strings.
From stdpp Require Export sorting.
From Stdlib Require Export ZArith Lia.
Global Open Scope Z_scope.

(** * Machine integers *)

Definition UINT64_MAX : Z := 2 ^ 64 - 1.
Definition INT64_MAX : Z := 2 ^ 63 - 1.
Definition INT64_MIN : Z := - 2 ^ 63.

Definition wrap64 (x : Z) : Z := x mod 2 ^ 64.
Definition wrap32 (x : Z) : Z := x mod 2 ^ 32.
Definition wrap8 (x : Z) : Z := x mod 2 ^ 8.

(** The value a [uint64_t] has when it is converted to [int64_t]. *)
Definition to_i64 (x : Z) : Z :=
  let r := wrap64 x in if r <? 2 ^ 63 then r else r - 2 ^ 64.

Definition is_u64 (x : Z) : Prop := 0 <= x <= UINT64_MAX.
Definition is_i64 (x : Z) : Prop := INT64_MIN <= x <= INT64_MAX.
Definition is_byte (x : Z) : Prop := 0 <= x < 256.

Global Instance is_u64_dec x : Decision (is_u64 x).
Proof. unfold is_u64. apply _. Defined.
Global Instance is_i64_dec x : Decision (is_i64 x).
Proof. unfold is_i64. apply _. Defined.
Global Instance is_byte_dec x : Decision (is_byte x).
Proof. unfold is_byte. apply _. Defined.

(** Unfolds the integer bounds so that [lia] sees numbers. *)
Ltac unfold_ints :=
  unfold is_u64, is_i64, is_byte, wrap64, wrap32, wrap8,
    UINT64_MAX, INT64_MAX, INT64_MIN in *.
Ltac ilia := unfold_ints; lia.

Lemma wrap64_small x : is_u64 x -> wrap64 x = x.
Proof. intros H. unfold wrap64. apply Z.mod_small. ilia. Qed.

Lemma wrap64_range x : is_u64 (wrap64 x).
Proof. unfold is_u64, wrap64, UINT64_MAX. pose proof (Z.mod_pos_bound x (2 ^ 64) eq_refl). lia. Qed.

(** * Outcomes of runtime code

    A call returns a value in a new state, ends the program (a panic, an
    abort, an [exit]), or has undefined behaviour in C ([Undefined]: an access
    outside an object, an overflow of a signed integer, overlapping [memcpy]).
    [NoFuel] is what a loop that is given too little fuel answers; every
    component proves that it does not happen. *)

Inductive halt : Type :=
| Panicked (message : string)
| Aborted (message : string)
| Exited (status : Z).

Inductive res (S A : Type) : Type :=
| Ok (a : A) (s : S)
| Stop (h : halt) (s : S)
| Undefined
| NoFuel.
Arguments Ok {S A} a s.
Arguments Stop {S A} h s.
Arguments Undefined {S A}.
Arguments NoFuel {S A}.

Definition M (S A : Type) : Type := S -> res S A.

Definition ret {S A} (a : A) : M S A := fun s => Ok a s.
Definition bind {S A B} (m : M S A) (k : A -> M S B) : M S B := fun s =>
  match m s with
  | Ok a s' => k a s'
  | Stop h s' => Stop h s'
  | Undefined => Undefined
  | NoFuel => NoFuel
  end.
Definition get {S} : M S S := fun s => Ok s s.
Definition put {S} (s : S) : M S unit := fun _ => Ok tt s.
Definition gets {S A} (f : S -> A) : M S A := fun s => Ok (f s) s.
Definition modify {S} (f : S -> S) : M S unit := fun s => Ok tt (f s).
Definition undefined {S A} : M S A := fun _ => Undefined.
Definition no_fuel {S A} : M S A := fun _ => NoFuel.
Definition stop {S A} (h : halt) : M S A := fun s => Stop h s.
Definition panic {S A} (msg : string) : M S A := stop (Panicked msg).
Definition abort {S A} (msg : string) : M S A := stop (Aborted msg).
(** The value of an access that is undefined behaviour when it is absent. *)
Definition need {S A} (o : option A) : M S A :=
  match o with Some a => ret a | None => undefined end.

(** The lemmas that close the routine side conditions. *)
Create HintDb rt.

Declare Scope rt_scope.
Delimit Scope rt_scope with rt.
Notation "'let!' x := m 'in' k" := (bind m (fun x => k))
  (at level 10, x pattern, m at level 100, k at level 200) : rt_scope.
Notation "m ;;; k" := (bind m (fun _ => k))
  (at level 100, k at level 200, right associativity) : rt_scope.
Global Open Scope rt_scope.

(** Code that runs on the second half of a pair of states: what user code
    (a comparator, a hook) does while the first half is the runtime's. *)
Definition lift_snd {X E A} (m : M E A) : M (X * E) A := fun '(x, e) =>
  match m e with
  | Ok a e' => Ok a (x, e')
  | Stop h e' => Stop h (x, e')
  | Undefined => Undefined
  | NoFuel => NoFuel
  end.

(** * Total-correctness triples *)

(** [wp m Q P s]: from [s] the code [m] is free of undefined behaviour, does
    not run out of fuel, returns in a state [Q] holds of, or ends the program
    in a state [P] holds of. *)
Definition wp {S A} (m : M S A) (Q : A -> S -> Prop) (P : halt -> S -> Prop) (s : S) : Prop :=
  match m s with
  | Ok a s' => Q a s'
  | Stop h s' => P h s'
  | Undefined | NoFuel => False
  end.

Section wp.
Context {S : Type}.
Implicit Types s : S.

Lemma wp_ret {A} (a : A) (Q : A -> S -> Prop) P s : Q a s -> wp (ret a) Q P s.
Proof. done. Qed.

Lemma wp_bind {A B} (m : M S A) (k : A -> M S B) Q P s :
  wp m (fun a => wp (k a) Q P) P s -> wp (bind m k) Q P s.
Proof. unfold wp, bind. by destruct (m s). Qed.

Lemma wp_conseq {A} (m : M S A) (Q Q' : A -> S -> Prop) (P P' : halt -> S -> Prop) s :
  wp m Q P s ->
  (forall a s', Q a s' -> Q' a s') -> (forall h s', P h s' -> P' h s') ->
  wp m Q' P' s.
Proof. unfold wp. destruct (m s); eauto. Qed.

Lemma wp_get (Q : S -> S -> Prop) P s : Q s s -> wp get Q P s.
Proof. done. Qed.

Lemma wp_gets {A} (f : S -> A) (Q : A -> S -> Prop) P s : Q (f s) s -> wp (gets f) Q P s.
Proof. done. Qed.

Lemma wp_put s' (Q : unit -> S -> Prop) P s : Q tt s' -> wp (put s') Q P s.
Proof. done. Qed.

Lemma wp_modify f (Q : unit -> S -> Prop) P s : Q tt (f s) -> wp (modify f) Q P s.
Proof. done. Qed.

Lemma wp_stop {A} h (Q : A -> S -> Prop) (P : halt -> S -> Prop) s : P h s -> wp (stop h) Q P s.
Proof. done. Qed.

Lemma wp_need {A} (o : option A) a (Q : A -> S -> Prop) P s :
  o = Some a -> Q a s -> wp (need o) Q P s.
Proof. by intros ->. Qed.

Lemma wp_if {A} (b : bool) (m1 m2 : M S A) Q P s :
  (b = true -> wp m1 Q P s) -> (b = false -> wp m2 Q P s) ->
  wp (if b then m1 else m2) Q P s.
Proof. destruct b; auto. Qed.

(** A triple gives the run it describes. *)
Lemma wp_ok {A} (m : M S A) (Q : A -> S -> Prop) s :
  wp m Q (fun _ _ => False) s <-> exists a s', m s = Ok a s' /\ Q a s'.
Proof.
  unfold wp. destruct (m s); split; try done; try (by eauto);
    by intros (? & ? & ? & ?); simplify_eq.
Qed.
End wp.

Lemma wp_lift_snd {X E A} (m : M E A) (Q : A -> X * E -> Prop) P x e :
  wp m (fun a e' => Q a (x, e')) (fun h e' => P h (x, e')) e ->
  wp (lift_snd m) Q P (x, e).
Proof. unfold wp, lift_snd. by destruct (m e). Qed.

(** * Arrays: C indexing of a list of cells *)

Definition at_index {A} (xs : list A) (i : Z) : option A :=
  if 0 <=? i then xs !! Z.to_nat i else None.

Definition set_index {A} (xs : list A) (i : Z) (a : A) : option (list A) :=
  if (0 <=? i) && (i <? Z.of_nat (length xs)) then Some (<[Z.to_nat i := a]> xs) else None.

Abbreviation zlen xs := (Z.of_nat (length xs)).
