(* ===== verification/Runs.v ===== *)
(** Partial runs, for what a program costs: what every answer and every early
    end of a run meets, without a claim that there is one. The costs of
    [DynamicCost] and [MapCost] are read off the code with these; that the code
    ends and stays in its blocks is the business of the triples. *)
From S2P Require Import Prelude.

Section runs.
Context {S : Type}.
Implicit Types (s : S).

Definition runs {A} (m : M S A) (Q : A -> S -> Prop) (P : S -> Prop) s : Prop :=
  match m s with Ok a s' => Q a s' | Stop _ s' => P s' | Undefined | NoFuel => True end.

Lemma runs_bind {A B} (m : M S A) (k : A -> M S B) Q P s :
  runs m (fun a s' => runs (k a) Q P s') P s -> runs (bind m k) Q P s.
Proof. unfold runs, bind. by destruct (m s). Qed.

Lemma runs_ret {A} (a : A) (Q : A -> S -> Prop) P s : Q a s -> runs (ret a) Q P s.
Proof. done. Qed.

Lemma runs_conseq {A} (m : M S A) (Q Q' : A -> S -> Prop) (P P' : S -> Prop) s :
  runs m Q P s -> (forall a s', Q a s' -> Q' a s') -> (forall s', P s' -> P' s') -> runs m Q' P' s.
Proof. unfold runs. intros Hm HQ HP. destruct (m s); auto. Qed.

Lemma runs_gets {A B} (f : S -> A) (k : A -> M S B) Q P s : runs (k (f s)) Q P s -> runs (bind (gets f) k) Q P s.
Proof. done. Qed.

Lemma runs_modify {B} (f : S -> S) (k : unit -> M S B) Q P s : runs (k tt) Q P (f s) -> runs (bind (modify f) k) Q P s.
Proof. done. Qed.

Lemma runs_need {A B} (o : option A) (k : A -> M S B) Q P s :
  (forall a, o = Some a -> runs (k a) Q P s) -> runs (bind (need o) k) Q P s.
Proof. destruct o; [|done]. intros Hk. by apply Hk. Qed.

(** A triple, and what the run also shows. *)
Lemma wp_runs {A} (m : M S A) (Q Q' : A -> S -> Prop) (P P' : S -> Prop) s :
  wp m Q (fun _ => P) s -> runs m Q' P' s -> wp m (fun a s' => Q a s' /\ Q' a s') (fun _ s' => P s' /\ P' s') s.
Proof. unfold wp, runs. by destruct (m s). Qed.

Lemma runs_wp {A} (m : M S A) (Q : A -> S -> Prop) P s : wp m Q (fun _ => P) s -> runs m Q P s.
Proof. unfold wp, runs. by destruct (m s). Qed.

(** ** Steps within a relation *)

Section keeps.
Context (R : S -> S -> Prop) {pre : PreOrder R}.

(** However [m] goes on, [R] relates where it started and where it is. *)
Definition keeps {A} (m : M S A) : Prop := forall s, runs m (fun _ => R s) (R s) s.

Lemma keeps_ret {A} (a : A) : keeps (ret a).
Proof. intros s. cbn. reflexivity. Qed.
Lemma keeps_panic {A} msg : keeps (panic msg : M S A).
Proof. intros s. cbn. reflexivity. Qed.
Lemma keeps_undefined {A} : keeps (undefined : M S A).
Proof. by intros s. Qed.
Lemma keeps_no_fuel {A} : keeps (no_fuel : M S A).
Proof. by intros s. Qed.
Lemma keeps_need {A} (o : option A) : keeps (need o : M S A).
Proof. destruct o; [apply keeps_ret|by intros s]. Qed.
Lemma keeps_gets {A} (f : S -> A) : keeps (gets f).
Proof. intros s. cbn. reflexivity. Qed.
Lemma keeps_get : keeps (get : M S S).
Proof. intros s. cbn. reflexivity. Qed.
Lemma keeps_modify f : (forall s, R s (f s)) -> keeps (modify f).
Proof. intros Hf s. apply Hf. Qed.
Lemma keeps_bind {A B} (m : M S A) (k : A -> M S B) : keeps m -> (forall a, keeps (k a)) -> keeps (bind m k).
Proof.
  intros Hm Hk s. apply runs_bind. eapply runs_conseq; [apply Hm| |done].
  intros a s1 H1. eapply runs_conseq; [apply Hk| |]; intros; by trans s1.
Qed.
Lemma keeps_if {A} (b : bool) (m1 m2 : M S A) : keeps m1 -> keeps m2 -> keeps (if b then m1 else m2).
Proof. by destruct b. Qed.

Lemma runs_keeps {A B} (m : M S A) (k : A -> M S B) Q P s : keeps m ->
  (forall a s', R s s' -> runs (k a) Q P s') -> (forall s', R s s' -> P s') -> runs (bind m k) Q P s.
Proof. intros Hm Hk HP. apply runs_bind. eapply runs_conseq; [apply Hm|exact Hk|exact HP]. Qed.
End keeps.
End runs.

Create HintDb keeps.
#[export] Hint Resolve keeps_ret keeps_panic keeps_undefined keeps_no_fuel keeps_need keeps_gets keeps_get : keeps.

(** Walks through the code of such a step. *)
Ltac keep :=
  repeat first
    [ solve [eauto with keeps typeclass_instances]
    | apply keeps_bind; [typeclasses eauto| |intros ?]
    | apply keeps_if
    | apply keeps_modify; intros ?; done
    | match goal with |- keeps _ (match ?x with _ => _ end) => destruct x end ].
