(* ===== verification/Checked.v ===== *)
(** Checked container arithmetic ([runtime/container.c], "checked math"), the
    growth policy of dynamic arrays and the slot policy of maps: every product
    and sum that sizes an allocation, at its machine width. *)
From S2P Require Import Prelude.

(** * Definitions *)

(** A C helper that answers 0 or writes [*out] and answers 1 is an [option]. *)
Definition checked_add (a b : Z) : option Z :=
  if (a <? 0) || (b <? 0) || (INT64_MAX - b <? a) then None else Some (a + b).

Definition checked_bytes (count size : Z) : option Z :=
  if count <? 0 then None
  else if negb (size =? 0) && (UINT64_MAX `div` size <? count) then None
  else Some (wrap64 (count * size)).

Definition sane_container_align (align : Z) : Z := if align =? 0 then 1 else align.

Definition checked_round_up (value align : Z) : option Z :=
  let a := sane_container_align align in
  if UINT64_MAX - (a - 1) <? value then None
  else Some (wrap64 (wrap64 (value + a - 1) `div` a * a)).

Definition dyn_growth_target (cap min_capacity : Z) : option Z :=
  let want :=
    if 0 <? cap then
      match checked_add cap cap with
      | Some doubled => if min_capacity <? doubled then doubled else min_capacity
      | None => min_capacity
      end
    else min_capacity in
  let want := if want <? 8 then 8 else want in
  if want <? min_capacity then None else Some want.

Definition map_capacity_of (slot_count : Z) : Z := slot_count - slot_count `quot` 8.

(** The loop of [map_slots_for]; 64 rounds of doubling pass every [int64_t]. *)
Fixpoint map_slots_loop (fuel : nat) (slots min_capacity : Z) : option (option Z) :=
  match fuel with
  | O => None
  | S fuel =>
      if map_capacity_of slots <? min_capacity then
        if INT64_MAX `quot` 2 <? slots then Some None
        else map_slots_loop fuel (slots * 2) min_capacity
      else Some (Some slots)
  end.

(** [None]: out of fuel (never, [map_slots_for_total]); [Some None]: the C
    function answers 0; [Some (Some n)]: it answers 1 with [*out = n]. *)
Definition map_slots_for (min_capacity : Z) : option (option Z) :=
  map_slots_loop 64 8 min_capacity.

(** * Checked arithmetic is exact *)

Lemma checked_add_Some a b c :
  is_i64 a -> is_i64 b ->
  checked_add a b = Some c <-> 0 <= a /\ 0 <= b /\ c = a + b /\ c <= INT64_MAX.
Proof.
  unfold checked_add. intros Ha Hb.
  destruct (_ || _) eqn:E; split.
  - done.
  - intros. exfalso. ilia.
  - intros [= <-]. ilia.
  - intros (? & ? & -> & ?). done.
Qed.

Lemma checked_bytes_eq count size :
  is_i64 count -> is_u64 size ->
  checked_bytes count size =
    (if (0 <=? count) && (count * size <=? UINT64_MAX) then Some (count * size) else None).
Proof.
  intros Hc Hs. unfold checked_bytes.
  destruct (Z.ltb_spec count 0).
  { destruct (Z.leb_spec 0 count); [lia|done]. }
  destruct (Z.leb_spec 0 count); [|lia]. cbn [andb].
  destruct (Z.eqb_spec size 0) as [->|Hne]; cbn [negb andb].
  { rewrite Z.mul_0_r. done. }
  assert (0 < size) by ilia.
  destruct (Z.ltb_spec (UINT64_MAX `div` size) count) as [Hlt|Hge].
  - destruct (Z.leb_spec (count * size) UINT64_MAX) as [Hle|]; [|done]. exfalso.
    pose proof (Z.mul_succ_div_gt UINT64_MAX size ltac:(lia)). nia.
  - assert (count * size <= UINT64_MAX).
    { pose proof (Z.mul_div_le UINT64_MAX size ltac:(lia)). nia. }
    destruct (Z.leb_spec (count * size) UINT64_MAX); [|lia].
    f_equal. apply wrap64_small. split; [nia|done].
Qed.

Lemma checked_bytes_Some count size n :
  is_i64 count -> is_u64 size ->
  checked_bytes count size = Some n <-> 0 <= count /\ n = count * size /\ n <= UINT64_MAX.
Proof.
  intros Hc Hs. rewrite checked_bytes_eq by done.
  destruct (Z.leb_spec 0 count), (Z.leb_spec (count * size) UINT64_MAX); cbn;
    split; intros; naive_solver lia.
Qed.

Lemma sane_align_pos align : is_u64 align -> 0 < sane_container_align align.
Proof. unfold sane_container_align. destruct (Z.eqb_spec align 0); ilia. Qed.

Lemma sane_align_u64 align : is_u64 align -> is_u64 (sane_container_align align).
Proof. unfold sane_container_align. destruct (Z.eqb_spec align 0); ilia. Qed.

(** Rounding [v] up to a multiple of [a] without a machine. *)
Definition round_up_exact (v a : Z) : Z := (v + a - 1) `div` a * a.

Lemma round_up_exact_spec v a :
  0 < a ->
  v <= round_up_exact v a < v + a /\ (a | round_up_exact v a).
Proof.
  intros Ha. unfold round_up_exact.
  pose proof (Z.div_mod (v + a - 1) a ltac:(lia)).
  pose proof (Z.mod_pos_bound (v + a - 1) a Ha).
  split; [nia|]. apply Z.divide_factor_r.
Qed.

Lemma checked_round_up_eq value align :
  is_u64 value -> is_u64 align ->
  let a := sane_container_align align in
  checked_round_up value align =
    (if value + (a - 1) <=? UINT64_MAX then Some (round_up_exact value a) else None).
Proof.
  intros Hv Ha a. unfold checked_round_up. fold a.
  pose proof (sane_align_pos align Ha) as Hpos. fold a in Hpos.
  destruct (Z.ltb_spec (UINT64_MAX - (a - 1)) value), (Z.leb_spec (value + (a - 1)) UINT64_MAX);
    try lia; [done|].
  rewrite (wrap64_small (value + a - 1)) by ilia.
  fold (round_up_exact value a). f_equal. apply wrap64_small.
  pose proof (round_up_exact_spec value a Hpos). ilia.
Qed.

Lemma checked_round_up_Some value align n :
  is_u64 value -> is_u64 align ->
  checked_round_up value align = Some n ->
  value <= n < value + sane_container_align align /\ (sane_container_align align | n) /\ is_u64 n.
Proof.
  intros Hv Ha H. rewrite checked_round_up_eq in H by done.
  destruct (Z.leb_spec (value + (sane_container_align align - 1)) UINT64_MAX); simplify_eq.
  pose proof (round_up_exact_spec value (sane_container_align align)
    (sane_align_pos _ Ha)) as [? ?].
  split_and!; [lia..|done|]. ilia.
Qed.

(** * Growth policy *)

Lemma dyn_growth_target_eq cap min_capacity :
  is_i64 cap -> is_i64 min_capacity -> 0 <= cap ->
  dyn_growth_target cap min_capacity =
    Some (Z.max 8 (if 2 * cap <=? INT64_MAX then Z.max (2 * cap) min_capacity else min_capacity)).
Proof.
  intros Hc Hm Hpos. unfold dyn_growth_target, checked_add.
  repeat match goal with
    | |- context [Z.ltb ?a ?b] => destruct (Z.ltb_spec a b)
    | |- context [Z.leb ?a ?b] => destruct (Z.leb_spec a b)
    end; cbn [orb]; repeat case_match; try (f_equal; ilia); simplify_eq; try (f_equal; ilia); ilia.
Qed.

(** * Slot counts *)

Lemma map_capacity_of_div n : 0 <= n -> map_capacity_of n = n - n `div` 8.
Proof. intros. unfold map_capacity_of. by rewrite Z.quot_div_nonneg by lia. Qed.

Lemma map_capacity_of_mono a b : 0 <= a <= b -> map_capacity_of a <= map_capacity_of b.
Proof. intros. rewrite !map_capacity_of_div by lia. Z.div_mod_to_equations. lia. Qed.

Lemma map_capacity_of_bounds n : 8 <= n -> 0 < map_capacity_of n < n.
Proof. intros. rewrite map_capacity_of_div by lia. Z.div_mod_to_equations. lia. Qed.

Lemma int64_half : INT64_MAX `quot` 2 = 2 ^ 62 - 1.
Proof. reflexivity. Qed.

Lemma map_slots_loop_spec fuel k min_capacity :
  3 <= k <= 62 -> 62 - k < Z.of_nat fuel ->
  exists r, map_slots_loop fuel (2 ^ k) min_capacity = Some r /\
    match r with
    | None => map_capacity_of (2 ^ 62) < min_capacity
    | Some n => exists j, k <= j <= 62 /\ n = 2 ^ j /\ min_capacity <= map_capacity_of n /\
                (forall i, k <= i < j -> map_capacity_of (2 ^ i) < min_capacity)
    end.
Proof.
  revert k. induction fuel as [|fuel IH]; intros k Hk Hf; [lia|].
  cbn [map_slots_loop].
  destruct (Z.ltb_spec (map_capacity_of (2 ^ k)) min_capacity) as [Hlt|Hge].
  - rewrite int64_half. destruct (Z.ltb_spec (2 ^ 62 - 1) (2 ^ k)) as [Hbig|Hsmall].
    + exists None. split; [done|]. assert (k = 62) as ->; [|done].
      destruct (decide (k = 62)); [done|].
      pose proof (Z.pow_lt_mono_r 2 k 62 ltac:(lia) ltac:(lia) ltac:(lia)). lia.
    + assert (k < 62).
      { destruct (decide (k = 62)) as [->|]; lia. }
      replace (2 ^ k * 2) with (2 ^ (k + 1)) by (rewrite Z.pow_add_r by lia; lia).
      destruct (IH (k + 1) ltac:(lia) ltac:(lia)) as (r & Hr & Hspec).
      exists r. split; [done|]. destruct r as [n|]; [|done].
      destruct Hspec as (j & Hj & -> & Hle & Hmin).
      exists j. split_and!; [lia..|done|done|]. intros i Hi.
      destruct (decide (i = k)) as [->|]; [done|]. apply Hmin. lia.
  - exists (Some (2 ^ k)). split; [done|]. exists k. split_and!; [lia..|done|done|]. lia.
Qed.

Lemma map_slots_for_spec min_capacity :
  exists r, map_slots_for min_capacity = Some r /\
    match r with
    | None => map_capacity_of (2 ^ 62) < min_capacity
    | Some n => exists j, 3 <= j <= 62 /\ n = 2 ^ j /\ min_capacity <= map_capacity_of n /\
                (forall i, 3 <= i < j -> map_capacity_of (2 ^ i) < min_capacity)
    end.
Proof. apply (map_slots_loop_spec 64 3 min_capacity); lia. Qed.

#[export] Hint Resolve sane_align_pos sane_align_u64 : rt.
