(* ===== verification/Interfaces.v ===== *)
(** What the runtime's components promise to one another, as type classes:
    the allocator entry points of [runtime/alloc.c] that containers and strings
    call, over an environment that also holds whatever user code changes. *)
From S2P Require Import Prelude.

(** An allocator handle is the address of its record; 0 is the nil handle. *)
Abbreviation handle := Z (only parsing).

(** [loke_rt_v1_alloc], [loke_rt_v1_alloc_zeroed], [loke_rt_v1_resize],
    [loke_rt_v1_free], [loke_rt_v1_alloc_failed] and
    [loke_rt_v1_selected_allocator]. An address 0 is the failure answer;
    [alloc_failed] applies the allocator's policy and does not return. *)
Class AllocApi (E : Type) := {
  api_alloc : handle -> Z -> Z -> M E Z;
  api_alloc_zeroed : handle -> Z -> Z -> M E Z;
  api_resize : handle -> Z -> Z -> Z -> Z -> M E Z;
  api_free : handle -> Z -> Z -> Z -> M E unit;
  api_alloc_failed : handle -> M E Empty_set;
  api_selected : E -> handle;
}.

(** * The allocator record *)

(** Which operation table a record points at: the system heap's, an arena's,
    the empty region's, or a program's own. *)
Inductive provider_ops :=
| system_ops
| arena_ops
| empty_ops
| program_ops (table : Z).

#[export] Instance provider_ops_eq_dec : EqDecision provider_ops.
Proof. solve_decision. Defined.

(** [loke_rt_allocator_v1]; [r_ops] is [None] where the pointer is null. *)
Record allocator_record := AllocatorRecord {
  abi_version : Z;
  record_size : Z;
  r_state : Z;
  region : Z;
  r_ops : option provider_ops;
  on_failure : Z;
}.

Definition LOKE_RT_ABI_VERSION : Z := 1.
Definition LOKE_RT_ON_FAILURE_PANIC : Z := 0.
Definition LOKE_RT_ON_FAILURE_TRAP : Z := 1.
Definition sizeof_allocator_record : Z := 40.

(** Foreign code (a provider, a hook, a comparator) returns or ends the
    program; it is not undefined behaviour and it terminates. *)
Definition well_behaved {E A} (m : M E A) : Prop :=
  forall e, wp m (fun _ _ => True) (fun _ _ => True) e.

Class AllocTotal (E : Type) {api : AllocApi E} : Prop := {
  alloc_total a size align : well_behaved (api_alloc a size align);
  alloc_zeroed_total a size align : well_behaved (api_alloc_zeroed a size align);
  resize_total a p old new align : well_behaved (api_resize a p old new align);
  free_total a p size align : well_behaved (api_free a p size align);
  alloc_failed_total a : well_behaved (api_alloc_failed a);
  (** The selected provider is a handle: publication refuses the nil one. *)
  selected_not_nil e : api_selected e <> 0;
}.

(** Two byte ranges [p, p + n) that do not meet. *)
Definition apart (p n q m : Z) : Prop := p + n <= q \/ q + m <= p.

(** The blocks a provider answers are its own: aligned, inside the address
    space, and apart from every block that may still be in use. [live e p n]
    is that the [n] bytes at [p] may be. *)
Class AllocFresh (E : Type) {api : AllocApi E} := {
  live : E -> Z -> Z -> Prop;
  alloc_fresh a size align e p e' : 0 < size -> 0 < align -> api_alloc a size align e = Ok p e' ->
    (forall q n, live e q n -> live e' q n) /\
    (p <> 0 -> live e' p size /\ (align | p) /\ 0 < p /\ p + size <= UINT64_MAX /\
       forall q n, live e q n -> apart p size q n);
  free_keeps a p size align e e' q n : api_free a p size align e = Ok tt e' ->
    live e q n -> q <> p -> live e' q n;
}.
