(* ===== verification/MapTable.v ===== *)
(** The open-addressing table behind [map\[K\]V] ([runtime/container.c], "map"
    and "map operations"): its header, its slots, its block layout, and every
    operation, as the C code writes them. *)
From S2P Require Import Prelude Checked Interfaces.

(** * Control bytes *)

Definition MAP_EMPTY : Z := 0.
Definition MAP_TOMBSTONE : Z := 1.
Definition MAP_OCCUPIED : Z := 2.
Definition MAP_VALUE_OWED : Z := 3.

(** * The header of one map allocation ([loke_rt_map_table_v1]) *)

Record map_header := MapHeader {
  slot_count : Z;
  occupied : Z;
  tombstones : Z;
  seed : Z;
  controls_offset : Z;
  keys_offset : Z;
  values_offset : Z;
  block_size : Z;
  block_align : Z;
}.

Definition sizeof_map_header : Z := 72.

Definition set_seed (s : Z) (h : map_header) : map_header :=
  MapHeader (slot_count h) (occupied h) (tombstones h) s (controls_offset h)
    (keys_offset h) (values_offset h) (block_size h) (block_align h).
(** [occupied += d_occ] and [tombstones += d_tomb]. *)
Definition add_counts (d_occ d_tomb : Z) (h : map_header) : map_header :=
  MapHeader (slot_count h) (occupied h + d_occ) (tombstones h + d_tomb) (seed h)
    (controls_offset h) (keys_offset h) (values_offset h) (block_size h) (block_align h).
Definition zero_counts (h : map_header) : map_header :=
  MapHeader (slot_count h) 0 0 (seed h) (controls_offset h)
    (keys_offset h) (values_offset h) (block_size h) (block_align h).

(** * Block layout *)

(** The sizes and alignments of the operation table, which the layout reads. *)
Record cell_layout := CellLayout {
  elem_size : Z;
  elem_align : Z;
  key_size : Z;
  key_align : Z;
}.

(** [checked_bytes(slots, size, &bytes) || bytes > UINT64_MAX - cursor], then
    [cursor += bytes]. *)
Definition place_array (cursor slots size : Z) : option Z :=
  match checked_bytes slots size with
  | Some bytes => if UINT64_MAX - cursor <? bytes then None else Some (cursor + bytes)
  | None => None
  end.

Definition map_block_align (l : cell_layout) : Z :=
  let align := sane_container_align (key_align l) in
  let align :=
    if align <? sane_container_align (elem_align l)
    then sane_container_align (elem_align l) else align in
  if align <? 8 then 8 else align.

Definition map_block_shape (l : cell_layout) (slots : Z) : option map_header :=
  let align := map_block_align l in
  controls ← checked_round_up sizeof_map_header 8;
  cursor ← place_array controls slots 1;
  keys ← checked_round_up cursor (key_align l);
  cursor ← place_array keys slots (key_size l);
  vals ← checked_round_up cursor (elem_align l);
  cursor ← place_array vals slots (elem_size l);
  size ← checked_round_up cursor align;
  Some (MapHeader slots 0 0 0 controls keys vals size align).

(** * Hashing *)

Definition FNV_PRIME : Z := 1099511628211.

(** [loke_rt_v1_hash_bytes]: FNV-1a over the bytes, then over the length. *)
Definition hash_step (h b : Z) : Z := wrap64 (Z.lxor h b * FNV_PRIME).
Definition hash_bytes (data : list Z) (seed : Z) : Z :=
  hash_step (fold_left hash_step data seed) (zlen data).

Definition SEED_STEP : Z := 0x9e3779b97f4a7c15.

(** [map_next_seed]: the mix of the counter it took and the block's address.
    The counter is the function's static variable. *)
Definition seed_mix (x : Z) : Z :=
  let x := Z.lxor x (Z.shiftr x 30) in
  let x := wrap64 (x * 0xbf58476d1ce4e5b9) in
  let x := Z.lxor x (Z.shiftr x 27) in
  let x := wrap64 (x * 0x94d049bb133111eb) in
  Z.lxor x (Z.shiftr x 31).
Definition map_next_seed (counter block : Z) : Z * Z :=
  (seed_mix (wrap64 (counter + block)), wrap64 (counter + SEED_STEP)).

(** * State *)

Section MapTable.
(** [K] and [V] are the representations of one key and one value cell,
    [E] everything outside the map: the providers and what hooks change. *)
Context {K V E : Type}.

(** [loke_rt_container_ops_v1]. A hook is [None] where the C pointer is NULL;
    a clone answers [None] where the thunk answers 0. *)
Record container_ops := ContainerOps {
  layout : cell_layout;
  elem_drop : option (V -> M E unit);
  elem_clone : option (V -> handle -> M E (option V));
  key_drop : option (K -> M E unit);
  key_clone : option (K -> handle -> M E (option K));
  key_hash : K -> Z -> Z;
  key_equal : K -> K -> bool;
  (** The all-zero-bytes cells of [alloc_zeroed] and [memset]. *)
  zero_key : K;
  zero_value : V;
}.

(** Slot [i] is [controls\[i\]], [keys\[i\]] and [values\[i\]]. *)
Record slot := Slot { s_control : Z; s_key : K; s_value : V }.

(** A table block: its address, its header and its three arrays. *)
Record table := Table { t_addr : Z; t_hdr : map_header; t_slots : list slot }.

(** [loke_rt_map_v1]. *)
Record rt_map := RtMap {
  m_table : option table;
  m_len : Z;
  m_cap : Z;
  m_allocator : handle;
}.

(** The provider and hook calls a container makes, in order; an allocation and
    a clone with what they answered. *)
Inductive event :=
| EvAlloc (a : handle) (size align p : Z)
| EvFree (a : handle) (p size align : Z)
| EvDropKey (k : K)
| EvDropValue (v : V)
| EvCloneKey (k : K) (r : option K)
| EvCloneValue (v : V) (r : option V).

Record mstate := MState {
  self : rt_map;
  counter : Z;
  trace : list event;
  env : E;
}.

Definition zero_map : rt_map := RtMap None 0 0 0.

Definition with_self (f : rt_map -> rt_map) (s : mstate) : mstate :=
  MState (f (self s)) (counter s) (trace s) (env s).
Definition log (e : event) (s : mstate) : mstate :=
  MState (self s) (counter s) (trace s ++ [e]) (env s).
Definition set_map (m : rt_map) : M mstate unit := modify (with_self (fun _ => m)).
Definition set_table (t : table) (m : rt_map) : rt_map :=
  RtMap (Some t) (m_len m) (m_cap m) (m_allocator m).
Definition add_len (d : Z) (m : rt_map) : rt_map :=
  RtMap (m_table m) (m_len m + d) (m_cap m) (m_allocator m).

(** Runs code of the environment. *)
Definition outside {A} (m : M E A) : M mstate A := fun s =>
  match m (env s) with
  | Ok a e => Ok a (MState (self s) (counter s) (trace s) e)
  | Stop h e => Stop h (MState (self s) (counter s) (trace s) e)
  | Undefined => Undefined
  | NoFuel => NoFuel
  end.

Context {api : AllocApi E} (ops : container_ops).

Definition new_block (zeroed : bool) (a : handle) (size align : Z) : M mstate Z :=
  let! p := outside (if zeroed then api_alloc_zeroed a size align else api_alloc a size align) in
  modify (log (EvAlloc a size align p)) ;;; ret p.
Definition free_block (a : handle) (p size align : Z) : M mstate unit :=
  modify (log (EvFree a p size align)) ;;; outside (api_free a p size align).
Definition drop_key (k : K) : M mstate unit :=
  match key_drop ops with
  | Some hook => modify (log (EvDropKey k)) ;;; outside (hook k)
  | None => ret tt
  end.
Definition drop_value (v : V) : M mstate unit :=
  match elem_drop ops with
  | Some hook => modify (log (EvDropValue v)) ;;; outside (hook v)
  | None => ret tt
  end.

(** A clone hook called on [c]. *)
Definition call_clone {C} (note : C -> option C -> event) (hook : C -> handle -> M E (option C))
    (c : C) (a : handle) : M mstate (option C) :=
  let! r := outside (hook c a) in modify (log (note c r)) ;;; ret r.

(** * Slots *)

Definition mask_of (t : table) : Z := wrap64 (slot_count (t_hdr t)) - 1.
Definition slot_at {S} (t : table) (i : Z) : M S slot := need (at_index (t_slots t) i).
Definition set_slot {S} (t : table) (i : Z) (x : slot) : M S table :=
  let! slots := need (set_index (t_slots t) i x) in
  ret (Table (t_addr t) (t_hdr t) slots).
Definition with_hdr (f : map_header -> map_header) (t : table) : table :=
  Table (t_addr t) (f (t_hdr t)) (t_slots t).

Definition map_free_block (a : handle) (t : table) : M mstate unit :=
  free_block a (t_addr t) (block_size (t_hdr t)) (block_align (t_hdr t)).

(** The loop of [map_probe]: at most [slot_count] probes. *)
Fixpoint map_probe_loop {S} (probes : nat) (t : table) (key : K) (mask index : Z) : M S Z :=
  match probes with
  | O => ret (-1)
  | Datatypes.S probes =>
      let! x := slot_at t index in
      if s_control x =? MAP_EMPTY then ret (-1)
      else if (s_control x =? MAP_OCCUPIED) && key_equal ops (s_key x) key then ret index
      else map_probe_loop probes t key mask (Z.land (index + 1) mask)
  end.

Definition map_probe {S} (t : table) (key : K) : M S Z :=
  map_probe_loop (Z.to_nat (slot_count (t_hdr t))) t key (mask_of t)
    (Z.land (key_hash ops key (seed (t_hdr t))) (mask_of t)).

(** The loop of [map_place_moved]. *)
Fixpoint map_place_loop {S} (fuel : nat) (dst : table) (key : K) (value : V)
    (mask index : Z) : M S table :=
  match fuel with
  | O => no_fuel
  | Datatypes.S fuel =>
      let! x := slot_at dst index in
      if negb (s_control x =? MAP_OCCUPIED) then
        let! dst := set_slot dst index (Slot MAP_OCCUPIED key value) in
        ret (with_hdr (add_counts 1 0) dst)
      else map_place_loop fuel dst key value mask (Z.land (index + 1) mask)
  end.

Definition map_place_moved {S} (dst : table) (key : K) (value : V) : M S table :=
  map_place_loop (Z.to_nat (slot_count (t_hdr dst))) dst key value (mask_of dst)
    (Z.land (key_hash ops key (seed (t_hdr dst))) (mask_of dst)).

(** The rehash loop: every occupied slot of [old], in slot order. *)
Fixpoint move_slots {S} (slots : list slot) (fresh : table) : M S table :=
  match slots with
  | [] => ret fresh
  | x :: slots =>
      if s_control x =? MAP_OCCUPIED then
        let! fresh := map_place_moved fresh (s_key x) (s_value x) in
        move_slots slots fresh
      else move_slots slots fresh
  end.

(** [alloc_zeroed], [*fresh = shape], [fresh->seed = map_next_seed(fresh)]:
    [None] where the provider refused. *)
Definition open_table (a : handle) (shape : map_header) : M mstate (option table) :=
  let! p := new_block true a (block_size shape) (block_align shape) in
  if p =? 0 then ret None
  else
    let! s := get in
    let '(sd, c) := map_next_seed (counter s) p in
    put (MState (self s) c (trace s) (env s)) ;;;
    ret (Some (Table p (set_seed sd shape)
      (replicate (Z.to_nat (slot_count shape)) (Slot MAP_EMPTY (zero_key ops) (zero_value ops))))).

(** [map_slots_for] within an operation. *)
Definition slots_for (min_capacity : Z) : M mstate (option Z) :=
  match map_slots_for min_capacity with Some r => ret r | None => no_fuel end.

(** * Operations *)

Definition bound_allocator (s : mstate) : handle :=
  if m_allocator (self s) =? 0 then api_selected (env s) else m_allocator (self s).

Definition map_bind : M mstate unit :=
  modify (fun s => with_self (fun m =>
    RtMap (m_table m) (m_len m) (m_cap m) (bound_allocator s)) s).

Definition opt_slots {S} (old : option table) (fresh : table) : M S table :=
  match old with Some t => move_slots (t_slots t) fresh | None => ret fresh end.

Definition free_old (a : handle) (old : option table) : M mstate unit :=
  match old with Some t => map_free_block a t | None => ret tt end.

Definition is_table (o : option table) : bool := match o with Some _ => true | None => false end.

Definition map_reserve (min_capacity : Z) : M mstate bool :=
  if min_capacity <? 0 then panic "a container capacity cannot be negative"
  else
    map_bind ;;;
    let! m := gets self in
    let old := m_table m in
    if (min_capacity <=? m_cap m) && (is_table old || (min_capacity =? 0)) then ret true
    else
      let want := if min_capacity <? m_len m then m_len m else min_capacity in
      let! r := slots_for want in
      match r with
      | None => ret false
      | Some slots =>
          match map_block_shape (layout ops) slots with
          | None => ret false
          | Some shape =>
              let! f := open_table (m_allocator m) shape in
              match f with
              | None => ret false
              | Some fresh =>
                  let! fresh := opt_slots old fresh in
                  free_old (m_allocator m) old ;;;
                  set_map (RtMap (Some fresh) (m_len m) (map_capacity_of slots) (m_allocator m)) ;;;
                  ret true
              end
          end
      end.

(** [map_drop_entry]: the slot is out of the table before its hooks run. *)
Definition map_drop_entry (i : Z) : M mstate unit :=
  let! m := gets self in
  let! t := need (m_table m) in
  let! x := slot_at t i in
  (if s_control x =? MAP_OCCUPIED then
     let! t := set_slot t i (Slot MAP_VALUE_OWED (s_key x) (s_value x)) in
     modify (with_self (fun m => add_len (-1) (set_table (with_hdr (add_counts (-1) 1) t) m))) ;;;
     drop_key (s_key x)
   else ret tt) ;;;
  let! m := gets self in
  let! t := need (m_table m) in
  let! x := slot_at t i in
  if s_control x =? MAP_VALUE_OWED then
    let! t := set_slot t i (Slot MAP_TOMBSTONE (s_key x) (s_value x)) in
    modify (with_self (set_table t)) ;;;
    drop_value (s_value x)
  else ret tt.

(** [for (slot = at; slot < slot_count; slot += 1) map_drop_entry(...)]. *)
Fixpoint drop_entries (n : nat) (i : Z) : M mstate unit :=
  match n with
  | O => ret tt
  | Datatypes.S n => map_drop_entry i ;;; drop_entries n (i + 1)
  end.

Definition has_hook {A} (h : option A) : bool := match h with Some _ => true | None => false end.

Definition map_drop : M mstate unit :=
  let! m := gets self in
  match m_table m with
  | None => set_map zero_map
  | Some t =>
      (if has_hook (key_drop ops) || has_hook (elem_drop ops)
       then drop_entries (Z.to_nat (slot_count (t_hdr t))) 0 else ret tt) ;;;
      let! m := gets self in
      let! t := need (m_table m) in
      map_free_block (m_allocator m) t ;;;
      set_map zero_map
  end.

(** [loke_rt_v1_map_find]: the slot of the value whose address it answers. *)
Definition map_find (key : K) : M mstate (option Z) :=
  let! m := gets self in
  match m_table m with
  | None => ret None
  | Some t =>
      if m_len m =? 0 then ret None
      else
        let! i := map_probe t key in
        ret (if i <? 0 then None else Some i)
  end.

(** [while (slots / 2 <= self->len)]: 64 rounds pass every [int64_t]. *)
Fixpoint entry_slots_loop (fuel : nat) (slots len : Z) : option (option Z) :=
  match fuel with
  | O => None
  | Datatypes.S fuel =>
      if slots `quot` 2 <=? len then
        if INT64_MAX `quot` 2 <? slots then Some None
        else entry_slots_loop fuel (slots * 2) len
      else Some (Some slots)
  end.

(** How many slots an insertion that has to rebuild asks for. *)
Definition entry_slots (old : option table) (len : Z) : M mstate (option Z) :=
  let! r := slots_for (len + 1) in
  match r with
  | None => ret None
  | Some slots =>
      let slots :=
        match old with
        | Some t => if slots <? slot_count (t_hdr t) then slot_count (t_hdr t) else slots
        | None => slots
        end in
      match entry_slots_loop 64 slots len with Some r => ret r | None => no_fuel end
  end.

Definition entry_must_grow (m : rt_map) : bool :=
  match m_table m with
  | None => true
  | Some t =>
      let h := t_hdr t in
      (m_cap m <? m_len m + 1)
      || (slot_count h - slot_count h `quot` 8 <? occupied h + tombstones h + 1)
  end.

(** The search for the slot of a new entry: [(index, first_free)]. *)
Fixpoint map_insert_loop {S} (fuel : nat) (t : table) (mask index first_free : Z) : M S (Z * Z) :=
  match fuel with
  | O => no_fuel
  | Datatypes.S fuel =>
      let! x := slot_at t index in
      if s_control x =? MAP_OCCUPIED then
        map_insert_loop fuel t mask (Z.land (index + 1) mask) first_free
      else if (s_control x =? MAP_TOMBSTONE) && (first_free <? 0) then
        map_insert_loop fuel t mask (Z.land (index + 1) mask) index
      else ret (index, first_free)
  end.

(** The stored key: a clone of the caller's, or its copy; [None] is a clone
    that failed. *)
Definition store_key (key : K) (a : handle) : M mstate (option K) :=
  match key_clone ops with
  | Some clone => call_clone EvCloneKey clone key a
  | None => ret (Some key)
  end.

(** The table an insertion writes to, and whether it replaces the map's:
    [None] where the rebuild failed. *)
Definition entry_table (a : handle) : M mstate (option (table * bool)) :=
  let! m := gets self in
  if entry_must_grow m then
    let! r := entry_slots (m_table m) (m_len m) in
    match r with
    | None => ret None
    | Some slots =>
        match map_block_shape (layout ops) slots with
        | None => ret None
        | Some shape =>
            let! f := open_table a shape in
            match f with
            | None => ret None
            | Some fresh =>
                let! fresh := opt_slots (m_table m) fresh in
                ret (Some (fresh, true))
            end
        end
    end
  else
    let! t := need (m_table m) in
    ret (Some (t, false)).

(** From the free-slot search to the publication of the new entry. *)
Definition entry_insert (key : K) (a : handle) (t : table) (replacing : bool)
    : M mstate (option Z * bool) :=
  let! m := gets self in
  let mask := mask_of t in
  let! (index, first_free) :=
    map_insert_loop (2 * Z.to_nat (slot_count (t_hdr t))) t mask
      (Z.land (key_hash ops key (seed (t_hdr t))) mask) (-1) in
  let index := if 0 <=? first_free then first_free else index in
  let! k := store_key key a in
  match k with
  | None =>
      (if replacing then map_free_block a t else ret tt) ;;;
      ret (None, false)
  | Some k =>
      let! t := set_slot t index (Slot MAP_OCCUPIED k (zero_value ops)) in
      let t := with_hdr (add_counts 1 (if 0 <=? first_free then -1 else 0)) t in
      (if replacing then free_old a (m_table m) else ret tt) ;;;
      set_map (RtMap (Some t) (m_len m + 1)
        (if replacing then map_capacity_of (slot_count (t_hdr t)) else m_cap m) a) ;;;
      ret (Some index, true)
  end.

(** [loke_rt_v1_map_entry]: the slot of the value, and [*inserted]. *)
Definition map_entry (key : K) : M mstate (option Z * bool) :=
  let! a := gets bound_allocator in
  let! m := gets self in
  let! slot :=
    match m_table m with
    | Some t => map_probe t key
    | None => ret (-1)
    end in
  if 0 <=? slot then ret (Some slot, false)
  else
    let! r := entry_table a in
    match r with
    | None => ret (None, false)
    | Some (t, replacing) => entry_insert key a t replacing
    end.

(** [loke_rt_v1_map_remove]: the value moved to [out], [None] for answer 0. *)
Definition map_remove (key : K) : M mstate (option V) :=
  let! m := gets self in
  match m_table m with
  | None => ret None
  | Some t =>
      if m_len m =? 0 then ret None
      else
        let! i := map_probe t key in
        if i <? 0 then ret None
        else
          let! x := slot_at t i in
          let! t := set_slot t i (Slot MAP_VALUE_OWED (s_key x) (s_value x)) in
          modify (with_self (fun m =>
            add_len (-1) (set_table (with_hdr (add_counts (-1) 1) t) m))) ;;;
          drop_key (s_key x) ;;;
          let! m := gets self in
          let! t := need (m_table m) in
          let! x := slot_at t i in
          let! t := set_slot t i (Slot MAP_TOMBSTONE (s_key x) (s_value x)) in
          modify (with_self (set_table t)) ;;;
          ret (Some (s_value x))
  end.

Definition empty_slot (x : slot) : slot := Slot MAP_EMPTY (s_key x) (s_value x).

Definition map_clear : M mstate unit :=
  let! m := gets self in
  match m_table m with
  | None => ret tt
  | Some t =>
      drop_entries (Z.to_nat (slot_count (t_hdr t))) 0 ;;;
      let! m := gets self in
      let! t := need (m_table m) in
      set_map (RtMap (Some (Table (t_addr t) (zero_counts (t_hdr t)) (empty_slot <$> t_slots t)))
        0 (m_cap m) (m_allocator m))
  end.

Definition map_shrink (min_capacity : Z) : M mstate bool :=
  let! m := gets self in
  let want := if m_len m <? min_capacity then min_capacity else m_len m in
  if min_capacity <? 0 then panic "a container capacity cannot be negative"
  else
    match m_table m with
    | None => ret true
    | Some old =>
        let! r := slots_for want in
        match r with
        | None => ret false
        | Some slots =>
            let slots := if slot_count (t_hdr old) <? slots then slot_count (t_hdr old) else slots in
            if (slots =? slot_count (t_hdr old)) && (tombstones (t_hdr old) =? 0) then ret true
            else
              match map_block_shape (layout ops) slots with
              | None => ret false
              | Some shape =>
                  let! f := open_table (m_allocator m) shape in
                  match f with
                  | None => ret false
                  | Some fresh =>
                      let! fresh := move_slots (t_slots old) fresh in
                      map_free_block (m_allocator m) old ;;;
                      set_map (RtMap (Some fresh) (m_len m) (map_capacity_of slots) (m_allocator m)) ;;;
                      ret true
                  end
              end
        end
    end.

(** [loke_rt_v1_map_scan]: the occupied slot at or after the cursor and the
    cursor to resume from; [None] when the walk is finished. *)
Fixpoint map_scan_loop {S} (n : nat) (t : table) (i : Z) : M S (option (slot * Z)) :=
  match n with
  | O => ret None
  | Datatypes.S n =>
      let! x := slot_at t i in
      if negb (s_control x =? MAP_OCCUPIED) then map_scan_loop n t (i + 1)
      else ret (Some (x, i + 1))
  end.

Definition map_scan {S} (t : option table) (cursor : Z) : M S (option (slot * Z)) :=
  match t with
  | None => ret None
  | Some t =>
      if cursor <? 0 then ret None
      else map_scan_loop (Z.to_nat (slot_count (t_hdr t) - cursor)) t cursor
  end.

(** * Cloning *)

(** The clone loop from slot [i] on: the table so far and the slot it
    stopped at, the slot count when it went through. *)
Fixpoint clone_slots (n : nat) (source fresh : table) (i : Z) (a : handle)
    : M mstate (table * Z) :=
  match n with
  | O => ret (fresh, i)
  | Datatypes.S n =>
      let! x := slot_at fresh i in
      if negb (s_control x =? MAP_OCCUPIED) then
        if s_control x =? MAP_VALUE_OWED then
          let! fresh := set_slot fresh i (Slot MAP_TOMBSTONE (s_key x) (s_value x)) in
          clone_slots n source fresh (i + 1) a
        else clone_slots n source fresh (i + 1) a
      else
        let! y := slot_at source i in
        let! k :=
          match key_clone ops with
          | Some clone => call_clone EvCloneKey clone (s_key y) a
          | None => ret (Some (s_key x))
          end in
        match k with
        | None => ret (fresh, i)
        | Some k =>
            let! fresh := set_slot fresh i (Slot MAP_OCCUPIED k (s_value x)) in
            let! v :=
              match elem_clone ops with
              | Some clone => call_clone EvCloneValue clone (s_value y) a
              | None => ret (Some (s_value x))
              end in
            match v with
            | None => drop_key k ;;; ret (fresh, i)
            | Some v =>
                let! fresh := set_slot fresh i (Slot MAP_OCCUPIED k v) in
                clone_slots n source fresh (i + 1) a
            end
        end
  end.

(** A failed clone destroys the prefix it built. *)
Fixpoint drop_prefix (n : nat) (fresh : table) (done : Z) : M mstate unit :=
  match n with
  | O => ret tt
  | Datatypes.S n =>
      let! x := slot_at fresh done in
      (if s_control x =? MAP_OCCUPIED then drop_key (s_key x) ;;; drop_value (s_value x)
       else ret tt) ;;;
      drop_prefix n fresh (done + 1)
  end.

(** [loke_rt_v1_map_clone]: the answer and [*out]. *)
Definition map_clone (src : rt_map) (a : handle) : M mstate (bool * rt_map) :=
  let out := RtMap None 0 0 a in
  match m_table src with
  | None => ret (true, out)
  | Some source =>
      if m_len src =? 0 then ret (true, out)
      else
        let h := t_hdr source in
        let! p := new_block false a (block_size h) (block_align h) in
        if p =? 0 then ret (false, out)
        else
          let! (fresh, slot) :=
            clone_slots (Z.to_nat (slot_count h)) source (Table p h (t_slots source)) 0 a in
          if slot <? slot_count (t_hdr fresh) then
            drop_prefix (Z.to_nat slot) fresh 0 ;;;
            map_free_block a fresh ;;;
            ret (false, out)
          else ret (true, RtMap (Some fresh) (m_len src) (m_cap src) a)
  end.
End MapTable.
