(* ===== verification/MapLayout.v ===== *)
(** The one block behind a map: header, control bytes, keys, values. Every
    array is aligned, inside the block, and apart from the others. *)
From S2P Require Import Prelude Checked Interfaces MapTable.

(** * Definitions *)

Record layout_ok (l : cell_layout) : Prop := {
  elem_size_u64 : is_u64 (elem_size l);
  elem_align_u64 : is_u64 (elem_align l);
  key_size_u64 : is_u64 (key_size l);
  key_align_u64 : is_u64 (key_align l);
}.

(** The first and one-past-last byte of a slot's control, key and value, as
    offsets into the block: [map_controls], [map_key_at], [map_value_at]. *)
Definition control_range (h : map_header) (i : Z) : Z * Z :=
  (controls_offset h + i, controls_offset h + i + 1).
Definition key_range (l : cell_layout) (h : map_header) (i : Z) : Z * Z :=
  (keys_offset h + i * key_size l, keys_offset h + i * key_size l + key_size l).
Definition value_range (l : cell_layout) (h : map_header) (i : Z) : Z * Z :=
  (values_offset h + i * elem_size l, values_offset h + i * elem_size l + elem_size l).

Definition before (r1 r2 : Z * Z) : Prop := r1.2 <= r2.1.
Definition within (r : Z * Z) (lo hi : Z) : Prop := lo <= r.1 <= r.2 /\ r.2 <= hi.

(** * Arrays *)

Lemma place_array_Some cursor slots size c :
  is_u64 cursor -> is_i64 slots -> is_u64 size ->
  place_array cursor slots size = Some c ->
  0 <= slots /\ c = cursor + slots * size /\ is_u64 c.
Proof.
  intros Hc Hs Hz. unfold place_array. destruct (checked_bytes slots size) as [b|] eqn:Hb; [|done].
  apply checked_bytes_Some in Hb as (? & -> & ?); [|done..].
  destruct (Z.ltb_spec (UINT64_MAX - cursor) (slots * size)); intros; simplify_eq.
  split; [done|]. split; [done|]. unfold is_u64 in *. nia.
Qed.

Lemma map_block_align_spec l :
  layout_ok l ->
  is_u64 (map_block_align l) /\ 8 <= map_block_align l /\
  sane_container_align (key_align l) <= map_block_align l /\
  sane_container_align (elem_align l) <= map_block_align l.
Proof.
  intros [_ He _ Hk]. pose proof (sane_align_u64 _ He). pose proof (sane_align_u64 _ Hk).
  unfold map_block_align. repeat case_match; ilia.
Qed.

(** What a described block looks like. *)
Record block_layout (l : cell_layout) (slots : Z) (h : map_header) : Prop := {
  bl_counts : slot_count h = slots /\ occupied h = 0 /\ tombstones h = 0;
  bl_align : block_align h = map_block_align l;
  bl_controls : controls_offset h = sizeof_map_header;
  bl_keys : controls_offset h + slots <= keys_offset h;
  bl_keys_aligned : (sane_container_align (key_align l) | keys_offset h);
  bl_values : keys_offset h + slots * key_size l <= values_offset h;
  bl_values_aligned : (sane_container_align (elem_align l) | values_offset h);
  bl_end : values_offset h + slots * elem_size l <= block_size h;
  bl_size_aligned : (block_align h | block_size h);
  bl_size : is_u64 (block_size h);
}.

Lemma map_block_shape_Some l slots h :
  layout_ok l -> is_i64 slots -> map_block_shape l slots = Some h ->
  0 <= slots /\ block_layout l slots h.
Proof.
  intros Hl Hs. pose proof Hl as [He Hea Hk Hka]. unfold map_block_shape.
  intros (c0 & Hc0 & H)%bind_Some. assert (c0 = 72) as -> by (by vm_compute in Hc0; simplify_eq).
  apply bind_Some in H as (c1 & Hc1 & H). apply place_array_Some in Hc1 as (? & -> & ?); [|ilia..|done].
  apply bind_Some in H as (ks & Hks & H). apply checked_round_up_Some in Hks as (? & ? & ?); [|done..].
  apply bind_Some in H as (c2 & Hc2 & H). apply place_array_Some in Hc2 as (_ & -> & ?); [|done..].
  apply bind_Some in H as (vs & Hvs & H). apply checked_round_up_Some in Hvs as (? & ? & ?); [|done..].
  apply bind_Some in H as (c3 & Hc3 & H). apply place_array_Some in Hc3 as (_ & -> & ?); [|done..].
  apply bind_Some in H as (sz & Hsz & H).
  destruct (map_block_align_spec l Hl) as (Hau & Ha8 & _).
  assert (sane_container_align (map_block_align l) = map_block_align l) as Hsane.
  { unfold sane_container_align. destruct (Z.eqb_spec (map_block_align l) 0); lia. }
  apply checked_round_up_Some in Hsz as (? & ? & ?); [|done..]. rewrite Hsane in *.
  simplify_eq. split; [done|]. split; cbn; try done; lia.
Qed.

(** * Slots *)

Lemma slot_in_array base slots size i :
  0 <= i < slots -> 0 <= size -> base <= base + i * size /\ base + i * size + size <= base + slots * size.
Proof. nia. Qed.

Lemma slots_apart base size i j : 0 <= size -> i < j -> base + i * size + size <= base + j * size.
Proof. nia. Qed.

(** Powers of two divide the larger of two. *)
Lemma pow2_divide a b : 0 <= a <= b -> (2 ^ a | 2 ^ b).
Proof. intros. exists (2 ^ (b - a)). rewrite <- Z.pow_add_r by lia. f_equal. lia. Qed.

Definition pow2 (a : Z) : Prop := exists k, 0 <= k < 64 /\ a = 2 ^ k.

Lemma pow2_le_divide a b : pow2 a -> pow2 b -> a <= b -> (a | b).
Proof.
  intros (j & Hj & ->) (k & Hk & ->) Hle. apply pow2_divide. split; [lia|].
  destruct (Z.le_gt_cases j k); [done|]. exfalso.
  assert (2 ^ k < 2 ^ j) by (apply Z.pow_lt_mono_r; lia). lia.
Qed.

Lemma map_block_align_pow2 l :
  pow2 (sane_container_align (key_align l)) -> pow2 (sane_container_align (elem_align l)) ->
  pow2 (map_block_align l).
Proof. intros. unfold map_block_align. repeat case_match; first [done | exists 3; lia]. Qed.
