(* ===== verification/MapInvariant.v ===== *)
(** The invariant of the table behind [map\[K\]V], and the probing lemmas it
    gives: a probe finds exactly the live entries, an insertion finds a free
    slot of its key's probe run, and a slot update keeps the invariant. *)
From S2P Require Import Prelude Checked Interfaces MapTable.

(** What the element thunks promise: a key equality that hashes agree with,
    clones that are equal keys, and hooks that return or end the program. *)
Class MapOpsOk {K V E : Type} (ops : container_ops (K:=K) (V:=V) (E:=E)) : Prop := {
  equal_refl k : key_equal ops k k = true;
  equal_sym a b : key_equal ops a b = true -> key_equal ops b a = true;
  equal_trans a b c : key_equal ops a b = true -> key_equal ops b c = true -> key_equal ops a c = true;
  hash_equal a b sd : key_equal ops a b = true -> key_hash ops a sd = key_hash ops b sd;
  key_clone_equal f k a e : key_clone ops = Some f ->
    wp (f k a) (fun r _ => match r with Some k' => key_equal ops k' k = true | None => True end)
      (fun _ _ => True) e;
  elem_clone_total f v a : elem_clone ops = Some f -> well_behaved (f v a);
  key_drop_total f k : key_drop ops = Some f -> well_behaved (f k);
  elem_drop_total f v : elem_drop ops = Some f -> well_behaved (f v);
}.

(** [x land (2^k - 1)] is [x mod 2^k]: what the mask computes. *)
Lemma land_mask x k : 0 <= k -> Z.land x (2 ^ k - 1) = x mod 2 ^ k.
Proof. intros. rewrite <- Z.land_ones by done. by rewrite Z.ones_equiv, <- Z.sub_1_r. Qed.

(** * Slots *)

Section slots.
Context {K V E : Type} {api : AllocApi E} (ops : container_ops (K:=K) (V:=V) (E:=E)).
Implicit Types (xs : list (slot (K:=K) (V:=V))) (x : slot (K:=K) (V:=V)).

Definition is_occupied x : bool := s_control x =? MAP_OCCUPIED.
Definition entry_of x : option (K * V) :=
  if is_occupied x then Some (s_key x, s_value x) else None.
(** The live entries, in slot order. *)
Definition entries xs : list (K * V) := omap entry_of xs.
Definition tombs xs : nat := length (filter (fun x => s_control x = MAP_TOMBSTONE) xs).
Definition empties xs : nat := length (filter (fun x => s_control x = MAP_EMPTY) xs).

(** Outside a hook no slot is owed: three control values. *)
Definition control_ok x : Prop :=
  s_control x = MAP_EMPTY \/ s_control x = MAP_TOMBSTONE \/ s_control x = MAP_OCCUPIED.

(** The slot the [j]-th probe for a key of home [h] looks at. *)
Definition probe_at (n h j : Z) : nat := Z.to_nat ((h + j) mod n).
Definition home (n sd : Z) (k : K) : Z := key_hash ops k sd mod n.
Definition distance (n h : Z) (i : nat) : Z := (Z.of_nat i - h) mod n.

(** Every slot of a probe run before slot [i] is not empty. *)
Definition clear_run (n sd : Z) xs (k : K) (i : nat) : Prop :=
  forall j, 0 <= j < distance n (home n sd k) i ->
    exists y, xs !! probe_at n (home n sd k) j = Some y /\ s_control y <> MAP_EMPTY.

Definition absent xs (k : K) : Prop :=
  forall i x, xs !! i = Some x -> is_occupied x = true -> key_equal ops (s_key x) k = false.

Record slots_wf (n sd : Z) xs : Prop := {
  wf_length : zlen xs = n;
  wf_controls : Forall control_ok xs;
  wf_distinct i j x y : xs !! i = Some x -> xs !! j = Some y ->
    is_occupied x = true -> is_occupied y = true ->
    key_equal ops (s_key x) (s_key y) = true -> i = j;
  wf_reach i x : xs !! i = Some x -> is_occupied x = true -> clear_run n sd xs (s_key x) i;
}.

(** ** Cyclic positions *)

Lemma probe_at_lt n h j : 0 < n -> (probe_at n h j < Z.to_nat n)%nat.
Proof. intros. unfold probe_at. pose proof (Z.mod_pos_bound (h + j) n). lia. Qed.

Lemma probe_at_distance n h i :
  0 < n -> 0 <= h < n -> Z.of_nat i < n -> probe_at n h (distance n h i) = i.
Proof.
  intros. unfold probe_at, distance.
  rewrite Zplus_mod_idemp_r. replace (h + (Z.of_nat i - h)) with (Z.of_nat i) by lia.
  rewrite Z.mod_small by lia. lia.
Qed.

Lemma distance_probe_at n h j :
  0 < n -> 0 <= h < n -> 0 <= j < n -> distance n h (probe_at n h j) = j.
Proof.
  intros. unfold probe_at, distance.
  pose proof (Z.mod_pos_bound (h + j) n ltac:(lia)).
  rewrite Z2Nat.id by lia. rewrite Zminus_mod_idemp_l.
  replace (h + j - h) with j by lia. by apply Z.mod_small.
Qed.

Lemma distance_range n h i : 0 < n -> 0 <= distance n h i < n.
Proof. intros. unfold distance. by apply Z.mod_pos_bound. Qed.

Lemma home_range n sd k : 0 < n -> 0 <= home n sd k < n.
Proof. intros. unfold home. by apply Z.mod_pos_bound. Qed.

Lemma home_equal `{!MapOpsOk ops} n sd a b :
  key_equal ops a b = true -> home n sd a = home n sd b.
Proof. intros. unfold home. by rewrite (hash_equal a b). Qed.

Lemma probe_at_lookup n sd xs h j :
  slots_wf n sd xs -> 0 < n -> exists x, xs !! probe_at n h j = Some x.
Proof.
  intros Hwf Hn. apply lookup_lt_is_Some. pose proof (probe_at_lt n h j Hn).
  pose proof (wf_length _ _ _ Hwf). lia.
Qed.

(** ** Splitting the slots at one index *)

Lemma omap_insert {A B} (f : A -> option B) (l : list A) i (x y : A) :
  l !! i = Some x ->
  omap f (<[i:=y]> l) =
    omap f (take i l) ++ option_list (f y) ++ omap f (drop (S i) l).
Proof.
  intros Hi. rewrite insert_take_drop by (by eapply lookup_lt_Some).
  rewrite omap_app. cbn [omap list_omap]. by destruct (f y).
Qed.

Lemma omap_split {A B} (f : A -> option B) (l : list A) i (x : A) :
  l !! i = Some x ->
  omap f l = omap f (take i l) ++ option_list (f x) ++ omap f (drop (S i) l).
Proof. intros Hi. rewrite <- (omap_insert f l i x x Hi). by rewrite list_insert_id. Qed.

Lemma entry_of_free x : is_occupied x = false -> entry_of x = None.
Proof. intros Hx. unfold entry_of. by rewrite Hx. Qed.

Lemma entry_of_taken x : is_occupied x = true -> entry_of x = Some (s_key x, s_value x).
Proof. intros Hx. unfold entry_of. by rewrite Hx. Qed.

Lemma entries_insert_free xs i x k v :
  xs !! i = Some x -> is_occupied x = false ->
  entries (<[i := Slot MAP_OCCUPIED k v]> xs) ≡ₚ (k, v) :: entries xs.
Proof.
  intros Hi Hx. unfold entries.
  rewrite (omap_insert _ _ _ _ _ Hi), (omap_split _ _ _ _ Hi).
  rewrite (entry_of_free x Hx). cbn. by rewrite <- Permutation_middle.
Qed.

Lemma entries_insert_taken xs i x c :
  xs !! i = Some x -> is_occupied x = true -> c <> MAP_OCCUPIED ->
  entries xs ≡ₚ (s_key x, s_value x) :: entries (<[i := Slot c (s_key x) (s_value x)]> xs).
Proof.
  intros Hi Hx Hc. unfold entries.
  rewrite (omap_insert _ _ _ _ _ Hi), (omap_split _ _ _ _ Hi).
  rewrite (entry_of_taken x Hx), entry_of_free by (by apply Z.eqb_neq).
  cbn. by rewrite <- Permutation_middle.
Qed.

Lemma elem_of_entries xs k v :
  (k, v) ∈ entries xs <-> exists i x, xs !! i = Some x /\ is_occupied x = true /\
    s_key x = k /\ s_value x = v.
Proof.
  unfold entries. rewrite list_elem_of_omap. split.
  - intros (x & Hx & He). apply list_elem_of_lookup in Hx as [i Hi].
    unfold entry_of in He. destruct (is_occupied x) eqn:Ho; simplify_eq. eauto 10.
  - intros (i & x & Hi & Ho & <- & <-). exists x. split; [by eapply list_elem_of_lookup_2|].
    unfold entry_of. by rewrite Ho.
Qed.

Lemma absent_entries xs k :
  absent xs k <-> Forall (fun p => key_equal ops p.1 k = false) (entries xs).
Proof.
  rewrite Forall_forall. split.
  - intros Ha [k' v] (i & x & Hi & Ho & <- & <-)%elem_of_entries. eauto.
  - intros Hf i x Hi Ho. apply (Hf (s_key x, s_value x)), elem_of_entries. eauto 10.
Qed.

(** ** Counting *)

Lemma count_insert (P : slot -> Prop) `{!forall x, Decision (P x)} xs i x y :
  xs !! i = Some x ->
  (length (filter P (<[i:=y]> xs)) + (if decide (P x) then 1 else 0) =
   length (filter P xs) + (if decide (P y) then 1 else 0))%nat.
Proof.
  intros Hi. rewrite insert_take_drop by (by eapply lookup_lt_Some).
  rewrite <- (take_drop_middle xs i x Hi) at 3.
  rewrite !filter_app, !length_app, !filter_cons. repeat case_decide; cbn; lia.
Qed.

Lemma slot_counts xs :
  Forall control_ok xs ->
  (length (entries xs) + tombs xs + empties xs = length xs)%nat.
Proof.
  unfold entries, tombs, empties.
  induction 1 as [|x xs Hx Hxs IH]; [done|].
  rewrite !filter_cons. cbn [omap list_omap]. unfold entry_of, is_occupied in *.
  unfold control_ok, MAP_EMPTY, MAP_TOMBSTONE, MAP_OCCUPIED in *.
  destruct Hx as [Hx|[Hx|Hx]]; rewrite !Hx; repeat case_decide; try done; cbn in *; lia.
Qed.

Lemma empty_exists xs :
  (0 < empties xs)%nat -> exists i x, xs !! i = Some x /\ s_control x = MAP_EMPTY.
Proof.
  unfold empties. destruct (filter _ xs) as [|x l] eqn:He; [cbn; lia|]. intros _.
  assert (x ∈ filter (fun x => s_control x = MAP_EMPTY) xs) as Hx by (rewrite He; left).
  apply list_elem_of_filter in Hx as [Hc Hx]. apply list_elem_of_lookup in Hx as [i Hi]. eauto.
Qed.

(** ** Slot updates keep the invariant *)

Context `{!MapOpsOk ops}.

Lemma absent_equal xs k k' : absent xs k -> key_equal ops k' k = true -> absent xs k'.
Proof.
  intros Ha He i x Hi Ho. destruct (key_equal ops (s_key x) k') eqn:E'; [|done].
  rewrite <- (Ha i x Hi Ho). symmetry. by apply (equal_trans _ k').
Qed.

Lemma clear_run_update n sd xs i (x y : slot) k j :
  xs !! i = Some x -> (s_control x <> MAP_EMPTY -> s_control y <> MAP_EMPTY) ->
  clear_run n sd xs k j -> clear_run n sd (<[i:=y]> xs) k j.
Proof.
  intros Hi Hy Hc d Hd. destruct (Hc d Hd) as (z & Hz & Hne).
  destruct (decide (probe_at n (home n sd k) d = i)) as [He|Hne'].
  - exists y. rewrite He in *. split; [|apply Hy; congruence].
    apply list_lookup_insert_eq. by eapply lookup_lt_Some.
  - exists z. by rewrite list_lookup_insert_ne.
Qed.

Lemma slots_wf_insert n sd xs i x k v :
  0 < n -> slots_wf n sd xs -> xs !! i = Some x -> is_occupied x = false ->
  absent xs k -> clear_run n sd xs k i ->
  slots_wf n sd (<[i := Slot MAP_OCCUPIED k v]> xs).
Proof.
  intros Hn Hwf Hi Hx Hab Hrun. set (y := Slot MAP_OCCUPIED k v).
  assert (forall k' j, clear_run n sd xs k' j -> clear_run n sd (<[i:=y]> xs) k' j) as Hupd.
  { intros k' j. by apply (clear_run_update n sd xs i x). }
  split.
  - rewrite length_insert. by apply (wf_length _ _ _ Hwf).
  - apply Forall_insert; [by apply (wf_controls _ _ _ Hwf)|]. by right; right.
  - intros a b xa xb Ha Hb Hoa Hob He.
    apply list_lookup_insert_Some in Ha as [(<- & <- & _)|[Hna Ha]];
      apply list_lookup_insert_Some in Hb as [(<- & <- & _)|[Hnb Hb]]; [done| | |].
    + cbn in He. apply equal_sym in He. by rewrite (Hab b xb Hb Hob) in He.
    + cbn in He. by rewrite (Hab a xa Ha Hoa) in He.
    + by eapply (wf_distinct _ _ _ Hwf).
  - intros j z Hj Hz. apply Hupd.
    apply list_lookup_insert_Some in Hj as [(<- & <- & _)|[Hne Hj]]; [done|].
    by apply (wf_reach _ _ _ Hwf).
Qed.

Lemma slots_wf_bury n sd xs i x c :
  slots_wf n sd xs -> xs !! i = Some x -> s_control x <> MAP_EMPTY -> c = MAP_TOMBSTONE ->
  slots_wf n sd (<[i := Slot c (s_key x) (s_value x)]> xs).
Proof.
  intros Hwf Hi Hx ->. set (y := Slot MAP_TOMBSTONE (s_key x) (s_value x)).
  split.
  - rewrite length_insert. by apply (wf_length _ _ _ Hwf).
  - apply Forall_insert; [by apply (wf_controls _ _ _ Hwf)|]. by right; left.
  - intros a b xa xb Ha Hb Hoa Hob He.
    apply list_lookup_insert_Some in Ha as [(<- & <- & _)|[Hna Ha]]; [done|].
    apply list_lookup_insert_Some in Hb as [(<- & <- & _)|[Hnb Hb]]; [done|].
    by eapply (wf_distinct _ _ _ Hwf).
  - intros j z Hj Hz.
    apply list_lookup_insert_Some in Hj as [(<- & <- & _)|[Hne Hj]]; [done|].
    apply (clear_run_update n sd xs i x); [done..|]. by apply (wf_reach _ _ _ Hwf).
Qed.

Lemma slots_wf_fresh n sd k v :
  0 <= n -> slots_wf n sd (replicate (Z.to_nat n) (Slot MAP_EMPTY k v)).
Proof.
  intros Hn. split.
  - rewrite length_replicate. lia.
  - apply Forall_replicate. by left.
  - intros i j x y [-> _]%lookup_replicate ? Ho. done.
  - intros i x [-> _]%lookup_replicate Ho. done.
Qed.

Lemma entries_fresh n k v : entries (replicate n (Slot MAP_EMPTY k v)) = [].
Proof. induction n; [done|]. cbn. done. Qed.

Lemma tombs_fresh n k v : tombs (replicate n (Slot MAP_EMPTY k v)) = 0%nat.
Proof.
  unfold tombs. induction n as [|n IH]; [done|]. cbn [replicate].
  rewrite filter_cons. by case_decide.
Qed.
End slots.

(** * Tables *)

Section tables.
Context {K V E : Type} {api : AllocApi E} (ops : container_ops (K:=K) (V:=V) (E:=E)).
Implicit Types (t : table (K:=K) (V:=V)).

Definition table_entries t : list (K * V) := entries (t_slots t).

Record table_wf t : Prop := {
  wf_slot_count : exists k, 3 <= k <= 62 /\ slot_count (t_hdr t) = 2 ^ k;
  wf_slots : slots_wf ops (slot_count (t_hdr t)) (seed (t_hdr t)) (t_slots t);
  wf_occupied : occupied (t_hdr t) = zlen (table_entries t);
  wf_tombstones : tombstones (t_hdr t) = Z.of_nat (tombs (t_slots t));
  wf_load : occupied (t_hdr t) + tombstones (t_hdr t) <= map_capacity_of (slot_count (t_hdr t));
}.

Lemma slot_count_bounds t : table_wf t -> 8 <= slot_count (t_hdr t) <= 2 ^ 62.
Proof.
  intros Hwf. destruct (wf_slot_count _ Hwf) as (k & Hk & ->).
  change 8 with (2 ^ 3). split; apply Z.pow_le_mono_r; lia.
Qed.

Lemma mask_land t x :
  table_wf t -> Z.land x (mask_of t) = x mod slot_count (t_hdr t).
Proof.
  intros Hwf. pose proof (slot_count_bounds t Hwf).
  unfold mask_of. rewrite wrap64_small by ilia.
  destruct (wf_slot_count _ Hwf) as (k & Hk & ->). apply land_mask. lia.
Qed.

Lemma mask_next t h j :
  table_wf t ->
  Z.land ((h + j) mod slot_count (t_hdr t) + 1) (mask_of t) = (h + (j + 1)) mod slot_count (t_hdr t).
Proof.
  intros Hwf. rewrite mask_land by done. rewrite Zplus_mod_idemp_l. f_equal. lia.
Qed.

Lemma slot_at_probe {S} t h j x (s : S) :
  0 < slot_count (t_hdr t) ->
  t_slots t !! probe_at (slot_count (t_hdr t)) h j = Some x ->
  slot_at t ((h + j) mod slot_count (t_hdr t)) s = Ok x s.
Proof.
  intros Hn Hx. unfold slot_at, at_index.
  pose proof (Z.mod_pos_bound (h + j) (slot_count (t_hdr t)) Hn).
  destruct (Z.leb_spec 0 ((h + j) mod slot_count (t_hdr t))); [|lia].
  unfold probe_at in Hx. by rewrite Hx.
Qed.

Lemma slot_at_nat {S} t i x (s : S) :
  t_slots t !! i = Some x -> slot_at t (Z.of_nat i) s = Ok x s.
Proof.
  intros Hx. unfold slot_at, at_index.
  destruct (Z.leb_spec 0 (Z.of_nat i)); [|lia]. by rewrite Nat2Z.id, Hx.
Qed.

Lemma set_slot_nat {S} t i x y (s : S) :
  t_slots t !! i = Some x ->
  set_slot t (Z.of_nat i) y s = Ok (Table (t_addr t) (t_hdr t) (<[i:=y]> (t_slots t))) s.
Proof.
  intros Hx. unfold set_slot, set_index. pose proof (lookup_lt_Some _ _ _ Hx).
  destruct (Z.leb_spec 0 (Z.of_nat i)), (Z.ltb_spec (Z.of_nat i) (zlen (t_slots t))); try lia.
  cbn. by rewrite Nat2Z.id.
Qed.

Lemma empty_slot_exists t :
  table_wf t -> exists i x, t_slots t !! i = Some x /\ s_control x = MAP_EMPTY.
Proof.
  intros Hwf. apply empty_exists.
  pose proof (slot_counts (t_slots t) (wf_controls _ _ _ _ (wf_slots _ Hwf))).
  pose proof (wf_length _ _ _ _ (wf_slots _ Hwf)).
  pose proof (wf_occupied _ Hwf) as Ho. unfold table_entries in Ho.
  pose proof (wf_tombstones _ Hwf). pose proof (wf_load _ Hwf).
  pose proof (map_capacity_of_bounds (slot_count (t_hdr t))).
  pose proof (slot_count_bounds t Hwf). lia.
Qed.

(** ** A probe finds exactly the live entry of its key *)

Definition probe_spec t (key : K) (r : Z) : Prop :=
  (exists i x, r = Z.of_nat i /\ t_slots t !! i = Some x /\ is_occupied x = true /\
     key_equal ops (s_key x) key = true) \/
  (r = -1 /\ absent ops (t_slots t) key).

(** The first [j] probes for a key of home [h] have not met it. *)
Definition unmet t (key : K) (h j : Z) : Prop :=
  forall d x, 0 <= d < j -> t_slots t !! probe_at (slot_count (t_hdr t)) h d = Some x ->
    is_occupied x = true -> key_equal ops (s_key x) key = false.

Context `{!MapOpsOk ops}.

Lemma unmet_absent t key j :
  table_wf t ->
  let h := home ops (slot_count (t_hdr t)) (seed (t_hdr t)) key in
  unmet t key h j ->
  j = slot_count (t_hdr t) \/
  (0 <= j < slot_count (t_hdr t) /\
   exists x, t_slots t !! probe_at (slot_count (t_hdr t)) h j = Some x /\ s_control x = MAP_EMPTY) ->
  absent ops (t_slots t) key.
Proof.
  intros Hwf h Hun Hend i x Hi Ho.
  destruct (key_equal ops (s_key x) key) eqn:He; [|done].
  pose proof (slot_count_bounds t Hwf). set (n := slot_count (t_hdr t)) in *.
  assert (h = home ops n (seed (t_hdr t)) (s_key x)) as Hh
    by (symmetry; by apply home_equal).
  assert (Z.of_nat i < n) as Hin.
  { pose proof (lookup_lt_Some _ _ _ Hi). pose proof (wf_length _ _ _ _ (wf_slots _ Hwf)). lia. }
  pose proof (home_range ops n (seed (t_hdr t)) key ltac:(lia)) as Hr. fold h in Hr.
  pose proof (distance_range n h i ltac:(lia)) as Hd.
  pose proof (probe_at_distance n h i ltac:(lia) Hr Hin) as Hp.
  destruct (decide (distance n h i < j)) as [Hlt|Hge].
  { rewrite (Hun (distance n h i) x) in He; [done|lia|by fold n; rewrite Hp|done]. }
  destruct Hend as [->|(Hj & y & Hy & Hey)]; [lia|].
  destruct (decide (distance n h i = j)) as [<-|Hne].
  - rewrite Hp in Hy. simplify_eq. unfold is_occupied in Ho. by rewrite Hey in Ho.
  - pose proof (wf_reach _ _ _ _ (wf_slots _ Hwf) i x Hi Ho) as Hrun.
    fold n in Hrun. unfold clear_run in Hrun. rewrite <- Hh in Hrun.
    destruct (Hrun j) as (z & Hz & Hne'); [lia|]. simplify_eq.
Qed.

Lemma map_probe_loop_spec {S} t key (s : S) probes j :
  table_wf t ->
  let n := slot_count (t_hdr t) in
  let h := home ops n (seed (t_hdr t)) key in
  Z.of_nat probes = n - j -> 0 <= j -> unmet t key h j ->
  exists r, map_probe_loop ops probes t key (mask_of t) ((h + j) mod n) s = Ok r s /\
    probe_spec t key r.
Proof.
  intros Hwf n h. revert j. pose proof (slot_count_bounds t Hwf) as Hb. fold n in Hb.
  induction probes as [|probes IH]; intros j Hp Hj Hun.
  { exists (-1). split; [done|]. right. split; [done|].
    apply (unmet_absent t key j); [done|done|]. left. fold n. lia. }
  cbn [map_probe_loop].
  destruct (probe_at_lookup ops n _ _ h j (wf_slots _ Hwf) ltac:(lia)) as [x Hx].
  unfold bind. rewrite (slot_at_probe t h j x) by (done || (fold n; lia)).
  destruct (Z.eqb_spec (s_control x) MAP_EMPTY) as [Hc|Hc].
  { exists (-1). split; [done|]. right. split; [done|].
    apply (unmet_absent t key j); [done|done|]. right. fold n h. split; [lia|eauto]. }
  destruct ((s_control x =? MAP_OCCUPIED) && key_equal ops (s_key x) key) eqn:Hm.
  { apply andb_true_iff in Hm as [Ho He].
    exists (Z.of_nat (probe_at n h j)). split.
    - unfold ret. f_equal. unfold probe_at. pose proof (Z.mod_pos_bound (h + j) n). lia.
    - left. eauto 10. }
  unfold n. rewrite mask_next by done. fold n.
  apply IH; [lia..|].
  intros d y Hd Hy Ho. destruct (decide (d = j)) as [->|]; [|by apply (Hun d y); [lia|..]].
  fold n h in Hy. simplify_eq. unfold is_occupied in Ho. rewrite Ho in Hm. done.
Qed.

Lemma map_probe_spec {S} t key (s : S) :
  table_wf t -> exists r, map_probe ops t key s = Ok r s /\ probe_spec t key r.
Proof.
  intros Hwf. unfold map_probe. rewrite mask_land by done.
  pose proof (slot_count_bounds t Hwf).
  destruct (map_probe_loop_spec t key s (Z.to_nat (slot_count (t_hdr t))) 0 Hwf)
    as (r & Hr & Hs); [lia..| |].
  - intros d x ? ?. lia.
  - exists r. split; [|done]. rewrite <- Hr. f_equal. rewrite Z.add_0_r.
    unfold home. by rewrite Zmod_mod.
Qed.
End tables.
