(* ===== verification/MapRefinement.v ===== *)
(** The operations of the map against an abstract finite map: an association
    list without duplicate keys, up to the order of its entries. Every
    operation keeps the invariant, changes exactly the entry it names, and
    leaves the map as it was when it fails. *)
From S2P Require Import Prelude Checked Interfaces MapTable MapInvariant.

(** * Insertion into a table *)

Section insertion.
Context {K V E : Type} {api : AllocApi E} (ops : container_ops (K:=K) (V:=V) (E:=E)).
Context `{!MapOpsOk ops}.
Implicit Types (t : table (K:=K) (V:=V)).

(** The first [j] probes of a run met no empty slot. *)
Definition clear_prefix t (h j : Z) : Prop :=
  forall d, 0 <= d < j -> exists y, t_slots t !! probe_at (slot_count (t_hdr t)) h d = Some y /\
    s_control y <> MAP_EMPTY.

Lemma clear_prefix_run t k j :
  let n := slot_count (t_hdr t) in
  let h := home ops n (seed (t_hdr t)) k in
  0 < n -> 0 <= j < n -> clear_prefix t h j ->
  clear_run ops n (seed (t_hdr t)) (t_slots t) k (probe_at n h j).
Proof.
  intros n h Hn Hj Hc d Hd. apply Hc.
  fold h in Hd. rewrite distance_probe_at in Hd; [done|lia| |lia]. by apply home_range.
Qed.

Lemma clear_prefix_succ t h j y :
  clear_prefix t h j -> t_slots t !! probe_at (slot_count (t_hdr t)) h j = Some y ->
  s_control y <> MAP_EMPTY -> clear_prefix t h (j + 1).
Proof.
  intros Hc Hy Hne d Hd. destruct (decide (d = j)) as [->|]; [eauto|]. apply Hc. lia.
Qed.

(** The slot a new entry takes, and the change of the tombstone count. *)
Definition free_slot t (x : slot (K:=K) (V:=V)) (d : Z) : Prop :=
  (s_control x = MAP_EMPTY /\ d = 0 /\
     occupied (t_hdr t) + tombstones (t_hdr t) + 1 <= map_capacity_of (slot_count (t_hdr t))) \/
  (s_control x = MAP_TOMBSTONE /\ d = -1).

Definition insert_at t (i : nat) (k : K) (v : V) (d : Z) : table :=
  Table (t_addr t) (add_counts 1 d (t_hdr t)) (<[i := Slot MAP_OCCUPIED k v]> (t_slots t)).

Lemma table_wf_insert t i x k v d :
  table_wf ops t -> t_slots t !! i = Some x -> free_slot t x d ->
  absent ops (t_slots t) k ->
  clear_run ops (slot_count (t_hdr t)) (seed (t_hdr t)) (t_slots t) k i ->
  table_wf ops (insert_at t i k v d) /\
  table_entries (insert_at t i k v d) ≡ₚ (k, v) :: table_entries t.
Proof.
  intros Hwf Hi Hfree Hab Hrun. pose proof (slot_count_bounds ops t Hwf).
  assert (is_occupied x = false) as Hx.
  { unfold is_occupied. apply Z.eqb_neq. destruct Hfree as [[-> _]|[-> _]]; done. }
  pose proof (entries_insert_free (t_slots t) i x k v Hi Hx) as Hperm.
  pose proof (count_insert (fun x => s_control x = MAP_TOMBSTONE) (t_slots t) i x
    (Slot MAP_OCCUPIED k v) Hi) as Hcount. fold (tombs (t_slots t)) in Hcount.
  split; [|done]. split; cbn.
  - by apply (wf_slot_count _ _ Hwf).
  - apply (slots_wf_insert ops _ _ _ i x); [lia| |done..]. by apply wf_slots.
  - unfold table_entries. cbn. rewrite Hperm. cbn.
    rewrite (wf_occupied _ _ Hwf). unfold table_entries. lia.
  - rewrite (wf_tombstones _ _ Hwf). unfold tombs in *. cbn in Hcount.
    destruct Hfree as [(Hc & -> & _)|[Hc ->]]; rewrite Hc in Hcount;
      repeat case_decide; try done; lia.
  - pose proof (wf_load _ _ Hwf). destruct Hfree as [(_ & -> & ?)|[_ ->]]; lia.
Qed.

(** ** The search for a free slot *)

(** Where the searches may be: no empty slot before probe [j]. *)
Lemma search_continues t h j :
  table_wf ops t -> 0 <= h < slot_count (t_hdr t) -> 0 <= j -> clear_prefix t h j ->
  j < slot_count (t_hdr t).
Proof.
  intros Hwf Hh Hj Hc. pose proof (slot_count_bounds ops t Hwf).
  destruct (empty_slot_exists ops t Hwf) as (i & x & Hi & Hx).
  assert (Z.of_nat i < slot_count (t_hdr t)) as Hin.
  { pose proof (lookup_lt_Some _ _ _ Hi). pose proof (wf_length _ _ _ _ (wf_slots _ _ Hwf)). lia. }
  destruct (decide (j < slot_count (t_hdr t))); [done|]. exfalso.
  destruct (Hc (distance (slot_count (t_hdr t)) h i)) as (y & Hy & Hne).
  { pose proof (distance_range (slot_count (t_hdr t)) h i ltac:(lia)). lia. }
  rewrite probe_at_distance in Hy by lia. by simplify_eq.
Qed.

(** The slot the search of [map_entry] settles on. *)
Definition chosen (index first_free : Z) : Z := if 0 <=? first_free then first_free else index.

Definition settled t key (r : Z * Z) : Prop :=
  exists i x, chosen r.1 r.2 = Z.of_nat i /\ t_slots t !! i = Some x /\
    s_control x = (if 0 <=? r.2 then MAP_TOMBSTONE else MAP_EMPTY) /\
    clear_run ops (slot_count (t_hdr t)) (seed (t_hdr t)) (t_slots t) key i.

(** A first free slot that was noted is a tombstone of the run. *)
Definition noted t key (j first_free : Z) : Prop :=
  first_free = -1 \/
  exists d x, 0 <= d < j /\
    let n := slot_count (t_hdr t) in
    let i := probe_at n (home ops n (seed (t_hdr t)) key) d in
    first_free = Z.of_nat i /\ t_slots t !! i = Some x /\ s_control x = MAP_TOMBSTONE.

Lemma noted_settled t key j first_free index :
  table_wf ops t ->
  let n := slot_count (t_hdr t) in
  let h := home ops n (seed (t_hdr t)) key in
  0 <= j -> clear_prefix t h j -> 0 <= first_free -> noted t key j first_free ->
  settled t key (index, first_free).
Proof.
  intros Hwf n h Hj Hc Hff [->|(d & x & Hd & -> & Hx & Hc')]; [lia|].
  pose proof (slot_count_bounds ops t Hwf) as Hb. fold n in Hb.
  pose proof (home_range ops n (seed (t_hdr t)) key ltac:(lia)) as Hh.
  pose proof (search_continues t h j Hwf Hh Hj Hc) as Hjn.
  fold n in Hjn. fold n h in Hx |- *.
  exists (probe_at n h d), x. unfold chosen. cbn.
  destruct (Z.leb_spec 0 (Z.of_nat (probe_at n h d))); [|lia].
  split_and!; [done..|]. apply clear_prefix_run; [fold n; lia|fold n; lia|].
  intros d' ?. apply Hc. lia.
Qed.

Lemma map_insert_loop_spec {S} t key (s : S) fuel j first_free :
  table_wf ops t ->
  let n := slot_count (t_hdr t) in
  let h := home ops n (seed (t_hdr t)) key in
  n - j <= Z.of_nat fuel -> 0 <= j -> clear_prefix t h j -> noted t key j first_free ->
  exists r, map_insert_loop fuel t (mask_of t) ((h + j) mod n) first_free s = Ok r s /\
    settled t key r.
Proof.
  intros Hwf n h. revert j first_free.
  pose proof (slot_count_bounds ops t Hwf) as Hb. fold n in Hb.
  pose proof (home_range ops n (seed (t_hdr t)) key ltac:(lia)) as Hh. fold h in Hh.
  induction fuel as [|fuel IH]; intros j ff Hf Hj Hc Hnote;
    pose proof (search_continues t h j Hwf Hh Hj Hc) as Hjn; fold n in Hjn; [lia|].
  cbn [map_insert_loop].
  destruct (probe_at_lookup ops n _ _ h j (wf_slots _ _ Hwf) ltac:(lia)) as [x Hx].
  unfold bind. rewrite (slot_at_probe t h j x) by (done || (fold n; lia)).
  pose proof (Forall_lookup_1 _ _ _ _ (wf_controls _ _ _ _ (wf_slots _ _ Hwf)) Hx) as Hctl.
  destruct (Z.eqb_spec (s_control x) MAP_OCCUPIED) as [Ho|Ho].
  { unfold n. rewrite (mask_next ops) by done. fold n. apply IH; [lia..| |].
    - apply (clear_prefix_succ t h j x); [done..|]. by rewrite Ho.
    - destruct Hnote as [->|(d & y & Hd & ?)]; [by left|]. right. exists d, y. split; [lia|done]. }
  destruct (Z.eqb_spec (s_control x) MAP_TOMBSTONE) as [Ht|Ht]; cbn [andb].
  - destruct (Z.ltb_spec ff 0) as [Hff|Hff].
    + unfold n. rewrite (mask_next ops) by done. fold n. apply IH; [lia..| |].
      * apply (clear_prefix_succ t h j x); [done..|]. by rewrite Ht.
      * right. exists j, x. fold n h. split; [lia|]. split_and!; [|done..].
        unfold probe_at. pose proof (Z.mod_pos_bound (h + j) n ltac:(lia)). fold h. lia.
    + eexists. split; [done|]. by apply (noted_settled t key j).
  - eexists. split; [done|]. destruct (Z.leb_spec 0 ff) as [Hff|Hff].
    { by apply (noted_settled t key j). }
    exists (probe_at n h j), x. unfold chosen. cbn. destruct (Z.leb_spec 0 ff); [lia|].
    split_and!; [|done| |].
    + unfold probe_at. pose proof (Z.mod_pos_bound (h + j) n ltac:(lia)). lia.
    + by destruct Hctl as [?|[?|?]].
    + apply clear_prefix_run; [lia..|done].
Qed.
End insertion.

(** * Rehashing *)

Section rehash.
Context {K V E : Type} {api : AllocApi E} (ops : container_ops (K:=K) (V:=V) (E:=E)).
Context `{!MapOpsOk ops}.
Implicit Types (t : table (K:=K) (V:=V)).

(** The same block: what a header says of its allocation and its seed. *)
Definition same_block t t' : Prop :=
  t_addr t' = t_addr t /\ zero_counts (t_hdr t') = zero_counts (t_hdr t).

Lemma same_block_fields t t' :
  same_block t t' ->
  slot_count (t_hdr t') = slot_count (t_hdr t) /\ seed (t_hdr t') = seed (t_hdr t) /\
  block_size (t_hdr t') = block_size (t_hdr t) /\ block_align (t_hdr t') = block_align (t_hdr t).
Proof. intros [_ Hz]. injection Hz. intros. by split_and!. Qed.

(** A table under construction: no tombstones yet. *)
Definition fresh_wf t : Prop := table_wf ops t /\ tombstones (t_hdr t) = 0.

Lemma fresh_slot t i x :
  fresh_wf t -> t_slots t !! i = Some x -> s_control x <> MAP_OCCUPIED -> s_control x = MAP_EMPTY.
Proof.
  intros [Hwf Ht] Hi Hx.
  destruct (Forall_lookup_1 _ _ _ _ (wf_controls _ _ _ _ (wf_slots _ _ Hwf)) Hi) as [?|[Hc|?]];
    [done| |done].
  pose proof (wf_tombstones _ _ Hwf) as Htomb. rewrite Ht in Htomb.
  assert (x ∈ filter (fun x => s_control x = MAP_TOMBSTONE) (t_slots t)) as Hin.
  { apply list_elem_of_filter. split; [done|]. by eapply list_elem_of_lookup_2. }
  unfold tombs in Htomb. destruct (filter _ (t_slots t)); [by apply elem_of_nil in Hin|].
  cbn in Htomb. lia.
Qed.

Lemma map_place_loop_spec {S} t key v (s : S) fuel j :
  fresh_wf t ->
  let n := slot_count (t_hdr t) in
  let h := home ops n (seed (t_hdr t)) key in
  occupied (t_hdr t) + 1 <= map_capacity_of n -> absent ops (t_slots t) key ->
  n - j <= Z.of_nat fuel -> 0 <= j -> clear_prefix t h j ->
  exists t', map_place_loop fuel t key v (mask_of t) ((h + j) mod n) s = Ok t' s /\
    fresh_wf t' /\ same_block t t' /\ table_entries t' ≡ₚ (key, v) :: table_entries t.
Proof.
  intros [Hwf Ht] n h Hroom Hab. revert j.
  pose proof (slot_count_bounds ops t Hwf) as Hb. fold n in Hb.
  pose proof (home_range ops n (seed (t_hdr t)) key ltac:(lia)) as Hh. fold h in Hh.
  induction fuel as [|fuel IH]; intros j Hf Hj Hc;
    pose proof (search_continues ops t h j Hwf Hh Hj Hc) as Hjn; fold n in Hjn; [lia|].
  cbn [map_place_loop].
  destruct (probe_at_lookup ops n _ _ h j (wf_slots _ _ Hwf) ltac:(lia)) as [x Hx].
  unfold bind. rewrite (slot_at_probe t h j x) by (done || (fold n; lia)).
  destruct (Z.eqb_spec (s_control x) MAP_OCCUPIED) as [Ho|Ho]; cbn [negb].
  { unfold n. rewrite (mask_next ops) by done. fold n. apply IH; [lia..|].
    apply (clear_prefix_succ t h j x); [done..|]. by rewrite Ho. }
  pose proof (fresh_slot t _ x (conj Hwf Ht) Hx Ho) as He.
  assert ((h + j) mod n = Z.of_nat (probe_at n h j)) as ->.
  { unfold probe_at. pose proof (Z.mod_pos_bound (h + j) n ltac:(lia)). lia. }
  rewrite (set_slot_nat _ _ x) by done.
  assert (free_slot t x 0) as Hfree by (left; split_and!; [done..|fold n; lia]).
  pose proof (clear_prefix_run ops t key j ltac:(fold n; lia) ltac:(fold n; lia) Hc) as Hrun.
  destruct (table_wf_insert ops t (probe_at n h j) x key v 0) as [Hwf' Hperm]; [done..|].
  eexists. split; [done|]. split; [split; [done|cbn; lia]|]. done.
Qed.

Lemma map_place_moved_spec {S} t key v (s : S) :
  fresh_wf t ->
  occupied (t_hdr t) + 1 <= map_capacity_of (slot_count (t_hdr t)) ->
  absent ops (t_slots t) key ->
  exists t', map_place_moved ops t key v s = Ok t' s /\
    fresh_wf t' /\ same_block t t' /\ table_entries t' ≡ₚ (key, v) :: table_entries t.
Proof.
  intros Hf Hroom Hab. destruct Hf as [Hwf Ht].
  pose proof (slot_count_bounds ops t Hwf) as Hb.
  destruct (map_place_loop_spec t key v s (Z.to_nat (slot_count (t_hdr t))) 0 (conj Hwf Ht))
    as (t' & Hrun & Hrest); [done|done|lia|lia| |].
  { intros d ?. lia. }
  exists t'. split; [|done]. rewrite <- Hrun. unfold map_place_moved. f_equal.
  rewrite (mask_land ops) by done. unfold home. rewrite Z.add_0_r. by rewrite Zmod_mod.
Qed.

(** Slots whose live keys are pairwise different. *)
Definition distinct (xs : list (slot (K:=K) (V:=V))) : Prop :=
  forall i j x y, xs !! i = Some x -> xs !! j = Some y ->
    is_occupied x = true -> is_occupied y = true ->
    key_equal ops (s_key x) (s_key y) = true -> i = j.

Lemma distinct_cons x xs :
  distinct (x :: xs) ->
  distinct xs /\ (is_occupied x = true -> absent ops xs (s_key x)).
Proof.
  intros Hd. split.
  - intros i j y z Hy Hz ? ? ?. assert (S i = S j) by by eapply (Hd (S i) (S j)). lia.
  - intros Ho i y Hi Hoy. destruct (key_equal ops (s_key y) (s_key x)) eqn:He; [|done].
    by assert (S i = 0%nat) by by eapply (Hd (S i) 0%nat).
Qed.

Lemma move_slots_spec {S} xs t (s : S) :
  fresh_wf t -> distinct xs ->
  (forall i x, xs !! i = Some x -> is_occupied x = true -> absent ops (t_slots t) (s_key x)) ->
  occupied (t_hdr t) + zlen (entries xs) <= map_capacity_of (slot_count (t_hdr t)) ->
  exists t', move_slots ops xs t s = Ok t' s /\
    fresh_wf t' /\ same_block t t' /\ table_entries t' ≡ₚ entries xs ++ table_entries t.
Proof.
  revert t. induction xs as [|x xs IH]; intros t Hf Hd Hab Hroom.
  { exists t. by split_and!. }
  destruct (distinct_cons x xs Hd) as [Hd' Hxs]. cbn [move_slots].
  assert (forall i y, xs !! i = Some y -> is_occupied y = true ->
    absent ops (t_slots t) (s_key y)) as Hab' by (intros i; apply (Hab (Datatypes.S i))).
  destruct (is_occupied x) eqn:Ho; unfold is_occupied in Ho; rewrite Ho.
  2: { assert (entries (x :: xs) = entries xs) as Hskip.
       { unfold entries. cbn [omap list_omap]. by rewrite entry_of_free. }
       rewrite Hskip in *. by apply IH. }
  assert (entries (x :: xs) = (s_key x, s_value x) :: entries xs) as Hent.
  { unfold entries. cbn [omap list_omap]. by rewrite entry_of_taken. }
  rewrite Hent in Hroom. cbn in Hroom.
  destruct (map_place_moved_spec t (s_key x) (s_value x) s Hf) as (t1 & Hrun & Hf1 & Hs1 & Hp1);
    [lia|by apply (Hab 0%nat)|].
  destruct (same_block_fields _ _ Hs1) as (Hn1 & Hsd1 & _).
  unfold bind. rewrite Hrun.
  destruct (IH t1 Hf1 Hd') as (t2 & Hrun2 & Hf2 & Hs2 & Hp2).
  - intros i y Hi Hoy. apply absent_entries. fold (table_entries t1). rewrite Hp1.
    constructor; [cbn|by apply absent_entries, (Hab' i)].
    destruct (key_equal ops (s_key x) (s_key y)) eqn:He; [|done].
    apply equal_sym in He. by rewrite (Hxs eq_refl i y Hi Hoy) in He.
  - rewrite Hn1, (wf_occupied _ _ (proj1 Hf1)), Hp1. cbn.
    rewrite (wf_occupied _ _ (proj1 Hf)) in Hroom. lia.
  - exists t2. split; [done|]. split; [done|]. split.
    + destruct Hs1, Hs2. split; congruence.
    + rewrite Hp2, Hp1, Hent. cbn. by rewrite Permutation_middle.
Qed.
End rehash.
