(* ===== verification/MapSpec.v ===== *)
(** What every operation of the map does to the map, to its provider blocks
    and on failure, as total-correctness triples. *)
From S2P Require Import Prelude Checked Interfaces MapTable MapInvariant MapRefinement.

(** * Ownership of provider blocks *)

Section ledger.
Context {K V : Type}.
Implicit Types (evs : list (event (K:=K) (V:=V))) (m : rt_map (K:=K) (V:=V)).

(** A block a provider handed out: its handle, address, size, alignment. *)
Abbreviation block := (handle * Z * Z * Z)%type.

(** [held] without the first copy of [b]. *)
Fixpoint release (b : block) (held : list block) : option (list block) :=
  match held with
  | [] => None
  | b' :: held => if decide (b = b') then Some held else cons b' <$> release b held
  end.

(** The blocks held after a call; [None] once a block is freed that is not
    held, or with another handle, size or alignment than it was got with. *)
Definition ledger_step (held : option (list block)) (e : event (K:=K) (V:=V)) : option (list block) :=
  match e with
  | EvAlloc a size align p => if p =? 0 then held else cons (a, p, size, align) <$> held
  | EvFree a p size align => held ≫= release (a, p, size, align)
  | EvDropKey _ | EvDropValue _ | EvCloneKey _ _ | EvCloneValue _ _ => held
  end.
Definition ledger_from (held : option (list block)) evs : option (list block) :=
  foldl ledger_step held evs.
Definition ledger evs : option (list block) := ledger_from (Some []) evs.

Definition block_of (a : handle) (t : table (K:=K) (V:=V)) : block :=
  (a, t_addr t, block_size (t_hdr t), block_align (t_hdr t)).
Definition owned m : list block :=
  match m_table m with Some t => [block_of (m_allocator m) t] | None => [] end.

Lemma ledger_app evs1 evs2 : ledger (evs1 ++ evs2) = ledger_from (ledger evs1) evs2.
Proof. unfold ledger, ledger_from. by rewrite foldl_app. Qed.

(** Calls of hooks leave the ledger alone. *)
Definition is_hook (e : event (K:=K) (V:=V)) : bool :=
  match e with EvAlloc _ _ _ _ | EvFree _ _ _ _ => false | _ => true end.

Lemma ledger_hooks held evs : Forall is_hook evs -> ledger_from held evs = held.
Proof. induction 1 as [|e evs He _ IH]; [done|]. unfold ledger_from in *. cbn [foldl]. destruct e; cbn [is_hook ledger_step] in *; (contradiction || exact IH). Qed.

Lemma ledger_skip evs hooks rest : Forall is_hook hooks -> ledger (evs ++ hooks ++ rest) = ledger (evs ++ rest).
Proof.
  intros Hh. rewrite !ledger_app. unfold ledger_from at 1. rewrite foldl_app.
  fold (ledger_from (ledger evs) hooks). by rewrite (ledger_hooks _ hooks Hh).
Qed.

Lemma release_head (b : block) l : release b (b :: l) = Some l.
Proof. cbn. by rewrite decide_True. Qed.

(** A block got and freed again leaves the ledger; one got in place of
    another replaces it. *)
Lemma ledger_alloc_free evs a sz al p held :
  p <> 0 -> ledger evs = Some held ->
  ledger (evs ++ [EvAlloc a sz al p; EvFree a p sz al]) = Some held.
Proof.
  intros Hp Hl. rewrite ledger_app, Hl. unfold ledger_from. cbn [foldl ledger_step].
  destruct (Z.eqb_spec p 0); [done|]. cbn [fmap option_fmap option_map mbind option_bind].
  apply release_head.
Qed.

Lemma ledger_replace evs a sz al p a0 p0 sz0 al0 :
  p <> 0 -> ledger evs = Some [(a0, p0, sz0, al0)] ->
  ledger (evs ++ [EvAlloc a sz al p; EvFree a0 p0 sz0 al0]) = Some [(a, p, sz, al)].
Proof.
  intros Hp Hl. rewrite ledger_app, Hl. unfold ledger_from. cbn [foldl ledger_step].
  destruct (Z.eqb_spec p 0); [done|]. cbn [fmap option_fmap option_map mbind option_bind].
  cbn [release]. destruct (decide _) as [He|_]; [by rewrite He|].
  by rewrite decide_True.
Qed.
End ledger.

(** * Steps the operations share *)

Section steps.
Context {K V E : Type} {api : AllocApi E} {tot : AllocTotal E}
  (ops : container_ops (K:=K) (V:=V) (E:=E)) {ok : MapOpsOk ops}.
Abbreviation state := (mstate (K:=K) (V:=V) (E:=E)).
Implicit Types (s : state) (t : table (K:=K) (V:=V)) (m : rt_map (K:=K) (V:=V)).

(** Same map, and the calls [evs] made since. *)
Definition called s (evs : list (event (K:=K) (V:=V))) s' : Prop :=
  self s' = self s /\ trace s' = trace s ++ evs.

Lemma called_refl s : called s [] s.
Proof. split; [done|]. by rewrite app_nil_r. Qed.

Lemma called_trans s evs1 s1 evs2 s2 :
  called s evs1 s1 -> called s1 evs2 s2 -> called s (evs1 ++ evs2) s2.
Proof. intros [? H1] [? H2]. split; [congruence|]. by rewrite H2, H1, app_assoc. Qed.

Lemma wp_outside {A} (f : M E A) (Q : A -> E -> Prop) s :
  wp f Q (fun _ _ => True) (env s) ->
  wp (outside f) (fun a s' => called s [] s' /\ Q a (env s')) (fun _ s' => called s [] s') s.
Proof.
  unfold wp, outside. destruct (f (env s)); intros HQ; [split; [|done]| | |]; try done;
    (split; [done|]; cbn; by rewrite app_nil_r).
Qed.

Lemma wp_outside_total {A} (f : M E A) s :
  well_behaved f ->
  wp (outside f) (fun _ s' => called s [] s') (fun _ s' => called s [] s') s.
Proof.
  intros Hf. eapply wp_conseq; [apply (wp_outside f (fun _ _ => True)), Hf| |done].
  by intros a s' [? _].
Qed.

(** A clone hook's call and its answer. *)
Lemma wp_call_clone {C} note (f : C -> handle -> M E (option C)) c a (Q : option C -> E -> Prop) s :
  wp (f c a) Q (fun _ _ => True) (env s) ->
  wp (call_clone note f c a) (fun r s' => called s [note c r] s' /\ Q r (env s')) (fun _ s' => called s [] s') s.
Proof.
  intros Hf. unfold call_clone. apply wp_bind. eapply wp_conseq; [by apply (wp_outside (f c a) Q)| |done].
  intros r s' [[Hs Ht] HQ]. apply wp_bind, wp_modify, wp_ret. split; [|done]. split; [done|].
  cbn. by rewrite Ht, app_nil_r.
Qed.

Lemma new_block_spec z a sz al s :
  wp (new_block z a sz al) (fun p s' => called s [EvAlloc a sz al p] s')
    (fun _ s' => called s [] s') s.
Proof.
  unfold new_block. apply wp_bind.
  eapply wp_conseq; [apply wp_outside_total| |done].
  { destruct z; apply tot. }
  intros p s' [Hs Ht]. apply wp_bind, wp_modify, wp_ret. split; [done|].
  cbn. by rewrite Ht, app_nil_r.
Qed.

Lemma free_block_spec a p sz al s :
  wp (free_block a p sz al) (fun _ s' => called s [EvFree a p sz al] s')
    (fun _ s' => called s [EvFree a p sz al] s') s.
Proof.
  unfold free_block. apply wp_bind, wp_modify.
  eapply wp_conseq; [apply wp_outside_total; apply tot| |];
    intros ? s' [Hs Ht]; (split; [done|]); by rewrite Ht, app_nil_r.
Qed.

Lemma map_free_block_spec a t s :
  wp (map_free_block a t)
    (fun _ s' => called s [EvFree a (t_addr t) (block_size (t_hdr t)) (block_align (t_hdr t))] s')
    (fun _ s' => called s [EvFree a (t_addr t) (block_size (t_hdr t)) (block_align (t_hdr t))] s') s.
Proof. apply free_block_spec. Qed.

(** The events of releasing the table a rebuild replaced. *)
Definition free_events (a : handle) (old : option (table (K:=K) (V:=V))) : list (event (K:=K) (V:=V)) :=
  match old with
  | Some t => [EvFree a (t_addr t) (block_size (t_hdr t)) (block_align (t_hdr t))]
  | None => []
  end.

Lemma free_old_spec a old s :
  wp (free_old a old) (fun _ s' => called s (free_events a old) s')
    (fun _ s' => called s (free_events a old) s') s.
Proof.
  destruct old; [apply map_free_block_spec|]. apply wp_ret, called_refl.
Qed.

(** ** Opening a fresh table *)

Lemma map_block_shape_counts l slots shape :
  map_block_shape l slots = Some shape ->
  slot_count shape = slots /\ occupied shape = 0 /\ tombstones shape = 0.
Proof.
  unfold map_block_shape. intros Hs.
  repeat (apply bind_Some in Hs as (? & ? & Hs)). by simplify_eq.
Qed.

Lemma open_table_spec a l slots shape k s :
  map_block_shape l slots = Some shape -> 3 <= k <= 62 -> slots = 2 ^ k ->
  wp (open_table ops a shape)
    (fun r s' =>
       let p := match r with Some f => t_addr f | None => 0 end in
       called s [EvAlloc a (block_size shape) (block_align shape) p] s' /\
       match r with
       | Some f => t_addr f <> 0 /\ fresh_wf ops f /\ table_entries f = [] /\
           slot_count (t_hdr f) = slots /\
           block_size (t_hdr f) = block_size shape /\ block_align (t_hdr f) = block_align shape
       | None => True
       end)
    (fun _ s' => called s [] s') s.
Proof.
  intros Hsh Hk ->. destruct (map_block_shape_counts _ _ _ Hsh) as (Hn & Ho & Ht).
  unfold open_table. apply wp_bind.
  eapply wp_conseq; [apply new_block_spec| |done]. intros p s1 Hc. cbn beta.
  destruct (Z.eqb_spec p 0) as [->|Hp]; [by apply wp_ret|].
  apply wp_bind, wp_get. destruct (map_next_seed (counter s1) p) as [sd c].
  apply wp_bind, wp_put, wp_ret. split; [done|]. split; [done|].
  assert (0 <= 2 ^ k) by lia.
  pose proof (map_capacity_of_bounds (2 ^ k)) as Hcap.
  assert (8 <= 2 ^ k) by (change 8 with (2 ^ 3); apply Z.pow_le_mono_r; lia).
  split; [|split_and!; [apply entries_fresh|done..]].
  split; [|done]. split; cbn [t_hdr t_slots set_seed slot_count seed occupied tombstones]; rewrite Hn.
  - eauto.
  - by apply slots_wf_fresh.
  - unfold table_entries. cbn [t_slots]. by rewrite entries_fresh.
  - by rewrite tombs_fresh.
  - lia.
Qed.

(** ** Moving the entries of the table it replaces *)

Definition old_entries (old : option (table (K:=K) (V:=V))) : list (K * V) :=
  match old with Some t => table_entries t | None => [] end.
Definition old_wf (old : option (table (K:=K) (V:=V))) : Prop :=
  match old with Some t => table_wf ops t | None => True end.

Lemma rebuild_spec {S} old f (s : S) :
  old_wf old -> fresh_wf ops f -> table_entries f = [] ->
  zlen (old_entries old) <= map_capacity_of (slot_count (t_hdr f)) ->
  exists f', opt_slots ops old f s = Ok f' s /\ fresh_wf ops f' /\ same_block f f' /\
    table_entries f' ≡ₚ old_entries old.
Proof.
  intros Hold Hf He Hroom. destruct old as [t|]; cbn in *.
  - destruct (move_slots_spec ops (t_slots t) f s) as (f' & Hrun & Hf' & Hs' & Hp).
    + done.
    + exact (wf_distinct _ _ _ _ (wf_slots _ _ Hold)).
    + intros i x _ _. apply absent_entries. fold (table_entries f). by rewrite He.
    + rewrite (wf_occupied _ _ (proj1 Hf)), He. done.
    + exists f'. rewrite He, app_nil_r in Hp. done.
  - exists f. split; [done|]. split; [done|]. by rewrite He.
Qed.

(** ** How many slots a rebuild asks for *)

Lemma slots_for_spec want s :
  exists r, slots_for want s = Ok r s /\
    match r with
    | None => map_capacity_of (2 ^ 62) < want
    | Some n => exists j, 3 <= j <= 62 /\ n = 2 ^ j /\ want <= map_capacity_of n
    end.
Proof.
  destruct (map_slots_for_spec want) as (r & Hr & Hs). exists r.
  unfold slots_for. rewrite Hr. split; [done|]. destruct r; [|done].
  destruct Hs as (j & ? & ? & ? & _). eauto.
Qed.
End steps.

(** * The operations *)

Section operations.
Context {K V E : Type} {api : AllocApi E} {tot : AllocTotal E}
  (ops : container_ops (K:=K) (V:=V) (E:=E)) {ok : MapOpsOk ops}.
Abbreviation state := (mstate (K:=K) (V:=V) (E:=E)).
Implicit Types (s : state) (t : table (K:=K) (V:=V)) (m : rt_map (K:=K) (V:=V)).

Definition map_wf m : Prop :=
  match m_table m with
  | None => m_len m = 0 /\ m_cap m = 0
  | Some t => table_wf ops t /\ m_len m = occupied (t_hdr t) /\
      m_cap m = map_capacity_of (slot_count (t_hdr t)) /\ m_allocator m <> 0
  end.

(** The abstract map: its live entries, in an unspecified order. *)
Definition view m : list (K * V) := old_entries (m_table m).

(** No entry has this key. *)
Definition no_key (l : list (K * V)) (key : K) : Prop :=
  Forall (fun p => key_equal ops p.1 key = false) l.

(** The map is well formed, and the provider blocks the runtime holds for it
    are the one of its table. *)
Definition inv s : Prop := map_wf (self s) /\ ledger (trace s) = Some (owned (self s)).

Definition slot_holds m (i : Z) (k : K) (v : V) : Prop :=
  exists t j x, m_table m = Some t /\ i = Z.of_nat j /\ t_slots t !! j = Some x /\
    is_occupied x = true /\ s_key x = k /\ s_value x = v.

Lemma called_inv s evs s' :
  called s evs s' -> ledger (trace s ++ evs) = ledger (trace s) -> inv s -> inv s'.
Proof. intros [Hs Ht] Hl [? Hi]. split; [by rewrite Hs|]. by rewrite Ht, Hl, Hs. Qed.

Lemma called_nil_inv s s' : called s [] s' -> inv s -> inv s'.
Proof. intros Hc. apply (called_inv _ _ _ Hc). by rewrite app_nil_r. Qed.

Lemma refused_inv s a sz al s' : called s [EvAlloc a sz al 0] s' -> inv s -> inv s'.
Proof. intros Hc. apply (called_inv _ _ _ Hc). by rewrite ledger_app. Qed.

Lemma view_len m : map_wf m -> m_len m = zlen (view m).
Proof.
  unfold map_wf, view. destruct (m_table m) as [t|]; cbn; [|by intros [-> _]].
  intros (Hwf & -> & _). apply (wf_occupied _ _ Hwf).
Qed.

Lemma map_wf_old m : map_wf m -> old_wf ops (m_table m).
Proof. unfold map_wf. destruct (m_table m); [by intros (? & _)|done]. Qed.

(** The state once a new table [f] is in place of the map's. *)
Lemma published_inv s f len a s' :
  inv s -> t_addr f <> 0 -> table_wf ops f -> len = occupied (t_hdr f) -> a <> 0 ->
  (m_table (self s) <> None -> m_allocator (self s) = a) ->
  ledger (trace s') = ledger (trace s ++
    EvAlloc a (block_size (t_hdr f)) (block_align (t_hdr f)) (t_addr f)
      :: free_events a (m_table (self s))) ->
  self s' = RtMap (Some f) len (map_capacity_of (slot_count (t_hdr f))) a ->
  inv s'.
Proof.
  intros [Hwf Hl] Hp Hf -> Ha Hsame Ht Hs. split.
  { rewrite Hs. split_and!; done. }
  rewrite Hs, Ht. unfold owned in *. cbn [m_table m_allocator].
  destruct (m_table (self s)) as [t|] eqn:Htab.
  - rewrite (Hsame ltac:(done)) in Hl. by apply ledger_replace.
  - cbn [free_events]. rewrite ledger_app, Hl. unfold ledger_from. cbn [foldl ledger_step].
    destruct (Z.eqb_spec (t_addr f) 0); [done|]. done.
Qed.

(** ** Binding *)

Definition bound s : rt_map (K:=K) (V:=V) :=
  RtMap (m_table (self s)) (m_len (self s)) (m_cap (self s)) (bound_allocator s).

Lemma bound_allocator_not_nil s : bound_allocator s <> 0.
Proof.
  unfold bound_allocator. destruct (Z.eqb_spec (m_allocator (self s)) 0); [|done].
  apply tot.
Qed.

Lemma bound_allocator_table s :
  map_wf (self s) -> m_table (self s) <> None -> bound_allocator s = m_allocator (self s).
Proof.
  unfold map_wf, bound_allocator. destruct (m_table (self s)); [|done].
  intros (_ & _ & _ & Hne) _. destruct (Z.eqb_spec (m_allocator (self s)) 0); done.
Qed.

Lemma bound_inv s : inv s -> inv (MState (bound s) (counter s) (trace s) (env s)).
Proof.
  intros [Hwf Hl]. split.
  - unfold map_wf in *. unfold bound. cbn.
    pose proof (bound_allocator_not_nil s). destruct (m_table (self s)); [|done].
    by destruct Hwf as (? & ? & ? & _).
  - cbn [trace]. rewrite Hl. unfold owned. cbn. destruct (m_table (self s)) as [t|] eqn:Ht; [|done].
    rewrite bound_allocator_table; [done|done|by rewrite Ht].
Qed.

(** ** [map_find] *)

Lemma probe_absent_view t key :
  absent ops (t_slots t) key <-> no_key (table_entries t) key.
Proof. apply absent_entries. Qed.

Lemma map_find_spec key s :
  map_wf (self s) ->
  exists r, map_find ops key s = Ok r s /\
    match r with
    | Some i => exists k v, slot_holds (self s) i k v /\ key_equal ops k key = true
    | None => no_key (view (self s)) key
    end.
Proof.
  intros Hwf. unfold map_find, bind, gets. unfold map_wf, view in *.
  destruct (m_table (self s)) as [t|] eqn:Ht; cbn [old_entries].
  2: { exists None. split; [done|]. constructor. }
  destruct Hwf as (Hwf & Hlen & _).
  destruct (Z.eqb_spec (m_len (self s)) 0) as [H0|H0].
  { exists None. split; [done|]. rewrite Hlen, (wf_occupied _ _ Hwf) in H0.
    destruct (table_entries t); [constructor|done]. }
  destruct (map_probe_spec ops t key s Hwf) as (r & Hr & Hs). rewrite Hr.
  destruct Hs as [(i & x & -> & Hx & Ho & He)|[-> Hab]].
  - exists (Some (Z.of_nat i)). split.
    + destruct (Z.ltb_spec (Z.of_nat i) 0); [lia|done].
    + exists (s_key x), (s_value x). split; [|done]. exists t, i, x. done.
  - exists None. split; [done|]. by apply probe_absent_view.
Qed.

(** ** [map_reserve] and [map_shrink] *)

(** A rebuild at [slots] slots that the table fits, up to its publication. *)
Lemma rebuild_published slots k shape s :
  inv s -> m_allocator (self s) <> 0 ->
  3 <= k <= 62 -> slots = 2 ^ k -> m_len (self s) <= map_capacity_of slots ->
  map_block_shape (layout ops) slots = Some shape ->
  wp (let! f := open_table ops (m_allocator (self s)) shape in
      match f with
      | None => ret false
      | Some fresh =>
          let! fresh := opt_slots ops (m_table (self s)) fresh in
          free_old (m_allocator (self s)) (m_table (self s)) ;;;
          set_map (RtMap (Some fresh) (m_len (self s)) (map_capacity_of slots)
            (m_allocator (self s))) ;;;
          ret true
      end)
    (fun r s' => inv s' /\
       if r then
         view (self s') ≡ₚ view (self s) /\ m_cap (self s') = map_capacity_of slots
       else self s' = self s)
    (fun _ s' => self s' = self s) s.
Proof.
  intros Hinv Ha Hk Hslots Hroom Hsh. destruct Hinv as [Hwf Hl] eqn:Hi. clear Hi.
  apply wp_bind. eapply wp_conseq; [by eapply open_table_spec| |by intros ? s' [? _]].
  intros r s1 [Hc Hr]. cbn beta.
  destruct r as [f|]; [|apply wp_ret; split; [by eapply refused_inv|apply Hc]].
  destruct Hr as (Hp & Hf & He & Hn & Hsz & Hal). cbn beta in Hc.
  destruct (rebuild_spec ops (m_table (self s)) f s1) as (f' & Hrun & Hf' & Hsame & Hperm);
    [by apply map_wf_old|done|done| |].
  { fold (view (self s)). rewrite <- (view_len _ Hwf), Hn. done. }
  destruct (same_block_fields _ _ Hsame) as (Hn' & _ & Hsz' & Hal').
  apply wp_bind. unfold wp at 1. rewrite Hrun.
  apply wp_bind. eapply wp_conseq; [apply free_old_spec| |].
  2: { intros ? s2 [Hs2 _]. destruct Hc as [Hs1 _]. congruence. }
  intros _ s2 [Hs2 Ht2]. apply wp_bind, wp_modify, wp_ret. cbn [self with_self].
  destruct Hc as [Hs1 Ht1]. split; [|split; [exact Hperm|done]].
  eapply (published_inv s f' (m_len (self s)) (m_allocator (self s))); try done.
  - rewrite (proj1 Hsame). done.
  - apply Hf'.
  - rewrite (view_len _ Hwf). unfold view. rewrite <- Hperm.
    by rewrite (wf_occupied _ _ (proj1 Hf')).
  - cbn [trace with_self]. rewrite Ht2, Ht1, <- app_assoc. cbn [app].
    by rewrite Hsz', Hal', Hsz, Hal, (proj1 Hsame).
  - cbn. by rewrite Hn', Hn.
Qed.

Lemma map_reserve_spec n s :
  inv s -> 0 <= n ->
  wp (map_reserve ops n)
    (fun r s' => inv s' /\
       if r then view (self s') ≡ₚ view (self s) /\ n <= m_cap (self s') /\
         m_cap (self s) <= m_cap (self s')
       else self s' = bound s)
    (fun _ s' => self s' = bound s) s.
Proof.
  intros Hinv Hn. unfold map_reserve. destruct (Z.ltb_spec n 0); [lia|].
  apply wp_bind, wp_modify. fold (bound s).
  pose proof (bound_inv s Hinv) as Hb. set (sb := MState (bound s) _ _ _) in Hb.
  change (with_self _ s) with sb. apply wp_bind, wp_gets.
  assert (self sb = bound s) as Hsb by done. rewrite <- Hsb.
  assert (m_table (self sb) = m_table (self s)) as Htab by done.
  destruct (_ && _) eqn:Hfast.
  { apply wp_ret. split; [done|]. apply andb_true_iff in Hfast as [Hle _].
    apply Z.leb_le in Hle. split; [done|]. split; [done|]. cbn. lia. }
  apply wp_bind. destruct (slots_for_spec
    (if n <? m_len (self sb) then m_len (self sb) else n) sb) as (r & Hr & Hspec).
  unfold wp at 1. rewrite Hr. destruct r as [slots|]; [|by apply wp_ret].
  destruct Hspec as (k & Hk & Hslots & Hcap).
  assert (n <= map_capacity_of slots /\ m_len (self sb) <= map_capacity_of slots) as [Hn' Hlen'].
  { destruct (Z.ltb_spec n (m_len (self sb))); lia. }
  destruct (map_block_shape (layout ops) slots) as [shape|] eqn:Hsh; [|by apply wp_ret].
  eapply wp_conseq; [eapply rebuild_published; try done| |done].
  { apply bound_allocator_not_nil. }
  intros r' s' [Hi' Hr']. split; [done|]. destruct r'; [|done].
  destruct Hr' as [Hv ->]. split; [done|]. split; [done|].
  change (m_cap (self s)) with (m_cap (self sb)).
  apply andb_false_iff in Hfast as [Hlt|Hnt]; [apply Z.leb_gt in Hlt; lia|].
  destruct Hb as [Hwfb _]. unfold map_wf in Hwfb. destruct (m_table (self sb)) eqn:Ht; [done|].
  destruct Hwfb as [_ ->]. pose proof (map_capacity_of_bounds slots).
  assert (8 <= slots) by (rewrite Hslots; change 8 with (2 ^ 3); apply Z.pow_le_mono_r; lia). lia.
Qed.

Lemma map_shrink_spec n s :
  inv s -> 0 <= n ->
  wp (map_shrink ops n)
    (fun r s' => inv s' /\
       if r then view (self s') ≡ₚ view (self s) /\ m_cap (self s') <= m_cap (self s) /\
         Z.min n (m_cap (self s)) <= m_cap (self s')
       else self s' = self s)
    (fun _ s' => self s' = self s) s.
Proof.
  intros Hinv Hn. unfold map_shrink. apply wp_bind, wp_gets. destruct (Z.ltb_spec n 0); [lia|].
  destruct Hinv as [Hwf Hl] eqn:Hi. clear Hi.
  destruct (m_table (self s)) as [old|] eqn:Ht; [|apply wp_ret; split; [done|split; [done|lia]]].
  pose proof Hwf as Hwf'. unfold map_wf in Hwf'. rewrite Ht in Hwf'.
  destruct Hwf' as (Hold & Hlen & Hcap & Ha).
  apply wp_bind. destruct (slots_for_spec
    (if m_len (self s) <? n then n else m_len (self s)) s) as (r & Hr & Hspec).
  unfold wp at 1. rewrite Hr. destruct r as [want|]; [|by apply wp_ret].
  destruct Hspec as (k & Hk & Hwant & Hroom).
  pose proof (slot_count_bounds ops old Hold) as Hb.
  set (slots := if slot_count (t_hdr old) <? want then slot_count (t_hdr old) else want).
  assert (exists j, 3 <= j <= 62 /\ slots = 2 ^ j) as (j & Hj & Hslots).
  { unfold slots. destruct (slot_count (t_hdr old) <? want); [apply (wf_slot_count _ _ Hold)|eauto]. }
  assert (m_len (self s) <= map_capacity_of slots) as Hfit.
  { unfold slots. pose proof (wf_load _ _ Hold). pose proof (wf_tombstones _ _ Hold).
    destruct (Z.ltb_spec (m_len (self s)) n), (Z.ltb_spec (slot_count (t_hdr old)) want); lia. }
  assert (map_capacity_of slots <= m_cap (self s)) as Hle.
  { rewrite Hcap. apply map_capacity_of_mono. unfold slots.
    destruct (Z.ltb_spec (slot_count (t_hdr old)) want); lia. }
  assert (Z.min n (m_cap (self s)) <= map_capacity_of slots) as Hmin.
  { rewrite Hcap. unfold slots.
    destruct (Z.ltb_spec (m_len (self s)) n), (Z.ltb_spec (slot_count (t_hdr old)) want); lia. }
  destruct (_ && _) eqn:Hfast; [by apply wp_ret; split; [done|split; [done|lia]]|].
  destruct (map_block_shape (layout ops) slots) as [shape|] eqn:Hsh; [|by apply wp_ret].
  pose proof (rebuild_published slots j shape s (conj Hwf Hl) Ha Hj Hslots Hfit Hsh) as Hreb.
  rewrite Ht in Hreb. cbn [opt_slots free_old] in Hreb.
  eapply wp_conseq; [exact Hreb| |done].
  intros r' s' [Hi' Hr']. split; [done|]. destruct r'; [|done]. destruct Hr' as [? ->]. done.
Qed.

(** ** [map_entry] *)

Lemma entry_slots_loop_spec fuel k len :
  3 <= k <= 62 -> 62 - k < Z.of_nat fuel -> 0 <= len ->
  exists r, entry_slots_loop fuel (2 ^ k) len = Some r /\
    match r with
    | Some n => exists j, k <= j <= 62 /\ n = 2 ^ j /\ 2 * len + 2 <= n
    | None => 2 ^ 62 <= 2 * len + 1
    end.
Proof.
  revert k. induction fuel as [|fuel IH]; intros k Hk Hf Hlen; [lia|].
  cbn [entry_slots_loop]. rewrite int64_half.
  assert (2 ^ k = 2 * 2 ^ (k - 1)) as Hpow by (rewrite <- Z.pow_succ_r by lia; f_equal; lia).
  assert (0 < 2 ^ (k - 1)) by lia.
  rewrite Z.quot_div_nonneg by lia.
  assert (2 ^ k `div` 2 = 2 ^ (k - 1)) as ->.
  { rewrite Hpow. rewrite Z.mul_comm. by apply Z.div_mul. }
  destruct (Z.leb_spec (2 ^ (k - 1)) len).
  - destruct (Z.ltb_spec (2 ^ 62 - 1) (2 ^ k)).
    + exists None. split; [done|]. assert (k = 62) as ->; [|lia].
      destruct (decide (k = 62)); [done|].
      pose proof (Z.pow_lt_mono_r 2 k 62 ltac:(lia) ltac:(lia) ltac:(lia)). lia.
    + assert (k < 62) by (destruct (decide (k = 62)) as [->|]; lia).
      replace (2 ^ k * 2) with (2 ^ (k + 1)) by (rewrite Z.pow_add_r by lia; lia).
      destruct (IH (k + 1)) as (r & Hr & Hs); [lia..|]. exists r. split; [done|].
      destruct r; [|done]. destruct Hs as (j & ? & ? & ?). exists j. split_and!; [lia..|done|done].
  - exists (Some (2 ^ k)). split; [done|]. exists k. split_and!; [lia..|done|lia].
Qed.

Lemma entry_slots_spec s :
  map_wf (self s) ->
  exists r, entry_slots (m_table (self s)) (m_len (self s)) s = Ok r s /\
    match r with
    | Some n => exists j, 3 <= j <= 62 /\ n = 2 ^ j /\ m_len (self s) + 1 <= map_capacity_of n /\ 2 * m_len (self s) + 2 <= n
    | None => True
    end.
Proof.
  intros Hwf. pose proof (view_len _ Hwf) as Hlen. unfold entry_slots, bind.
  destruct (slots_for_spec (m_len (self s) + 1) s) as (r & -> & Hspec).
  destruct r as [slots|]; [|by exists None].
  destruct Hspec as (k & Hk & Hslots & Hroom).
  set (want := match m_table (self s) with
    | Some t => if slots <? slot_count (t_hdr t) then slot_count (t_hdr t) else slots
    | None => slots end).
  assert (exists j, 3 <= j <= 62 /\ want = 2 ^ j /\ slots <= want) as (j & Hj & Hw & Hle).
  { unfold want. pose proof (map_wf_old _ Hwf) as Hold.
    destruct (m_table (self s)) as [t|]; [|exists k; split_and!; [lia..|done|lia]].
    destruct (Z.ltb_spec slots (slot_count (t_hdr t)));
      [|exists k; split_and!; [lia..|done|lia]].
    destruct (wf_slot_count _ _ Hold) as (j & ? & ?). exists j. split_and!; [lia..|done|lia]. }
  rewrite Hw. destruct (entry_slots_loop_spec 64 j (m_len (self s))) as (r' & -> & Hr'); [lia..|].
  exists r'. split; [done|]. destruct r' as [n|]; [|done].
  destruct Hr' as (i & Hi & -> & Hfit). exists i. split; [lia|]. split; [done|]. split; [|done].
  assert (slots <= 2 ^ i) by (pose proof (Z.pow_le_mono_r 2 j i); lia).
  pose proof (map_capacity_of_mono slots (2 ^ i)). lia.
Qed.

(** What the table of an insertion is, before the insertion. *)
Definition entry_ready s (t : table (K:=K) (V:=V)) (replacing : bool) s' : Prop :=
  table_wf ops t /\ table_entries t ≡ₚ view (self s) /\
  occupied (t_hdr t) + tombstones (t_hdr t) + 1 <= map_capacity_of (slot_count (t_hdr t)) /\
  if replacing then
    t_addr t <> 0 /\
    called s [EvAlloc (bound_allocator s) (block_size (t_hdr t)) (block_align (t_hdr t)) (t_addr t)] s' /\
    tombstones (t_hdr t) = 0 /\ 2 * occupied (t_hdr t) + 2 <= slot_count (t_hdr t)
  else m_table (self s) = Some t /\ s' = s.

Lemma entry_table_spec s :
  inv s ->
  wp (entry_table ops (bound_allocator s))
    (fun r s' => match r with
       | None => inv s' /\ self s' = self s
       | Some (t, replacing) => entry_ready s t replacing s'
       end)
    (fun _ s' => self s' = self s) s.
Proof.
  intros Hinv. pose proof Hinv as [Hwf Hl]. unfold entry_table. apply wp_bind, wp_gets.
  destruct (entry_must_grow (self s)) eqn:Hgrow.
  - apply wp_bind. destruct (entry_slots_spec s Hwf) as (r & Hr & Hspec).
    unfold wp at 1. rewrite Hr. destruct r as [slots|]; [|by apply wp_ret].
    destruct Hspec as (k & Hk & Hslots & Hroom & Hhalf).
    destruct (map_block_shape (layout ops) slots) as [shape|] eqn:Hsh; [|by apply wp_ret].
    apply wp_bind. eapply wp_conseq; [by eapply open_table_spec| |by intros ? s' [? _]].
    intros r s1 [Hc Hf]. cbn beta.
    destruct r as [f|]; [|apply wp_ret; split; [by eapply refused_inv|apply Hc]].
    destruct Hf as (Hp & Hf & He & Hn & Hsz & Hal). cbn beta in Hc.
    destruct (rebuild_spec ops (m_table (self s)) f s1) as (f' & Hrun & Hf' & Hsame & Hperm);
      [by apply map_wf_old|done|done| |].
    { fold (view (self s)). rewrite <- (view_len _ Hwf), Hn. lia. }
    destruct (same_block_fields _ _ Hsame) as (Hn' & _ & Hsz' & Hal').
    apply wp_bind. unfold wp at 1. rewrite Hrun. apply wp_ret.
    assert (occupied (t_hdr f') = m_len (self s)) as Hocc.
    { rewrite (wf_occupied _ _ (proj1 Hf')), Hperm. fold (view (self s)). by rewrite (view_len _ Hwf). }
    split; [apply Hf'|]. split; [done|]. rewrite (proj2 Hf'), Hn', Hn, Hocc. split; [lia|].
    rewrite (proj1 Hsame), Hsz', Hal', Hsz, Hal. done.
  - unfold entry_must_grow in Hgrow. pose proof (map_wf_old _ Hwf) as Hold.
    unfold view. destruct (m_table (self s)) as [t|] eqn:Ht; [|done].
    apply orb_false_iff in Hgrow as [_ Hroom]. apply Z.ltb_ge in Hroom.
    apply wp_bind, (wp_need _ t); [done|]. apply wp_ret.
    split; [done|]. unfold view. rewrite Ht. split; [done|]. split; [done|]. done.
Qed.

Lemma settled_free t key index first_free :
  table_wf ops t -> settled ops t key (index, first_free) ->
  occupied (t_hdr t) + tombstones (t_hdr t) + 1 <= map_capacity_of (slot_count (t_hdr t)) ->
  exists i x, chosen index first_free = Z.of_nat i /\ t_slots t !! i = Some x /\
    free_slot t x (if 0 <=? first_free then -1 else 0) /\
    clear_run ops (slot_count (t_hdr t)) (seed (t_hdr t)) (t_slots t) key i.
Proof.
  intros Hwf (i & x & Hi & Hx & Hc & Hrun) Hroom. exists i, x. split_and!; try done.
  cbn in Hc. destruct (0 <=? first_free); [by right|by left].
Qed.

(** Only hooks were called. *)
Definition hooked s s' : Prop := exists evs, Forall is_hook evs /\ called s evs s'.

Lemma store_key_spec key a s :
  wp (store_key ops key a)
    (fun r s' => hooked s s' /\
       match r with Some k => key_equal ops k key = true | None => True end)
    (fun _ s' => called s [] s') s.
Proof.
  unfold store_key. destruct (key_clone ops) as [f|] eqn:Hf.
  - eapply wp_conseq; [apply (wp_call_clone EvCloneKey f key a
      (fun r _ => match r with Some k => key_equal ops k key = true | None => True end)); by apply key_clone_equal| |done].
    intros r s' [Hc Hr]. split; [|exact Hr]. exists [EvCloneKey key r]. split; [by repeat constructor|done].
  - apply wp_ret. split; [|apply equal_refl]. exists []. split; [done|apply called_refl].
Qed.

(** The answer of an entry that was absent. *)
Definition entry_added s (key : K) (r : option Z * bool) s' : Prop :=
  match r with
  | (None, ins) => ins = false /\ self s' = self s
  | (Some i, ins) => ins = true /\ exists k, key_equal ops k key = true /\
      view (self s') ≡ₚ (k, zero_value ops) :: view (self s) /\
      slot_holds (self s') i k (zero_value ops)
  end.

(** The key was stored: the old block is freed, the grown table published. *)
Lemma entry_stored s key t replacing s1 s2 i x k d :
  inv s -> entry_ready s t replacing s1 -> hooked s1 s2 -> key_equal ops k key = true ->
  t_slots t !! i = Some x -> table_wf ops (insert_at t i k (zero_value ops) d) ->
  table_entries (insert_at t i k (zero_value ops) d) ≡ₚ (k, zero_value ops) :: table_entries t ->
  wp ((if replacing then free_old (bound_allocator s) (m_table (self s)) else ret tt) ;;;
      set_map (RtMap (Some (insert_at t i k (zero_value ops) d)) (m_len (self s) + 1)
        (if replacing then map_capacity_of (slot_count (t_hdr t)) else m_cap (self s)) (bound_allocator s)) ;;;
      ret (Some (Z.of_nat i), true))
    (fun r s' => inv s' /\ entry_added s key r s') (fun _ s' => self s' = self s) s2.
Proof.
  intros [Hmwf Hl] (Hwf & Hperm & _ & Hrep) (hooks & Hhooks & Hs2 & Ht2) Hk Hx Hwf' Hperm'.
  assert (self s2 = self s) as Hss.
  { rewrite Hs2. destruct replacing; [apply Hrep|]. by destruct Hrep as [_ ->]. }
  set (t' := insert_at t i k (zero_value ops) d) in *. apply wp_bind.
  assert (wp (if replacing then free_old (bound_allocator s) (m_table (self s)) else ret tt)
    (fun _ s3 => called s2 (if replacing then free_events (bound_allocator s) (m_table (self s)) else []) s3)
    (fun _ s3 => self s3 = self s2) s2) as Hfree.
  { destruct replacing; [|apply wp_ret, called_refl].
    eapply wp_conseq; [apply free_old_spec|done|]. by intros ? ? [? _]. }
  eapply wp_conseq; [exact Hfree| |intros ? s3 ?; congruence].
  intros _ s3 [Hs3 Ht3]. apply wp_bind, wp_modify, wp_ret.
  split; [|split; [done|]; exists k; split_and!; [done| |]].
  - destruct replacing.
    + destruct Hrep as [Hp [[Hsa Hta] _]].
      eapply (published_inv s t' (m_len (self s) + 1) (bound_allocator s)); try done.
      * rewrite (view_len _ Hmwf), <- Hperm. cbn. rewrite (wf_occupied _ _ Hwf). lia.
      * apply bound_allocator_not_nil.
      * intros Hne. symmetry. by apply bound_allocator_table.
      * cbn [trace with_self]. rewrite Ht3, Ht2, Hta, <- !app_assoc, !(app_assoc (trace s)), ledger_skip by done.
        by rewrite <- app_assoc.
    + destruct Hrep as [Htab ->]. rewrite app_nil_r in Ht3.
      pose proof Hmwf as Hm. unfold map_wf in Hm. rewrite Htab in Hm. destruct Hm as (_ & Hlen & Hcap & Ha).
      assert (bound_allocator s = m_allocator (self s)) as Hba by (apply bound_allocator_table; [done|by rewrite Htab]).
      split.
      * split_and!; [done|cbn; lia|cbn; by rewrite Hcap|cbn; congruence].
      * cbn [trace with_self]. rewrite Ht3, Ht2, ledger_app, Hl, ledger_hooks by done. unfold owned. cbn. rewrite Htab, Hba. done.
  - change (view (RtMap (Some t') _ _ _)) with (table_entries t'). by rewrite Hperm', Hperm.
  - exists t', i, (Slot MAP_OCCUPIED k (zero_value ops)). split_and!; try done.
    apply list_lookup_insert_eq. by eapply lookup_lt_Some.
Qed.

(** The key could not be stored: a new block goes back, the map is as it was. *)
Lemma entry_refused s key t replacing s1 s2 :
  inv s -> entry_ready s t replacing s1 -> hooked s1 s2 ->
  wp ((if replacing then map_free_block (bound_allocator s) t else ret tt) ;;; ret (None, false))
    (fun r s' => inv s' /\ entry_added s key r s') (fun _ s' => self s' = self s) s2.
Proof.
  intros [Hmwf Hl] (_ & _ & _ & Hrep) (hooks & Hhooks & Hs2 & Ht2).
  apply wp_bind. destruct replacing.
  - destruct Hrep as [Hp [[Hsa Hta] _]].
    eapply wp_conseq; [apply map_free_block_spec| |intros ? s3 [? _]; congruence].
    intros _ s3 [Hs3 Ht3]. apply wp_ret. split; [|split; [done|congruence]].
    split; [by rewrite Hs3, Hs2, Hsa|]. rewrite Hs3, Hs2, Hsa, Ht3, Ht2, Hta, <- !app_assoc, (app_assoc (trace s)).
    rewrite ledger_skip, <- app_assoc, <- Hl by done. cbn [app]. by rewrite (ledger_alloc_free _ _ _ _ _ _ Hp Hl).
  - destruct Hrep as [_ ->]. apply wp_ret, wp_ret. split; [|split; [done|congruence]].
    split; [by rewrite Hs2|]. by rewrite Ht2, Hs2, ledger_app, Hl, ledger_hooks.
Qed.

Lemma entry_insert_spec s key t replacing s1 :
  inv s -> no_key (view (self s)) key -> entry_ready s t replacing s1 ->
  wp (entry_insert ops key (bound_allocator s) t replacing)
    (fun r s' => inv s' /\ entry_added s key r s') (fun _ s' => self s' = self s) s1.
Proof.
  intros Hinv Hnew Hready. pose proof Hready as (Hwf & Hperm & Hroom & Hrep).
  assert (self s1 = self s) as Hs1.
  { destruct replacing; [apply Hrep|]. destruct Hrep as [_ ->]. done. }
  pose proof (slot_count_bounds ops t Hwf) as Hb.
  assert (absent ops (t_slots t) key) as Hab.
  { apply absent_entries. unfold no_key in Hnew. by rewrite <- Hperm in Hnew. }
  unfold entry_insert. apply wp_bind, wp_gets. rewrite Hs1.
  apply wp_bind. rewrite (mask_land ops) by done.
  destruct (map_insert_loop_spec ops t key s1 (2 * Z.to_nat (slot_count (t_hdr t))) 0 (-1) Hwf)
    as ([index ff] & Hrun & Hset); [lia|lia|intros d ?; lia|by left|].
  rewrite Z.add_0_r in Hrun. unfold home in Hrun. rewrite Zmod_mod in Hrun.
  unfold wp at 1. rewrite Hrun. cbn beta.
  destruct (settled_free t key index ff Hwf Hset Hroom) as (i & x & Hi & Hx & Hfree & Hclear).
  fold (chosen index ff). rewrite Hi.
  apply wp_bind. eapply wp_conseq; [apply store_key_spec| |intros ? s2 [? _]; congruence].
  intros [k|] s2 [Hc Hk]; cbn beta; [|by eapply entry_refused].
  apply wp_bind. unfold wp at 1. rewrite (set_slot_nat t i x) by done.
  assert (clear_run ops (slot_count (t_hdr t)) (seed (t_hdr t)) (t_slots t) k i) as Hclear'.
  { unfold clear_run in *. by rewrite (home_equal ops _ _ k key). }
  assert (absent ops (t_slots t) k) as Hab' by (by eapply absent_equal).
  set (d := if 0 <=? ff then -1 else 0) in *.
  destruct (table_wf_insert ops t i x k (zero_value ops) d) as [Hwf' Hperm']; [done..|].
  by eapply (entry_stored s key t replacing s1 s2 i x k d).
Qed.

Lemma map_entry_spec key s :
  inv s ->
  wp (map_entry ops key)
    (fun r s' => inv s' /\
       match r with
       | (Some i, false) => self s' = self s /\ exists k v,
           slot_holds (self s) i k v /\ key_equal ops k key = true
       | _ => no_key (view (self s)) key /\ entry_added s key r s'
       end)
    (fun _ s' => self s' = self s) s.
Proof.
  intros Hinv. pose proof Hinv as [Hwf _]. unfold map_entry.
  apply wp_bind, wp_gets, wp_bind, wp_gets, wp_bind.
  assert (exists r, match m_table (self s) with Some t => map_probe ops t key | None => ret (-1) end s
            = Ok r s /\
    ((exists i k v, r = Z.of_nat i /\ slot_holds (self s) r k v /\ key_equal ops k key = true) \/
     (r = -1 /\ no_key (view (self s)) key))) as (r & Hr & Hcases).
  { pose proof (map_wf_old _ Hwf) as Hold. unfold view.
    destruct (m_table (self s)) as [t|] eqn:Ht.
    2: { exists (-1). split; [done|]. right. split; [done|constructor]. }
    destruct (map_probe_spec ops t key s Hold) as (r & -> & Hs). exists r. split; [done|].
    destruct Hs as [(i & x & -> & Hx & Ho & He)|[-> Hab]].
    - left. exists i, (s_key x), (s_value x). split; [done|]. split; [|done].
      exists t, i, x. done.
    - right. split; [done|]. by apply probe_absent_view. }
  unfold wp at 1. rewrite Hr.
  destruct Hcases as [(i & k & v & -> & Hh & He)|[-> Hnew]].
  { destruct (Z.leb_spec 0 (Z.of_nat i)); [|lia]. apply wp_ret. eauto 10. }
  cbn. apply wp_bind. eapply wp_conseq; [by apply entry_table_spec| |done].
  intros [[t replacing]|] s1 Hready; [|by apply wp_ret; destruct Hready; split_and!].
  eapply wp_conseq; [by apply (entry_insert_spec s key)| |done].
  intros [o ins] s' [Hi' Hadd]. split; [done|]. destruct o as [i|]; [|done].
  destruct Hadd as [-> Hadd]. split; [done|]. by split.
Qed.
End operations.
