(* ===== verification/MapLifecycle.v ===== *)
(** Removal, iteration and destruction of map entries. The drop hooks are user
    code and may panic in the middle of an operation: what the runtime owes a
    drop is conserved whatever they do, so the unwind's second drop finishes
    exactly what is left. *)
From S2P Require Import Prelude Checked Interfaces MapTable MapInvariant MapRefinement MapSpec.

Section lifecycle.
Context {K V E : Type} {api : AllocApi E} {tot : AllocTotal E}
  (ops : container_ops (K:=K) (V:=V) (E:=E)) {ok : MapOpsOk ops}.
Abbreviation state := (mstate (K:=K) (V:=V) (E:=E)).
Abbreviation ev := (event (K:=K) (V:=V)).
Implicit Types (s : state) (t : table (K:=K) (V:=V)) (m : rt_map (K:=K) (V:=V)).
Implicit Types (x : slot (K:=K) (V:=V)) (xs : list (slot (K:=K) (V:=V))).

(** * Drops made and drops owed *)

Definition is_drop (e : ev) : bool :=
  match e with EvDropKey _ | EvDropValue _ => true | _ => false end.
Definition drops (evs : list ev) : list ev := filter is_drop evs.

(** The hook calls a key, a value and a slot are owed: none where the C hook
    pointer is NULL. *)
Definition key_debt (k : K) : list ev := if has_hook (key_drop ops) then [EvDropKey k] else [].
Definition value_debt (v : V) : list ev := if has_hook (elem_drop ops) then [EvDropValue v] else [].
Definition slot_debt x : list ev :=
  if s_control x =? MAP_OCCUPIED then key_debt (s_key x) ++ value_debt (s_value x)
  else if s_control x =? MAP_VALUE_OWED then value_debt (s_value x)
  else [].
Definition slots_debt (xs : list slot) : list ev := xs ≫= slot_debt.
Definition pending m : list ev :=
  match m_table m with Some t => slots_debt (t_slots t) | None => [] end.

(** The drops made so far and those still owed. *)
Definition account s : list ev := drops (trace s) ++ pending (self s).

Lemma drops_app e1 e2 : drops (e1 ++ e2) = drops e1 ++ drops e2.
Proof. apply filter_app. Qed.

Lemma drops_key_debt k : drops (key_debt k) = key_debt k.
Proof. unfold key_debt. by destruct (has_hook _). Qed.
Lemma drops_value_debt v : drops (value_debt v) = value_debt v.
Proof. unfold value_debt. by destruct (has_hook _). Qed.

Lemma slots_debt_insert xs i x y :
  xs !! i = Some x ->
  slots_debt (<[i:=y]> xs) ++ slot_debt x ≡ₚ slots_debt xs ++ slot_debt y.
Proof.
  intros Hi. unfold slots_debt. rewrite insert_take_drop by (by eapply lookup_lt_Some).
  rewrite <- (take_drop_middle xs i x Hi) at 3.
  rewrite !bind_app. cbn [mbind list_bind]. solve_Permutation.
Qed.

Lemma drops_slot_debt x : drops (slot_debt x) = slot_debt x.
Proof.
  unfold slot_debt. repeat case_match; rewrite ?drops_app, ?drops_key_debt, ?drops_value_debt; done.
Qed.

Lemma drops_slots_debt xs : drops (slots_debt xs) = slots_debt xs.
Proof.
  unfold slots_debt. induction xs as [|x xs IH]; [done|].
  cbn [mbind list_bind] in *. by rewrite drops_app, drops_slot_debt, IH.
Qed.

(** * Hooks *)

Lemma drop_key_spec k s :
  wp (drop_key ops k) (fun _ s' => called s (key_debt k) s') (fun _ s' => called s (key_debt k) s') s.
Proof.
  unfold drop_key, key_debt. destruct (key_drop ops) as [f|] eqn:Hf; cbn [has_hook].
  - apply wp_bind, wp_modify.
    eapply wp_conseq; [by apply wp_outside_total, (key_drop_total (ops:=ops) f k)| |];
      intros ? s' [Hs Ht]; (split; [done|]); by rewrite Ht, app_nil_r.
  - apply wp_ret, called_refl.
Qed.

Lemma drop_value_spec v s :
  wp (drop_value ops v) (fun _ s' => called s (value_debt v) s')
    (fun _ s' => called s (value_debt v) s') s.
Proof.
  unfold drop_value, value_debt. destruct (elem_drop ops) as [f|] eqn:Hf; cbn [has_hook].
  - apply wp_bind, wp_modify.
    eapply wp_conseq; [by apply wp_outside_total, (elem_drop_total (ops:=ops) f v)| |];
      intros ? s' [Hs Ht]; (split; [done|]); by rewrite Ht, app_nil_r.
  - apply wp_ret, called_refl.
Qed.

(** * Dropping one entry *)

(** The map still has the block, the capacity and the provider [m0] has, and
    its slots are [xs]. *)
Definition has_slots m0 s (xs : list slot) : Prop :=
  exists t0 t, m_table m0 = Some t0 /\ m_table (self s) = Some t /\ t_slots t = xs /\
    same_block t0 t /\ m_cap (self s) = m_cap m0 /\ m_allocator (self s) = m_allocator m0.

Lemma has_slots_pending m0 s xs : has_slots m0 s xs -> pending (self s) = slots_debt xs.
Proof. intros (t0 & t & _ & Ht & <- & _). unfold pending. by rewrite Ht. Qed.

Lemma has_slots_self s t : m_table (self s) = Some t -> has_slots (self s) s (t_slots t).
Proof. intros Ht. exists t, t. by split_and!. Qed.

(** What an operation that only drops did between two states. *)
Definition dropped m0 s (evs : list ev) (xs : list slot) s' : Prop :=
  trace s' = trace s ++ evs /\ has_slots m0 s' xs.

Lemma called_dropped m0 s evs xs s1 evs1 s2 :
  dropped m0 s evs xs s1 -> called s1 evs1 s2 -> dropped m0 s (evs ++ evs1) xs s2.
Proof.
  intros [Ht Hx] [Hs2 Ht2]. split; [by rewrite Ht2, Ht, app_assoc|].
  unfold has_slots. by rewrite Hs2.
Qed.

(** Writing one slot of the table, with any counts and length. *)
Lemma write_dropped m0 s s1 evs xs t i y f d :
  dropped m0 s evs xs s1 -> m_table (self s1) = Some t ->
  (forall h, zero_counts (f h) = zero_counts h) ->
  dropped m0 s evs (<[i := y]> xs) (with_self (fun m => add_len d (set_table
    (with_hdr f (Table (t_addr t) (t_hdr t) (<[i := y]> (t_slots t)))) m)) s1).
Proof.
  intros [Htr (t0 & t' & H0 & Ht & <- & [Ha Hz] & Hc & Hal)] Ht' Hf.
  assert (t' = t) as -> by congruence.
  split; [done|]. exists t0. eexists. split; [done|]. split; [done|]. split; [done|].
  split; [|done]. split; [done|]. cbn. by rewrite Hf.
Qed.

Lemma with_hdr_id t : with_hdr (fun h => h) t = t.
Proof. by destruct t. Qed.

Lemma add_len_0 m : add_len 0 m = m.
Proof. destruct m. unfold add_len. cbn. by rewrite Z.add_0_r. Qed.

(** The slot writes that change neither the counts nor the length. *)
Lemma bury_dropped m0 s s1 evs xs t i y :
  dropped m0 s evs xs s1 -> m_table (self s1) = Some t ->
  dropped m0 s evs (<[i := y]> xs) (with_self (set_table
    (Table (t_addr t) (t_hdr t) (<[i := y]> (t_slots t)))) s1).
Proof.
  intros Hd Ht. pose proof (write_dropped m0 s s1 evs xs t i y (fun h => h) 0 Hd Ht) as Hw.
  specialize (Hw (fun h => eq_refl)). rewrite with_hdr_id in Hw.
  unfold with_self in *. by rewrite add_len_0 in Hw.
Qed.

Definition buried x : slot := Slot MAP_TOMBSTONE (s_key x) (s_value x).
Definition owing x : slot := Slot MAP_VALUE_OWED (s_key x) (s_value x).
(** The slot [map_drop_entry] leaves. *)
Definition cleared x : slot :=
  if (s_control x =? MAP_OCCUPIED) || (s_control x =? MAP_VALUE_OWED) then buried x else x.

Lemma cleared_debt x : slot_debt (cleared x) = [].
Proof.
  unfold cleared, slot_debt. destruct (_ || _) eqn:He; [done|].
  apply orb_false_iff in He as [-> ->]. done.
Qed.

Lemma cleared_slots_debt xs : slots_debt (map cleared xs) = [].
Proof.
  unfold slots_debt. induction xs as [|x xs IH]; [done|].
  cbn [map mbind list_bind] in *. by rewrite cleared_debt, IH.
Qed.

(** Leaving slot [i] to a hook that stops: what is still owed of it. *)
Definition half_dropped xs (i : nat) x (evs : list ev) (xs' : list slot) : Prop :=
  (evs = key_debt (s_key x) /\ s_control x = MAP_OCCUPIED /\ xs' = <[i := owing x]> xs) \/
  (evs = slot_debt x /\ xs' = <[i := cleared x]> xs).

(** The first half: the slot leaves the table, then its key's hook runs. *)
Lemma drop_entry_key m0 s s0 evs xs i x t :
  dropped m0 s evs xs s0 -> m_table (self s0) = Some t -> xs !! i = Some x ->
  let occ := s_control x =? MAP_OCCUPIED in
  let xs1 := if occ then <[i := owing x]> xs else xs in
  let evs1 := evs ++ if occ then key_debt (s_key x) else [] in
  wp (if occ then
        let! t := set_slot t (Z.of_nat i) (Slot MAP_VALUE_OWED (s_key x) (s_value x)) in
        modify (with_self (fun m => add_len (-1) (set_table (with_hdr (add_counts (-1) 1) t) m))) ;;;
        drop_key ops (s_key x)
      else ret tt)
    (fun _ s1 => dropped m0 s evs1 xs1 s1) (fun _ s1 => occ = true /\ dropped m0 s evs1 xs1 s1) s0.
Proof.
  intros Hd Ht Hi. cbn zeta. destruct (s_control x =? MAP_OCCUPIED).
  - assert (t_slots t !! i = Some x) as Hti.
    { destruct Hd as [_ (? & ? & _ & ? & <- & _)]. by simplify_eq. }
    apply wp_bind. unfold wp at 1. rewrite (set_slot_nat t i x) by done.
    apply wp_bind, wp_modify.
    pose proof (write_dropped m0 s s0 evs xs t i (owing x) (add_counts (-1) 1) (-1) Hd Ht
      (fun h => eq_refl)) as Hw.
    eapply wp_conseq; [apply drop_key_spec| |]; intros ? s1 Hc;
      [|split; [done|]]; by apply (called_dropped _ _ _ _ _ _ _ Hw Hc).
  - apply wp_ret. by rewrite app_nil_r.
Qed.

Lemma map_drop_entry_spec m0 s s0 evs xs i x :
  dropped m0 s evs xs s0 -> xs !! i = Some x ->
  wp (map_drop_entry ops (Z.of_nat i))
    (fun _ s' => dropped m0 s (evs ++ slot_debt x) (<[i := cleared x]> xs) s')
    (fun _ s' => exists evs' xs', half_dropped xs i x evs' xs' /\
       dropped m0 s (evs ++ evs') xs' s') s0.
Proof.
  intros Hd Hi. pose proof Hd as [_ (t0 & t & _ & Ht & Hxs & _)].
  unfold map_drop_entry. apply wp_bind, wp_gets, wp_bind, (wp_need _ t); [done|].
  apply wp_bind. unfold wp at 1. rewrite (slot_at_nat t i x) by congruence. apply wp_bind.
  eapply wp_conseq; [by apply (drop_entry_key m0 s s0 evs xs i x t)| |].
  2: { intros h s1 [Ho Hd1]. rewrite Ho in Hd1. eexists _, _. split; [|done].
       left. apply Z.eqb_eq in Ho. done. }
  intros ? s1 Hd1. cbn beta in Hd1.
  set (occ := s_control x =? MAP_OCCUPIED) in *.
  set (xs1 := if occ then <[i := owing x]> xs else xs) in *.
  set (owe := occ || (s_control x =? MAP_VALUE_OWED)).
  pose proof Hd1 as [_ (t0' & t1 & _ & Ht1 & Hxs1 & _)].
  assert (exists x1, xs1 !! i = Some x1 /\ s_key x1 = s_key x /\ s_value x1 = s_value x /\
    (s_control x1 =? MAP_VALUE_OWED) = owe) as (x1 & Hx1 & Hk1 & Hv1 & Hc1).
  { unfold xs1, owe. destruct occ.
    - exists (owing x). split_and!; try done. apply list_lookup_insert_eq. by eapply lookup_lt_Some.
    - exists x. done. }
  assert (slot_debt x = (if occ then key_debt (s_key x) else []) ++
    (if owe then value_debt (s_value x) else [])) as Hdebt.
  { unfold slot_debt, owe, occ. destruct (s_control x =? MAP_OCCUPIED); [done|].
    by destruct (s_control x =? MAP_VALUE_OWED). }
  assert (<[i := cleared x]> xs = if owe then <[i := buried x]> xs1 else xs1) as Hslots.
  { unfold cleared, xs1, owe, occ. destruct (s_control x =? MAP_OCCUPIED); cbn.
    - by rewrite list_insert_insert_eq.
    - destruct (s_control x =? MAP_VALUE_OWED); [done|]. by rewrite list_insert_id. }
  apply wp_bind, wp_gets, wp_bind, (wp_need _ t1); [done|].
  apply wp_bind. unfold wp at 1. rewrite (slot_at_nat t1 i x1) by congruence.
  rewrite Hc1, Hdebt, Hslots, app_assoc. destruct owe.
  - apply wp_bind. unfold wp at 1. rewrite (set_slot_nat t1 i x1) by congruence.
    apply wp_bind, wp_modify. rewrite Hv1, Hk1. fold (buried x).
    pose proof (bury_dropped m0 s s1 _ xs1 t1 i (buried x) Hd1 Ht1) as Hd2.
    eapply wp_conseq; [apply drop_value_spec| |]; intros ? s2 Hc.
    + by apply (called_dropped _ _ _ _ _ _ _ Hd2 Hc).
    + exists (slot_debt x), (<[i := buried x]> xs1). split; [right; by rewrite Hslots|].
      rewrite Hdebt, app_assoc. by apply (called_dropped _ _ _ _ _ _ _ Hd2 Hc).
  - apply wp_ret. by rewrite app_nil_r.
Qed.

(** * Dropping every entry *)

Lemma half_dropped_debt xs i x evs xs' :
  xs !! i = Some x -> half_dropped xs i x evs xs' ->
  drops evs = evs /\ evs ++ slots_debt xs' ≡ₚ slots_debt xs.
Proof.
  intros Hi Hh. destruct Hh as [(-> & Ho & ->)|[-> ->]].
  - split; [apply drops_key_debt|].
    pose proof (slots_debt_insert xs i x (owing x) Hi) as Hp.
    assert (slot_debt x = key_debt (s_key x) ++ value_debt (s_value x)) as Hx.
    { unfold slot_debt. by rewrite Ho. }
    rewrite Hx in Hp. unfold slot_debt in Hp. cbn [owing s_control s_value] in Hp.
    cbn [Z.eqb MAP_VALUE_OWED MAP_OCCUPIED Pos.eqb] in Hp.
    rewrite app_assoc in Hp. apply Permutation_app_inv_r in Hp. by rewrite (comm (++)).
  - split.
    + apply drops_slot_debt.
    + pose proof (slots_debt_insert xs i x (cleared x) Hi) as Hp.
      rewrite cleared_debt, app_nil_r in Hp. by rewrite (comm (++)).
Qed.

(** Between two states only drops were made, and what was owed is what was
    dropped and what is owed still. *)
Definition settles m0 s xs s' : Prop :=
  exists evs xs', dropped m0 s evs xs' s' /\ drops evs = evs /\
    evs ++ slots_debt xs' ≡ₚ slots_debt xs /\ length xs' = length xs.

Lemma half_dropped_length xs i x evs xs' : half_dropped xs i x evs xs' -> length xs' = length xs.
Proof. intros [(_ & _ & ->)|[_ ->]]; by rewrite length_insert. Qed.

Lemma drop_entries_spec m0 s ys zs s0 n :
  n = length zs ->
  dropped m0 s (slots_debt ys) (map cleared ys ++ zs) s0 ->
  wp (drop_entries ops n (zlen ys))
    (fun _ s' => dropped m0 s (slots_debt (ys ++ zs)) (map cleared (ys ++ zs)) s')
    (fun _ s' => settles m0 s (ys ++ zs) s') s0.
Proof.
  revert ys s0 n. induction zs as [|z zs IH]; intros ys s0 n -> Hd; cbn [length drop_entries].
  { rewrite !app_nil_r in *. by apply wp_ret. }
  assert ((map cleared ys ++ z :: zs) !! length ys = Some z) as Hi.
  { rewrite lookup_app_r by (by rewrite length_map). by rewrite length_map, Nat.sub_diag. }
  apply wp_bind. eapply wp_conseq; [by eapply map_drop_entry_spec| |].
  - intros ? s1 Hd1. cbn beta in Hd1.
    replace (zlen ys + 1) with (zlen (ys ++ [z])) by (rewrite length_app; cbn; lia).
    replace (ys ++ z :: zs) with ((ys ++ [z]) ++ zs) by (by rewrite <- app_assoc).
    apply IH; [done|].
    unfold slots_debt in *. rewrite bind_app. cbn [mbind list_bind]. rewrite app_nil_r.
    rewrite map_app, <- app_assoc. cbn [map app].
    rewrite insert_app_r_alt in Hd1 by (by rewrite length_map).
    by rewrite length_map, Nat.sub_diag in Hd1.
  - intros h s1 (evs & xs' & Hh & Hd1).
    destruct (half_dropped_debt _ _ _ _ _ Hi Hh) as [He Hp].
    assert (slots_debt (map cleared ys) = []) as Hnil.
    { apply cleared_slots_debt. }
    eexists _, _. split; [exact Hd1|]. split; [|split].
    + by rewrite drops_app, He, drops_slots_debt.
    + rewrite <- app_assoc, Hp. unfold slots_debt in *. by rewrite !bind_app, Hnil.
    + rewrite (half_dropped_length _ _ _ _ _ Hh), !length_app. by rewrite length_map.
Qed.

(** A table block has as many slots as its header says. *)
Definition block_ok m : Prop :=
  forall t, m_table m = Some t -> zlen (t_slots t) = slot_count (t_hdr t).

Lemma map_wf_block_ok m : map_wf ops m -> block_ok m.
Proof.
  intros Hwf t Ht. unfold map_wf in Hwf. rewrite Ht in Hwf.
  apply (wf_length _ _ _ _ (wf_slots _ _ (proj1 Hwf))).
Qed.

Lemma has_slots_block_ok m0 s xs :
  block_ok m0 -> has_slots m0 s xs ->
  (forall t0, m_table m0 = Some t0 -> length xs = length (t_slots t0)) -> block_ok (self s).
Proof.
  intros Hok (t0 & t & H0 & Ht & Hx & Hs & _) Hlen t' Ht'. simplify_eq.
  destruct (same_block_fields _ _ Hs) as [-> _]. rewrite (Hlen _ H0). by apply Hok.
Qed.

(** What a stopped hook leaves: every drop owed at the start was made or is
    owed still, and the map is in a state a second drop accepts. *)
Definition recoverable s s' : Prop := account s' ≡ₚ account s /\ block_ok (self s').

Lemma settles_recoverable m0 s xs s' :
  block_ok m0 -> (forall t0, m_table m0 = Some t0 -> length xs = length (t_slots t0)) ->
  has_slots m0 s xs -> settles m0 s xs s' -> recoverable s s'.
Proof.
  intros Hok Hlen Hs (evs & xs' & [Ht Hs'] & He & Hp & Hl). split.
  - unfold account.
    rewrite (has_slots_pending _ _ _ Hs), (has_slots_pending _ _ _ Hs'), Ht, drops_app, He.
    by rewrite <- app_assoc, Hp.
  - eapply has_slots_block_ok; [done|exact Hs'|]. intros. rewrite Hl. by apply Hlen.
Qed.

Lemma drop_all_spec t s :
  m_table (self s) = Some t -> block_ok (self s) ->
  wp (drop_entries ops (Z.to_nat (slot_count (t_hdr t))) 0)
    (fun _ s' => dropped (self s) s (slots_debt (t_slots t)) (map cleared (t_slots t)) s')
    (fun _ s' => recoverable s s') s.
Proof.
  intros Ht Hok. pose proof (Hok t Ht) as Hn.
  pose proof (has_slots_self s t Ht) as Hs.
  eapply wp_conseq; [apply (drop_entries_spec (self s) s [] (t_slots t) s)| |].
  - lia.
  - split; [by rewrite app_nil_r|done].
  - done.
  - intros h s' Hset. eapply settles_recoverable; [exact Hok| |exact Hs|exact Hset].
    intros t0 Ht0. by rewrite Ht in Ht0; injection Ht0 as <-.
Qed.

Lemma ledger_drops held evs : drops evs = evs -> ledger_from held evs = held.
Proof.
  intros He. assert (Forall is_drop evs) as Hall.
  { rewrite <- He. apply Forall_forall. intros e Hin.
    apply list_elem_of_filter in Hin as [? _]. done. }
  clear He. unfold ledger_from. revert held.
  induction Hall as [|e evs He _ IH]; intros held; [done|]. cbn [foldl].
  destruct e; try done; apply IH.
Qed.

(** ** [map_drop] *)

Lemma no_hooks_pending m :
  has_hook (key_drop ops) || has_hook (elem_drop ops) = false -> pending m = [].
Proof.
  intros [Hk Hv]%orb_false_iff. unfold pending, slots_debt.
  destruct (m_table m) as [t|]; [|done].
  induction (t_slots t) as [|x xs IH]; [done|]. cbn [mbind list_bind] in *. rewrite IH, app_nil_r.
  unfold slot_debt, key_debt, value_debt. rewrite Hk, Hv. by repeat case_match.
Qed.

Lemma map_drop_spec s :
  block_ok (self s) ->
  wp (map_drop ops)
    (fun _ s' => self s' = zero_map /\ drops (trace s') = drops (trace s) ++ pending (self s) /\
       (ledger (trace s) = Some (owned (self s)) -> ledger (trace s') = Some []))
    (fun _ s' => recoverable s s') s.
Proof.
  intros Hok. unfold map_drop. apply wp_bind, wp_gets.
  destruct (m_table (self s)) as [t|] eqn:Ht.
  2: { apply wp_modify. cbn [self trace with_self]. split; [done|]. unfold pending, owned. rewrite Ht, app_nil_r. done. }
  apply wp_bind.
  eapply (wp_conseq _ (fun _ s' => exists evs xs,
    dropped (self s) s evs xs s' /\ drops evs = evs /\ evs = pending (self s) /\ slots_debt xs = [] /\ length xs = length (t_slots t))
    _ (fun _ s' => recoverable s s')).
  { destruct (_ || _) eqn:Hh.
    - eapply wp_conseq; [by apply drop_all_spec| |done]. intros ? s1 Hd.
      eexists _, _. split; [exact Hd|]. split; [apply drops_slots_debt|].
      split; [unfold pending; by rewrite Ht|]. split; [apply cleared_slots_debt|by rewrite length_map].
    - apply wp_ret. exists [], (t_slots t). split.
      + split; [by rewrite app_nil_r|by apply has_slots_self].
      + split; [done|]. rewrite no_hooks_pending by done. split; [done|].
        split; [|done]. rewrite <- (no_hooks_pending (self s) Hh). unfold pending. by rewrite Ht. }
  2: done.
  intros _ s1 (evs & xs & [Htr Hs1] & He & -> & Hnil & Hlen). 
  pose proof Hs1 as (t0 & t1 & H0 & Ht1 & _ & Hsame & _ & Hal). rewrite Ht in H0.
  injection H0 as <-. destruct (same_block_fields _ _ Hsame) as (_ & _ & Hsz & Halign).
  apply wp_bind, wp_gets, wp_bind, (wp_need _ t1); [done|]. apply wp_bind.
  eapply wp_conseq; [apply map_free_block_spec| |].
  - intros _ s2 [Hs2 Ht2]. apply wp_modify. cbn [self trace with_self]. split; [done|].
    rewrite Ht2, Htr, !drops_app, He. cbn [drops filter list_filter]. rewrite app_nil_r.
    split; [done|]. intros Hl. rewrite <- app_assoc, ledger_app, Hl.
    unfold ledger_from. rewrite foldl_app. fold (ledger_from (Some (owned (self s))) (pending (self s))).
    rewrite ledger_drops by done. cbn [foldl ledger_step]. unfold owned. rewrite Ht, Hal, Hsz, Halign.
    rewrite (proj1 Hsame). apply release_head.
  - intros _ s2 [Hs2 Ht2]. split.
    2: { rewrite Hs2. eapply has_slots_block_ok; [exact Hok|exact Hs1|].
         intros t2 Ht2'. rewrite Ht in Ht2'. injection Ht2' as <-. done. }
    unfold account. rewrite Hs2, (has_slots_pending _ _ _ Hs1), Hnil, app_nil_r, Ht2, Htr, !drops_app, He.
    cbn [drops filter list_filter]. by rewrite app_nil_r.
Qed.

(** ** [map_clear] *)

Lemma slots_wf_emptied n sd xs :
  zlen xs = n -> slots_wf ops n sd (empty_slot <$> xs).
Proof.
  intros Hn. split.
  - by rewrite length_fmap.
  - apply Forall_fmap, Forall_true. by left.
  - intros i j x y Hx _ Ho. apply list_lookup_fmap_Some in Hx as (? & -> & _). done.
  - intros i x Hx Ho. apply list_lookup_fmap_Some in Hx as (? & -> & _). done.
Qed.

Lemma entries_emptied xs : entries (empty_slot <$> xs) = [].
Proof. unfold entries. induction xs as [|x xs IH]; done. Qed.

Lemma tombs_emptied xs : tombs (empty_slot <$> xs) = 0%nat.
Proof.
  unfold tombs. induction xs as [|x xs IH]; [done|].
  rewrite fmap_cons, filter_cons. by case_decide.
Qed.

Lemma table_wf_emptied t a :
  table_wf ops t -> forall t1, same_block t t1 -> length (t_slots t1) = length (t_slots t) ->
  table_wf ops (Table a (zero_counts (t_hdr t1)) (empty_slot <$> t_slots t1)).
Proof.
  intros Hwf t1 Hs Hlen. destruct (same_block_fields _ _ Hs) as (Hn & _).
  pose proof (slot_count_bounds ops t Hwf).
  split; cbn [t_hdr t_slots zero_counts slot_count seed occupied tombstones]; rewrite ?Hn.
  - apply (wf_slot_count _ _ Hwf).
  - apply slots_wf_emptied. rewrite Hlen. apply (wf_length _ _ _ _ (wf_slots _ _ Hwf)).
  - unfold table_entries. cbn [t_slots]. by rewrite entries_emptied.
  - by rewrite tombs_emptied.
  - pose proof (map_capacity_of_bounds (slot_count (t_hdr t))). lia.
Qed.

Lemma map_clear_spec s :
  inv ops s ->
  wp (map_clear ops)
    (fun _ s' => inv ops s' /\ view (self s') = [] /\ m_cap (self s') = m_cap (self s) /\
       drops (trace s') = drops (trace s) ++ pending (self s))
    (fun _ s' => recoverable s s') s.
Proof.
  intros [Hwf Hl]. pose proof (map_wf_block_ok _ Hwf) as Hok. unfold map_clear.
  apply wp_bind, wp_gets. destruct (m_table (self s)) as [t|] eqn:Ht.
  2: { apply wp_ret. split; [done|]. unfold view, pending. rewrite Ht, app_nil_r. done. }
  apply wp_bind. eapply wp_conseq; [by apply drop_all_spec| |done].
  intros ? s1 [Htr Hs1]. apply wp_bind, wp_gets.
  pose proof Hs1 as (t0 & t1 & H0 & Ht1 & Hx1 & Hsame & Hcap & Hal).
  rewrite Ht in H0. injection H0 as <-.
  apply wp_bind, (wp_need _ t1); [done|]. apply wp_modify.
  unfold map_wf in Hwf. rewrite Ht in Hwf. destruct Hwf as (Htw & Hlen & Hcap0 & Ha).
  destruct (same_block_fields _ _ Hsame) as (Hn & _ & Hsz & Halign).
  split; [split|].
  - unfold map_wf. cbn [self with_self m_table m_len m_cap m_allocator]. split_and!; try done.
    + eapply (table_wf_emptied t); [done|done|]. by rewrite Hx1, length_map.
    + cbn [t_hdr zero_counts slot_count]. by rewrite Hn, Hcap, Hcap0.
    + by rewrite Hal.
  - cbn [trace with_self]. rewrite Htr, ledger_app, ledger_drops, Hl by apply drops_slots_debt.
    unfold owned. rewrite Ht. cbn [self with_self m_table m_allocator]. unfold block_of.
    cbn [t_addr t_hdr zero_counts block_size block_align].
    by rewrite Hal, Hsz, Halign, (proj1 Hsame).
  - unfold view. cbn [self with_self m_table old_entries trace]. unfold table_entries.
    cbn [t_slots]. rewrite entries_emptied. split; [done|]. split; [done|].
    rewrite Htr, drops_app, drops_slots_debt. unfold pending. by rewrite Ht.
Qed.

(** ** [map_remove] *)

Definition bury_at t (i : nat) (c : Z) x : table (K:=K) (V:=V) :=
  Table (t_addr t) (add_counts (-1) 1 (t_hdr t)) (<[i := Slot c (s_key x) (s_value x)]> (t_slots t)).

Lemma table_wf_bury t i x :
  table_wf ops t -> t_slots t !! i = Some x -> is_occupied x = true ->
  table_wf ops (bury_at t i MAP_TOMBSTONE x) /\
  table_entries t ≡ₚ (s_key x, s_value x) :: table_entries (bury_at t i MAP_TOMBSTONE x).
Proof.
  intros Hwf Hi Ho.
  pose proof (entries_insert_taken (t_slots t) i x MAP_TOMBSTONE Hi Ho ltac:(done)) as Hperm.
  pose proof (count_insert (fun x => s_control x = MAP_TOMBSTONE) (t_slots t) i x
    (Slot MAP_TOMBSTONE (s_key x) (s_value x)) Hi) as Hcount.
  unfold is_occupied in Ho. apply Z.eqb_eq in Ho. cbn in Hcount. rewrite Ho in Hcount.
  repeat case_decide; try done.
  pose proof (wf_load _ _ Hwf). pose proof (wf_occupied _ _ Hwf) as Hocc.
  split; [|done]. split; cbn.
  - apply (wf_slot_count _ _ Hwf).
  - eapply slots_wf_bury; [by apply wf_slots|done|by rewrite Ho|done].
  - unfold table_entries in *. cbn [t_slots bury_at]. rewrite Hperm, length_cons in Hocc. unfold entries in *. lia.
  - rewrite (wf_tombstones _ _ Hwf). unfold tombs in *. lia.
  - lia.
Qed.

(** The map once the entry of slot [i] counts as gone. *)
Definition without_entry (m : rt_map (K:=K) (V:=V)) t (i : nat) (c : Z) x : rt_map :=
  add_len (-1) (set_table (bury_at t i c x) m).

(** A drop callback of the key that unwinds leaves the value owed, the
    account as it was. *)
Lemma removed_fault s s2 t i x :
  m_table (self s) = Some t -> t_slots t !! i = Some x -> is_occupied x = true ->
  self s2 = without_entry (self s) t i MAP_VALUE_OWED x -> trace s2 = trace s ++ key_debt (s_key x) ->
  account s2 ≡ₚ account s /\ view (self s) ≡ₚ (s_key x, s_value x) :: view (self s2).
Proof.
  intros Ht Hi Ho Hs2 Ht2. split.
  - unfold account, pending. rewrite Hs2, Ht2, Ht. cbn [without_entry set_table add_len m_table bury_at t_slots].
    pose proof (slots_debt_insert (t_slots t) i x (owing x) Hi) as Hp.
    unfold is_occupied in Ho. unfold slot_debt in Hp. rewrite Ho in Hp.
    cbn [owing s_control s_key s_value Z.eqb MAP_VALUE_OWED MAP_OCCUPIED Pos.eqb] in Hp.
    rewrite app_assoc in Hp. apply Permutation_app_inv_r in Hp.
    rewrite drops_app, drops_key_debt, <- app_assoc, (comm (++) (key_debt _)).
    by rewrite Hp.
  - unfold view. rewrite Hs2, Ht. cbn [without_entry set_table add_len m_table old_entries].
    exact (entries_insert_taken (t_slots t) i x MAP_VALUE_OWED Hi Ho ltac:(done)).
Qed.

(** The value moved out and the slot a tombstone: the invariant holds again. *)
Lemma removed_inv s s3 t i x :
  inv ops s -> m_table (self s) = Some t -> t_slots t !! i = Some x -> is_occupied x = true ->
  self s3 = without_entry (self s) t i MAP_TOMBSTONE x -> trace s3 = trace s ++ key_debt (s_key x) ->
  inv ops s3 /\ view (self s) ≡ₚ (s_key x, s_value x) :: view (self s3) /\ m_cap (self s3) = m_cap (self s).
Proof.
  intros [Hwf Hl] Ht Hi Ho Hs3 Ht3. unfold map_wf in Hwf. rewrite Ht in Hwf.
  destruct Hwf as (Htw & Hlen & Hcap & Ha). destruct (table_wf_bury t i x Htw Hi Ho) as [Htw' Hperm].
  split; [split|].
  - unfold map_wf. rewrite Hs3. cbn [without_entry set_table add_len m_table m_len m_cap m_allocator].
    split_and!; [done|cbn; lia|done|done].
  - rewrite Ht3, ledger_app, ledger_drops, Hl by apply drops_key_debt.
    unfold owned. rewrite Hs3, Ht. done.
  - unfold view. rewrite Hs3, Ht. cbn [without_entry set_table add_len m_table old_entries m_cap]. done.
Qed.

Lemma map_remove_spec key s :
  inv ops s ->
  wp (map_remove ops key)
    (fun r s' => inv ops s' /\
       match r with
       | None => self s' = self s /\ trace s' = trace s /\ no_key ops (view (self s)) key
       | Some v => exists k, key_equal ops k key = true /\
           view (self s) ≡ₚ (k, v) :: view (self s') /\ trace s' = trace s ++ key_debt k /\
           m_cap (self s') = m_cap (self s)
       end)
    (fun _ s' => account s' ≡ₚ account s /\ exists k v, key_equal ops k key = true /\
       view (self s) ≡ₚ (k, v) :: view (self s')) s.
Proof.
  intros Hinv. pose proof Hinv as [Hwf Hl]. unfold map_remove. apply wp_bind, wp_gets.
  destruct (m_table (self s)) as [t|] eqn:Ht.
  2: { apply wp_ret. split; [done|]. split; [done|]. split; [done|]. unfold view. rewrite Ht. constructor. }
  pose proof Hwf as Hwf'. unfold map_wf in Hwf'. rewrite Ht in Hwf'.
  destruct Hwf' as (Htw & Hlen & Hcap & Ha).
  destruct (Z.eqb_spec (m_len (self s)) 0) as [H0|H0].
  { apply wp_ret. split; [done|]. split; [done|]. split; [done|].
    unfold view. rewrite Ht. cbn. rewrite Hlen, (wf_occupied _ _ Htw) in H0.
    destruct (table_entries t); [constructor|done]. }
  apply wp_bind. destruct (map_probe_spec ops t key s Htw) as (r & Hr & Hs).
  unfold wp at 1. rewrite Hr. destruct Hs as [(i & x & -> & Hi & Ho & He)|[-> Hab]].
  2: { change (-1 <? 0) with true. cbv iota. apply wp_ret. split; [done|]. split; [done|]. split; [done|]. unfold view. rewrite Ht.
       by apply probe_absent_view. }
  destruct (Z.ltb_spec (Z.of_nat i) 0); [lia|].
  apply wp_bind. unfold wp at 1. rewrite (slot_at_nat t i x) by done.
  apply wp_bind. unfold wp at 1. rewrite (set_slot_nat t i x) by done.
  apply wp_bind, wp_modify, wp_bind.
  change (with_hdr _ (Table _ _ _)) with (bury_at t i MAP_VALUE_OWED x).
  change (with_self _ s) with (with_self (fun _ => without_entry (self s) t i MAP_VALUE_OWED x) s).
  eapply wp_conseq; [apply drop_key_spec| |].
  2: { intros h s2 [Hs2 Ht2]. destruct (removed_fault s s2 t i x) as [Hacc Hv]; [done..|].
    split; [done|]. by exists (s_key x), (s_value x). }
  intros _ s2 [Hs2 Ht2]. cbn [self with_self trace] in Hs2, Ht2.
  apply wp_bind, wp_gets, wp_bind, (wp_need _ (bury_at t i MAP_VALUE_OWED x)); [by rewrite Hs2|].
  assert (t_slots (bury_at t i MAP_VALUE_OWED x) !! i = Some (owing x)) as Hi2.
  { cbn. apply list_lookup_insert_eq. by eapply lookup_lt_Some. }
  apply wp_bind. unfold wp at 1. rewrite (slot_at_nat _ i (owing x)) by done.
  apply wp_bind. unfold wp at 1. rewrite (set_slot_nat _ i (owing x)) by done.
  apply wp_bind, wp_modify, wp_ret.
  cbn [bury_at t_addr t_hdr t_slots owing s_key s_value]. rewrite list_insert_insert_eq.
  change (Table (t_addr t) _ _) with (bury_at t i MAP_TOMBSTONE x).
  destruct (removed_inv s (with_self (set_table (bury_at t i MAP_TOMBSTONE x)) s2) t i x)
    as (Hinv' & Hv & Hcp); [done..|by cbn; rewrite Hs2|done|].
  split; [done|]. by exists (s_key x).
Qed.
End lifecycle.
