(* ===== verification/MapClone.v ===== *)
(** Cloning a map and walking it: a clone is independent slot by slot and a
    clone that fails destroys exactly the prefix it built; a walk from cursor 0
    answers every live entry once. *)
From S2P Require Import Prelude Checked Interfaces MapTable MapInvariant MapRefinement MapSpec MapLifecycle.

Section clone.
Context {K V E : Type} {api : AllocApi E} {tot : AllocTotal E}
  (ops : container_ops (K:=K) (V:=V) (E:=E)) {ok : MapOpsOk ops}.
Abbreviation state := (mstate (K:=K) (V:=V) (E:=E)).
Abbreviation ev := (event (K:=K) (V:=V)).
Implicit Types (s : state) (t : table (K:=K) (V:=V)) (m : rt_map (K:=K) (V:=V)).
Implicit Types (x y : slot (K:=K) (V:=V)) (xs : list (slot (K:=K) (V:=V))).

(** * Walking *)

(** The loop of a generated iterator: one integer, no table knowledge. *)
Fixpoint walk (fuel : nat) (t : option table) (cursor : Z) {struct fuel} : M state (list (K * V)) :=
  match fuel with
  | O => no_fuel
  | Datatypes.S fuel =>
      let! r := map_scan t cursor in
      match r with
      | None => ret []
      | Some (x, cursor) => let! l := walk fuel t cursor in ret ((s_key x, s_value x) :: l)
      end
  end.

Lemma map_scan_loop_spec t i n s :
  (n + i = length (t_slots t))%nat ->
  exists r, map_scan_loop n t (Z.of_nat i) s = Ok r s /\
    match r with
    | None => entries (drop i (t_slots t)) = []
    | Some (x, c) => exists j, (i < j <= length (t_slots t))%nat /\ c = Z.of_nat j /\
        entries (drop i (t_slots t)) = (s_key x, s_value x) :: entries (drop j (t_slots t))
    end.
Proof.
  revert i. induction n as [|n IH]; intros i Hn; cbn [map_scan_loop].
  { exists None. split; [done|]. by rewrite drop_ge by lia. }
  destruct (lookup_lt_is_Some_2 (t_slots t) i ltac:(lia)) as [x Hx].
  unfold bind. rewrite (slot_at_nat t i x) by done.
  assert (entries (drop i (t_slots t)) = option_list (entry_of x) ++ entries (drop (S i) (t_slots t)))
    as He.
  { rewrite (drop_S _ x) by done. unfold entries. cbn [omap list_omap]. by destruct (entry_of x). }
  rewrite He. replace (Z.of_nat i + 1) with (Z.of_nat (S i)) by lia.
  destruct (is_occupied x) eqn:Ho; unfold is_occupied in Ho; rewrite Ho; cbn [negb].
  - eexists. split; [done|]. exists (S i). split; [lia|]. split; [done|].
    by rewrite entry_of_taken.
  - rewrite entry_of_free by done. destruct (IH (S i) ltac:(lia)) as (r & -> & Hr).
    exists r. split; [done|]. destruct r as [[y c]|]; [|done].
    destruct Hr as (j & ? & ? & ?). exists j. split; [lia|]. done.
Qed.

Lemma walk_spec t i fuel s :
  zlen (t_slots t) = slot_count (t_hdr t) -> (i <= length (t_slots t))%nat ->
  (length (t_slots t) - i < fuel)%nat ->
  walk fuel (Some t) (Z.of_nat i) s = Ok (entries (drop i (t_slots t))) s.
Proof.
  intros Hn. revert i. induction fuel as [|fuel IH]; intros i Hi Hf; [lia|].
  cbn [walk]. unfold bind at 1, map_scan.
  destruct (Z.ltb_spec (Z.of_nat i) 0); [lia|].
  destruct (map_scan_loop_spec t i (Z.to_nat (slot_count (t_hdr t) - Z.of_nat i)) s ltac:(lia))
    as (r & -> & Hr).
  destruct r as [[x c]|]; [|by rewrite Hr].
  destruct Hr as (j & Hj & -> & ->). unfold bind. rewrite IH by lia. done.
Qed.

(** * Copies *)

(** A clone thunk made [c'] of [c], or the copy is the representation. *)
Definition cloned {C} (hook : option (C -> handle -> M E (option C))) (a : handle) (c c' : C) : Prop :=
  match hook with
  | None => c' = c
  | Some f => exists e e', f c a e = Ok (Some c') e'
  end.

Definition copy_of (a : handle) x y : Prop :=
  if is_occupied x then
    s_control y = MAP_OCCUPIED /\ cloned (key_clone ops) a (s_key x) (s_key y) /\
    cloned (elem_clone ops) a (s_value x) (s_value y)
  else y = if s_control x =? MAP_VALUE_OWED then buried x else x.

Lemma cloned_key_equal a k k' : cloned (key_clone ops) a k k' -> key_equal ops k' k = true.
Proof.
  unfold cloned. destruct (key_clone ops) as [f|] eqn:Hf; [|intros ->; apply equal_refl].
  intros (e & e' & He). pose proof (key_clone_equal (ops:=ops) f k a e Hf) as Hw.
  unfold wp in Hw. by rewrite He in Hw.
Qed.

Lemma copy_of_control a x y : control_ok x -> copy_of a x y -> s_control y = s_control x.
Proof.
  unfold copy_of, is_occupied. intros Hx.
  destruct (Z.eqb_spec (s_control x) MAP_OCCUPIED) as [->|Hne]; [by intros [? _]|].
  destruct Hx as [Hx|[Hx|Hx]]; rewrite Hx; cbn; by intros ->.
Qed.

Lemma copy_of_occupied a x y :
  control_ok x -> copy_of a x y -> is_occupied y = true ->
  is_occupied x = true /\ key_equal ops (s_key y) (s_key x) = true.
Proof.
  intros Hx Hc Hy. pose proof (copy_of_control a x y Hx Hc) as He.
  unfold is_occupied in *. rewrite <- He. split; [done|].
  unfold copy_of, is_occupied in Hc. rewrite <- He, Hy in Hc.
  destruct Hc as (_ & Hk & _). by apply (cloned_key_equal a).
Qed.

(** The slots of a clone are in the places of the source's, so no probe run
    depends on hashing a cloned key. *)
Lemma slots_wf_copy a n sd xs ys :
  slots_wf ops n sd xs -> Forall2 (copy_of a) xs ys -> slots_wf ops n sd ys.
Proof.
  intros Hwf Hc. pose proof (wf_controls _ _ _ _ Hwf) as Hctl.
  assert (forall i y, ys !! i = Some y -> exists x, xs !! i = Some x /\ copy_of a x y /\
    control_ok x) as Hback.
  { intros i y Hy. destruct (Forall2_lookup_r _ _ _ _ _ Hc Hy) as (x & Hx & ?).
    exists x. split; [done|]. split; [done|]. by eapply (Forall_lookup_1 _ xs). }
  split.
  - rewrite <- (Forall2_length _ _ _ Hc). apply (wf_length _ _ _ _ Hwf).
  - apply Forall_lookup. intros i y Hy. destruct (Hback i y Hy) as (x & Hx & Hxy & Hok).
    unfold control_ok. by rewrite (copy_of_control a x y).
  - intros i j y1 y2 H1 H2 Ho1 Ho2 He.
    destruct (Hback i y1 H1) as (x1 & Hx1 & Hc1 & Hok1), (Hback j y2 H2) as (x2 & Hx2 & Hc2 & Hok2).
    destruct (copy_of_occupied _ _ _ Hok1 Hc1 Ho1) as [Hox1 Hk1].
    destruct (copy_of_occupied _ _ _ Hok2 Hc2 Ho2) as [Hox2 Hk2].
    eapply (wf_distinct _ _ _ _ Hwf); try done.
    apply (equal_trans _ (s_key y1)); [by apply equal_sym|]. by apply (equal_trans _ (s_key y2)).
  - intros i y Hy Ho j Hj. destruct (Hback i y Hy) as (x & Hx & Hxy & Hok).
    destruct (copy_of_occupied _ _ _ Hok Hxy Ho) as [Hox Hk].
    rewrite (home_equal ops _ _ _ _ Hk) in *.
    destruct (wf_reach _ _ _ _ Hwf i x Hx Hox j Hj) as (z & Hz & Hne).
    destruct (Forall2_lookup_l _ _ _ _ _ Hc Hz) as (z' & Hz' & Hzz). exists z'. split; [done|].
    rewrite (copy_of_control a z z'); [done| |done]. by eapply (Forall_lookup_1 _ xs).
Qed.

Lemma copy_entries a xs ys :
  Forall control_ok xs -> Forall2 (copy_of a) xs ys ->
  Forall2 (fun p q => cloned (key_clone ops) a p.1 q.1 /\ cloned (elem_clone ops) a p.2 q.2)
    (entries xs) (entries ys).
Proof.
  intros Hok Hc. induction Hc as [|x y xs ys Hxy Hc IH]; [constructor|].
  apply Forall_cons in Hok as [Hx Hok]. specialize (IH Hok). unfold entries in *. cbn [omap list_omap].
  destruct (is_occupied x) eqn:Ho.
  - pose proof (copy_of_control a x y Hx Hxy) as He.
    rewrite (entry_of_taken x Ho), (entry_of_taken y)
      by (unfold is_occupied in *; by rewrite He).
    unfold copy_of in Hxy. rewrite Ho in Hxy. destruct Hxy as (_ & Hk & Hv). by constructor.
  - pose proof (copy_of_control a x y Hx Hxy) as He.
    rewrite (entry_of_free x Ho), (entry_of_free y)
      by (unfold is_occupied in *; by rewrite He). done.
Qed.

Lemma copy_tombs a xs ys :
  Forall control_ok xs -> Forall2 (copy_of a) xs ys -> tombs ys = tombs xs.
Proof.
  intros Hok Hc. unfold tombs. induction Hc as [|x y xs ys Hxy Hc IH]; [done|].
  apply Forall_cons in Hok as [Hx Hok]. specialize (IH Hok). rewrite !filter_cons.
  pose proof (copy_of_control a x y Hx Hxy) as He.
  repeat case_decide; cbn; congruence.
Qed.

(** * The clone loop *)

Definition not_owed x : Prop := s_control x <> MAP_VALUE_OWED.

(** The calls of clone hooks that make the slot [y] of [x], and the slots [ys]
    of [xs]. *)
Definition key_calls (k k' : K) : list ev := if has_hook (key_clone ops) then [EvCloneKey k (Some k')] else [].
Definition value_calls (v v' : V) : list ev := if has_hook (elem_clone ops) then [EvCloneValue v (Some v')] else [].
Definition copy_calls x y : list ev :=
  if is_occupied x then key_calls (s_key x) (s_key y) ++ value_calls (s_value x) (s_value y) else [].
Definition all_calls xs ys : list ev := concat (zip_with copy_calls xs ys).

Lemma all_calls_snoc xs ys x y : length xs = length ys -> all_calls (xs ++ [x]) (ys ++ [y]) = all_calls xs ys ++ copy_calls x y.
Proof. intros Hl. unfold all_calls. rewrite zip_with_app, concat_app by done. cbn. by rewrite app_nil_r. Qed.

Lemma all_calls_hooks xs ys : Forall (fun e => is_hook e && negb (is_drop e)) (all_calls xs ys).
Proof.
  unfold all_calls. revert ys. induction xs as [|x xs IH]; intros [|y ys]; cbn; [done..|].
  apply Forall_app. split; [|apply IH]. unfold copy_calls, key_calls, value_calls.
  destruct (is_occupied x), (has_hook (key_clone ops)), (has_hook (elem_clone ops)); by repeat constructor.
Qed.

(** The slot [x] whose clone was refused: its key was, or its value after the
    key, which is then destroyed. *)
Definition half_cloned a x (calls extra : list ev) : Prop :=
  is_occupied x = true /\
  ((has_hook (key_clone ops) = true /\ calls = [EvCloneKey (s_key x) None] /\ extra = []) \/
   (has_hook (elem_clone ops) = true /\ exists k, cloned (key_clone ops) a (s_key x) k /\
      calls = key_calls (s_key x) k ++ [EvCloneValue (s_value x) None] /\ extra = key_debt ops k)).

(** Where the loop ends: past the last slot, or at the slot whose clone
    failed, with the copies of the slots before it. *)
Definition cloned_up_to a xs s (f : table (K:=K) (V:=V)) (j : Z) s' : Prop :=
  (j = zlen xs /\ Forall2 (copy_of a) xs (t_slots f) /\ called s (all_calls xs (t_slots f)) s') \/
  (exists i x built rest calls extra, j = Z.of_nat i /\ xs !! i = Some x /\ t_slots f = built ++ rest /\
     Forall2 (copy_of a) (take i xs) built /\ half_cloned a x calls extra /\
     called s (all_calls (take i xs) built ++ calls ++ extra) s').

Lemma clone_cell {C} (note : C -> option C -> ev) (hook : option (C -> handle -> M E (option C))) (a : handle) (c : C) s :
  (forall f, hook = Some f -> well_behaved (f c a)) ->
  wp (match hook with Some f => call_clone note f c a | None => ret (Some c) end)
    (fun r s' => match r with
       | Some c' => called s (if has_hook hook then [note c (Some c')] else []) s' /\ cloned hook a c c'
       | None => called s [note c None] s' /\ has_hook hook = true
       end)
    (fun _ s' => called s [] s') s.
Proof.
  intros Hf. unfold cloned. destruct hook as [f|]; cbn [has_hook].
  - specialize (Hf f eq_refl (env s)).
    eapply wp_conseq; [apply (wp_call_clone note f c a (fun r e' => f c a (env s) = Ok r e'))| |done].
    + unfold wp in *. by destruct (f c a (env s)).
    + intros r s' [Hc Hr]. destruct r as [c'|]; eauto.
  - apply wp_ret. split; [apply called_refl|done].
Qed.

Lemma key_clone_total k a f : key_clone ops = Some f -> well_behaved (f k a).
Proof.
  intros Hf e. eapply wp_conseq; [by apply (key_clone_equal (ops:=ops))|done|done].
Qed.

(** How the loop over the slots [xs] answers from the table [fresh]. *)
Definition clone_ends a xs s (fresh : table (K:=K) (V:=V)) (r : table * Z) s' : Prop :=
  t_addr r.1 = t_addr fresh /\ t_hdr r.1 = t_hdr fresh /\ cloned_up_to a xs s r.1 r.2 s'.

Lemma clone_stops a xs x ys s (fresh f : table) built rest calls extra s' :
  t_addr f = t_addr fresh -> t_hdr f = t_hdr fresh -> t_slots f = built ++ rest ->
  Forall2 (copy_of a) xs built -> half_cloned a x calls extra ->
  called s (all_calls xs built ++ calls ++ extra) s' ->
  clone_ends a (xs ++ x :: ys) s fresh (f, zlen xs) s'.
Proof.
  intros Ha Hh Hf Hc Hx Hs. split; [done|]. split; [done|]. right.
  exists (length xs), x, built, rest, calls, extra. split; [done|].
  split; [by apply list_lookup_middle|]. split; [done|]. by rewrite take_app_length.
Qed.

Lemma insert_middle (xs : list slot) x ys i z : i = length xs -> <[i := z]> (xs ++ x :: ys) = (xs ++ [z]) ++ ys.
Proof. intros ->. rewrite insert_app_r_alt by lia. by rewrite Nat.sub_diag, <- app_assoc. Qed.

(** An occupied slot: both clones through, and on to the next slot; or the
    loop stops here, the key of a value that has no clone given back. *)
Lemma clone_occupied a source fresh s s0 n xs x ys built :
  t_slots source !! length xs = Some x -> s_control x = MAP_OCCUPIED ->
  t_slots fresh = built ++ x :: ys -> Forall2 (copy_of a) xs built -> called s (all_calls xs built) s0 ->
  (forall f z s1, t_slots f = (built ++ [z]) ++ ys -> copy_of a x z ->
     t_addr f = t_addr fresh -> t_hdr f = t_hdr fresh -> called s (all_calls (xs ++ [x]) (built ++ [z])) s1 ->
     wp (clone_slots ops n source f (zlen xs + 1) a) (clone_ends a (xs ++ x :: ys) s fresh)
       (fun _ s' => self s' = self s) s1) ->
  wp (clone_slots ops (Datatypes.S n) source fresh (zlen xs) a) (clone_ends a (xs ++ x :: ys) s fresh)
    (fun _ s' => self s' = self s) s0.
Proof.
  intros Hsx Ho Hfr Hc Hs0 Hnext. pose proof (Forall2_length _ _ _ Hc) as Hlen. cbn [clone_slots].
  assert (t_slots fresh !! length xs = Some x) as Hfx by (rewrite Hfr, Hlen; by apply list_lookup_middle).
  assert (is_occupied x = true) as Hocc by (unfold is_occupied; by rewrite Ho).
  unfold copy_of in Hnext. rewrite Hocc in Hnext.
  apply wp_bind. unfold wp at 1. rewrite (slot_at_nat fresh (length xs) x), Ho by done. cbn [negb Z.eqb].
  apply wp_bind. unfold wp at 1. rewrite (slot_at_nat source (length xs) x) by done.
  apply wp_bind. eapply wp_conseq;
    [apply (clone_cell EvCloneKey (key_clone ops) a (s_key x)); intros f; apply key_clone_total| |].
  2: { intros h s1 [Hs1 _]. destruct Hs0 as [Hs0 _]. congruence. }
  intros [k|] s1 [Hs1 Hk]; cbn beta; pose proof (called_trans _ _ _ _ _ Hs0 Hs1) as Hs01.
  2: { apply wp_ret. eapply clone_stops; [done..|split; [done|by left]|by rewrite app_nil_r]. }
  fold (key_calls (s_key x) k) in Hs01.
  apply wp_bind. unfold wp at 1. rewrite (set_slot_nat fresh (length xs) x) by done.
  rewrite Hfr, insert_middle by done. apply wp_bind. eapply wp_conseq;
    [apply (clone_cell EvCloneValue (elem_clone ops) a (s_value x)); intros f; apply elem_clone_total| |].
  2: { intros h s2 [Hs2 _]. destruct Hs01 as [Hs01 _]. congruence. }
  intros [v|] s2 [Hs2 Hv]; cbn beta; pose proof (called_trans _ _ _ _ _ Hs01 Hs2) as Hs02.
  - apply wp_bind. unfold wp at 1. rewrite (set_slot_nat _ (length xs) (Slot MAP_OCCUPIED k (s_value x))).
    2: { cbn. rewrite Hlen, <- app_assoc. by apply list_lookup_middle. }
    apply (Hnext _ (Slot MAP_OCCUPIED k v)); try done; cbn [t_slots].
    + rewrite <- !app_assoc. cbn [app]. by rewrite insert_middle, <- app_assoc.
    + rewrite all_calls_snoc by done. unfold copy_calls. rewrite Hocc, app_assoc. exact Hs02.
  - apply wp_bind. eapply wp_conseq; [apply (drop_key_spec ops)| |].
    2: { intros h s3 [Hs3 _]. destruct Hs02 as [Hs02 _]. congruence. }
    intros ? s3 Hs3. cbn beta in Hs3. apply wp_ret.
    eapply clone_stops; [done|done|by cbn; rewrite <- app_assoc|done|split; [done|right; split; [done|by exists k]]|].
    rewrite <- app_assoc, !app_assoc. exact (called_trans _ _ _ _ _ Hs02 Hs3).
Qed.

Lemma clone_slots_spec a source fresh s0 s n built xs ys :
  t_slots source = xs ++ ys -> length ys = n -> Forall control_ok ys ->
  t_slots fresh = built ++ ys -> Forall2 (copy_of a) xs built -> called s (all_calls xs built) s0 ->
  wp (clone_slots ops n source fresh (zlen xs) a) (clone_ends a (xs ++ ys) s fresh)
    (fun _ s' => self s' = self s) s0.
Proof.
  revert fresh s0 n built xs. induction ys as [|x ys IH]; intros fresh s0 n built xs Hsrc <- Hok Hfr Hc Hs0.
  { apply wp_ret. split; [done|]. split; [done|]. left. cbn [fst snd].
    rewrite app_nil_r in *. by rewrite Hfr. }
  apply Forall_cons in Hok as [Hx Hok]. pose proof (Forall2_length _ _ _ Hc) as Hlen.
  assert (forall f z s1, t_slots f = (built ++ [z]) ++ ys -> copy_of a x z ->
    t_addr f = t_addr fresh -> t_hdr f = t_hdr fresh -> called s (all_calls (xs ++ [x]) (built ++ [z])) s1 ->
    wp (clone_slots ops (length ys) source f (zlen xs + 1) a) (clone_ends a (xs ++ x :: ys) s fresh)
      (fun _ s' => self s' = self s) s1) as Hnext.
  { unfold clone_ends. intros f z s1 Hf Hz <- <- Hs1.
    replace (zlen xs + 1) with (zlen (xs ++ [x])) by (rewrite length_app; cbn; lia).
    replace (xs ++ x :: ys) with ((xs ++ [x]) ++ ys) in * by (by rewrite <- app_assoc).
    eapply IH; try done. apply Forall2_app; [done|]. by constructor. }
  destruct (Z.eq_dec (s_control x) MAP_OCCUPIED) as [Ho|Ho].
  { eapply clone_occupied; try done. rewrite Hsrc. by apply list_lookup_middle. }
  assert ((s_control x =? MAP_VALUE_OWED) = false) as Hno by (apply Z.eqb_neq; destruct Hx as [->|[->|?]]; done).
  apply Z.eqb_neq in Ho. assert (is_occupied x = false) as Hocc by exact Ho.
  unfold copy_of in Hnext. rewrite Hocc, Hno in Hnext.
  cbn [length clone_slots]. apply wp_bind. unfold wp at 1. rewrite (slot_at_nat fresh (length xs) x), Ho, Hno.
  - apply (Hnext fresh x); try done; [by rewrite Hfr, <- app_assoc|].
    rewrite all_calls_snoc by done. unfold copy_calls. by rewrite Hocc, app_nil_r.
  - rewrite Hfr, Hlen. by apply list_lookup_middle.
Qed.

Lemma drop_prefix_spec f built zs ys s s0 evs n :
  t_slots f = ys ++ built ++ zs -> length built = n -> Forall not_owed built -> called s evs s0 ->
  wp (drop_prefix ops n f (zlen ys))
    (fun _ s' => called s (evs ++ slots_debt ops built) s') (fun _ s' => self s' = self s) s0.
Proof.
  revert ys s0 evs n. induction built as [|x built IH]; intros ys s0 evs n Hf <- Hno Hs0;
    cbn [length drop_prefix].
  { apply wp_ret. cbn. by rewrite app_nil_r. }
  apply Forall_cons in Hno as [Hx Hno].
  apply wp_bind. unfold wp at 1. rewrite (slot_at_nat f (length ys) x)
    by (rewrite Hf; by apply list_lookup_middle).
  apply wp_bind.
  assert (wp (if s_control x =? MAP_OCCUPIED
      then drop_key ops (s_key x) ;;; drop_value ops (s_value x) else ret tt)
    (fun _ s' => called s (evs ++ slot_debt ops x) s') (fun _ s' => self s' = self s) s0) as Hslot.
  { unfold slot_debt. destruct (s_control x =? MAP_OCCUPIED).
    - apply wp_bind. eapply wp_conseq; [apply (drop_key_spec ops)| |].
      2: { intros h s1 [Hs1 _]. destruct Hs0. congruence. }
      intros ? s1 Hs1. cbn beta in Hs1. eapply wp_conseq; [apply (drop_value_spec ops)| |].
      + intros ? s2 Hs2. cbn beta in Hs2. rewrite app_assoc.
        apply (called_trans _ _ _ _ _ (called_trans _ _ _ _ _ Hs0 Hs1) Hs2).
      + intros h s2 [Hs2 _]. destruct Hs0, Hs1. congruence.
    - unfold not_owed in Hx. apply Z.eqb_neq in Hx. rewrite Hx, app_nil_r. by apply wp_ret. }
  eapply wp_conseq; [exact Hslot| |done]. intros ? s1 Hs1. cbn beta in Hs1.
  replace (zlen ys + 1) with (zlen (ys ++ [x])) by (rewrite length_app; cbn; lia).
  unfold slots_debt. cbn [mbind list_bind]. rewrite app_assoc.
  apply IH; [|done..]. rewrite Hf, <- app_assoc. done.
Qed.

(** * [map_clone] *)

Lemma copies_not_owed a xs ys : Forall control_ok xs -> Forall2 (copy_of a) xs ys -> Forall not_owed ys.
Proof.
  intros Hok Hc. induction Hc as [|x y xs ys Hxy Hc IH]; [constructor|].
  apply Forall_cons in Hok as [Hx Hok]. constructor; [|by apply IH].
  unfold not_owed. rewrite (copy_of_control a x y) by done.
  destruct Hx as [H|[H|H]]; rewrite H; done.
Qed.

Lemma table_wf_copy a p t ys :
  table_wf ops t -> Forall2 (copy_of a) (t_slots t) ys -> table_wf ops (Table p (t_hdr t) ys).
Proof.
  intros Hwf Hc. pose proof (wf_controls _ _ _ _ (wf_slots _ _ Hwf)) as Hok. split; cbn.
  - apply (wf_slot_count _ _ Hwf).
  - by eapply slots_wf_copy; [apply wf_slots|].
  - rewrite (wf_occupied _ _ Hwf). f_equal. exact (Forall2_length _ _ _ (copy_entries _ _ _ Hok Hc)).
  - rewrite (wf_tombstones _ _ Hwf). f_equal. symmetry. by eapply copy_tombs.
  - apply (wf_load _ _ Hwf).
Qed.

(** The calls of a refused clone: the block was refused; or, with the block,
    slots up to the one that was refused were cloned, and after it the half of
    that slot, every copy and the block went back. *)
Definition gave_back (a : handle) (src : rt_map) (evs : list ev) : Prop :=
  exists t, m_table src = Some t /\
    let sz := block_size (t_hdr t) in let al := block_align (t_hdr t) in
    (evs = [EvAlloc a sz al 0] \/
     exists p (i : nat) x built calls extra, p <> 0 /\ t_slots t !! i = Some x /\
       Forall2 (copy_of a) (take i (t_slots t)) built /\ half_cloned a x calls extra /\
       evs = [EvAlloc a sz al p] ++ (all_calls (take i (t_slots t)) built ++ calls) ++
         (extra ++ slots_debt ops built) ++ [EvFree a p sz al]).

(** The calls of a clone that went through. *)
Definition made_by_calls (a : handle) (src out : rt_map) : list ev :=
  match m_table src, m_table out with
  | Some t, Some t' => EvAlloc a (block_size (t_hdr t)) (block_align (t_hdr t)) (t_addr t')
      :: all_calls (t_slots t) (t_slots t')
  | _, _ => []
  end.

Lemma ledger_step_alloc evs a sz al p held :
  p <> 0 -> ledger evs = Some held ->
  ledger (evs ++ [EvAlloc (K:=K) (V:=V) a sz al p]) = Some ((a, p, sz, al) :: held).
Proof.
  intros Hp Hl. rewrite ledger_app, Hl. unfold ledger_from. cbn [foldl ledger_step].
  by destruct (Z.eqb_spec p 0).
Qed.

Lemma hooks_of (evs : list ev) : drops evs = evs -> Forall is_hook evs.
Proof.
  intros <-. unfold drops. apply Forall_forall. intros e [He _]%list_elem_of_filter. by destruct e.
Qed.

Lemma clone_calls_quiet (evs : list ev) : Forall (fun e => is_hook e && negb (is_drop e)) evs ->
  Forall is_hook evs /\ drops evs = [].
Proof.
  induction 1 as [|e evs He _ [IH1 IH2]]; [done|]. apply andb_prop_elim in He as [He1 He2].
  split; [by constructor|]. unfold drops in *. rewrite filter_cons_False; [done|]. by apply negb_prop_elim.
Qed.

Lemma half_cloned_hooks a x calls extra : half_cloned a x calls extra -> Forall is_hook calls /\ Forall is_hook extra.
Proof.
  intros [_ [(_ & -> & ->)|(_ & k & _ & -> & ->)]]; [by split; repeat constructor|].
  split; [|apply hooks_of, drops_key_debt]. apply Forall_app. split; [|by repeat constructor].
  unfold key_calls. destruct (has_hook (key_clone ops)); by repeat constructor.
Qed.

Lemma refused_ledger evs a sz al p hooks held :
  p <> 0 -> Forall is_hook hooks -> ledger evs = Some held ->
  ledger (evs ++ [EvAlloc (K:=K) (V:=V) a sz al p] ++ hooks ++ [EvFree a p sz al]) = Some held.
Proof.
  intros Hp Hd Hl. rewrite app_assoc, ledger_skip, <- app_assoc by done. by apply ledger_alloc_free.
Qed.

(** Every slot was copied: the clone is a map of its own. *)
Lemma cloned_whole src t a held s f s' sz al p :
  map_wf ops src -> a <> 0 -> m_table src = Some t -> p <> 0 -> ledger (trace s) = Some held ->
  t_addr f = p -> t_hdr f = t_hdr t -> sz = block_size (t_hdr t) -> al = block_align (t_hdr t) ->
  Forall2 (copy_of a) (t_slots t) (t_slots f) ->
  called s ([EvAlloc a sz al p] ++ all_calls (t_slots t) (t_slots f)) s' ->
  let m := RtMap (Some f) (m_len src) (m_cap src) a in
  map_wf ops m /\
  Forall2 (fun p q => cloned (key_clone ops) a p.1 q.1 /\ cloned (elem_clone ops) a p.2 q.2) (view src) (view m) /\
  ledger (trace s') = Some (owned m ++ held) /\ drops (trace s') = drops (trace s) /\
  trace s' = trace s ++ made_by_calls a src m.
Proof.
  intros Hwf Ha Ht Hp Hl <- Hh -> -> Hc [_ Htr]. unfold map_wf in Hwf. rewrite Ht in Hwf.
  destruct Hwf as (Htw & Hlen & Hcap & _). pose proof (wf_controls _ _ _ _ (wf_slots _ _ Htw)) as Hok.
  destruct f as [fa fh fs]. cbn [t_addr t_hdr t_slots] in *. subst fh. cbn zeta. split_and!.
  - unfold map_wf. cbn [m_table m_len m_cap m_allocator t_hdr]. split_and!; try done. by eapply table_wf_copy.
  - unfold view. cbn. rewrite Ht. by apply copy_entries.
  - rewrite Htr, app_assoc, ledger_app, ledger_hooks by apply clone_calls_quiet, all_calls_hooks. by apply ledger_step_alloc.
  - rewrite Htr, !drops_app. destruct (clone_calls_quiet _ (all_calls_hooks (t_slots t) fs)) as [_ ->]. by rewrite !app_nil_r.
  - rewrite Htr. unfold made_by_calls. cbn [m_table]. by rewrite Ht.
Qed.

(** A clone failed at slot [i]: the copies and the block go back. *)
Lemma clone_taken_back src t a held s f s' i x built rest calls extra sz al p :
  m_table src = Some t -> Forall control_ok (t_slots t) -> p <> 0 -> ledger (trace s) = Some held ->
  t_addr f = p -> t_hdr f = t_hdr t -> sz = block_size (t_hdr t) -> al = block_align (t_hdr t) ->
  t_slots t !! i = Some x -> t_slots f = built ++ rest -> Forall2 (copy_of a) (take i (t_slots t)) built ->
  half_cloned a x calls extra ->
  called s ([EvAlloc a sz al p] ++ all_calls (take i (t_slots t)) built ++ calls ++ extra) s' ->
  wp (drop_prefix ops (Z.to_nat (Z.of_nat i)) f 0 ;;; map_free_block a f ;;; ret (false, RtMap (K:=K) (V:=V) None 0 0 a))
    (fun r s2 => self s2 = self s /\ r = (false, RtMap None 0 0 a) /\ ledger (trace s2) = Some held /\
       exists evs, trace s2 = trace s ++ evs /\ gave_back a src evs)
    (fun _ s2 => self s2 = self s) s'.
Proof.
  intros Ht Hok Hp Hl Hfa Hfh Hsz Hal Hx Hf Hc Hh Hs2. pose proof (lookup_lt_Some _ _ _ Hx) as Hi.
  apply wp_bind. eapply wp_conseq; [eapply (drop_prefix_spec f built rest [] s s')| |].
  - done.
  - rewrite <- (Forall2_length _ _ _ Hc), length_take. lia.
  - eapply copies_not_owed; [|exact Hc]. by apply Forall_take.
  - exact Hs2.
  - intros ? s3 Hs3. cbn beta in Hs3. apply wp_bind.
    eapply wp_conseq; [apply map_free_block_spec| |].
    2: { intros ? s4 [Hs4 _]. destruct Hs3. congruence. }
    intros ? s4 Hs4. apply wp_ret. pose proof (called_trans _ _ _ _ _ Hs3 Hs4) as [Hself Htr].
    split; [done|]. split; [done|].
    rewrite <- !app_assoc in Htr. rewrite Hfa, Hfh, <- Hsz, <- Hal in Htr.
    rewrite (app_assoc (all_calls _ _)), (app_assoc extra), (app_assoc (_ ++ calls)) in Htr.
    destruct (half_cloned_hooks _ _ _ _ Hh) as [Hcalls Hextra]. split.
    + rewrite Htr. apply refused_ledger; [done| |done]. repeat (apply Forall_app; split); [|done..|].
      * apply clone_calls_quiet, all_calls_hooks.
      * apply hooks_of, drops_slots_debt.
    + eexists. split; [exact Htr|]. exists t. split; [done|]. right. exists p, i, x, built, calls, extra.
      rewrite <- Hsz, <- Hal. split_and!; try done. by rewrite <- !app_assoc.
  - intros h s3 Hs3. done.
Qed.

Lemma map_clone_spec src a held s :
  map_wf ops src -> a <> 0 -> ledger (trace s) = Some held ->
  wp (map_clone ops src a)
    (fun r s' => self s' = self s /\
       if r.1 then
         map_wf ops r.2 /\ m_len r.2 = m_len src /\ m_allocator r.2 = a /\
         Forall2 (fun p q => cloned (key_clone ops) a p.1 q.1 /\ cloned (elem_clone ops) a p.2 q.2)
           (view src) (view r.2) /\
         ledger (trace s') = Some (owned r.2 ++ held) /\ drops (trace s') = drops (trace s) /\
         trace s' = trace s ++ made_by_calls a src r.2
       else
         r.2 = RtMap None 0 0 a /\ ledger (trace s') = Some held /\
         exists evs, trace s' = trace s ++ evs /\ gave_back a src evs)
    (fun _ s' => self s' = self s) s.
Proof.
  intros Hwf Ha Hl. unfold map_clone.
  destruct (m_table src) as [t|] eqn:Ht.
  2: { apply wp_ret. unfold map_wf in Hwf. rewrite Ht in Hwf. destruct Hwf as [Hlen _].
       cbn [fst snd]. unfold view, made_by_calls. rewrite Ht, app_nil_r. split_and!; try done. }
  pose proof Hwf as Hw. unfold map_wf in Hw. rewrite Ht in Hw. destruct Hw as (Htw & Hlen & Hcap & _).
  destruct (Z.eqb_spec (m_len src) 0) as [H0|H0].
  { apply wp_ret. cbn [fst snd]. split_and!; try done; try congruence.
    - rewrite (view_len ops) in H0 by done. by destruct (view src).
    - unfold made_by_calls. cbn [m_table]. by rewrite Ht, app_nil_r. }
  apply wp_bind. eapply wp_conseq; [apply new_block_spec| |by intros ? ? [? _]].
  intros p s1 Hs1. cbn beta. destruct (Z.eqb_spec p 0) as [->|Hp].
  { apply wp_ret. destruct Hs1 as [Hself Htr]. cbn [fst snd]. split; [done|]. split; [done|].
    split; [by rewrite Htr, ledger_app, Hl|]. eexists. split; [exact Htr|]. exists t. split; [done|]. by left. }
  pose proof (wf_controls _ _ _ _ (wf_slots _ _ Htw)) as Hok.
  pose proof (wf_length _ _ _ _ (wf_slots _ _ Htw)) as Hn.
  apply wp_bind. eapply wp_conseq; [apply (clone_slots_spec a t _ s1 s1 _ [] [] (t_slots t))| |].
  1-6: first [done | lia | apply called_refl | constructor].
  2: { intros h s2 Hs2. destruct Hs1. congruence. }
  intros [f j] s2 (Hfa & Hfh & Hend). cbn [fst snd t_addr t_hdr] in *. cbn [app] in Hend.
  assert (slot_count (t_hdr f) = zlen (t_slots t)) as -> by (by rewrite Hfh).
  destruct Hend as [(-> & Hc & Hs2)|(i & x & built & rest & calls & extra & -> & Hx & Hf & Hc & Hh & Hs2)].
  - rewrite Z.ltb_irrefl. apply wp_ret. cbn [fst snd].
    pose proof (called_trans _ _ _ _ _ Hs1 Hs2) as Hs12. split; [apply Hs12|].
    by destruct (cloned_whole src t a held s f s2 _ _ p Hwf Ha Ht Hp Hl Hfa Hfh eq_refl eq_refl Hc Hs12)
      as (? & ? & ? & ? & ?).
  - pose proof (lookup_lt_Some _ _ _ Hx) as Hi. destruct (Z.ltb_spec (Z.of_nat i) (zlen (t_slots t))); [|lia].
    eapply wp_conseq; [eapply (clone_taken_back src t a held s f s2 i x built rest calls extra); try done| |done].
    + exact (called_trans _ _ _ _ _ Hs1 Hs2).
    + by intros r s3 (? & -> & ? & ?).
Qed.
End clone.
