(* ===== verification/MapProgram.v ===== *)
(** A map over its lifetime: any sequence of the exported operations, as the
    compiler's generated code calls them, refines an abstract finite map and
    gives back every block the providers handed out. *)
From S2P Require Import Prelude Checked Interfaces MapTable MapInvariant MapRefinement MapSpec MapLifecycle MapClone.

Section program.
Context {K V E : Type} {api : AllocApi E} {tot : AllocTotal E}
  (ops : container_ops (K:=K) (V:=V) (E:=E)) {ok : MapOpsOk ops}.
Abbreviation state := (mstate (K:=K) (V:=V) (E:=E)).
Implicit Types (s : state) (t : table (K:=K) (V:=V)) (m : rt_map (K:=K) (V:=V)).
Implicit Types (x y : slot (K:=K) (V:=V)) (l : list (K * V)).

(** * Accesses through the address an operation answered *)

Definition read_value (i : Z) : M state V :=
  let! m := gets self in
  let! t := need (m_table m) in
  let! x := slot_at t i in
  ret (s_value x).

Definition write_value (i : Z) (v : V) : M state unit :=
  let! m := gets self in
  let! t := need (m_table m) in
  let! x := slot_at t i in
  let! t := set_slot t i (Slot (s_control x) (s_key x) v) in
  modify (with_self (set_table t)).

Inductive map_op :=
| OpReserve (n : Z)
| OpShrink (n : Z)
| OpStore (key : K) (v : V)
| OpRemove (key : K)
| OpFind (key : K)
| OpClear.

Inductive answer :=
| AnsDone (b : bool)
| AnsValue (v : option V).

Definition run_op (op : map_op) : M state answer :=
  match op with
  | OpReserve n => let! b := map_reserve ops n in ret (AnsDone b)
  | OpShrink n => let! b := map_shrink ops n in ret (AnsDone b)
  | OpStore key v =>
      let! (slot, _) := map_entry ops key in
      match slot with
      | None => ret (AnsDone false)
      | Some i => write_value i v ;;; ret (AnsDone true)
      end
  | OpRemove key => let! v := map_remove ops key in ret (AnsValue v)
  | OpFind key =>
      let! slot := map_find ops key in
      match slot with
      | None => ret (AnsValue None)
      | Some i => let! v := read_value i in ret (AnsValue (Some v))
      end
  | OpClear => map_clear ops ;;; ret (AnsDone true)
  end.

Fixpoint run (p : list map_op) : M state (list answer) :=
  match p with
  | [] => ret []
  | op :: p => let! a := run_op op in let! rs := run p in ret (a :: rs)
  end.

(** * The abstract map *)

(** One operation on a finite map given by its entries in any order. Only a
    refused allocation makes a store, a reserve or a shrink answer 0. *)
Definition abs_step (l : list (K * V)) (op : map_op) (a : answer) (l' : list (K * V)) : Prop :=
  match op, a with
  | OpReserve _, AnsDone _ | OpShrink _, AnsDone _ => l' ≡ₚ l
  | OpStore key v, AnsDone true => exists k rest, key_equal ops k key = true /\
      l' ≡ₚ (k, v) :: rest /\
      ((exists v0, l ≡ₚ (k, v0) :: rest) \/ (l ≡ₚ rest /\ no_key ops l key))
  | OpStore key _, AnsDone false => l' ≡ₚ l /\ no_key ops l key
  | OpRemove key, AnsValue (Some v) => exists k, key_equal ops k key = true /\ l ≡ₚ (k, v) :: l'
  | OpRemove key, AnsValue None => l' ≡ₚ l /\ no_key ops l key
  | OpFind key, AnsValue (Some v) => l' ≡ₚ l /\ exists k, key_equal ops k key = true /\ (k, v) ∈ l
  | OpFind key, AnsValue None => l' ≡ₚ l /\ no_key ops l key
  | OpClear, AnsDone true => l' = []
  | _, _ => False
  end.

Inductive abs_run : list (K * V) -> list map_op -> list answer -> list (K * V) -> Prop :=
| abs_nil l : abs_run l [] [] l
| abs_cons l op a l1 p rs l2 :
    abs_step l op a l1 -> abs_run l1 p rs l2 -> abs_run l (op :: p) (a :: rs) l2.

(** * Values are written without touching the invariant *)

Lemma slots_wf_value n sd (xs : list slot) i x v :
  slots_wf ops n sd xs -> xs !! i = Some x ->
  slots_wf ops n sd (<[i := Slot (s_control x) (s_key x) v]> xs).
Proof.
  intros Hwf Hi. set (y := Slot (s_control x) (s_key x) v).
  assert (forall j z, <[i := y]> xs !! j = Some z -> exists z0, xs !! j = Some z0 /\
    s_control z0 = s_control z /\ s_key z0 = s_key z) as Hback.
  { intros j z [(<- & <- & _)|[_ Hz]]%list_lookup_insert_Some; eauto. }
  split.
  - rewrite length_insert. apply (wf_length _ _ _ _ Hwf).
  - apply Forall_lookup. intros j z (z0 & Hz & Hc & _)%Hback. unfold control_ok.
    rewrite <- Hc. by apply (Forall_lookup_1 _ _ _ _ (wf_controls _ _ _ _ Hwf) Hz).
  - intros a b z1 z2 (w1 & Hw1 & Hc1 & Hk1)%Hback (w2 & Hw2 & Hc2 & Hk2)%Hback Ho1 Ho2 He.
    unfold is_occupied in *. rewrite <- Hc1 in Ho1. rewrite <- Hc2 in Ho2.
    rewrite <- Hk1, <- Hk2 in He. by eapply (wf_distinct _ _ _ _ Hwf).
  - intros j z (w & Hw & Hc & Hk)%Hback Ho. unfold is_occupied in Ho. rewrite <- Hc in Ho.
    rewrite <- Hk. eapply clear_run_update; [exact Hi|by cbn|].
    by apply (wf_reach _ _ _ _ Hwf).
Qed.

Lemma write_value_spec i k v0 v s :
  inv ops s -> slot_holds (self s) i k v0 ->
  wp (write_value i v)
    (fun _ s' => inv ops s' /\ trace s' = trace s /\
       exists rest, view (self s) ≡ₚ (k, v0) :: rest /\ view (self s') ≡ₚ (k, v) :: rest)
    (fun _ _ => False) s.
Proof.
  intros [Hwf Hl] (t & j & x & Ht & -> & Hx & Ho & <- & <-).
  unfold write_value. apply wp_bind, wp_gets, wp_bind, (wp_need _ t); [done|].
  apply wp_bind. unfold wp at 1. rewrite (slot_at_nat t j x) by done.
  apply wp_bind. unfold wp at 1. rewrite (set_slot_nat t j x) by done.
  apply wp_modify. set (y := Slot (s_control x) (s_key x) v).
  pose proof (count_insert (fun x => s_control x = MAP_TOMBSTONE) (t_slots t) j x y Hx) as Ht0.
  assert (entries (t_slots t) = entries (take j (t_slots t)) ++ [(s_key x, s_value x)]
    ++ entries (drop (S j) (t_slots t))) as He.
  { unfold entries. rewrite (omap_split _ _ _ _ Hx), (entry_of_taken x Ho). done. }
  assert (entries (<[j := y]> (t_slots t)) = entries (take j (t_slots t)) ++ [(s_key x, v)]
    ++ entries (drop (S j) (t_slots t))) as He'.
  { unfold entries. by rewrite (omap_insert _ _ _ _ _ Hx), (entry_of_taken y). }
  unfold map_wf in Hwf. rewrite Ht in Hwf. destruct Hwf as (Htw & Hlen & Hcap & Ha).
  split; [split|].
  - unfold map_wf. cbn [self with_self set_table m_table m_len m_cap m_allocator t_hdr].
    split_and!; try done. split; cbn [t_hdr t_slots].
    + apply (wf_slot_count _ _ Htw).
    + apply slots_wf_value; [by apply wf_slots|done].
    + rewrite (wf_occupied _ _ Htw). unfold table_entries. cbn [t_slots].
      rewrite He, He', !length_app. done.
    + rewrite (wf_tombstones _ _ Htw). unfold tombs. cbn in Ht0. repeat case_decide; lia.
    + apply (wf_load _ _ Htw).
  - cbn [self with_self set_table trace]. rewrite Hl. unfold owned. by rewrite Ht.
  - split; [done|]. exists (entries (take j (t_slots t)) ++ entries (drop (S j) (t_slots t))).
    unfold view. rewrite Ht. cbn [self with_self set_table m_table old_entries].
    unfold table_entries. cbn [t_slots]. rewrite He, He'. split; solve_Permutation.
Qed.

Lemma read_value_spec i k v s :
  slot_holds (self s) i k v -> read_value i s = Ok v s /\ (k, v) ∈ view (self s).
Proof.
  intros (t & j & x & Ht & -> & Hx & Ho & <- & <-). split.
  - unfold read_value, bind, gets. rewrite Ht. cbn. by rewrite (slot_at_nat t j x).
  - unfold view. rewrite Ht. apply elem_of_entries. eauto 10.
Qed.

(** * Refinement *)

Lemma run_op_refines op s :
  inv ops s ->
  wp (run_op op) (fun a s' => inv ops s' /\ abs_step (view (self s)) op a (view (self s')))
    (fun _ _ => True) s.
Proof.
  intros Hinv. destruct op as [n|n|key v|key|key|]; cbn [run_op]; apply wp_bind.
  - destruct (Z.ltb_spec n 0) as [Hn|Hn].
    { unfold map_reserve. by destruct (Z.ltb_spec n 0); [|lia]. }
    eapply wp_conseq; [by apply map_reserve_spec| |done]. intros b s' [Hi Hb]. apply wp_ret.
    split; [done|]. cbn. destruct b; [by destruct Hb|]. by rewrite Hb.
  - destruct (Z.ltb_spec n 0) as [Hn|Hn].
    { unfold map_shrink, bind, gets. by destruct (Z.ltb_spec n 0); [|lia]. }
    eapply wp_conseq; [by apply map_shrink_spec| |done]. intros b s' [Hi Hb]. apply wp_ret.
    split; [done|]. cbn. destruct b; [by destruct Hb|]. by rewrite Hb.
  - eapply wp_conseq; [by apply map_entry_spec| |done].
    intros [[i|] b] s1 [Hi1 Hr].
    2: { apply wp_ret. split; [done|]. destruct Hr as (Hnk & _ & Hs). cbn. by rewrite Hs. }
    assert (exists k v0, slot_holds (self s1) i k v0 /\ key_equal ops k key = true /\
      ((exists v0' rest, view (self s) ≡ₚ (k, v0') :: rest /\ view (self s1) ≡ₚ (k, v0) :: rest) \/
       (no_key ops (view (self s)) key /\ view (self s1) ≡ₚ (k, v0) :: view (self s))))
      as (k & v0 & Hh & He & Hcase).
    { destruct b.
      - destruct Hr as (Hnk & _ & k & He & Hv & Hh). exists k, (zero_value ops). auto.
      - destruct Hr as (Hs & k & v0 & Hh & He). exists k, v0. rewrite Hs. split; [done|].
        split; [done|]. left. destruct (read_value_spec i k v0 s Hh) as [_ Hin].
        apply elem_of_Permutation in Hin as [rest Hp]. eauto. }
    apply wp_bind. eapply wp_conseq; [by apply (write_value_spec i k v0 v)| |done].
    intros ? s2 (Hi2 & _ & rest & Hv1 & Hv2). apply wp_ret. split; [done|]. cbn.
    exists k, rest. split; [done|]. split; [done|].
    destruct Hcase as [(v0' & rest' & Hp & Hp1)|[Hnk Hp]].
    + left. exists v0'. rewrite Hp1 in Hv1. apply Permutation_cons_inv in Hv1. by rewrite Hp, Hv1.
    + right. rewrite Hp in Hv1. apply Permutation_cons_inv in Hv1. done.
  - eapply wp_conseq; [by apply map_remove_spec| |done]. intros r s' [Hi Hr]. apply wp_ret.
    split; [done|]. destruct r as [v|]; cbn.
    + destruct Hr as (k & ? & ? & _). eauto.
    + destruct Hr as (-> & _ & ?). done.
  - destruct (map_find_spec ops key s (proj1 Hinv)) as (r & Hr & Hs).
    unfold wp at 1. rewrite Hr. destruct r as [i|]; [|by apply wp_ret].
    destruct Hs as (k & v & Hh & He). destruct (read_value_spec i k v s Hh) as [Hv Hin].
    apply wp_bind. unfold wp at 1. rewrite Hv. apply wp_ret. split; [done|]. cbn. eauto.
  - eapply wp_conseq; [by apply map_clear_spec| |done]. intros ? s' (Hi & Hv & _).
    by apply wp_ret.
Qed.

Lemma run_spec p s :
  inv ops s ->
  wp (run p) (fun rs s' => inv ops s' /\ abs_run (view (self s)) p rs (view (self s')))
    (fun _ _ => True) s.
Proof.
  revert s. induction p as [|op p IH]; intros s Hinv; cbn [run].
  { apply wp_ret. split; [done|constructor]. }
  apply wp_bind. eapply wp_conseq; [by apply run_op_refines| |done].
  intros a s1 [Hi1 Ha]. apply wp_bind. eapply wp_conseq; [by apply IH| |done].
  intros rs s2 [Hi2 Hr]. apply wp_ret. split; [done|]. by econstructor.
Qed.
End program.
