(* ===== verification/MapCost.v ===== *)
(** How often a map goes to its provider. An insertion rebuilds the table when
    the slots in use, live or tombstones, reach the load limit; the new table is
    at most half full, so that the insertions until the next rebuild are at least
    three eighths of its slots. *)
From S2P Require Import Prelude Runs Checked Interfaces MapTable MapInvariant MapRefinement MapSpec MapLifecycle MapProgram.

Section cost.
Context {K V E : Type} {api : AllocApi E} (ops : container_ops (K:=K) (V:=V) (E:=E)).
Abbreviation state := (mstate (K:=K) (V:=V) (E:=E)).
Abbreviation ev := (event (K:=K) (V:=V)).
Implicit Types (s : state) (t : table (K:=K) (V:=V)) (m : rt_map (K:=K) (V:=V)).

(** The requests to providers in a trace. *)
Definition is_request (e : ev) : bool := match e with EvAlloc _ _ _ _ | EvFree _ _ _ _ => true | _ => false end.
Definition requests (evs : list ev) : list ev := filter is_request evs.

(** The slots of the table that are not empty, and all of them. *)
Definition used m : Z := match m_table m with Some t => occupied (t_hdr t) + tombstones (t_hdr t) | None => 0 end.
Definition slots m : Z := match m_table m with Some t => slot_count (t_hdr t) | None => 0 end.

(** No request, the same block, and no slot more in use. *)
Definition calm s s' : Prop :=
  requests (trace s') = requests (trace s) /\ slots (self s') = slots (self s) /\
  (0 <= used (self s) -> 0 <= used (self s') <= used (self s)).

#[export] Instance calm_preorder : PreOrder calm.
Proof.
  split; [intros s; split; [done|split; [done|lia]]|]. intros s1 s2 s3 (H1 & H2 & H3) (H4 & H5 & H6).
  split_and!; [by etrans|by etrans|]. intros H. specialize (H3 H). lia.
Qed.

Lemma requests_snoc evs e : is_request e = false -> requests (evs ++ [e]) = requests evs.
Proof. intros He. unfold requests. rewrite filter_app, (filter_cons_False _ e) by (rewrite He; intros []). apply app_nil_r. Qed.

Lemma calm_outside {A} (f : M E A) : keeps calm (outside f : M state A).
Proof. intros s. unfold runs, outside. destruct (f (env s)) as [? ?|? ?| |]; try done; (split; [done|split; [done|cbn; lia]]). Qed.

Lemma calm_log e : is_request e = false -> keeps calm (modify (log e) : M state unit).
Proof. intros He s. cbn. split; [by apply requests_snoc|]. split; [done|]. cbn. lia. Qed.

Lemma calm_drop_key k : keeps calm (drop_key ops k).
Proof.
  unfold drop_key. destruct (key_drop ops); [|apply keeps_ret, _]. apply keeps_bind; [apply _|by apply calm_log|].
  intros _. apply calm_outside.
Qed.
Lemma calm_drop_value v : keeps calm (drop_value ops v).
Proof.
  unfold drop_value. destruct (elem_drop ops); [|apply keeps_ret, _]. apply keeps_bind; [apply _|by apply calm_log|].
  intros _. apply calm_outside.
Qed.

(** The table written back with the same counts, or with one entry buried. *)
Lemma calm_set_table s t t' d : m_table (self s) = Some t -> t_hdr t' = add_counts (- d) d (t_hdr t) ->
  forall n, calm s (with_self (fun m => RtMap (Some t') (m_len m + n) (m_cap m) (m_allocator m)) s).
Proof.
  intros Ht Hh n. unfold calm, used, slots. cbn. rewrite Ht, Hh. cbn. split_and!; [done|done|lia].
Qed.

Lemma add_counts_none h : add_counts (- 0) 0 h = h.
Proof. destruct h. unfold add_counts. cbn. by rewrite !Z.add_0_r. Qed.

Lemma calm_same_hdr s t t' : m_table (self s) = Some t -> t_hdr t' = t_hdr t -> calm s (with_self (set_table t') s).
Proof.
  intros Ht Hh. unfold calm, used, slots. cbn. rewrite Ht, Hh. split_and!; [done|done|lia].
Qed.

Lemma runs_set_slot {B} t i x (k : table -> M state B) Q P s :
  (forall t', t_hdr t' = t_hdr t -> runs (k t') Q P s) -> runs (bind (set_slot t i x) k) Q P s.
Proof.
  intros Hk. apply runs_bind. unfold set_slot. apply runs_need. intros xs _. by apply Hk.
Qed.

(** The two writes of a removal: the entry is out, then its slot is free. *)
Lemma calm_bury {B} s t i x (k : unit -> M state B) (Q : B -> state -> Prop) P :
  m_table (self s) = Some t -> (forall s', calm s s' -> runs (k tt) Q P s') ->
  runs (let! t := set_slot t i x in
        modify (with_self (fun m => add_len (-1) (set_table (with_hdr (add_counts (-1) 1) t) m))) ;;; k tt) Q P s.
Proof.
  intros Ht Hk. apply runs_set_slot. intros t' Hh. apply runs_modify, Hk.
  eapply (calm_set_table s t (with_hdr (add_counts (-1) 1) t') 1 Ht); cbn; by rewrite Hh.
Qed.

Lemma calm_free {B} s t i x (k : unit -> M state B) (Q : B -> state -> Prop) P :
  m_table (self s) = Some t -> (forall s', calm s s' -> runs (k tt) Q P s') ->
  runs (let! t := set_slot t i x in modify (with_self (set_table t)) ;;; k tt) Q P s.
Proof.
  intros Ht Hk. apply runs_set_slot. intros t' Hh. apply runs_modify, Hk. by eapply calm_same_hdr.
Qed.

(** [m] from [s], then a step that is calm anywhere. *)
Lemma calm_then {A B} (m : M state A) (k : A -> M state B) s :
  runs m (fun _ => calm s) (calm s) s -> (forall a, keeps calm (k a)) -> runs (bind m k) (fun _ => calm s) (calm s) s.
Proof.
  intros Hm Hk. apply runs_bind. eapply runs_conseq; [exact Hm| |done]. intros a s1 H1.
  eapply runs_conseq; [apply Hk| |]; intros; by trans s1.
Qed.

Lemma calm_from {A} (m : M state A) s s1 : calm s s1 -> keeps calm m -> runs m (fun _ => calm s) (calm s) s1.
Proof. intros H1 Hm. eapply runs_conseq; [apply Hm| |]; intros; by trans s1. Qed.

Lemma calm_drop_entry i : keeps calm (map_drop_entry ops i).
Proof.
  unfold map_drop_entry. intros s. apply runs_gets, runs_need. intros t Ht. apply runs_need. intros x _. apply calm_then.
  - destruct (_ =? _); [|apply keeps_ret, _].
    apply (calm_bury s t i _ (fun _ => drop_key ops (s_key x))); [done|].
    intros s1 H1. apply (calm_from _ _ _ H1), calm_drop_key.
  - intros _ s1. apply runs_gets, runs_need. intros t1 Ht1. apply runs_need. intros x1 _.
    destruct (_ =? _); [|apply keeps_ret, _].
    apply (calm_free s1 t1 i _ (fun _ => drop_value ops (s_value x1))); [done|].
    intros s2 H2. apply (calm_from _ _ _ H2), calm_drop_value.
Qed.

Lemma calm_drop_entries n i : keeps calm (drop_entries ops n i).
Proof.
  revert i. induction n as [|n IH]; intros i; cbn [drop_entries]; [apply keeps_ret, _|].
  apply keeps_bind; [apply _|apply calm_drop_entry|]. intros _. apply IH.
Qed.

Lemma calm_clear : keeps calm (map_clear ops).
Proof.
  unfold map_clear. intros s. apply runs_gets. destruct (m_table (self s)) as [t|]; [|apply keeps_ret, _].
  apply calm_then; [apply calm_drop_entries|]. intros _ s1. apply runs_gets, runs_need. intros t1 Ht1.
  unfold set_map, runs, modify, calm, used, slots. cbn. rewrite Ht1. cbn. split; [done|]. split; [done|]. lia.
Qed.

(** A probe changes nothing. *)
Lemma pure_probe t key : keeps eq (map_probe ops t key : M state Z).
Proof.
  unfold map_probe. generalize (Z.land (key_hash ops key (seed (t_hdr t))) (mask_of t)).
  induction (Z.to_nat (slot_count (t_hdr t))) as [|n IH]; intros i; cbn [map_probe_loop]; unfold slot_at; keep.
Qed.

Lemma pure_insert_loop n t mask i free : keeps eq (map_insert_loop n t mask i free : M state (Z * Z)).
Proof. revert i free. induction n as [|n IH]; intros i free; cbn [map_insert_loop]; unfold slot_at; keep. Qed.

Lemma calm_pure {A} (m : M state A) : keeps eq m -> keeps calm m.
Proof. intros Hm s. eapply runs_conseq; [apply Hm| |]; [by intros ? ? <-|by intros ? <-]. Qed.

Lemma calm_remove key : keeps calm (map_remove ops key).
Proof.
  unfold map_remove. intros s. apply runs_gets. destruct (m_table (self s)) as [t|] eqn:Ht; [|apply keeps_ret, _].
  destruct (_ =? _); [apply keeps_ret, _|]. apply (runs_keeps eq); [apply pure_probe| |by intros ? <-].
  intros i ? <-. destruct (i <? 0); [apply keeps_ret, _|]. apply runs_need. intros x _.
  apply (calm_bury s t i _ (fun _ => _)); [done|]. intros s1 H1. apply (calm_from _ _ _ H1).
  apply keeps_bind; [apply _|apply calm_drop_key|]. intros _ s2. apply runs_gets, runs_need. intros t2 Ht2.
  apply runs_need. intros x2 _. apply (calm_free s2 t2 i _ (fun _ => ret (Some (s_value x2)))); [done|].
  intros s3 H3. apply (calm_from _ _ _ H3), keeps_ret, _.
Qed.

Lemma calm_find key : keeps calm (map_find ops key).
Proof.
  unfold map_find. apply keeps_bind; [apply _|apply keeps_gets, _|]. intros m. destruct (m_table m); [|apply keeps_ret, _].
  apply keeps_if; [apply keeps_ret, _|]. apply keeps_bind; [apply _|apply calm_pure, pure_probe|]. intros i. apply keeps_ret, _.
Qed.

Lemma calm_read_value i : keeps calm (read_value i : M state V).
Proof. unfold read_value, slot_at. keep. Qed.

Lemma calm_write_value i v : keeps calm (write_value i v : M state unit).
Proof.
  intros s. unfold write_value. apply runs_gets, runs_need. intros t Ht. apply runs_need. intros x _.
  apply runs_set_slot. intros t' Hh. by eapply calm_same_hdr.
Qed.

(** * Insertion *)

(** One slot more may be in use. *)
Definition one_more s s' : Prop :=
  requests (trace s') = requests (trace s) /\ slots (self s') = slots (self s) /\
  (0 <= used (self s) -> 0 <= used (self s') <= used (self s) + 1).

Lemma calm_one_more s s' : calm s s' -> one_more s s'.
Proof. intros (? & ? & H). split_and!; [done|done|]. intros Hu. specialize (H Hu). lia. Qed.

(** What an insertion leaves of the table it wrote to: the map as it was, or one
    slot more in use. *)
Definition added_to t m : Prop :=
  exists t', m_table m = Some t' /\ slot_count (t_hdr t') = slot_count (t_hdr t) /\
    occupied (t_hdr t) + tombstones (t_hdr t) <= occupied (t_hdr t') + tombstones (t_hdr t') <=
    occupied (t_hdr t) + tombstones (t_hdr t) + 1.

Lemma quiet_map_free a t : keeps (fun s s' => self s' = self s) (map_free_block a t : M state unit).
Proof. intros s. unfold map_free_block, free_block, runs, bind, modify, outside. by destruct (api_free _ _ _ _ _). Qed.

Lemma entry_insert_runs key a t replacing s :
  runs (entry_insert ops key a t replacing)
    (fun r s' => (replacing = false -> requests (trace s') = requests (trace s)) /\
       (r.1 = None /\ self s' = self s \/ added_to t (self s')))
    (fun s' => (replacing = false -> requests (trace s') = requests (trace s)) /\ self s' = self s) s.
Proof.
  unfold entry_insert. apply runs_gets. apply (runs_keeps eq); [apply pure_insert_loop| |by intros ? <-].
  intros [i free] ? <-. cbv iota zeta.
  set (R := fun s s' : state => requests (trace s') = requests (trace s) /\ self s' = self s).
  assert (keeps R (store_key ops key a)) as Hkey.
  { intros s1. unfold store_key, runs, call_clone, bind, outside. destruct (key_clone ops) as [f|]; [|done].
    destruct (f key a (env s1)); try done. split; [by apply requests_snoc|done]. }
  apply (runs_keeps R); [exact Hkey| |intros s1 [H1 H2]; done].
  assert (forall old : bool, keeps (fun s s' => self s' = self s) (if old then map_free_block a t else ret tt : M state unit)) as Hfree.
  { intros []; [apply quiet_map_free|by intros s1]. }
  intros [k|] s1 [H1 H2].
  - apply runs_set_slot. intros t' Hh.
    apply (runs_keeps (fun s s' => self s' = self s /\ (replacing = false -> requests (trace s') = requests (trace s)))).
    + intros s2. destruct replacing; [|done]. destruct (m_table (self s)) as [told|]; [|done]. cbn [free_old].
      eapply runs_conseq; [apply quiet_map_free| |]; by intros.
    + intros _ s2 [H3 H4]. apply runs_modify. split; [intros Hr; change (requests (trace s2) = requests (trace s)); by rewrite (H4 Hr)|]. right.
      eexists. split; [done|]. cbn. rewrite Hh. cbn. destruct (0 <=? free); split; lia.
    + intros s2 [H3 H4]. split; [intros Hr; by rewrite (H4 Hr)|congruence].
  - apply (runs_keeps (fun s s' => self s' = self s /\ (replacing = false -> requests (trace s') = requests (trace s)))).
    + intros s2. destruct replacing; [|done]. eapply runs_conseq; [apply quiet_map_free| |]; by intros.
    + intros _ s2 [H3 H4]. split; [intros Hr; by rewrite (H4 Hr)|left; split; [done|congruence]].
    + intros s2 [H3 H4]. split; [intros Hr; by rewrite (H4 Hr)|congruence].
Qed.

(** With room in the table an insertion asks the provider for nothing. *)
Lemma calm_entry key s t :
  m_table (self s) = Some t -> m_len (self s) + 1 <= m_cap (self s) ->
  used (self s) + 1 <= map_capacity_of (slot_count (t_hdr t)) ->
  runs (map_entry ops key) (fun _ => one_more s) (one_more s) s.
Proof.
  intros Ht Hlen Hroom. unfold map_entry. apply runs_gets, runs_gets. rewrite Ht.
  apply (runs_keeps eq); [apply pure_probe| |by intros ? <-; apply calm_one_more]. intros i ? <-.
  destruct (0 <=? i); [by apply calm_one_more|]. apply runs_bind. unfold entry_table. apply runs_gets.
  assert (entry_must_grow (self s) = false) as ->.
  { unfold entry_must_grow, used, map_capacity_of in *. rewrite Ht in *.
    destruct (Z.ltb_spec (m_cap (self s)) (m_len (self s) + 1)); [lia|]. apply Z.ltb_ge. lia. }
  apply runs_need. rewrite Ht. intros t0 [= <-]. apply runs_ret. eapply runs_conseq; [apply entry_insert_runs| |].
  - intros r s' [Hr [[_ Hs]|(t' & Ht' & Hn & Hu)]]; (split; [by apply Hr|]).
    + unfold slots, used. rewrite Hs. split; [done|lia].
    + unfold slots, used. rewrite Ht', Ht. split; [done|lia].
  - intros s' [Hr Hs]. split; [by apply Hr|]. unfold slots, used. rewrite Hs. split; [done|lia].
Qed.
End cost.

(** * Programs *)

Section program.
Context {K V E : Type} {api : AllocApi E} {tot : AllocTotal E}
  (ops : container_ops (K:=K) (V:=V) (E:=E)) {ok : MapOpsOk ops}.
Implicit Types (s : mstate (K:=K) (V:=V) (E:=E)) (p : list (map_op (K:=K) (V:=V))).

Definition is_store (op : map_op (K:=K) (V:=V)) : bool := match op with OpStore _ _ => true | _ => false end.
Definition stores p : Z := zlen (filter is_store p).

(** A reserve or a shrink asks for a table of its own. *)
Definition plain (op : map_op (K:=K) (V:=V)) : Prop := match op with OpReserve _ | OpShrink _ => False | _ => True end.

Lemma used_bounds s : inv ops s -> 0 < slots (self s) ->
  0 <= used (self s) /\ m_len (self s) <= used (self s) /\ m_cap (self s) = map_capacity_of (slots (self s)).
Proof.
  intros [Hwf _] Hn. unfold used, slots, map_wf in *. destruct (m_table (self s)) as [t|]; [|lia].
  destruct Hwf as (Ht & -> & -> & _). rewrite (wf_occupied _ _ Ht), (wf_tombstones _ _ Ht). split_and!; lia || done.
Qed.

(** Room for [n] more. *)
Definition roomy n s : Prop := 0 < slots (self s) /\ used (self s) + n <= map_capacity_of (slots (self s)).

Lemma run_op_calm op s n : inv ops s -> plain op -> 0 <= n -> roomy ((if is_store op then 1 else 0) + n) s ->
  runs (run_op ops op) (fun _ s' => requests (trace s') = requests (trace s) /\ roomy n s')
    (fun s' => requests (trace s') = requests (trace s)) s.
Proof.
  intros Hinv Hop Hn [Hs Hroom]. destruct (used_bounds s Hinv Hs) as (Hu & Hlen & Hcap).
  assert (forall A (m : M _ A), keeps calm m -> is_store op = false ->
    runs m (fun _ s' => requests (trace s') = requests (trace s) /\ roomy n s') (fun s' => requests (trace s') = requests (trace s)) s) as Hcalm.
  { intros A m Hm Ho. rewrite Ho in Hroom. eapply runs_conseq; [apply Hm| |by intros s' [? _]].
    intros _ s' (Hr & Hsl & Hu'). specialize (Hu' Hu). split; [done|]. unfold roomy. rewrite Hsl. lia. }
  destruct op as [k|k|key v|key|key|]; try done; cbn [run_op is_store] in *.
  - destruct (m_table (self s)) as [t|] eqn:Ht; [|unfold slots in Hs; rewrite Ht in Hs; lia].
    assert (slots (self s) = slot_count (t_hdr t)) as Hst by (unfold slots; by rewrite Ht).
    apply runs_bind. eapply runs_conseq; [apply (calm_entry ops key s t); [done|lia|rewrite <- Hst; lia]| |by intros s' [? _]].
    intros [i b] s1 (Hr & Hsl & Hu1). specialize (Hu1 Hu).
    assert (roomy n s1) as [Hs1 Hroom1] by (unfold roomy; rewrite Hsl; lia).
    destruct i as [i|]; [|done]. apply runs_bind. eapply runs_conseq; [apply calm_write_value| |].
    + intros _ s2 (Hr2 & Hsl2 & Hu2). specialize (Hu2 ltac:(lia)). apply runs_ret.
      split; [by rewrite Hr2|]. unfold roomy. rewrite Hsl2. lia.
    + intros s2 [Hr2 _]. by rewrite Hr2.
  - apply Hcalm; [|done]. apply keeps_bind; [apply _|apply calm_remove|]. intros v. apply keeps_ret, _.
  - apply Hcalm; [|done]. apply keeps_bind; [apply _|apply calm_find|]. intros [i|]; [|apply keeps_ret, _].
    apply keeps_bind; [apply _|apply calm_read_value|]. intros v. apply keeps_ret, _.
  - apply Hcalm; [|done]. apply keeps_bind; [apply _|apply calm_clear|]. intros _. apply keeps_ret, _.
Qed.

Lemma stores_cons op p : stores (op :: p) = (if is_store op then 1 else 0) + stores p.
Proof.
  unfold stores. destruct (is_store op) eqn:Ho.
  - rewrite filter_cons_True by (by rewrite Ho). cbn [length]. lia.
  - rewrite filter_cons_False by (rewrite Ho; intros []). lia.
Qed.

Lemma run_calm p s : inv ops s -> Forall plain p -> roomy (stores p) s ->
  wp (run ops p) (fun _ s' => requests (trace s') = requests (trace s)) (fun _ s' => requests (trace s') = requests (trace s)) s.
Proof.
  intros Hinv Hp. revert s Hinv. induction Hp as [|op p Hop Hp IH]; intros s Hinv Hroom; [done|].
  rewrite stores_cons in Hroom. apply wp_bind. eapply wp_conseq.
  - eapply (wp_runs (run_op ops op)); [by apply run_op_refines|].
    apply (run_op_calm op s (stores p)); [done|done|unfold stores; lia|exact Hroom].
  - intros a s1 [[Hinv1 _] [Hr1 Hroom1]]. apply wp_bind. eapply wp_conseq; [by apply IH| |].
    + intros rs s2 Hr2. apply wp_ret. by rewrite Hr2.
    + intros h s2 Hr2. by rewrite Hr2.
  - by intros h s1 [_ Hr1].
Qed.

(** An insertion finds its slot without the provider, fails, or leaves a table
    that is at most half full. *)
Lemma entry_half_full key s : inv ops s ->
  runs (map_entry ops key)
    (fun r s1 => requests (trace s1) = requests (trace s) \/ r.1 = None \/
       8 <= slots (self s1) /\ 2 * used (self s1) <= slots (self s1)) (fun _ => True) s.
Proof.
  intros Hinv. unfold map_entry. apply runs_gets, runs_gets. apply (runs_keeps eq).
  { destruct (m_table (self s)) as [t|]; [apply pure_probe|by intros s1]. }
  2: { done. }
  intros i ? <-. destruct (0 <=? i); [by left|]. apply runs_bind.
  eapply runs_conseq; [apply runs_wp, (entry_table_spec ops s Hinv)| |done].
  intros [[t replacing]|] s1 H1; [|by right; left]. destruct H1 as (Hwf & _ & _ & Hrep).
  eapply runs_conseq; [apply entry_insert_runs| |done].
  intros r s2 [Hr [[Hn _]|(t' & Ht' & Hsl & Hu)]]; [by right; left|].
  destruct replacing.
  - right; right. destruct Hrep as (_ & _ & Ht0 & Hhalf). unfold slots, used. rewrite Ht', Hsl.
    pose proof (slot_count_bounds ops t Hwf). lia.
  - left. destruct Hrep as [_ ->]. by apply Hr.
Qed.

(** Three eighths of the slots are free for insertions in a table half full. *)
Lemma half_full_roomy s n : inv ops s -> 8 <= slots (self s) -> 2 * used (self s) <= slots (self s) ->
  8 * n <= 3 * slots (self s) -> roomy n s.
Proof.
  intros [Hwf _] Hs Hu Hn. split; [lia|]. unfold map_capacity_of.
  rewrite Z.quot_div_nonneg by lia. pose proof (Z.mul_div_le (slots (self s)) 8 ltac:(lia)). lia.
Qed.
End program.
