(* ===== verification/Concrete.v ===== *)
(** A concrete environment to evaluate the models in: a provider that hands
    out consecutive addresses until its budget of blocks is spent, and the
    operation table of a [map\[i64\]i64] whose value hook panics on 13. *)
From S2P Require Import Prelude Interfaces MapTable MapInvariant.

Record heap := Heap { next_address : Z; budget : nat }.

Definition heap_align (n align : Z) : Z := (n + Z.max 1 align - 1) `div` Z.max 1 align * Z.max 1 align.

Definition heap_alloc (size align : Z) : M heap Z := fun e =>
  match budget e with
  | O => Ok 0 e
  | S b =>
      let p := heap_align (Z.max 16 (next_address e)) align in
      if UINT64_MAX <? p + Z.max 0 size then Ok 0 e
      else Ok p (Heap (p + 1 + Z.max 0 size) b)
  end.

#[export] Instance heap_api : AllocApi heap := {
  api_alloc _ size align := heap_alloc size align;
  api_alloc_zeroed _ size align := heap_alloc size align;
  api_resize _ _ _ size align := heap_alloc size align;
  api_free _ _ _ _ := ret tt;
  api_alloc_failed _ := panic "memory allocation failed";
  api_selected _ := 7;
}.

Lemma heap_alloc_total size align : well_behaved (heap_alloc size align).
Proof. intros [n [|b]]; [done|]. unfold wp, heap_alloc. cbn [budget]. by destruct (_ <? _). Qed.

#[export] Instance heap_total : AllocTotal heap.
Proof. split; intros; first [apply heap_alloc_total | done]. Qed.

Lemma heap_align_spec n align : 0 < align -> n <= heap_align n align /\ (align | heap_align n align).
Proof.
  intros Ha. unfold heap_align. rewrite Z.max_r by lia.
  pose proof (Z.div_mod (n + align - 1) align ltac:(lia)).
  pose proof (Z.mod_pos_bound (n + align - 1) align Ha).
  split; [lia|apply Z.divide_factor_r].
Qed.

#[export] Program Instance heap_fresh : AllocFresh heap := {
  live e p n := p + n <= next_address e;
}.
Next Obligation.
  intros a size align e p e' Hs Ha Hr. cbn in Hr. unfold heap_alloc in Hr.
  destruct (budget e); [by injection Hr as <- <-|].
  pose proof (heap_align_spec (Z.max 16 (next_address e)) align Ha) as [Hge Hd].
  destruct (Z.ltb_spec UINT64_MAX (heap_align (Z.max 16 (next_address e)) align + Z.max 0 size));
    injection Hr as <- <-; [done|]. cbn [next_address].
  split; [intros q m ?; lia|]. intros _. split_and!; [lia|done|lia|lia|].
  intros q m Hq. right. lia.
Qed.
Next Obligation. intros a p size align e e' q n [= <-] ? ?. done. Qed.

Definition cells : cell_layout := CellLayout 8 8 8 8.

Definition int_hash (k sd : Z) : Z := hash_bytes [k mod 256] sd.

Definition int_ops : container_ops (K:=Z) (V:=Z) (E:=heap) := ContainerOps
  cells
  (Some (fun v => if v =? 13 then panic "drop" else ret tt))
  (Some (fun v _ => ret (if v =? 99 then None else Some v)))
  (Some (fun _ => ret tt))
  None
  int_hash Z.eqb 0 0.

#[export] Instance int_ops_ok : MapOpsOk int_ops.
Proof.
  split; cbn.
  - intros k. apply Z.eqb_refl.
  - intros a b. rewrite !Z.eqb_eq. congruence.
  - intros a b c. rewrite !Z.eqb_eq. congruence.
  - intros a b sd ->%Z.eqb_eq. done.
  - done.
  - intros f v a [= <-] e. by apply wp_ret.
  - intros f k [= <-] e. by apply wp_ret.
  - intros f v [= <-] e. by destruct (v =? 13).
Qed.

(** A fresh map on a heap that still has [n] blocks to give. *)
Definition start (n : nat) : mstate (K:=Z) (V:=Z) (E:=heap) :=
  MState zero_map SEED_STEP [] (Heap 4096 n).

(** The state a run ends in. *)
Definition final {S A} (m : M S A) (s : S) : S :=
  match m s with Ok _ s' | Stop _ s' => s' | Undefined | NoFuel => s end.
