(* ===== verification/MapClaims.v ===== *)
(** The properties of [map\[K\]V]: what its operations promise the compiler's
    generated code, each with a concrete instance. *)
From S2P Require Import Prelude Runs Checked Interfaces MapTable MapLayout MapInvariant MapRefinement MapSpec MapLifecycle MapClone MapProgram MapCost Concrete.

Section claims.
Context {K V E : Type} {api : AllocApi E} {tot : AllocTotal E}
  (ops : container_ops (K:=K) (V:=V) (E:=E)) {ok : MapOpsOk ops}.
Implicit Types (s : mstate (K:=K) (V:=V) (E:=E)).

(** C1: any sequence of reserves, shrinks, stores, removes, finds and clears
    on a well-formed map runs without undefined behaviour and without
    running out of steps, refines the abstract finite map step by step, and
    ends in a well-formed map that owns exactly its own block. *)
Theorem map_refines_finite_map (p : list map_op) s :
  inv ops s ->
  wp (run ops p)
    (fun answers s' => inv ops s' /\ abs_run ops (view (self s)) p answers (view (self s')))
    (fun _ _ => True) s.
Proof. by apply (run_spec ops). Qed.

(** C26: over the whole life of a map, from the all-zero value through any
    operations to its drop, every provider block is given back with the
    handle, the size and the alignment it was got with, and exactly once. *)
Theorem map_life_releases_every_block (p : list map_op) s :
  self s = zero_map -> trace s = [] ->
  wp (run ops p ;;; map_drop ops)
    (fun _ s' => self s' = zero_map /\ ledger (trace s') = Some []) (fun _ _ => True) s.
Proof.
  intros Hs Ht. apply wp_bind. eapply wp_conseq; [apply (run_spec ops p)| |done].
  - split; [by rewrite Hs|]. by rewrite Hs, Ht.
  - intros ? s1 [[Hwf Hl] _]. eapply wp_conseq; [apply (map_drop_spec ops)| |done].
    + by eapply map_wf_block_ok.
    + intros ? s2 (Hz & _ & Hled). auto.
Qed.

(** C20: [map_entry] answers the slot of the key's value: of the entry the
    map already has, with the map unchanged, or of a new entry with an
    all-zero value, the map otherwise the same; when the table cannot grow or
    the key cannot be cloned it answers none and the map is unchanged. *)
Theorem map_entry_correct (key : K) s :
  inv ops s ->
  wp (map_entry ops key)
    (fun r s' => inv ops s' /\
       match r with
       | (Some i, false) => self s' = self s /\ exists k v,
           slot_holds (self s) i k v /\ key_equal ops k key = true
       | (Some i, true) => no_key ops (view (self s)) key /\
           exists k, key_equal ops k key = true /\ slot_holds (self s') i k (zero_value ops) /\
             view (self s') ≡ₚ (k, zero_value ops) :: view (self s)
       | (None, inserted) => inserted = false /\ no_key ops (view (self s)) key /\ self s' = self s
       end)
    (fun _ s' => self s' = self s) s.
Proof.
  intros Hinv. eapply wp_conseq; [by apply (map_entry_spec ops key)| |done].
  intros [[i|] []] s' [Hi Hr]; (split; [done|]).
  - destruct Hr as (? & _ & k & ? & ? & ?). eauto 10.
  - done.
  - by destruct Hr as (_ & [=] & _).
  - by destruct Hr as (? & _ & ?).
Qed.

(** C14: an insertion into a well-formed map does not go to the provider, or is
    refused, or leaves a table with room for three eighths of its slots: no
    program of stores, removals, finds and clears with at most that many stores
    makes a request to a provider after it, whatever tombstones its removals
    leave. *)
Theorem map_rebuilds_rare (key : K) s :
  inv ops s ->
  wp (map_entry ops key)
    (fun r s1 => requests (trace s1) = requests (trace s) \/ r.1 = None \/
       8 <= slots (self s1) /\
       forall p, Forall plain p -> 8 * stores p <= 3 * slots (self s1) ->
         wp (run ops p) (fun _ s2 => requests (trace s2) = requests (trace s1))
           (fun _ s2 => requests (trace s2) = requests (trace s1)) s1)
    (fun _ _ => True) s.
Proof.
  intros Hinv. eapply wp_conseq; [eapply wp_runs; [by apply map_entry_spec|by apply entry_half_full]| |done].
  intros r s1 [[Hinv1 _] [Hr|[Hr|[Hs Hu]]]]; [by left|by right; left|]. right; right. split; [done|].
  intros p Hp Hn. apply run_calm; try done. by apply (half_full_roomy ops).
Qed.

(** [map_find] answers the slot of the key's value exactly when the
    map has the key, and changes nothing. *)
Theorem map_find_correct (key : K) s :
  map_wf ops (self s) ->
  exists r, map_find ops key s = Ok r s /\
    match r with
    | Some i => exists k v, slot_holds (self s) i k v /\ key_equal ops k key = true
    | None => no_key ops (view (self s)) key
    end.
Proof. by apply (map_find_spec ops). Qed.

(** [map_remove] takes exactly the key's entry out of the map, hands
    its value to the caller and drops its key once; without that entry it
    answers none and changes nothing. When the key's hook panics the entry
    is out of the map and its value is still owed a drop. *)
Theorem map_remove_correct (key : K) s :
  inv ops s ->
  wp (map_remove ops key)
    (fun r s' => inv ops s' /\
       match r with
       | None => self s' = self s /\ trace s' = trace s /\ no_key ops (view (self s)) key
       | Some v => exists k, key_equal ops k key = true /\
           view (self s) ≡ₚ (k, v) :: view (self s') /\ trace s' = trace s ++ key_debt ops k /\
           m_cap (self s') = m_cap (self s)
       end)
    (fun _ s' => account ops s' ≡ₚ account ops s /\ exists k v, key_equal ops k key = true /\
       view (self s) ≡ₚ (k, v) :: view (self s')) s.
Proof. by apply (map_remove_spec ops). Qed.

(** C28: [map_reserve] panics on a negative capacity; otherwise it answers 1
    with the same entries and at least the capacity asked for, however the
    table is rebuilt, or answers 0 with nothing changed but the provider the
    map is bound to. *)
Theorem map_reserve_correct (n : Z) s :
  inv ops s ->
  wp (map_reserve ops n)
    (fun r s' => inv ops s' /\ 0 <= n /\
       if r then view (self s') ≡ₚ view (self s) /\ n <= m_cap (self s') /\
         m_cap (self s) <= m_cap (self s')
       else self s' = RtMap (m_table (self s)) (m_len (self s)) (m_cap (self s)) (bound_allocator s))
    (fun h s' => n < 0 -> h = Panicked "a container capacity cannot be negative" /\ s' = s) s.
Proof.
  intros Hinv. destruct (Z.ltb_spec n 0) as [Hn|Hn].
  - unfold map_reserve. by destruct (Z.ltb_spec n 0); [|lia].
  - eapply wp_conseq; [by apply (map_reserve_spec ops n)| |by intros; lia].
    intros r s' [Hi Hr]. done.
Qed.

(** [map_shrink] keeps the entries and never raises the capacity nor
    lowers it below what was asked; when it answers 0 nothing changed. *)
Theorem map_shrink_correct (n : Z) s :
  inv ops s ->
  wp (map_shrink ops n)
    (fun r s' => inv ops s' /\ 0 <= n /\
       if r then view (self s') ≡ₚ view (self s) /\ m_cap (self s') <= m_cap (self s) /\
         Z.min n (m_cap (self s)) <= m_cap (self s')
       else self s' = self s)
    (fun _ s' => self s' = self s) s.
Proof.
  intros Hinv. destruct (Z.ltb_spec n 0) as [Hn|Hn].
  - unfold map_shrink, bind, gets. by destruct (Z.ltb_spec n 0); [|lia].
  - eapply wp_conseq; [by apply (map_shrink_spec ops n)| |done]. by intros r s' [Hi Hr].
Qed.

(** C2: a drop hook may panic in the middle of [map_drop]; when the unwind
    then drops the same map again, every key and value that was owed a drop
    has been dropped exactly once, and the map is the all-zero value. *)
Theorem map_drop_exactly_once s :
  block_ok (self s) ->
  wp (map_drop ops)
    (fun _ s' => self s' = zero_map /\ drops (trace s') = drops (trace s) ++ pending ops (self s))
    (fun _ s1 => wp (map_drop ops)
       (fun _ s' => self s' = zero_map /\
          drops (trace s') ≡ₚ drops (trace s) ++ pending ops (self s))
       (fun _ s' => account ops s' ≡ₚ account ops s) s1) s.
Proof.
  intros Hok. eapply wp_conseq; [by apply (map_drop_spec ops)| |].
  - intros ? s' (? & ? & _). done.
  - intros h s1 [Hacc Hok1]. eapply wp_conseq; [by apply (map_drop_spec ops)| |].
    + intros ? s2 (Hz & Hd & _). split; [done|]. rewrite Hd. exact Hacc.
    + intros ? s2 [Hacc2 _]. by rewrite Hacc2.
Qed.

(** [map_clear] drops every key and value once, keeps the block and the
    capacity, and leaves the empty map; a hook that panics leaves a state a
    second drop finishes. *)
Theorem map_clear_correct s :
  inv ops s ->
  wp (map_clear ops)
    (fun _ s' => inv ops s' /\ view (self s') = [] /\ m_cap (self s') = m_cap (self s) /\
       drops (trace s') = drops (trace s) ++ pending ops (self s))
    (fun _ s' => account ops s' ≡ₚ account ops s /\ block_ok (self s')) s.
Proof. by apply (map_clear_spec ops). Qed.

(** C30: [map_clone] makes a well-formed map of the same length whose
    entries are clones of the source's one by one, in a block of its own, with
    no other call than those. When the block is refused nothing else is called;
    when the clone of a key or a value is, exactly the copies made before it are
    destroyed, each once, that slot's cloned key first, the block is freed, and
    [out] is the empty map. *)
Theorem map_clone_correct (src : rt_map (K:=K) (V:=V)) a held s :
  map_wf ops src -> a <> 0 -> ledger (trace s) = Some held ->
  wp (map_clone ops src a)
    (fun r s' => self s' = self s /\
       if r.1 then
         map_wf ops r.2 /\ m_len r.2 = m_len src /\ m_allocator r.2 = a /\
         Forall2 (fun p q => cloned (key_clone ops) a p.1 q.1 /\ cloned (elem_clone ops) a p.2 q.2)
           (view src) (view r.2) /\
         ledger (trace s') = Some (owned r.2 ++ held) /\ drops (trace s') = drops (trace s) /\
         trace s' = trace s ++ made_by_calls ops a src r.2
       else
         r.2 = RtMap None 0 0 a /\ ledger (trace s') = Some held /\
         exists evs, trace s' = trace s ++ evs /\ gave_back ops a src evs)
    (fun _ s' => self s' = self s) s.
Proof. by apply (map_clone_spec ops). Qed.

(** C37: walking a map with [map_scan] from cursor 0 answers every live
    entry exactly once and ends. *)
Theorem map_scan_enumerates t s :
  table_wf ops t ->
  walk (E:=E) (S (length (t_slots t))) (Some t) 0 s = Ok (entries (t_slots t)) s.
Proof.
  intros Hwf. apply (walk_spec t 0); [|lia..]. apply (wf_length _ _ _ _ (wf_slots _ _ Hwf)).
Qed.
End claims.

(** C36: when [map_block_shape] describes a block, the control bytes, the keys
    and the values of any slot lie inside the block behind the header, no two of
    them overlap, and with power-of-two alignments every key and value is
    aligned in a block that is aligned to [block_align]. *)
Theorem map_block_shape_sound l slots h :
  layout_ok l -> is_i64 slots -> map_block_shape l slots = Some h ->
  (forall i, 0 <= i < slots ->
     within (control_range h i) sizeof_map_header (keys_offset h) /\
     within (key_range l h i) (keys_offset h) (values_offset h) /\
     within (value_range l h i) (values_offset h) (block_size h)) /\
  (forall i j, 0 <= i -> i < j -> j < slots ->
     before (control_range h i) (control_range h j) /\
     before (key_range l h i) (key_range l h j) /\
     before (value_range l h i) (value_range l h j)) /\
  (pow2 (sane_container_align (key_align l)) -> pow2 (sane_container_align (elem_align l)) ->
   forall base, (block_align h | base) ->
     (sane_container_align (key_align l) | base + keys_offset h) /\
     (sane_container_align (elem_align l) | base + values_offset h)) /\
  is_u64 (block_size h).
Proof.
  intros Hl Hs Hsh. destruct (map_block_shape_Some l slots h Hl Hs Hsh) as [Hpos Hb].
  pose proof Hb as [_ Hal Hc Hk Hka Hv Hva He _ Hsz]. pose proof (map_block_align_spec l Hl) as (_ & _ & Hk2 & He2).
  pose proof (key_size_u64 l Hl) as [Hks _]. pose proof (elem_size_u64 l Hl) as [Hes _].
  split; [|split; [|split; [|done]]].
  - intros i Hi. pose proof (slot_in_array (keys_offset h) slots _ i Hi Hks).
    pose proof (slot_in_array (values_offset h) slots _ i Hi Hes).
    unfold within, control_range, key_range, value_range. cbn. lia.
  - intros i j H0 Hij Hj. pose proof (slots_apart (keys_offset h) _ i j Hks Hij).
    pose proof (slots_apart (values_offset h) _ i j Hes Hij).
    unfold before, control_range, key_range, value_range. cbn. lia.
  - intros Hpk Hpe base Hbase. rewrite Hal in Hbase.
    pose proof (map_block_align_pow2 l Hpk Hpe) as Hpa.
    split; apply Z.divide_add_r; try done; (eapply Z.divide_trans; [|exact Hbase]);
      by apply pow2_le_divide.
Qed.

(** [map_slots_for] answers the least power of two from 8 up whose seven
    eighths hold the wanted entries, and answers 0 only when 2 to the 62 slots
    do not. *)
Theorem map_slots_for_least (n : Z) :
  exists r, map_slots_for n = Some r /\
    match r with
    | None => map_capacity_of (2 ^ 62) < n
    | Some slots => exists j, 3 <= j <= 62 /\ slots = 2 ^ j /\ n <= map_capacity_of slots /\
        forall i, 3 <= i < j -> map_capacity_of (2 ^ i) < n
    end.
Proof. apply map_slots_for_spec. Qed.

(** * Concrete instances *)

Lemma start_inv n : inv int_ops (start n).
Proof. done. Qed.

Lemma run_inv p s rs s' : inv int_ops s -> run int_ops p s = Ok rs s' -> inv int_ops s'.
Proof. intros Hi Hr. pose proof (run_spec int_ops p s Hi) as Hw. unfold wp in Hw. rewrite Hr in Hw. exact (proj1 Hw). Qed.

Definition life : list (map_op (K:=Z) (V:=Z)) :=
  [OpReserve 3; OpStore 1 10; OpStore 2 20; OpFind 1; OpStore 1 11; OpFind 1; OpRemove 2; OpFind 2;
   OpShrink 0; OpReserve 30; OpFind 1; OpClear; OpFind 1].

(** Two entries, one of which has a value whose hook panics. *)
Definition stored : mstate (K:=Z) (V:=Z) (E:=heap) :=
  Eval vm_compute in final (run int_ops [OpStore 1 13; OpStore 2 20]) (start 5).

Lemma stored_inv : inv int_ops stored.
Proof. eapply (run_inv [OpStore 1 13; OpStore 2 20] (start 5)); [apply start_inv|vm_compute; reflexivity]. Qed.

Lemma map_refines_finite_map_witness :
  (exists s', run int_ops life (start 9) = Ok
     [AnsDone true; AnsDone true; AnsDone true; AnsValue (Some 10); AnsDone true; AnsValue (Some 11);
      AnsValue (Some 20); AnsValue None; AnsDone true; AnsDone true; AnsValue (Some 11);
      AnsDone true; AnsValue None] s') /\
  wp (run int_ops life)
    (fun answers s' => inv int_ops s' /\ abs_run int_ops (view (self (start 9))) life answers (view (self s')))
    (fun _ _ => True) (start 9).
Proof.
  split; [eexists; vm_compute; reflexivity|].
  apply (map_refines_finite_map int_ops life (start 9)), start_inv.
Defined.

Lemma map_life_releases_every_block_witness :
  wp (run int_ops life ;;; map_drop int_ops)
    (fun _ s' => self s' = zero_map /\ ledger (trace s') = Some []) (fun _ _ => True) (start 9).
Proof. apply (map_life_releases_every_block int_ops life (start 9)); reflexivity. Defined.

Lemma map_entry_correct_witness :
  (exists s', map_entry int_ops 5 stored = Ok (Some 5, true) s') /\
  wp (map_entry int_ops 5)
    (fun r s' => inv int_ops s' /\
       match r with
       | (Some i, false) => self s' = self stored /\ exists k v,
           slot_holds (self stored) i k v /\ key_equal int_ops k 5 = true
       | (Some i, true) => no_key int_ops (view (self stored)) 5 /\
           exists k, key_equal int_ops k 5 = true /\ slot_holds (self s') i k (zero_value int_ops) /\
             view (self s') ≡ₚ (k, zero_value int_ops) :: view (self stored)
       | (None, inserted) => inserted = false /\ no_key int_ops (view (self stored)) 5 /\
           self s' = self stored
       end)
    (fun _ s' => self s' = self stored) stored.
Proof.
  split; [eexists; vm_compute; reflexivity|]. apply (map_entry_correct int_ops 5), stored_inv.
Defined.

(** The first insertion makes 8 slots; three more, with removals between them,
    stay in them. *)
Definition churn : list (map_op (K:=Z) (V:=Z)) :=
  [OpStore 2 20; OpRemove 2; OpFind 1; OpStore 3 30; OpRemove 3; OpRemove 9; OpStore 4 40].

Lemma churn_plain : Forall plain churn.
Proof. repeat constructor. Qed.

Lemma map_rebuilds_rare_witness :
  (let s1 := final (map_entry int_ops 1) (start 9) in
   (slots (self s1), stores churn, length (requests (trace s1)), length (requests (trace (final (run int_ops churn) s1))))
     = (8, 3, 1%nat, 1%nat)) /\
  wp (map_entry int_ops 1)
    (fun r s1 => requests (trace s1) = requests (trace (start 9)) \/ r.1 = None \/
       8 <= slots (self s1) /\
       forall p, Forall plain p -> 8 * stores p <= 3 * slots (self s1) ->
         wp (run int_ops p) (fun _ s2 => requests (trace s2) = requests (trace s1))
           (fun _ s2 => requests (trace s2) = requests (trace s1)) s1)
    (fun _ _ => True) (start 9).
Proof. split; [vm_compute; reflexivity|]. apply (map_rebuilds_rare int_ops 1), start_inv. Defined.

Lemma map_find_correct_witness :
  exists r, map_find int_ops 2 stored = Ok r stored /\
    match r with
    | Some i => exists k v, slot_holds (self stored) i k v /\ key_equal int_ops k 2 = true
    | None => no_key int_ops (view (self stored)) 2
    end.
Proof. apply (map_find_correct int_ops 2), stored_inv. Defined.

Lemma map_remove_correct_witness :
  wp (map_remove int_ops 2)
    (fun r s' => inv int_ops s' /\
       match r with
       | None => self s' = self stored /\ trace s' = trace stored /\ no_key int_ops (view (self stored)) 2
       | Some v => exists k, key_equal int_ops k 2 = true /\
           view (self stored) ≡ₚ (k, v) :: view (self s') /\ trace s' = trace stored ++ key_debt int_ops k /\
           m_cap (self s') = m_cap (self stored)
       end)
    (fun _ s' => account int_ops s' ≡ₚ account int_ops stored /\ exists k v, key_equal int_ops k 2 = true /\
       view (self stored) ≡ₚ (k, v) :: view (self s')) stored.
Proof. apply (map_remove_correct int_ops 2), stored_inv. Defined.

Lemma map_reserve_correct_witness :
  (exists s', map_reserve int_ops 20 stored = Ok true s') /\
  wp (map_reserve int_ops 20)
    (fun r s' => inv int_ops s' /\ 0 <= 20 /\
       if r then view (self s') ≡ₚ view (self stored) /\ 20 <= m_cap (self s') /\
         m_cap (self stored) <= m_cap (self s')
       else self s' = RtMap (m_table (self stored)) (m_len (self stored)) (m_cap (self stored))
         (bound_allocator stored))
    (fun h s' => 20 < 0 -> h = Panicked "a container capacity cannot be negative" /\ s' = stored) stored.
Proof.
  split; [eexists; vm_compute; reflexivity|]. apply (map_reserve_correct int_ops 20), stored_inv.
Defined.

Lemma map_shrink_correct_witness :
  wp (map_shrink int_ops 0)
    (fun r s' => inv int_ops s' /\ 0 <= 0 /\
       if r then view (self s') ≡ₚ view (self stored) /\ m_cap (self s') <= m_cap (self stored) /\
         Z.min 0 (m_cap (self stored)) <= m_cap (self s')
       else self s' = self stored)
    (fun _ s' => self s' = self stored) stored.
Proof. apply (map_shrink_correct int_ops 0), stored_inv. Defined.

Lemma map_drop_exactly_once_witness :
  (exists h s1 s2, map_drop int_ops stored = Stop h s1 /\ map_drop int_ops s1 = Ok tt s2) /\
  wp (map_drop int_ops)
    (fun _ s' => self s' = zero_map /\
       drops (trace s') = drops (trace stored) ++ pending int_ops (self stored))
    (fun _ s1 => wp (map_drop int_ops)
       (fun _ s' => self s' = zero_map /\
          drops (trace s') ≡ₚ drops (trace stored) ++ pending int_ops (self stored))
       (fun _ s' => account int_ops s' ≡ₚ account int_ops stored) s1) stored.
Proof.
  split; [eexists _, _, _; split; vm_compute; reflexivity|].
  apply (map_drop_exactly_once int_ops), (map_wf_block_ok int_ops), stored_inv.
Defined.

Lemma map_clear_correct_witness :
  wp (map_clear int_ops)
    (fun _ s' => inv int_ops s' /\ view (self s') = [] /\ m_cap (self s') = m_cap (self stored) /\
       drops (trace s') = drops (trace stored) ++ pending int_ops (self stored))
    (fun _ s' => account int_ops s' ≡ₚ account int_ops stored /\ block_ok (self s')) stored.
Proof. apply (map_clear_correct int_ops), stored_inv. Defined.

Lemma map_clone_correct_witness :
  (exists out s', map_clone int_ops (self stored) 7 stored = Ok (true, out) s') /\
  wp (map_clone int_ops (self stored) 7)
    (fun r s' => self s' = self stored /\
       if r.1 then
         map_wf int_ops r.2 /\ m_len r.2 = m_len (self stored) /\ m_allocator r.2 = 7 /\
         Forall2 (fun p q => cloned (key_clone int_ops) 7 p.1 q.1 /\ cloned (elem_clone int_ops) 7 p.2 q.2)
           (view (self stored)) (view r.2) /\
         ledger (trace s') = Some (owned r.2 ++ owned (self stored)) /\
         drops (trace s') = drops (trace stored) /\
         trace s' = trace stored ++ made_by_calls int_ops 7 (self stored) r.2
       else
         r.2 = RtMap None 0 0 7 /\ ledger (trace s') = Some (owned (self stored)) /\
         exists evs, trace s' = trace stored ++ evs /\ gave_back int_ops 7 (self stored) evs)
    (fun _ s' => self s' = self stored) stored.
Proof.
  split; [eexists _, _; vm_compute; reflexivity|].
  apply (map_clone_correct int_ops (self stored) 7); [apply stored_inv|done|apply stored_inv].
Defined.

(** A clone refused at the value 99: the copy made before it, the key of the
    refused entry and the block go back. *)
Example map_clone_refused :
  let s := final (run int_ops [OpStore 1 50; OpStore 2 99; OpStore 3 60]) (start 5) in
  match map_clone int_ops (self s) 7 s with
  | Ok (false, out) s' => m_len out = 0 /\ drop (length (trace s)) (trace s') =
      [EvAlloc 7 208 8 4312; EvCloneValue 50 (Some 50); EvCloneValue 99 None; EvDropKey 2; EvDropKey 1;
       EvDropValue 50; EvFree 7 4312 208 8]
  | _ => False
  end.
Proof. vm_compute. split; reflexivity. Qed.

Lemma map_scan_enumerates_witness :
  exists t, m_table (self stored) = Some t /\
    walk (E:=heap) (S (length (t_slots t))) (Some t) 0 stored = Ok (entries (t_slots t)) stored.
Proof.
  eexists. split; [vm_compute; reflexivity|]. apply (map_scan_enumerates int_ops).
  exact (proj1 (proj1 stored_inv)).
Defined.

Lemma map_block_shape_sound_witness :
  exists h, map_block_shape cells 8 = Some h /\ within (value_range cells h 7) (values_offset h) (block_size h).
Proof.
  eexists. split; [reflexivity|].
  apply (map_block_shape_sound cells 8); [split; vm_compute; split; discriminate|by vm_compute|done|lia].
Defined.
