(* ===== verification/Sort.v ===== *)
(** The introsort behind [core:slice] ([runtime/container.c], "sorting"): an
    in-place sort of byte-string elements under an arbitrary comparator. *)
From S2P Require Import Prelude.

Definition LOKE_RT_SORT_CHUNK : Z := 64.
Definition LOKE_RT_SORT_SMALL : Z := 16.

(** One element: its bytes. *)
Abbreviation elem := (list Z).

(** A signed 64-bit computation: overflow is undefined behaviour. *)
Definition i64 {S} (x : Z) : M S Z := if decide (is_i64 x) then ret x else undefined.

(** * Swapping two elements *)

(** [memcpy(dst + off, src + off, step)]. *)
Definition copy_chunk (dst src : elem) (off step : nat) : elem :=
  take off dst ++ take step (drop off src) ++ drop (off + step) dst.

(** The loop of [sort_swap], on the bytes of the two elements. *)
Fixpoint swap_chunks (fuel : nat) (a b : elem) (off left : Z) : option (elem * elem) :=
  if left =? 0 then Some (a, b)
  else
    match fuel with
    | O => None
    | S fuel =>
        let step := if left <? LOKE_RT_SORT_CHUNK then left else LOKE_RT_SORT_CHUNK in
        let a' := copy_chunk a b (Z.to_nat off) (Z.to_nat step) in
        let b' := copy_chunk b a (Z.to_nat off) (Z.to_nat step) in
        swap_chunks fuel a' b' (off + step) (left - step)
    end.

(** * The sort *)

Section Sort.
(** [St] is what the comparator's state pointer reaches, [E] what the
    comparator may change: it is user code. *)
Context {St E : Type}.

(** [loke_rt_sort_v1] without its base pointer: the array is the state. *)
Record sort_v1 := SortV1 {
  size : Z;
  less : option (elem -> elem -> M E bool);
  less_with_state : option (St -> elem -> elem -> M E bool);
  state : St;
  descending : bool;
}.

Abbreviation arr := (list elem * E)%type.

Context (s : sort_v1).

Definition sort_at (i : Z) : M arr elem := fun '(xs, e) => need (at_index xs i) (xs, e).

Definition sort_before (a b : elem) : M arr bool :=
  match less_with_state s with
  | Some f => lift_snd (f (state s) a b)
  | None =>
      match less s with
      | Some f => lift_snd (if descending s then f b a else f a b)
      | None => undefined
      end
  end.

(** [sort_before(s, sort_at(s, i), sort_at(s, j))]. *)
Definition before_at (i j : Z) : M arr bool :=
  let! a := sort_at i in
  let! b := sort_at j in
  sort_before a b.

Definition sort_write (i : Z) (a : elem) : M arr unit := fun '(xs, e) =>
  match set_index xs i a with Some xs => Ok tt (xs, e) | None => Undefined end.

Definition sort_swap (i j : Z) : M arr unit :=
  if i =? j then ret tt
  else
    let! a := sort_at i in
    let! b := sort_at j in
    let! (a, b) := need (swap_chunks (Z.to_nat (size s)) a b 0 (size s)) in
    sort_write i a ;;; sort_write j b.

(** ** Insertion sort *)

Fixpoint insertion_inner (fuel : nat) (low j : Z) : M arr unit :=
  match fuel with
  | O => no_fuel
  | S fuel =>
      if low <? j then
        let! b := before_at j (j - 1) in
        if (b : bool) then sort_swap j (j - 1) ;;; insertion_inner fuel low (j - 1) else ret tt
      else ret tt
  end.

Fixpoint insertion_outer (fuel : nat) (low i high : Z) : M arr unit :=
  match fuel with
  | O => no_fuel
  | S fuel =>
      if i <? high then
        insertion_inner (S (Z.to_nat (i - low))) low i ;;; insertion_outer fuel low (i + 1) high
      else ret tt
  end.

Definition sort_insertion (low high : Z) : M arr unit :=
  insertion_outer (S (Z.to_nat (high - low))) low (low + 1) high.

(** ** Heap sort *)

Fixpoint sift_loop (fuel : nat) (low node bound : Z) : M arr unit :=
  match fuel with
  | O => no_fuel
  | S fuel =>
      let! child := i64 (2 * (node - low) + 1 + low) in
      if bound <=? child then ret tt
      else
        let! larger := (if child + 1 <? bound then before_at child (child + 1) else ret false) in
        let child := if (larger : bool) then child + 1 else child in
        let! b := before_at node child in
        if (b : bool) then sort_swap node child ;;; sift_loop fuel low child bound else ret tt
  end.

Definition sort_sift_down (low root bound : Z) : M arr unit :=
  sift_loop (S (Z.to_nat (bound - root))) low root bound.

Fixpoint heapify_loop (n : nat) (low node high : Z) : M arr unit :=
  match n with
  | O => no_fuel
  | S n =>
      if low <? node then
        sort_sift_down low (node - 1) high ;;; heapify_loop n low (node - 1) high
      else ret tt
  end.

Fixpoint unheap_loop (n : nat) (low bound : Z) : M arr unit :=
  match n with
  | O => no_fuel
  | S n =>
      if 1 <? bound - low then
        sort_swap low (bound - 1) ;;;
        sort_sift_down low low (bound - 1) ;;;
        unheap_loop n low (bound - 1)
      else ret tt
  end.

Definition sort_heap (low high : Z) : M arr unit :=
  let node := low + (high - low) `quot` 2 in
  heapify_loop (S (Z.to_nat (node - low))) low node high ;;;
  unheap_loop (S (Z.to_nat (high - low))) low high.

(** ** Partition *)

Definition sort_choose_pivot (low high : Z) : M arr unit :=
  let mid := low + (high - low) `quot` 2 in
  let last := high - 1 in
  let! b := before_at mid low in
  (if (b : bool) then sort_swap mid low else ret tt) ;;;
  let! b := before_at last mid in
  (if (b : bool) then
     sort_swap last mid ;;;
     let! b := before_at mid low in
     if (b : bool) then sort_swap mid low else ret tt
   else ret tt) ;;;
  sort_swap low mid.

(** [do { i += 1; } while (i < high && before(i, low))]. *)
Fixpoint scan_up (fuel : nat) (low high i : Z) : M arr Z :=
  match fuel with
  | O => no_fuel
  | S fuel =>
      let i := i + 1 in
      if i <? high then
        let! b := before_at i low in
        if (b : bool) then scan_up fuel low high i else ret i
      else ret i
  end.

(** [do { j -= 1; } while (j > low && before(low, j))]. *)
Fixpoint scan_down (fuel : nat) (low j : Z) : M arr Z :=
  match fuel with
  | O => no_fuel
  | S fuel =>
      let j := j - 1 in
      if low <? j then
        let! b := before_at low j in
        if (b : bool) then scan_down fuel low j else ret j
      else ret j
  end.

Fixpoint partition_loop (fuel : nat) (low high i j : Z) : M arr Z :=
  match fuel with
  | O => no_fuel
  | S fuel =>
      let! i := scan_up (S (Z.to_nat (high - i))) low high i in
      let! j := scan_down (S (Z.to_nat (j - low))) low j in
      if j <=? i then ret j
      else sort_swap i j ;;; partition_loop fuel low high i j
  end.

Definition sort_partition (low high : Z) : M arr Z :=
  let! j := partition_loop (S (Z.to_nat (high - low))) low high low high in
  sort_swap low j ;;; ret j.

(** ** Introsort *)

(** [fuel] bounds the turns of the loop; [frames] is the C stack: a call
    that nests deeper than [frames] has no answer. *)
Fixpoint sort_introsort (fuel frames : nat) (low high depth : Z) : M arr unit :=
  match fuel with
  | O => no_fuel
  | S fuel =>
      if LOKE_RT_SORT_SMALL <? high - low then
        if depth =? 0 then sort_heap low high
        else
          let depth := depth - 1 in
          sort_choose_pivot low high ;;;
          let! pivot := sort_partition low high in
          match frames with
          | O => no_fuel
          | S below =>
              if pivot - low <? high - pivot - 1 then
                sort_introsort fuel below low pivot depth ;;;
                sort_introsort fuel frames (pivot + 1) high depth
              else
                sort_introsort fuel below (pivot + 1) high depth ;;;
                sort_introsort fuel frames low pivot depth
          end
      else sort_insertion low high
  end.

(** [while (span > 1) { span >>= 1; depth += 2; }]. *)
Fixpoint sort_depth (fuel : nat) (span depth : Z) : option Z :=
  match fuel with
  | O => None
  | S fuel => if 1 <? span then sort_depth fuel (Z.shiftr span 1) (depth + 2) else Some depth
  end.

Definition sort_all (count : Z) : M arr unit :=
  match sort_depth 64 count 0 with
  | Some depth => sort_introsort (S (Z.to_nat depth)) 63 0 count depth
  | None => no_fuel
  end.

End Sort.
Arguments sort_v1 : clear implicits.

(** * Entry points *)

Section entry.
Context {St E : Type}.

(** [loke_rt_v1_sort]. *)
Definition sort (count elem_size : Z) (less : option (elem -> elem -> M E bool)) (descending : bool)
    : M (list elem * E) unit :=
  match less with
  | Some _ =>
      if (count <? 2) || (elem_size =? 0) then ret tt
      else sort_all (SortV1 (St:=unit) elem_size less None tt descending) count
  | None => ret tt
  end.

(** [loke_rt_v1_sort_by]. *)
Definition sort_by (count elem_size : Z) (state : St)
    (less : option (St -> elem -> elem -> M E bool)) : M (list elem * E) unit :=
  match less with
  | Some _ =>
      if (count <? 2) || (elem_size =? 0) then ret tt
      else sort_all (SortV1 elem_size None less state false) count
  | None => ret tt
  end.
End entry.
