(* ===== verification/SortSwaps.v ===== *)
(** What the sort is made of: swaps of two elements inside a range. A sort
    that stops anywhere, for any reason, leaves a permutation. *)
From S2P Require Import Prelude Sort.

(** * Element access *)

(** The element at an index; inside the array this is what C reads. *)
Definition elt (xs : list elem) (i : Z) : elem := default [] (xs !! Z.to_nat i).

Definition swap (xs : list elem) (i j : Z) : list elem :=
  <[Z.to_nat j := elt xs i]> (<[Z.to_nat i := elt xs j]> xs).

Lemma elt_lookup xs i : 0 <= i < zlen xs -> xs !! Z.to_nat i = Some (elt xs i).
Proof.
  intros Hi. unfold elt. destruct (lookup_lt_is_Some_2 xs (Z.to_nat i)) as [a Ha]; [lia|].
  by rewrite Ha.
Qed.

Lemma length_swap xs i j : length (swap xs i j) = length xs.
Proof. unfold swap. by rewrite !length_insert. Qed.

Lemma elt_swap xs i j k :
  0 <= i < zlen xs -> 0 <= j < zlen xs -> 0 <= k ->
  elt (swap xs i j) k = if k =? j then elt xs i else if k =? i then elt xs j else elt xs k.
Proof.
  intros Hi Hj Hk. unfold elt at 1, swap.
  destruct (Z.eqb_spec k j) as [->|Hkj].
  { rewrite list_lookup_insert_eq by (rewrite length_insert; lia). done. }
  rewrite list_lookup_insert_ne by lia.
  destruct (Z.eqb_spec k i) as [->|Hki].
  { by rewrite list_lookup_insert_eq by lia. }
  by rewrite list_lookup_insert_ne by lia.
Qed.

Lemma swap_Permutation xs i j :
  0 <= i < zlen xs -> 0 <= j < zlen xs -> swap xs i j ≡ₚ xs.
Proof.
  intros Hi Hj. pose proof (elt_lookup xs i Hi) as Hei. pose proof (elt_lookup xs j Hj) as Hej.
  by apply Permutation_insert_swap.
Qed.

(** * Shuffles of a range *)

Section shuffles.
Implicit Types (xs ys zs : list elem).

Definition swap_step (lo hi : Z) xs ys : Prop :=
  exists i j, lo <= i < hi /\ lo <= j < hi /\ ys = swap xs i j.

(** [ys] is [xs] after swaps inside [lo, hi). *)
Definition shuffled (lo hi : Z) : list elem -> list elem -> Prop := rtc (swap_step lo hi).

Lemma shuffled_refl lo hi xs : shuffled lo hi xs xs.
Proof. constructor. Qed.

Lemma shuffled_trans lo hi xs ys zs : shuffled lo hi xs ys -> shuffled lo hi ys zs -> shuffled lo hi xs zs.
Proof. intros ? ?. by transitivity ys. Qed.

Lemma shuffled_swap lo hi xs i j : lo <= i < hi -> lo <= j < hi -> shuffled lo hi xs (swap xs i j).
Proof. intros. apply rtc_once. by exists i, j. Qed.

Lemma shuffled_mono lo hi lo' hi' xs ys :
  lo' <= lo -> hi <= hi' -> shuffled lo hi xs ys -> shuffled lo' hi' xs ys.
Proof.
  intros ? ?. apply (rtc_subrel (swap_step lo hi) (swap_step lo' hi')).
  intros ? ? (i & j & ? & ? & ->). exists i, j. split_and!; [lia..|done].
Qed.

Lemma shuffled_length lo hi xs ys : shuffled lo hi xs ys -> length ys = length xs.
Proof.
  induction 1 as [|xs ys zs (i & j & _ & _ & ->) _ IH]; [done|]. by rewrite IH, length_swap.
Qed.

Lemma shuffled_Permutation lo hi xs ys :
  0 <= lo -> hi <= zlen xs -> shuffled lo hi xs ys -> ys ≡ₚ xs.
Proof.
  intros Hlo Hhi. induction 1 as [|xs ys zs (i & j & Hi & Hj & ->) _ IH]; [done|].
  rewrite IH by (by rewrite length_swap). apply swap_Permutation; lia.
Qed.

Lemma shuffled_out lo hi xs ys k :
  0 <= lo -> hi <= zlen xs -> shuffled lo hi xs ys -> 0 <= k -> k < lo \/ hi <= k -> elt ys k = elt xs k.
Proof.
  intros Hlo Hhi Hs Hk0 Hk. induction Hs as [|xs ys zs (i & j & Hi & Hj & ->) _ IH]; [done|].
  rewrite IH by (by rewrite length_swap). rewrite elt_swap by lia.
  destruct (Z.eqb_spec k j), (Z.eqb_spec k i); lia || done.
Qed.

(** What is in the range afterwards was in it before. *)
Lemma shuffled_back lo hi xs ys k :
  0 <= lo -> hi <= zlen xs -> shuffled lo hi xs ys -> lo <= k < hi ->
  exists k', lo <= k' < hi /\ elt ys k = elt xs k'.
Proof.
  intros Hlo Hhi Hs. revert k. induction Hs as [|xs ys zs (i & j & Hi & Hj & ->) _ IH]; intros k Hk;
    [by exists k|].
  destruct (IH ltac:(by rewrite length_swap) k Hk) as (k' & Hk' & ->).
  rewrite elt_swap by lia. destruct (k' =? j); [by exists i|]. destruct (k' =? i); [by exists j|eauto].
Qed.
End shuffles.

(** * The sort's own steps *)

Section steps.
Context {St E : Type} (s : sort_v1 St E).
Context (ordered : Prop) (lt : elem -> elem -> bool).
Implicit Types (e : E) (xs ys zs : list elem).

(** What is asked of the comparator: it returns or ends the program, without
    touching the array; and where [ordered] holds, it returns, with the answer
    [lt]. *)
Definition comparator_ok : Prop := forall a b (xs : list elem) (e : E),
  wp (sort_before s a b) (fun r st => st.1 = xs /\ (ordered -> r = lt a b)) (fun _ st => st.1 = xs /\ ~ ordered) (xs, e).

Definition sized (xs : list elem) : Prop := Forall (fun a => zlen a = size s) xs.

(** A range of an array of elements of the size the sort was given. *)
Definition valid (lo hi : Z) (xs : list elem) : Prop :=
  0 <= lo /\ hi <= zlen xs /\ sized xs.

Lemma sized_elt xs i : sized xs -> 0 <= i < zlen xs -> zlen (elt xs i) = size s.
Proof.
  intros Hs Hi. apply elt_lookup in Hi. exact (Forall_lookup_1 _ _ _ _ Hs Hi).
Qed.

Lemma valid_shuffled lo hi lo' hi' xs ys :
  valid lo hi xs -> shuffled lo' hi' xs ys -> 0 <= lo' -> hi' <= zlen xs -> valid lo hi ys.
Proof.
  intros (? & ? & Hs) Hsh ? ?. unfold valid, sized.
  rewrite (shuffled_length _ _ _ _ Hsh). split; [done|]. split; [done|].
  by rewrite (shuffled_Permutation lo' hi' xs ys).
Qed.

(** ** The chunked swap *)

Lemma copy_chunk_length a b off step :
  length a = length b -> (off + step <= length a)%nat -> length (copy_chunk a b off step) = length a.
Proof. intros. unfold copy_chunk. rewrite !length_app, !length_take, !length_drop. lia. Qed.

Lemma copy_chunk_take a b off step :
  length a = length b -> (off + step <= length a)%nat ->
  take (off + step) (copy_chunk a b off step) = take off a ++ take step (drop off b).
Proof.
  intros. unfold copy_chunk. rewrite app_assoc, take_app_length'; [done|].
  rewrite length_app, !length_take, length_drop. lia.
Qed.

Lemma copy_chunk_drop a b off step :
  length a = length b -> (off + step <= length a)%nat ->
  drop (off + step) (copy_chunk a b off step) = drop (off + step) a.
Proof.
  intros. unfold copy_chunk. rewrite app_assoc, drop_app_length'; [done|].
  rewrite length_app, !length_take, length_drop. lia.
Qed.

Lemma take_step_drop {A} (l : list A) off step :
  take step (drop off l) ++ drop (off + step) l = drop off l.
Proof. rewrite <- (take_drop step (drop off l)) at 2. by rewrite drop_drop. Qed.

Lemma swap_chunks_spec fuel a b off left :
  length a = length b -> 0 <= off -> 0 <= left -> off + left = zlen a -> left <= Z.of_nat fuel ->
  swap_chunks fuel a b off left =
    Some (take (Z.to_nat off) a ++ drop (Z.to_nat off) b, take (Z.to_nat off) b ++ drop (Z.to_nat off) a).
Proof.
  revert a b off left. induction fuel as [|fuel IH]; intros a b off left Hab Ho Hl Hsum Hf; cbn [swap_chunks];
    destruct (Z.eqb_spec left 0) as [->|Hne]; try lia.
  1,2: rewrite !take_ge, !drop_ge by lia; by rewrite !app_nil_r.
  set (step := if left <? LOKE_RT_SORT_CHUNK then left else LOKE_RT_SORT_CHUNK).
  assert (0 < step <= left) as Hstep.
  { unfold step, LOKE_RT_SORT_CHUNK. destruct (Z.ltb_spec left 64); lia. }
  assert (length (copy_chunk a b (Z.to_nat off) (Z.to_nat step)) = length a) as Hla
    by (apply copy_chunk_length; lia).
  assert (length (copy_chunk b a (Z.to_nat off) (Z.to_nat step)) = length b) as Hlb
    by (apply copy_chunk_length; lia).
  rewrite IH by lia. rewrite Z2Nat.inj_add by lia.
  rewrite !copy_chunk_take, !copy_chunk_drop by lia.
  by rewrite <- !app_assoc, !take_step_drop.
Qed.

(** ** Reading, comparing, swapping *)

Lemma sort_at_spec xs e i : 0 <= i < zlen xs -> sort_at i (xs, e) = Ok (elt xs i) (xs, e).
Proof.
  intros Hi. unfold sort_at, at_index. destruct (Z.leb_spec 0 i); [|lia].
  by rewrite elt_lookup.
Qed.

Lemma before_at_spec xs e i j :
  comparator_ok -> 0 <= i < zlen xs -> 0 <= j < zlen xs ->
  wp (before_at s i j) (fun r st => st.1 = xs /\ (ordered -> r = lt (elt xs i) (elt xs j)))
    (fun _ st => st.1 = xs /\ ~ ordered) (xs, e).
Proof.
  intros Hc Hi Hj. unfold before_at. apply wp_bind. unfold wp at 1. rewrite sort_at_spec by done.
  apply wp_bind. unfold wp at 1. rewrite sort_at_spec by done. apply Hc.
Qed.

Lemma sort_write_spec xs e i a :
  0 <= i < zlen xs -> sort_write i a (xs, e) = Ok tt (<[Z.to_nat i := a]> xs, e).
Proof.
  intros Hi. unfold sort_write, set_index.
  destruct (Z.leb_spec 0 i), (Z.ltb_spec i (zlen xs)); try lia. done.
Qed.

Lemma sort_swap_spec xs e i j :
  sized xs -> 0 <= i < zlen xs -> 0 <= j < zlen xs ->
  sort_swap s i j (xs, e) = Ok tt (swap xs i j, e).
Proof.
  intros Hs Hi Hj. unfold sort_swap. destruct (Z.eqb_spec i j) as [->|Hne].
  { unfold swap, ret. rewrite list_insert_insert_eq, list_insert_id; [done|]. by apply elt_lookup. }
  pose proof (sized_elt xs i Hs Hi). pose proof (sized_elt xs j Hs Hj).
  unfold bind. rewrite !sort_at_spec by done.
  rewrite swap_chunks_spec by lia. cbn -[sort_write].
  rewrite !drop_0, sort_write_spec by done. rewrite sort_write_spec by (rewrite length_insert; done).
  done.
Qed.

(** * Triples over a range *)

(** [in_range lo hi xs m Q st]: [m] only shuffles [xs] in [lo, hi), also
    where it stops, and gives [Q]. *)
Definition in_range {A} (lo hi : Z) (xs : list elem) (m : M (list elem * E) A)
    (Q : A -> list elem -> Prop) (st : list elem * E) : Prop :=
  wp m (fun r st' => shuffled lo hi xs st'.1 /\ Q r st'.1) (fun _ st' => shuffled lo hi xs st'.1 /\ ~ ordered) st.

Lemma in_range_ret {A} lo hi xs (a : A) Q ys e :
  shuffled lo hi xs ys -> Q a ys -> in_range lo hi xs (ret a) Q (ys, e).
Proof. done. Qed.

Lemma in_range_bind {A B} lo hi lo' hi' xs (m : M (list elem * E) A) (k : A -> M (list elem * E) B) Q R ys e :
  shuffled lo hi xs ys -> lo <= lo' -> hi' <= hi ->
  in_range lo' hi' ys m Q (ys, e) ->
  (forall r zs e', shuffled lo' hi' ys zs -> shuffled lo hi xs zs -> Q r zs ->
     in_range lo hi xs (k r) R (zs, e')) ->
  in_range lo hi xs (bind m k) R (ys, e).
Proof.
  intros Hsh Hlo Hhi Hm Hk. apply wp_bind. eapply wp_conseq; [exact Hm| |].
  - intros r [zs e'] [Hz Hq]. apply Hk; [done| |done].
    eapply shuffled_trans; [exact Hsh|]. by eapply shuffled_mono; [..|exact Hz].
  - intros h [zs e'] [Hz Hno]. split; [|done].
    eapply shuffled_trans; [exact Hsh|]. by eapply shuffled_mono; [..|exact Hz].
Qed.

(** The last call of a function. *)
Lemma in_range_tail {A} lo hi lo' hi' xs (m : M (list elem * E) A) Q R ys e :
  shuffled lo hi xs ys -> lo <= lo' -> hi' <= hi ->
  in_range lo' hi' ys m Q (ys, e) ->
  (forall r zs, shuffled lo' hi' ys zs -> Q r zs -> R r zs) ->
  in_range lo hi xs m R (ys, e).
Proof.
  intros Hsh Hlo Hhi Hm Hk. eapply wp_conseq; [exact Hm| |].
  - intros r [zs e'] [Hz Hq]. split; [|by apply Hk].
    eapply shuffled_trans; [exact Hsh|]. by eapply shuffled_mono; [..|exact Hz].
  - intros h [zs e'] [Hz Hno]. split; [|done].
    eapply shuffled_trans; [exact Hsh|]. by eapply shuffled_mono; [..|exact Hz].
Qed.

Lemma in_range_before {B} lo hi xs ys e i j (k : bool -> M (list elem * E) B) R :
  comparator_ok -> shuffled lo hi xs ys -> 0 <= i < zlen ys -> 0 <= j < zlen ys ->
  (forall r e', (ordered -> r = lt (elt ys i) (elt ys j)) -> in_range lo hi xs (k r) R (ys, e')) ->
  in_range lo hi xs (bind (before_at s i j) k) R (ys, e).
Proof.
  intros Hc Hsh Hi Hj Hk. apply wp_bind. eapply wp_conseq; [by apply before_at_spec| |].
  - intros r [zs e'] [Hz Hr]. cbn in Hz. subst zs. by apply Hk.
  - intros h [zs e'] [Hz Hno]. cbn in Hz. by subst zs.
Qed.

Lemma in_range_swap {B} lo hi xs ys e i j (k : unit -> M (list elem * E) B) R :
  sized ys -> shuffled lo hi xs ys -> lo <= i < hi -> lo <= j < hi -> 0 <= lo -> hi <= zlen ys ->
  (shuffled lo hi xs (swap ys i j) -> in_range lo hi xs (k tt) R (swap ys i j, e)) ->
  in_range lo hi xs (bind (sort_swap s i j) k) R (ys, e).
Proof.
  intros Hs Hsh Hi Hj Hlo Hhi Hk. apply wp_bind. unfold wp at 1.
  rewrite sort_swap_spec by (done || lia). apply Hk.
  eapply shuffled_trans; [exact Hsh|]. by apply shuffled_swap.
Qed.

Lemma in_range_swap_last lo hi xs ys e i j (R : unit -> list elem -> Prop) :
  sized ys -> shuffled lo hi xs ys -> lo <= i < hi -> lo <= j < hi -> 0 <= lo -> hi <= zlen ys ->
  (shuffled lo hi xs (swap ys i j) -> R tt (swap ys i j)) ->
  in_range lo hi xs (sort_swap s i j) R (ys, e).
Proof.
  intros Hs Hsh Hi Hj Hlo Hhi Hk. unfold in_range, wp.
  rewrite sort_swap_spec by (done || lia). cbn [fst].
  assert (shuffled lo hi xs (swap ys i j)) as Hz.
  { eapply shuffled_trans; [exact Hsh|]. by apply shuffled_swap. }
  auto.
Qed.
End steps.
