(* ===== verification/SortOrder.v ===== *)
(** Why the sort sorts: insertion sort, heap sort and the Hoare partition, each
    with the shuffle it makes and, under a strict weak order, the order it
    leaves. *)
From S2P Require Import Prelude Sort SortSwaps.

(** A strict weak order, as the comparator's contract. *)
Record strict_weak (lt : elem -> elem -> bool) : Prop := {
  sw_irrefl a : lt a a = false;
  sw_trans a b c : lt a b = true -> lt b c = true -> lt a c = true;
  sw_incomparable a b c : lt a b = false -> lt b c = false -> lt a c = false;
}.

Section order.
Context {St E : Type} (s : sort_v1 St E).
Context (ordered : Prop) (lt : elem -> elem -> bool).
Context (cmp : comparator_ok s ordered lt) (swo : ordered -> strict_weak lt).
Implicit Types (e : E) (xs ys zs : list elem).
Local Abbreviation in_range := (in_range ordered).

Definition le (a b : elem) : Prop := lt b a = false.

Lemma le_refl a : ordered -> le a a.
Proof. intros Ho. apply (sw_irrefl _ (swo Ho)). Qed.

Lemma le_trans a b c : ordered -> le a b -> le b c -> le a c.
Proof. intros Ho Hab Hbc. by apply (sw_incomparable _ (swo Ho) c b a). Qed.

Lemma lt_le a b : ordered -> lt a b = true -> le a b.
Proof.
  intros Ho Hab. unfold le. destruct (lt b a) eqn:Hba; [|done].
  pose proof (sw_trans _ (swo Ho) _ _ _ Hab Hba) as Haa. by rewrite (sw_irrefl _ (swo Ho)) in Haa.
Qed.

Definition sorted_on (lo hi : Z) xs : Prop :=
  forall a b, lo <= a < b -> b < hi -> le (elt xs a) (elt xs b).

(** ** Insertion sort *)

(** [low, i] is sorted but for the element at [j], which is not above what
    follows it. *)
Definition sinking (low j i : Z) ys : Prop :=
  forall a b, low <= a < b -> b <= i -> b <> j -> le (elt ys a) (elt ys b).

Lemma sinking_settled low j i ys :
  ordered -> j <= i -> (j <= low \/ le (elt ys (j - 1)) (elt ys j)) ->
  sinking low j i ys -> sorted_on low (i + 1) ys.
Proof.
  intros Ho Hj Hend Hs a b Hab Hb. destruct (decide (b = j)) as [->|Hne]; [|apply Hs; lia].
  destruct Hend as [|Hle]; [lia|]. destruct (decide (a = j - 1)) as [->|]; [done|].
  eapply le_trans; [done| |exact Hle]. apply Hs; lia.
Qed.

Lemma sinking_swap low j i ys :
  ordered -> 0 <= low -> low < j <= i -> i < zlen ys -> lt (elt ys j) (elt ys (j - 1)) = true ->
  sinking low j i ys -> sinking low (j - 1) i (swap ys j (j - 1)).
Proof.
  intros Ho Hlow Hj Hi Hlt Hs a b Hab Hb Hne. rewrite !elt_swap by lia.
  destruct (Z.eqb_spec b (j - 1)); [lia|].
  destruct (Z.eqb_spec a (j - 1)) as [->|].
  - destruct (Z.eqb_spec b j); [by apply lt_le|]. apply Hs; lia.
  - destruct (Z.eqb_spec b j), (Z.eqb_spec a j); try lia; apply Hs; lia.
Qed.

Lemma insertion_inner_spec fuel low j i xs ys e :
  valid s low (i + 1) ys -> shuffled low (i + 1) xs ys -> low <= j <= i -> j - low < Z.of_nat fuel ->
  (ordered -> sinking low j i ys) ->
  in_range low (i + 1) xs (insertion_inner s fuel low j) (fun _ zs => ordered -> sorted_on low (i + 1) zs)
    (ys, e).
Proof.
  revert j ys e. induction fuel as [|fuel IH]; intros j ys e (Hlo & Hhi & Hsz) Hsh Hj Hf Hs; [lia|].
  cbn [insertion_inner]. destruct (Z.ltb_spec low j) as [Hlt|Hge].
  2: { apply in_range_ret; [done|]. intros Ho. apply (sinking_settled low j); [done|lia|lia|auto]. }
  eapply in_range_before; [done..|lia|lia|]. intros r e1 Hr. destruct r.
  - eapply in_range_swap; [done|done|lia|lia|lia|lia|]. intros Hsh'.
    apply IH; [|done|lia|lia|].
    + split; [done|]. rewrite length_swap. split; [done|]. unfold sized.
      rewrite swap_Permutation by lia. done.
    + intros Ho. apply sinking_swap; [done|lia|lia|lia|by rewrite <- Hr|auto].
  - apply in_range_ret; [done|]. intros Ho. apply (sinking_settled low j); [done|lia| |auto].
    right. unfold le. by rewrite <- Hr.
Qed.

Lemma insertion_outer_spec fuel low i high xs ys e :
  valid s low high ys -> shuffled low high xs ys -> low < i -> high - i < Z.of_nat fuel ->
  (0 < fuel)%nat ->
  (ordered -> sorted_on low i ys) ->
  in_range low high xs (insertion_outer s fuel low i high) (fun _ zs => ordered -> sorted_on low high zs)
    (ys, e).
Proof.
  revert i ys e. induction fuel as [|fuel IH]; intros i ys e Hv Hsh Hi Hf Hpos Hs; [lia|].
  pose proof Hv as (Hlo & Hhi & Hsz). cbn [insertion_outer].
  destruct (Z.ltb_spec i high) as [Hlt|Hge].
  2: { apply in_range_ret; [done|]. intros Ho a b Ha Hb. apply Hs; [done|lia|lia]. }
  eapply (in_range_bind _ _ _ low (i + 1)); [done|lia|lia| |].
  - apply insertion_inner_spec; [split; [done|split; [lia|done]]|apply shuffled_refl|lia|lia|].
    intros Ho a b Ha Hb Hne. apply Hs; [done|lia|lia].
  - intros ? zs e' Hz Hxz Hso. cbn beta in Hso. apply IH; [|done|lia|lia|lia|done].
    eapply valid_shuffled; [exact Hv|exact Hz|lia|lia].
Qed.

Lemma sort_insertion_spec low high xs e :
  valid s low high xs ->
  in_range low high xs (sort_insertion s low high) (fun _ zs => ordered -> sorted_on low high zs) (xs, e).
Proof.
  intros Hv. unfold sort_insertion. apply insertion_outer_spec; [done|apply shuffled_refl|lia|lia|lia|].
  intros _ a b Ha Hb. lia.
Qed.

(** ** Heap sort *)

(** The parent of a node of the heap that starts at [low]. *)
Definition parent (low c : Z) : Z := low + (c - low - 1) `div` 2.

Lemma parent_children low n c :
  low <= n -> low < c ->
  parent low c = n <-> c = 2 * (n - low) + 1 + low \/ c = 2 * (n - low) + 1 + low + 1.
Proof.
  intros. unfold parent. pose proof (Z.div_mod (c - low - 1) 2 ltac:(done)).
  pose proof (Z.mod_pos_bound (c - low - 1) 2 ltac:(done)). lia.
Qed.

Lemma parent_below low c : low < c -> low <= parent low c < c.
Proof.
  intros. unfold parent. pose proof (Z.div_mod (c - low - 1) 2 ltac:(done)).
  pose proof (Z.mod_pos_bound (c - low - 1) 2 ltac:(done)). lia.
Qed.

Lemma parent_root low : parent low low < low.
Proof. unfold parent. replace (low - low - 1) with (-1) by lia. change ((-1) `div` 2) with (-1). lia. Qed.

(** Below [r] every element is at most its parent. *)
Definition heap_from (low r bound : Z) ys : Prop :=
  forall c, low < c < bound -> r <= parent low c -> le (elt ys c) (elt ys (parent low c)).

(** The same but for the children of [n], which are at most [n]'s parent. *)
Definition heap_hole (low r n bound : Z) ys : Prop :=
  forall c, low < c < bound -> r <= parent low c ->
    (parent low c <> n -> le (elt ys c) (elt ys (parent low c))) /\
    (parent low c = n -> low < n -> r <= parent low n -> le (elt ys c) (elt ys (parent low n))).

Lemma heap_hole_settled low r n bound ys :
  (forall c, low < c < bound -> parent low c = n -> le (elt ys c) (elt ys n)) ->
  heap_hole low r n bound ys -> heap_from low r bound ys.
Proof.
  intros Hn Hh c Hc Hr. destruct (decide (parent low c = n)) as [<-|Hne]; [by apply Hn|].
  by apply (Hh c).
Qed.

Lemma heap_hole_root low r bound ys :
  low <= r -> heap_from low (r + 1) bound ys -> heap_hole low r r bound ys.
Proof.
  intros Hr Hh c Hc Hp. split; [intros; apply Hh; lia|]. intros _ Hlt ?.
  pose proof (parent_below low r Hlt). lia.
Qed.

(** Swapping the hole with its larger child moves the hole there. *)
Lemma heap_hole_swap low r n m bound ys :
  ordered -> 0 <= low <= r -> r <= n < m -> m < bound -> bound <= zlen ys -> parent low m = n ->
  (forall c, low < c < bound -> parent low c = n -> le (elt ys c) (elt ys m)) ->
  lt (elt ys n) (elt ys m) = true ->
  heap_hole low r n bound ys -> heap_hole low r m bound (swap ys n m).
Proof.
  intros Ho Hlow Hn Hm Hb Hp Hmax Hlt Hh c Hc Hr.
  pose proof (parent_below low c ltac:(lia)) as Hpc.
  split.
  - intros Hne. rewrite !elt_swap by lia.
    destruct (Z.eqb_spec (parent low c) m); [done|].
    destruct (Z.eqb_spec c m) as [->|Hcm].
    { rewrite Hp, Z.eqb_refl. by apply lt_le. }
    destruct (Z.eqb_spec (parent low c) n) as [Hpn|Hpn].
    { destruct (Z.eqb_spec c n); [lia|]. by apply Hmax. }
    destruct (Z.eqb_spec c n) as [->|Hcn]; [|by apply (Hh c)].
    apply (Hh m); [lia|lia|done|lia|done].
  - intros Hpm Hlm Hrp. rewrite Hp, !elt_swap by lia.
    destruct (Z.eqb_spec c m); [lia|]. destruct (Z.eqb_spec c n); [lia|].
    destruct (Z.eqb_spec n m); [lia|]. rewrite Z.eqb_refl.
    rewrite <- Hpm. apply (Hh c); lia.
Qed.

Lemma in_range_i64 {B} lo hi xs x (k : Z -> M (list elem * E) B) R ys e :
  is_i64 x -> in_range lo hi xs (k x) R (ys, e) -> in_range lo hi xs (bind (i64 x) k) R (ys, e).
Proof. intros Hx Hk. unfold i64. by rewrite decide_True by done. Qed.

Lemma sift_loop_spec fuel low r node bound xs ys e :
  valid s low bound ys -> shuffled low bound xs ys -> bound < 2 ^ 62 ->
  low <= r <= node -> node <= bound -> bound - node < Z.of_nat fuel ->
  (ordered -> heap_hole low r node bound ys) ->
  in_range low bound xs (sift_loop s fuel low node bound) (fun _ zs => ordered -> heap_from low r bound zs)
    (ys, e).
Proof.
  revert node ys e. induction fuel as [|fuel IH]; intros node ys e Hv Hsh Hbig Hr Hn Hf Hh; [lia|].
  pose proof Hv as (Hlo & Hhi & Hsz). cbn [sift_loop]. apply in_range_i64; [ilia|].
  set (child := 2 * (node - low) + 1 + low) in *.
  assert (forall c, low < c < bound -> parent low c = node <-> c = child \/ c = child + 1) as Hch.
  { intros c Hc. apply parent_children; lia. }
  destruct (Z.leb_spec bound child) as [Hend|Hin].
  { apply in_range_ret; [done|]. intros Ho. apply (heap_hole_settled low r node); [|auto].
    intros c Hc Hp. apply Hch in Hp; lia. }
  set (larger := if child + 1 <? bound then before_at s child (child + 1) else ret false).
  assert (in_range low bound ys larger (fun b zs => zs = ys /\ (b = true -> child + 1 < bound) /\
    (ordered -> forall c, low < c < bound -> parent low c = node ->
       le (elt ys c) (elt ys (if b then child + 1 else child)))) (ys, e)) as Hlarger.
  { unfold larger. destruct (Z.ltb_spec (child + 1) bound) as [Hc|Hc].
    - eapply wp_conseq; [apply (before_at_spec s ordered lt); [done|lia|lia]| |].
      + intros b [zs e1] [Hz Hb]. cbn in *. subst zs. split; [apply shuffled_refl|].
        split; [done|]. split; [done|].
        intros Ho c Hcb [->| ->]%Hch; [| |done]; specialize (Hb Ho); destruct b;
          try (by apply le_refl); [by apply lt_le|]. unfold le. congruence.
      + intros h [zs e1] [Hz Hno]. cbn in *. subst zs. split; [apply shuffled_refl|done].
    - apply in_range_ret; [apply shuffled_refl|]. split; [done|]. split; [done|].
      intros Ho c Hcb [->| ->]%Hch; [by apply le_refl|lia|done]. }
  eapply in_range_bind; [exact Hsh|reflexivity|reflexivity|exact Hlarger|].
  intros b zs e1 _ _ (-> & Hb & Hmax).
  set (m := if b then child + 1 else child) in *.
  assert (node < m < bound) as Hm by (unfold m; destruct b; lia).
  assert (parent low m = node) as Hpm by (apply Hch; unfold m; destruct b; lia).
  eapply in_range_before; [done..|lia|lia|]. intros r' e2 Hlt. destruct r'.
  - eapply in_range_swap; [done|done|lia|lia|lia|lia|]. intros Hsh'.
    apply IH; [|done|done|lia|lia|lia|].
    + eapply (valid_shuffled s low bound low bound ys); [done|apply shuffled_swap; lia|lia|lia].
    + intros Ho. apply heap_hole_swap; [done|lia..|done|auto|by rewrite <- Hlt|auto].
  - apply in_range_ret; [done|]. intros Ho. apply (heap_hole_settled low r node); [|auto].
    intros c Hc Hp. eapply le_trans; [done|by apply Hmax|]. unfold le. by rewrite <- Hlt.
Qed.

Lemma sort_sift_down_spec low root bound ys e :
  valid s low bound ys -> bound < 2 ^ 62 -> low <= root <= bound ->
  (ordered -> heap_hole low root root bound ys) ->
  in_range low bound ys (sort_sift_down s low root bound)
    (fun _ zs => ordered -> heap_from low root bound zs) (ys, e).
Proof.
  intros Hv Hb Hr Hh. apply sift_loop_spec; [done|apply shuffled_refl|done|lia|lia|lia|done].
Qed.

Lemma heapify_loop_spec n low node high xs ys e :
  valid s low high ys -> shuffled low high xs ys -> high < 2 ^ 62 ->
  low <= node <= high -> node - low < Z.of_nat n ->
  (ordered -> heap_from low node high ys) ->
  in_range low high xs (heapify_loop s n low node high) (fun _ zs => ordered -> heap_from low low high zs)
    (ys, e).
Proof.
  revert node ys e. induction n as [|n IH]; intros node ys e Hv Hsh Hbig Hn Hf Hh; [lia|].
  pose proof Hv as (Hlo & Hhi & Hsz). cbn [heapify_loop]. destruct (Z.ltb_spec low node) as [Hlt|Hge].
  2: { apply in_range_ret; [done|]. by assert (node = low) as -> by lia. }
  eapply in_range_bind; [exact Hsh|reflexivity|reflexivity| |].
  - apply sort_sift_down_spec; [done|done|lia|]. intros Ho. apply heap_hole_root; [lia|].
    replace (node - 1 + 1) with node by lia. auto.
  - intros ? zs e' Hz Hxz Hh'. cbn beta in Hh'. apply IH; [|done|done|lia|lia|done].
    eapply valid_shuffled; [exact Hv|exact Hz|lia|lia].
Qed.

(** The root of a heap is its largest element. *)
Lemma heap_max low bound ys c :
  ordered -> heap_from low low bound ys -> low <= c < bound -> le (elt ys c) (elt ys low).
Proof.
  intros Ho Hh. induction c as [c IH] using (well_founded_induction (Z.lt_wf low)). intros Hc.
  destruct (decide (c = low)) as [->|Hne]; [by apply le_refl|].
  pose proof (parent_below low c ltac:(lia)) as Hp.
  eapply le_trans; [done|apply Hh; lia|]. apply IH; lia.
Qed.

(** What [unheap_loop] keeps: a heap below [bound], the largest elements in
    order from there on. *)
Definition unheaping (low bound high : Z) ys : Prop :=
  heap_from low low bound ys /\ sorted_on bound high ys /\
  forall a b, low <= a < bound -> bound <= b < high -> le (elt ys a) (elt ys b).

Lemma unheaping_swap low bound high ys :
  ordered -> 0 <= low -> low + 1 < bound <= high -> high <= zlen ys ->
  unheaping low bound high ys ->
  let zs := swap ys low (bound - 1) in
  heap_hole low low low (bound - 1) zs /\ sorted_on (bound - 1) high zs /\
  forall a b, low <= a < bound - 1 -> bound - 1 <= b < high -> le (elt zs a) (elt zs b).
Proof.
  intros Ho Hlo Hb Hhi (Hh & Hs & Hx) zs.
  assert (forall c, low <= c < bound -> le (elt ys c) (elt ys low)) as Hmax.
  { intros c Hc. by apply (heap_max low bound). }
  split; [|split].
  - apply heap_hole_root; [lia|]. intros c Hc Hp. unfold zs.
    pose proof (parent_below low c ltac:(lia)). rewrite !elt_swap by lia.
    destruct (Z.eqb_spec c (bound - 1)), (Z.eqb_spec c low),
      (Z.eqb_spec (parent low c) (bound - 1)), (Z.eqb_spec (parent low c) low); try lia.
    apply Hh; lia.
  - intros a b Hab Hbh. unfold zs. rewrite !elt_swap by lia.
    destruct (Z.eqb_spec b (bound - 1)), (Z.eqb_spec b low), (Z.eqb_spec a low); try lia.
    destruct (Z.eqb_spec a (bound - 1)); [apply Hx; lia|apply Hs; lia].
  - intros a b Ha Hbh. unfold zs. rewrite !elt_swap by lia.
    destruct (Z.eqb_spec a (bound - 1)); [lia|]. destruct (Z.eqb_spec b low); [lia|].
    destruct (Z.eqb_spec a low), (Z.eqb_spec b (bound - 1)).
    + apply Hmax. lia.
    + apply Hx; lia.
    + apply Hmax. lia.
    + apply Hx; lia.
Qed.

Lemma unheaping_shuffled low bound high ys zs :
  0 <= low -> low <= bound <= high -> high <= zlen ys -> shuffled low bound ys zs ->
  sorted_on bound high ys ->
  (forall a b, low <= a < bound -> bound <= b < high -> le (elt ys a) (elt ys b)) ->
  heap_from low low bound zs -> unheaping low bound high zs.
Proof.
  intros Hlo Hb Hhi Hsh Hs Hx Hh.
  assert (forall k, bound <= k -> elt zs k = elt ys k) as Hout.
  { intros k Hk. eapply shuffled_out; [| |exact Hsh|lia|lia]; lia. }
  split; [done|]. split.
  - intros a b Hab Hbh. rewrite !Hout by lia. apply Hs; lia.
  - intros a b Ha Hbh. rewrite (Hout b) by lia.
    destruct (shuffled_back low bound ys zs a) as (a' & Ha' & ->); [lia|lia|done|done|]. apply Hx; lia.
Qed.

Lemma unheap_loop_spec n low bound high xs ys e :
  valid s low high ys -> shuffled low high xs ys -> high < 2 ^ 62 ->
  low <= bound <= high -> bound - low < Z.of_nat n -> (ordered -> unheaping low bound high ys) ->
  in_range low high xs (unheap_loop s n low bound) (fun _ zs => ordered -> sorted_on low high zs) (ys, e).
Proof.
  revert bound ys e. induction n as [|n IH]; intros bound ys e Hv Hsh Hbig Hb Hf Hu; [lia|].
  pose proof Hv as (Hlo & Hhi & Hsz). cbn [unheap_loop]. destruct (Z.ltb_spec 1 (bound - low)) as [Hlt|Hge].
  2: { apply in_range_ret; [done|]. intros Ho a b Hab Hbh. destruct (Hu Ho) as (_ & Hs & Hx).
       destruct (decide (bound <= a)); [apply Hs; lia|apply Hx; lia]. }
  eapply in_range_swap; [done|done|lia|lia|lia|lia|]. intros Hsh'.
  set (zs := swap ys low (bound - 1)) in *.
  assert (valid s low high zs) as Hvz.
  { eapply (valid_shuffled s low high low high ys); [done|apply shuffled_swap; lia|lia|lia]. }
  assert (zlen zs = zlen ys) as Hlen by (unfold zs; by rewrite length_swap).
  assert (ordered -> _) as Hz by (intros Ho; apply (unheaping_swap low bound high ys Ho); [lia..|auto]).
  cbn zeta in Hz. fold zs in Hz.
  eapply in_range_bind; [exact Hsh'|reflexivity| |apply (sort_sift_down_spec low low (bound - 1))|].
  - lia.
  - destruct Hvz as (? & ? & ?). split; [done|]. split; [lia|done].
  - lia.
  - lia.
  - intros Ho. apply Hz, Ho.
  - intros ? ws e' Hw Hxw Hh. cbn beta in Hh. apply IH; [|done|done|lia|lia|].
    + eapply valid_shuffled; [exact Hvz|exact Hw|lia|lia].
    + intros Ho. destruct (Hz Ho) as (_ & Hs & Hx).
      apply (unheaping_shuffled low (bound - 1) high zs ws); [lia|lia|lia|done|done|done|auto].
Qed.

Lemma half_bounds n : 0 <= n -> 0 <= n `quot` 2 /\ 2 * (n `quot` 2) <= n < 2 * (n `quot` 2) + 2.
Proof.
  intros Hn. rewrite Z.quot_div_nonneg by lia.
  pose proof (Z.div_mod n 2 ltac:(done)). pose proof (Z.mod_pos_bound n 2 ltac:(done)). lia.
Qed.

Lemma sort_heap_spec low high xs e :
  valid s low high xs -> low <= high -> high < 2 ^ 62 ->
  in_range low high xs (sort_heap s low high) (fun _ zs => ordered -> sorted_on low high zs) (xs, e).
Proof.
  intros Hv Hlh Hbig. pose proof Hv as (Hlo & Hhi & Hsz). unfold sort_heap.
  pose proof (half_bounds (high - low) ltac:(lia)) as Hhalf.
  set (node := low + (high - low) `quot` 2).
  eapply in_range_bind; [apply shuffled_refl|reflexivity|reflexivity| |].
  - apply heapify_loop_spec; [done|apply shuffled_refl|done|lia|lia|].
    intros _ c Hc Hp. unfold parent in Hp.
    pose proof (Z.div_mod (c - low - 1) 2 ltac:(done)).
    pose proof (Z.mod_pos_bound (c - low - 1) 2 ltac:(done)). lia.
  - intros ? zs e' Hz Hxz Hh. cbn beta in Hh.
    apply unheap_loop_spec; [|done|done|lia|lia|].
    + eapply valid_shuffled; [exact Hv|exact Hz|lia|lia].
    + intros Ho. split; [auto|]. split; intros a b ? ?; lia.
Qed.
End order.
