(* ===== verification/SortCorrect.v ===== *)
(** The introsort as a whole: pivot choice, Hoare partition, the recursion with
    its depth limit and its stack bound, and the two entry points. *)
From S2P Require Import Prelude Interfaces Sort SortSwaps SortOrder.

Section correct.
Context {St E : Type} (s : sort_v1 St E).
Context (ordered : Prop) (lt : elem -> elem -> bool).
Context (cmp : comparator_ok s ordered lt) (swo : ordered -> strict_weak lt).
Implicit Types (e : E) (xs ys zs : list elem).
Local Abbreviation in_range := (in_range ordered).
Local Abbreviation le := (le lt).
Local Abbreviation sorted_on := (sorted_on lt).

(** ** Pivot choice: any answers of the comparator give a shuffle *)

Lemma swap_if_spec b lo hi xs ys e i j :
  valid s lo hi ys -> shuffled lo hi xs ys -> lo <= i < hi -> lo <= j < hi ->
  in_range lo hi xs (if (b : bool) then sort_swap s i j else ret tt) (fun _ _ => True) (ys, e).
Proof.
  intros (Hlo & Hhi & Hsz) Hsh Hi Hj. destruct b; [|by apply in_range_ret].
  by eapply in_range_swap_last.
Qed.

Lemma sort_choose_pivot_spec low high xs e :
  valid s low high xs -> low + 1 < high ->
  in_range low high xs (sort_choose_pivot s low high) (fun _ _ => True) (xs, e).
Proof.
  intros Hv Hlh. pose proof Hv as (Hlo & Hhi & Hsz). unfold sort_choose_pivot.
  pose proof (half_bounds (high - low) ltac:(lia)).
  set (mid := low + (high - low) `quot` 2). assert (low <= mid < high) as Hmid by lia.
  assert (forall ys, shuffled low high xs ys -> valid s low high ys /\ zlen ys = zlen xs) as Hval.
  { intros ys Hsh. split; [eapply valid_shuffled; [exact Hv|exact Hsh|lia|lia]|].
    by rewrite (shuffled_length _ _ _ _ Hsh). }
  eapply in_range_before; [done|apply shuffled_refl|lia|lia|]. intros r1 e1 _.
  eapply in_range_bind; [apply shuffled_refl|reflexivity|reflexivity| |].
  { apply swap_if_spec; [done|apply shuffled_refl|lia|lia]. }
  intros ? ys e2 Hxy _ _. destruct (Hval ys Hxy) as [Hvy Hly].
  eapply in_range_before; [done|done|lia|lia|]. intros r2 e3 _.
  eapply (in_range_bind _ _ _ low high); [done|reflexivity|reflexivity| |].
  - instantiate (1 := fun _ _ => True). destruct r2; [|apply in_range_ret; [apply shuffled_refl|done]].
    eapply in_range_swap; [apply Hvy|apply shuffled_refl|lia|lia|lia|lia|]. intros Hs.
    assert (shuffled low high xs (swap ys (high - 1) mid)) as Hs' by (by eapply shuffled_trans).
    destruct (Hval _ Hs') as [Hvs Hls].
    eapply in_range_before; [done|exact Hs|lia|lia|]. intros r4 e4 _.
    apply swap_if_spec; [done|done|lia|lia].
  - intros ? zs e4 _ Hxz _. destruct (Hval zs Hxz) as [Hvz Hlz].
    eapply in_range_swap_last; [apply Hvz|done|lia|lia|lia|lia|done].
Qed.

(** ** Partition *)

(** Where the two scans are: at or before [i] nothing is above the pivot, from
    [j] on nothing is below it. *)
Definition scanned (low high i j : Z) ys : Prop :=
  (forall k, low < k <= i -> k < high -> le (elt ys k) (elt ys low)) /\
  (forall k, j <= k < high -> low < k -> le (elt ys low) (elt ys k)).

Lemma scan_up_spec fuel low high i ys e :
  0 <= low < high -> high <= zlen ys -> low <= i < high -> high - i <= Z.of_nat fuel ->
  (ordered -> forall k, low < k <= i -> le (elt ys k) (elt ys low)) ->
  in_range low high ys (scan_up s fuel low high i)
    (fun i' zs => zs = ys /\ i < i' <= high /\
       (ordered -> (forall k, low < k < i' -> le (elt ys k) (elt ys low)) /\
                   (i' < high -> le (elt ys low) (elt ys i')))) (ys, e).
Proof.
  revert i e. induction fuel as [|fuel IH]; intros i e Hlo Hhi Hi Hf Hk; [lia|].
  cbn [scan_up]. destruct (Z.ltb_spec (i + 1) high) as [Hlt|Hge].
  2: { apply in_range_ret; [apply shuffled_refl|]. split; [done|]. split; [lia|].
       intros Ho. split; [|lia]. intros k ?. apply Hk; [done|lia]. }
  eapply in_range_before; [done|apply shuffled_refl|lia|lia|]. intros r e1 Hr. destruct r.
  - eapply in_range_tail; [apply shuffled_refl|reflexivity|reflexivity|apply (IH (i + 1)); [done|done|lia|lia|]|].
    + intros Ho k Hk'. destruct (decide (k = i + 1)) as [->|]; [|apply Hk; [done|lia]].
      apply (lt_le ordered lt swo); [done|by rewrite <- Hr].
    + intros i' zs _ (-> & Hi' & Ho). split; [done|]. split; [lia|done].
  - apply in_range_ret; [apply shuffled_refl|]. split; [done|]. split; [lia|].
    intros Ho. split; [intros k ?; apply Hk; [done|lia]|]. intros _. unfold SortOrder.le. by rewrite <- Hr.
Qed.

Lemma scan_down_spec fuel low high j ys e :
  0 <= low < high -> high <= zlen ys -> low < j <= high -> j - low <= Z.of_nat fuel ->
  (ordered -> forall k, j <= k < high -> le (elt ys low) (elt ys k)) ->
  in_range low high ys (scan_down s fuel low j)
    (fun j' zs => zs = ys /\ low <= j' < j /\
       (ordered -> (forall k, j' < k < high -> le (elt ys low) (elt ys k)) /\
                   (low < j' -> le (elt ys j') (elt ys low)))) (ys, e).
Proof.
  revert j e. induction fuel as [|fuel IH]; intros j e Hlo Hhi Hj Hf Hk; [lia|].
  cbn [scan_down]. destruct (Z.ltb_spec low (j - 1)) as [Hlt|Hge].
  2: { apply in_range_ret; [apply shuffled_refl|]. split; [done|]. split; [lia|].
       intros Ho. split; [|lia]. intros k ?. apply Hk; [done|lia]. }
  eapply in_range_before; [done|apply shuffled_refl|lia|lia|]. intros r e1 Hr. destruct r.
  - eapply in_range_tail; [apply shuffled_refl|reflexivity|reflexivity|apply (IH (j - 1)); [done|done|lia|lia|]|].
    + intros Ho k Hk'. destruct (decide (k = j - 1)) as [->|]; [|apply Hk; [done|lia]].
      apply (lt_le ordered lt swo); [done|by rewrite <- Hr].
    + intros j' zs _ (-> & Hj' & Ho). split; [done|]. split; [lia|done].
  - apply in_range_ret; [apply shuffled_refl|]. split; [done|]. split; [lia|].
    intros Ho. split; [intros k ?; apply Hk; [done|lia]|]. intros _. unfold SortOrder.le. by rewrite <- Hr.
Qed.

(** Everything before [p] is at most, everything after at least the element
    at [p]. *)
Definition parted (low p high : Z) ys : Prop :=
  (forall k, low <= k < p -> le (elt ys k) (elt ys p)) /\
  (forall k, p < k < high -> le (elt ys p) (elt ys k)).

Lemma partition_loop_spec fuel low high i j xs ys e :
  valid s low high ys -> shuffled low high xs ys -> low <= i < j -> j <= high -> j - i <= Z.of_nat fuel ->
  (ordered -> scanned low high i j ys) ->
  in_range low high xs (partition_loop s fuel low high i j)
    (fun p zs => low <= p < high /\ (ordered ->
       (forall k, low < k <= p -> le (elt zs k) (elt zs low)) /\
       (forall k, p < k < high -> le (elt zs low) (elt zs k)))) (ys, e).
Proof.
  revert i j ys e. induction fuel as [|fuel IH]; intros i j ys e Hv Hsh Hi Hj Hf Hs; [lia|].
  pose proof Hv as (Hlo & Hhi & Hsz). cbn [partition_loop].
  eapply in_range_bind; [exact Hsh|reflexivity|reflexivity|apply (scan_up_spec _ low high i)|].
  1-4: lia.
  { intros Ho k Hk. apply (Hs Ho); lia. }
  intros i' zs e1 _ _ (-> & Hi' & Hup).
  eapply in_range_bind; [exact Hsh|reflexivity|reflexivity|apply (scan_down_spec _ low high j)|].
  1-4: lia.
  { intros Ho k Hk. apply (Hs Ho); lia. }
  intros j' zs e2 _ _ (-> & Hj' & Hdown).
  destruct (Z.leb_spec j' i') as [Hle|Hgt].
  - apply in_range_ret; [done|]. split; [lia|]. intros Ho.
    destruct (Hup Ho) as [Hu1 Hu2], (Hdown Ho) as [Hd1 Hd2]. split; [|done].
    intros k Hk. destruct (decide (k = j')) as [->|]; [apply Hd2; lia|apply Hu1; lia].
  - eapply in_range_swap; [done|done|lia|lia|lia|lia|]. intros Hsh'. apply IH; [|done|lia|lia|lia|].
    + eapply (valid_shuffled s low high low high ys); [done|apply shuffled_swap; lia|lia|lia].
    + intros Ho. destruct (Hup Ho) as [Hu1 Hu2], (Hdown Ho) as [Hd1 Hd2].
      split; intros k Hk Hk'; rewrite !elt_swap by lia;
        (destruct (Z.eqb_spec low j'); [lia|]); (destruct (Z.eqb_spec low i'); [lia|]);
        (destruct (Z.eqb_spec k j') as [->|]; [|destruct (Z.eqb_spec k i') as [->|]]); try lia.
      * apply Hd2. lia.
      * apply Hu1. lia.
      * apply Hu2. lia.
      * apply Hd1. lia.
Qed.

Lemma sort_partition_spec low high xs e :
  valid s low high xs -> low < high ->
  in_range low high xs (sort_partition s low high)
    (fun p zs => low <= p < high /\ (ordered -> parted low p high zs)) (xs, e).
Proof.
  intros Hv Hlh. pose proof Hv as (Hlo & Hhi & Hsz). unfold sort_partition.
  eapply in_range_bind; [apply shuffled_refl|reflexivity|reflexivity|apply (partition_loop_spec _ low high low high)|].
  - done.
  - apply shuffled_refl.
  - lia.
  - lia.
  - lia.
  - intros _. split; intros; lia.
  - intros p ys e1 Hxy _ [Hp Hy].
    assert (valid s low high ys) as (_ & Hhy & Hsy) by (eapply valid_shuffled; [exact Hv|exact Hxy|lia|lia]).
    eapply in_range_swap; [done|done|lia|lia|lia|lia|]. intros Hsh. apply in_range_ret; [done|].
    split; [done|]. intros Ho. destruct (Hy Ho) as [Hy1 Hy2].
    split; intros k Hk; rewrite !elt_swap by lia; rewrite Z.eqb_refl;
      (destruct (Z.eqb_spec k p); [lia|]); (destruct (Z.eqb_spec k low) as [->|]).
    + apply Hy1. lia.
    + apply Hy1. lia.
    + lia.
    + apply Hy2. lia.
Qed.

(** ** Putting the two sides together *)

Lemma parted_left low p high ys zs :
  0 <= low <= p -> p < high -> high <= zlen ys -> shuffled low p ys zs ->
  parted low p high ys -> parted low p high zs.
Proof.
  intros Hlo Hp Hhi Hsh [H1 H2].
  assert (forall k, p <= k -> elt zs k = elt ys k) as Hout.
  { intros k Hk. eapply shuffled_out; [| |exact Hsh|lia|lia]; lia. }
  split; intros k Hk; rewrite (Hout p) by lia; [|rewrite Hout by lia; by apply H2].
  destruct (shuffled_back low p ys zs k) as (k' & ? & ->); [lia|lia|done|done|]. by apply H1.
Qed.

Lemma parted_right low p high ys zs :
  0 <= low <= p -> p < high -> high <= zlen ys -> shuffled (p + 1) high ys zs ->
  parted low p high ys -> parted low p high zs.
Proof.
  intros Hlo Hp Hhi Hsh [H1 H2].
  assert (forall k, 0 <= k <= p -> elt zs k = elt ys k) as Hout.
  { intros k Hk. eapply shuffled_out; [| |exact Hsh|lia|lia]; lia. }
  split; intros k Hk; rewrite (Hout p) by lia; [rewrite Hout by lia; by apply H1|].
  destruct (shuffled_back (p + 1) high ys zs k) as (k' & ? & ->); [lia|lia|done|lia|]. apply H2. lia.
Qed.

(** Shuffling elsewhere keeps a sorted range. *)
Lemma sorted_on_elsewhere lo hi lo' hi' ys zs :
  0 <= lo -> 0 <= lo' -> hi' <= zlen ys -> hi <= lo' \/ hi' <= lo -> shuffled lo' hi' ys zs ->
  sorted_on lo hi ys -> sorted_on lo hi zs.
Proof.
  intros Hlo Hlo' Hhi' Hd Hsh Hs a b Hab Hb.
  rewrite !(shuffled_out lo' hi' ys zs) by (done || lia). by apply Hs.
Qed.

Lemma sorted_join low p high zs :
  ordered -> parted low p high zs -> sorted_on low p zs -> sorted_on (p + 1) high zs ->
  sorted_on low high zs.
Proof.
  intros Ho [H1 H2] Hl Hr a b Hab Hb.
  destruct (decide (b < p)); [apply Hl; lia|]. destruct (decide (p < a)); [apply Hr; lia|].
  destruct (decide (b = p)) as [->|]; [apply H1; lia|].
  destruct (decide (a = p)) as [->|]; [apply H2; lia|].
  apply (le_trans ordered lt swo _ (elt zs p)); [done|apply H1; lia|apply H2; lia].
Qed.

Lemma sort_introsort_spec fuel frames low high depth xs e :
  valid s low high xs -> high < 2 ^ 62 -> 0 <= depth < Z.of_nat fuel ->
  high - low < 2 ^ (Z.of_nat frames + 1) ->
  in_range low high xs (sort_introsort s fuel frames low high depth)
    (fun _ zs => ordered -> sorted_on low high zs) (xs, e).
Proof.
  revert frames low high depth xs e.
  induction fuel as [|fuel IH]; intros frames low high depth xs e Hv Hbig Hd Hfr; [lia|].
  pose proof Hv as (Hlo & Hhi & Hsz). cbn [sort_introsort]. unfold LOKE_RT_SORT_SMALL.
  destruct (Z.ltb_spec 16 (high - low)) as [Hlarge|Hsmall]; [|by apply sort_insertion_spec].
  destruct (Z.eqb_spec depth 0) as [->|Hdepth]; [by apply sort_heap_spec; [..|lia|]|].
  eapply in_range_bind; [apply shuffled_refl|reflexivity|reflexivity|apply sort_choose_pivot_spec; [done|lia]|].
  intros ? ys e1 Hxy _ _.
  assert (valid s low high ys) as Hvy by (eapply valid_shuffled; [exact Hv|exact Hxy|lia|lia]).
  eapply in_range_bind; [exact Hxy|reflexivity|reflexivity|apply sort_partition_spec; [done|lia]|].
  intros p zs e2 Hyz Hxz [Hp Hpart].
  assert (valid s low high zs) as Hvz by (eapply valid_shuffled; [exact Hvy|exact Hyz|lia|apply Hvy]).
  assert (zlen zs = zlen xs) as Hlz by (by rewrite (shuffled_length _ _ _ _ Hxz)).
  destruct frames as [|below]; [cbn in Hfr; lia|].
  assert (2 ^ (Z.of_nat (S below) + 1) = 2 * 2 ^ (Z.of_nat below + 1)) as Hpow.
  { rewrite <- Z.pow_succ_r by lia. f_equal. lia. }
  assert (forall lo hi ws, low <= lo -> hi <= high -> shuffled low high xs ws -> valid s lo hi ws) as Hval.
  { intros lo hi ws ? ? Hw. destruct (valid_shuffled s low high low high xs ws) as (? & ? & ?); [done..|].
    split; [lia|]. split; [lia|done]. }
  destruct (Z.ltb_spec (p - low) (high - p - 1)) as [Hless|Hmore].
  - eapply (in_range_bind _ _ _ low p); [exact Hxz|lia|lia|apply IH; [by apply Hval; [lia|lia|]|lia|lia|lia]|].
    intros ? ws e3 Hzw Hxw Hsl. cbn beta in Hsl.
    eapply (in_range_tail _ _ _ (p + 1) high); [exact Hxw|lia|lia|apply IH; [by apply Hval; [lia|lia|]|lia|lia|lia]|].
    intros ? us Hwu Hsr Ho.
    assert (zlen ws = zlen xs) by (by rewrite (shuffled_length _ _ _ _ Hxw)).
    apply (sorted_join low p high); [done| | |auto].
    + eapply parted_right; [..|exact Hwu|]; [lia..|]. eapply parted_left; [..|exact Hzw|auto]; lia.
    + eapply (sorted_on_elsewhere low p (p + 1) high ws); [lia..|done|auto].
  - eapply (in_range_bind _ _ _ (p + 1) high); [exact Hxz|lia|lia|apply IH; [by apply Hval; [lia|lia|]|lia|lia|lia]|].
    intros ? ws e3 Hzw Hxw Hsr. cbn beta in Hsr.
    eapply (in_range_tail _ _ _ low p); [exact Hxw|lia|lia|apply IH; [by apply Hval; [lia|lia|]|lia|lia|lia]|].
    intros ? us Hwu Hsl Ho.
    assert (zlen ws = zlen xs) by (by rewrite (shuffled_length _ _ _ _ Hxw)).
    apply (sorted_join low p high); [done| |auto|].
    + eapply parted_left; [..|exact Hwu|]; [lia..|]. eapply parted_right; [..|exact Hzw|auto]; lia.
    + eapply (sorted_on_elsewhere (p + 1) high low p ws); [lia..|done|auto].
Qed.
End correct.

(** * Entry points *)

(** The depth limit is twice the binary logarithm of the count. *)
Lemma sort_depth_spec fuel span depth :
  1 <= span < 2 ^ Z.of_nat fuel -> sort_depth fuel span depth = Some (depth + 2 * Z.log2 span).
Proof.
  revert span depth. induction fuel as [|fuel IH]; intros span depth Hspan; [cbn in Hspan; lia|].
  cbn [sort_depth]. destruct (Z.ltb_spec 1 span) as [Hlt|Hge].
  2: { assert (span = 1) as -> by lia. f_equal. change (Z.log2 1) with 0. lia. }
  assert (Z.of_nat (S fuel) = Z.of_nat fuel + 1) as Hf by lia.
  rewrite Hf, Z.pow_add_r in Hspan by lia.
  assert (Z.log2 (Z.shiftr span 1) = Z.log2 span - 1) as Hlog.
  { rewrite Z.log2_shiftr by lia. pose proof (Z.log2_le_mono 2 span ltac:(lia)) as H2.
    change (Z.log2 2) with 1 in H2. lia. }
  rewrite IH; [f_equal; lia|]. rewrite Z.shiftr_div_pow2 by lia. change (2 ^ 1) with 2 in *.
  pose proof (Z.div_mod span 2 ltac:(done)). pose proof (Z.mod_pos_bound span 2 ltac:(done)). lia.
Qed.

Section entries.
Context {E : Type}.
Implicit Types (xs : list elem) (e : E).

Lemma sort_all_spec {St} (s : sort_v1 St E) ordered lt xs e :
  comparator_ok s ordered lt -> (ordered -> strict_weak lt) -> sized s xs -> 1 <= zlen xs < 2 ^ 62 ->
  wp (sort_all s (zlen xs)) (fun _ st => st.1 ≡ₚ xs /\ (ordered -> sorted_on lt 0 (zlen xs) st.1))
    (fun _ st => st.1 ≡ₚ xs /\ ~ ordered) (xs, e).
Proof.
  intros Hc Hw Hs Hn. unfold sort_all.
  rewrite sort_depth_spec by (split; [lia|]; etransitivity; [apply Hn|reflexivity]).
  assert (forall ys, shuffled 0 (zlen xs) xs ys -> ys ≡ₚ xs) as Hperm.
  { intros ys Hy. eapply shuffled_Permutation; [| |exact Hy]; lia. }
  pose proof (Z.log2_nonneg (zlen xs)).
  eapply wp_conseq; [eapply (sort_introsort_spec s ordered lt Hc Hw)| |].
  - split; [lia|]. split; [lia|done].
  - lia.
  - lia.
  - change (Z.of_nat 63 + 1) with 64. lia.
  - intros ? st [Hsh Ho]. auto.
  - intros ? st [Hsh Ho]. auto.
Qed.

(** What is asked of user code: it answers or ends the program; where
    [ordered] holds, it answers, and the answer is [lt]. *)
Definition answers (ordered : Prop) (lt : elem -> elem -> bool) (f : elem -> elem -> M E bool) : Prop :=
  forall a b e, wp (f a b) (fun r _ => ordered -> r = lt a b) (fun _ _ => ~ ordered) e.

Definition flip_if (b : bool) (lt : elem -> elem -> bool) : elem -> elem -> bool :=
  fun x y => if b then lt y x else lt x y.

Lemma strict_weak_flip b lt : strict_weak lt -> strict_weak (flip_if b lt).
Proof. intros [Hi Ht Hc]. destruct b; split; unfold flip_if; eauto. Qed.

Lemma lift_answers (f : M E bool) (Q : bool -> Prop) (P : Prop) xs e :
  wp f (fun r _ => Q r) (fun _ _ => P) e ->
  wp (lift_snd f) (fun r st => st.1 = xs /\ Q r) (fun _ st => st.1 = xs /\ P) (xs, e).
Proof. intros Hf. apply wp_lift_snd. eapply wp_conseq; [exact Hf|done|done]. Qed.

Lemma sort_spec count elem_size f b ordered lt xs e :
  answers ordered lt f -> (ordered -> strict_weak lt) ->
  count = zlen xs -> count < 2 ^ 62 -> 0 < elem_size -> Forall (fun a => zlen a = elem_size) xs ->
  wp (sort count elem_size (Some f) b)
    (fun _ st => st.1 ≡ₚ xs /\ (ordered -> sorted_on (flip_if b lt) 0 count st.1))
    (fun _ st => st.1 ≡ₚ xs /\ ~ ordered) (xs, e).
Proof.
  intros Hf Hw -> Hn Hz Hs. unfold sort.
  destruct (Z.ltb_spec (zlen xs) 2); cbn [orb].
  { apply wp_ret. split; [done|]. intros _ i j ? ?. lia. }
  destruct (Z.eqb_spec elem_size 0); [lia|].
  apply sort_all_spec; [|intros; by apply strict_weak_flip, Hw|done|lia].
  intros x y ys e'. unfold sort_before, flip_if. cbn. apply lift_answers. destruct b; apply Hf.
Qed.

(** Under any comparator the sort ends and only permutes. *)
Lemma sort_any count elem_size (f : elem -> elem -> M E bool) b xs e :
  (forall x y, well_behaved (f x y)) ->
  count = zlen xs -> count < 2 ^ 62 -> 0 < elem_size -> Forall (fun a => zlen a = elem_size) xs ->
  wp (sort count elem_size (Some f) b) (fun _ st => st.1 ≡ₚ xs) (fun _ st => st.1 ≡ₚ xs) (xs, e).
Proof.
  intros Hf Hc Hn Hz Hs. eapply wp_conseq.
  - eapply (sort_spec count elem_size f b False (fun _ _ => false)); try done.
    intros x y e'. eapply wp_conseq; [apply Hf|done|by intros ? ? _ []].
  - by intros ? st [? _].
  - by intros ? st [? _].
Qed.

Lemma sort_by_spec {St} count elem_size (state : St) f ordered lt xs e :
  answers ordered lt (f state) -> (ordered -> strict_weak lt) ->
  count = zlen xs -> count < 2 ^ 62 -> 0 < elem_size -> Forall (fun a => zlen a = elem_size) xs ->
  wp (sort_by count elem_size state (Some f))
    (fun _ st => st.1 ≡ₚ xs /\ (ordered -> sorted_on lt 0 count st.1))
    (fun _ st => st.1 ≡ₚ xs /\ ~ ordered) (xs, e).
Proof.
  intros Hf Hw -> Hn Hz Hs. unfold sort_by.
  destruct (Z.ltb_spec (zlen xs) 2); cbn [orb].
  { apply wp_ret. split; [done|]. intros _ i j ? ?. lia. }
  destruct (Z.eqb_spec elem_size 0); [lia|].
  apply sort_all_spec; [|done|done|lia].
  intros x y ys e'. unfold sort_before. cbn. apply lift_answers. apply Hf.
Qed.

(** [sorted_on] as a list property: no element is below one before it. *)
Definition in_order (lt : elem -> elem -> bool) xs : Prop :=
  forall i j x y, (i < j)%nat -> xs !! i = Some x -> xs !! j = Some y -> lt y x = false.

Lemma sorted_on_in_order lt xs : sorted_on lt 0 (zlen xs) xs -> in_order lt xs.
Proof.
  intros Hs i j x y Hij Hx Hy. pose proof (lookup_lt_Some _ _ _ Hy).
  specialize (Hs (Z.of_nat i) (Z.of_nat j) ltac:(lia) ltac:(lia)).
  unfold elt in Hs. rewrite !Nat2Z.id, Hx, Hy in Hs. done.
Qed.
End entries.
