(* ===== verification/SortCost.v ===== *)
(** What the sort costs: a budget of comparisons for every routine, whatever the
    comparator answers, and [O(n log n)] for the introsort. *)
From S2P Require Import Prelude Interfaces Sort SortSwaps SortOrder SortCorrect.

Section cost.
Context {St E : Type} (s : sort_v1 St E).
(** The comparisons made so far, and that a comparison is one. *)
Context (ticks : E -> Z).
Abbreviation arr := (list elem * E)%type.

(** A run of [m] makes at most [k] comparisons, also where the comparator ends
    the program; what it answers meets [Q]. That there is an answer is not
    claimed here. *)
Definition within {A} (k : Z) (m : M arr A) (Q : A -> Prop) : Prop := forall st,
  match m st with
  | Ok a st' => ticks st'.2 <= ticks st.2 + k /\ Q a
  | Stop _ st' => ticks st'.2 <= ticks st.2 + k
  | Undefined | NoFuel => True
  end.

Context (tick : forall a b, within 1 (sort_before s a b) (fun _ => True)).

Lemma within_ret {A} k (a : A) (Q : A -> Prop) : 0 <= k -> Q a -> within k (ret a) Q.
Proof. intros Hk HQ st. cbn. split; [lia|done]. Qed.

Lemma within_bind {A B} k1 k2 (m : M arr A) (f : A -> M arr B) (P : A -> Prop) (Q : B -> Prop) :
  0 <= k2 -> within k1 m P -> (forall a, P a -> within k2 (f a) Q) -> within (k1 + k2) (bind m f) Q.
Proof.
  intros Hk Hm Hf st. specialize (Hm st). unfold bind. destruct (m st) as [a st'|h st'| |]; [|lia|done|done].
  destruct Hm as [Hm HP]. specialize (Hf a HP st'). destruct (f a st'); [|lia|done|done]. split; [lia|tauto].
Qed.

Lemma within_weaken {A} k k' (m : M arr A) (Q Q' : A -> Prop) :
  k <= k' -> (forall a, Q a -> Q' a) -> within k m Q -> within k' m Q'.
Proof. intros Hk HQ Hm st. specialize (Hm st). destruct (m st); [|lia|done|done]. split; [lia|]. apply HQ, Hm. Qed.

Lemma within_more {A} k k' (m : M arr A) (Q : A -> Prop) : k <= k' -> within k m Q -> within k' m Q.
Proof. intros Hk. by apply within_weaken. Qed.

(** Steps that compare nothing. *)
Lemma within_free {A} (m : M arr A) : (forall st, match m st with Ok _ st' | Stop _ st' => st'.2 = st.2 | _ => True end) ->
  within 0 m (fun _ => True).
Proof. intros Hm st. specialize (Hm st). destruct (m st) as [a st'|h st'| |]; [rewrite Hm; split; [lia|done]|rewrite Hm; lia|done|done]. Qed.

Lemma within_seq {A B} k (m : M arr A) (f : A -> M arr B) (Q : B -> Prop) :
  within 0 m (fun _ => True) -> 0 <= k -> (forall a, within k (f a) Q) -> within k (bind m f) Q.
Proof. intros Hm Hk Hf. rewrite <- (Z.add_0_l k). eapply within_bind; [done|exact Hm|]. auto. Qed.

Lemma before_at_cost i j : within 1 (before_at s i j) (fun _ => True).
Proof.
  assert (forall k, within 0 (@sort_at E k) (fun _ => True)) as Hat.
  { intros k. apply within_free. intros [xs e]. cbn. by destruct (at_index xs k). }
  unfold before_at. apply within_seq; [apply Hat|lia|]. intros a. apply within_seq; [apply Hat|lia|]. intros b. apply tick.
Qed.

(** One comparison, then the rest. *)
Lemma within_before {B} k i j (f : bool -> M arr B) (Q : B -> Prop) : 1 <= k ->
  (forall b, within (k - 1) (f b) Q) -> within k (bind (before_at s i j) f) Q.
Proof.
  intros Hk Hf. replace k with (1 + (k - 1)) by lia. eapply within_bind; [lia|apply before_at_cost|]. auto.
Qed.

Lemma sort_swap_cost i j : within 0 (sort_swap s i j) (fun _ => True).
Proof.
  apply within_free. intros [xs e]. unfold sort_swap. destruct (i =? j); [done|]. unfold bind, sort_at.
  destruct (at_index xs i) as [a|]; [|done]. cbn [need ret]. destruct (at_index xs j) as [b|]; [|done]. cbn [need ret].
  destruct (swap_chunks _ a b 0 _) as [[a' b']|]; [|done]. cbn [need ret]. unfold sort_write.
  destruct (set_index xs i a') as [ys|]; [|done]. by destruct (set_index ys j b').
Qed.

Lemma within_swap {B} k i j (m : M arr B) (Q : B -> Prop) : 0 <= k -> within k m Q -> within k (sort_swap s i j ;;; m) Q.
Proof. intros Hk Hm. apply within_seq; [apply sort_swap_cost|done|]. by intros _. Qed.

Lemma swap_if_cost k (b : bool) i j : 0 <= k -> within k (if b then sort_swap s i j else ret tt) (fun _ => True).
Proof.
  intros Hk. destruct b; [|by apply within_ret]. eapply within_weaken; [exact Hk|done|apply sort_swap_cost].
Qed.

(** ** Insertion sort *)

Lemma insertion_inner_cost fuel low j : low <= j -> within (j - low) (insertion_inner s fuel low j) (fun _ => True).
Proof.
  revert j. induction fuel as [|fuel IH]; intros j Hj; [done|]. cbn [insertion_inner].
  destruct (Z.ltb_spec low j); [|apply within_ret; [lia|done]]. apply within_before; [lia|]. intros [].
  - apply within_swap; [lia|]. eapply within_weaken, IH; [lia|done|lia].
  - apply within_ret; [lia|done].
Qed.

Lemma insertion_outer_cost fuel low i high : low <= i -> i <= high ->
  within ((high - i) * (high - low)) (insertion_outer s fuel low i high) (fun _ => True).
Proof.
  revert i. induction fuel as [|fuel IH]; intros i Hi Hh; [done|]. cbn [insertion_outer].
  destruct (Z.ltb_spec i high); [|apply within_ret; [nia|done]].
  apply (within_more ((i - low) + (high - (i + 1)) * (high - low))); [nia|].
  eapply within_bind; [nia|by apply insertion_inner_cost|]. intros _ _. apply IH; lia.
Qed.

Lemma sort_insertion_cost low high : low <= high -> high - low <= LOKE_RT_SORT_SMALL ->
  within (16 * (high - low)) (sort_insertion s low high) (fun _ => True).
Proof.
  intros Hl Hs. unfold LOKE_RT_SORT_SMALL in Hs. unfold sort_insertion. destruct (decide (low + 1 <= high)).
  - eapply within_weaken, insertion_outer_cost; [nia|done|lia|lia].
  - destruct (Z.to_nat (high - low)); cbn [insertion_outer]; (destruct (Z.ltb_spec (low + 1) high); [lia|]); apply within_ret; lia || done.
Qed.

(** ** Heap sort *)

Lemma within_i64 {B} k x (f : Z -> M arr B) (Q : B -> Prop) : within k (f x) Q -> within k (bind (i64 x) f) Q.
Proof. intros Hf. unfold i64. by destruct (decide _). Qed.

(** A node's place, counted from 1: its children's are twice that. *)
Lemma sift_loop_cost fuel low node bound : low <= node -> node < bound ->
  within (2 * (Z.log2 (bound - low) - Z.log2 (node - low + 1))) (sift_loop s fuel low node bound) (fun _ => True).
Proof.
  revert node. induction fuel as [|fuel IH]; intros node Hn Hb; [done|]. cbn [sift_loop].
  pose proof (Z.log2_le_mono (node - low + 1) (bound - low) ltac:(lia)) as Hle. apply within_i64.
  set (child := 2 * (node - low) + 1 + low). destruct (Z.leb_spec bound child); [apply within_ret; [lia|done]|].
  assert (forall c, c = child \/ c = child + 1 -> Z.log2 (c - low + 1) = Z.log2 (node - low + 1) + 1) as Hlog.
  { intros c Hc. destruct Hc as [Hc|Hc].
    - replace (c - low + 1) with (2 * (node - low + 1)) by lia. rewrite Z.log2_double by lia. lia.
    - replace (c - low + 1) with (Z.succ_double (node - low + 1)) by (rewrite Z.succ_double_spec; lia).
      rewrite Z.succ_double_spec, Z.log2_succ_double by lia. lia. }
  pose proof (Z.log2_le_mono (child - low + 1) (bound - low) ltac:(lia)) as Hc. rewrite (Hlog child) in Hc by lia.
  set (L := Z.log2 (bound - low)) in *. set (l := Z.log2 (node - low + 1)) in *.
  apply (within_more (1 + (1 + 2 * (L - l - 1)))); [lia|].
  apply (within_bind 1 _ _ _ (fun b => b = true -> child + 1 < bound)); [lia| |].
  - destruct (Z.ltb_spec (child + 1) bound); [|by apply within_ret]. by eapply within_weaken, before_at_cost.
  - intros larger Hl. apply within_before; [lia|]. intros []; [|apply within_ret; [lia|done]].
    apply within_swap; [lia|]. destruct larger.
    + eapply within_weaken; [|done|apply IH; lia]. rewrite Hlog by lia. fold L l. lia.
    + eapply within_weaken; [|done|apply IH; lia]. rewrite Hlog by lia. fold L l. lia.
Qed.

Lemma sort_sift_down_cost low root bound L : low <= root -> root < bound -> Z.log2 (bound - low) <= L ->
  within (2 * L) (sort_sift_down s low root bound) (fun _ => True).
Proof.
  intros Hl Hr HL. eapply within_weaken, sift_loop_cost; [|done|done|done]. pose proof (Z.log2_nonneg (root - low + 1)). lia.
Qed.

Lemma heapify_loop_cost n low node high : low <= node <= high -> node < high \/ low = node ->
  within ((node - low) * (2 * Z.log2 (high - low))) (heapify_loop s n low node high) (fun _ => True).
Proof.
  revert node. induction n as [|n IH]; intros node Hn Hh; [done|]. cbn [heapify_loop]. pose proof (Z.log2_nonneg (high - low)).
  destruct (Z.ltb_spec low node); [|apply within_ret; [nia|done]].
  replace ((node - low) * (2 * Z.log2 (high - low))) with (2 * Z.log2 (high - low) + (node - 1 - low) * (2 * Z.log2 (high - low))) by lia.
  eapply within_bind; [nia|apply sort_sift_down_cost; lia|]. intros _ _. apply IH; lia.
Qed.

Lemma unheap_loop_cost n low bound L : low <= bound -> Z.log2 (bound - low) <= L ->
  within ((bound - low) * (2 * L)) (unheap_loop s n low bound) (fun _ => True).
Proof.
  revert bound. induction n as [|n IH]; intros bound Hb HL; [done|]. cbn [unheap_loop]. pose proof (Z.log2_nonneg (bound - low)).
  destruct (Z.ltb_spec 1 (bound - low)); [|apply within_ret; [nia|done]].
  pose proof (Z.log2_le_mono (bound - 1 - low) (bound - low) ltac:(lia)).
  replace ((bound - low) * (2 * L)) with (2 * L + (bound - 1 - low) * (2 * L)) by lia. apply within_swap; [nia|].
  eapply within_bind; [nia|apply sort_sift_down_cost; lia|]. intros _ _. apply IH; lia.
Qed.

Lemma sort_heap_cost low high L : low <= high -> Z.log2 (high - low) <= L ->
  within (3 * (high - low) * L) (sort_heap s low high) (fun _ => True).
Proof.
  intros Hl HL. unfold sort_heap. pose proof (half_bounds (high - low) ltac:(lia)) as [H0 Hh].
  set (half := (high - low) `quot` 2) in *. pose proof (Z.log2_nonneg (high - low)).
  apply (within_more ((low + half - low) * (2 * Z.log2 (high - low)) + (high - low) * (2 * L))); [nia|].
  eapply within_bind; [nia|apply heapify_loop_cost; lia|]. intros _ _. apply unheap_loop_cost; lia.
Qed.

(** ** Partition *)

Lemma sort_choose_pivot_cost low high : within 3 (sort_choose_pivot s low high) (fun _ => True).
Proof.
  unfold sort_choose_pivot. apply within_before; [lia|]. intros b1. apply within_seq; [by apply swap_if_cost|lia|]. intros _.
  apply within_before; [lia|]. intros b2. replace (3 - 1 - 1) with (1 + 0) by lia.
  eapply within_bind; [lia| |intros _ _; apply sort_swap_cost].
  instantiate (1 := fun _ => True).
  destruct b2; [|by apply within_ret]. apply within_swap; [lia|]. apply within_before; [lia|]. intros b3. by apply swap_if_cost.
Qed.

(** The scans pay for how far they walk. *)
Definition spends {A} (k : Z) (c : A -> Z) (m : M arr A) (Q : A -> Prop) : Prop := forall st,
  match m st with
  | Ok a st' => ticks st'.2 <= ticks st.2 + c a /\ Q a
  | Stop _ st' => ticks st'.2 <= ticks st.2 + k
  | Undefined | NoFuel => True
  end.

Lemma within_spend {A B} k k1 (c : A -> Z) (m : M arr A) (f : A -> M arr B) (P : A -> Prop) (Q : B -> Prop) :
  k1 <= k -> spends k1 c m P -> (forall a, P a -> within (k - c a) (f a) Q) -> within k (bind m f) Q.
Proof.
  intros Hk Hm Hf st. specialize (Hm st). unfold bind. destruct (m st) as [a st'|h st'| |]; [|lia|done|done].
  destruct Hm as [Hm HP]. specialize (Hf a HP st'). destruct (f a st'); [|lia|done|done]. split; [lia|tauto].
Qed.

(** A comparison spends one more than what follows it. *)
Lemma spends_before {A} k (c : A -> Z) i j (f : bool -> M arr A) (Q : A -> Prop) : 1 <= k ->
  (forall b, spends (k - 1) (fun a => c a - 1) (f b) Q) -> spends k c (bind (before_at s i j) f) Q.
Proof.
  intros Hk Hf st. pose proof (before_at_cost i j st) as Hb. unfold bind. destruct (before_at s i j st) as [b st'|h st'| |]; [|lia|done|done].
  specialize (Hf b st'). destruct (f b st'); [|lia|done|done]. split; [lia|tauto].
Qed.

Lemma spends_ret {A} k (c : A -> Z) a (Q : A -> Prop) : 0 <= c a -> Q a -> spends k c (ret a) Q.
Proof. intros Hc HQ st. cbn. split; [lia|done]. Qed.

Lemma spends_weaken {A} k k' (c c' : A -> Z) (m : M arr A) (Q Q' : A -> Prop) :
  k <= k' -> (forall a, Q a -> c a <= c' a /\ Q' a) -> spends k c m Q -> spends k' c' m Q'.
Proof.
  intros Hk HQ Hm st. specialize (Hm st). destruct (m st) as [a st'| | |]; [|lia|done|done]. destruct Hm as [Hm Ha].
  destruct (HQ a Ha). split; [lia|done].
Qed.

Lemma scan_up_cost fuel low high i : i < high ->
  spends (high - i) (fun i' => i' - i) (scan_up s fuel low high i) (fun i' => i < i' <= high).
Proof.
  revert i. induction fuel as [|fuel IH]; intros i Hi; [done|]. cbn [scan_up].
  destruct (Z.ltb_spec (i + 1) high); [|apply spends_ret; lia]. apply spends_before; [lia|]. intros [].
  - eapply spends_weaken, IH; [lia| |lia]. cbn. lia.
  - apply spends_ret; lia.
Qed.

Lemma scan_down_cost fuel low j : low < j ->
  spends (j - low) (fun j' => j - j') (scan_down s fuel low j) (fun j' => low <= j' < j).
Proof.
  revert j. induction fuel as [|fuel IH]; intros j Hj; [done|]. cbn [scan_down].
  destruct (Z.ltb_spec low (j - 1)); [|apply spends_ret; lia]. apply spends_before; [lia|]. intros [].
  - eapply spends_weaken, IH; [lia| |lia]. cbn. lia.
  - apply spends_ret; lia.
Qed.

Lemma partition_loop_cost fuel low high i j : low <= i < high -> low < j <= high ->
  within (high - i + (j - low)) (partition_loop s fuel low high i j) (fun p => low <= p < high).
Proof.
  revert i j. induction fuel as [|fuel IH]; intros i j Hi Hj; [done|]. cbn [partition_loop].
  eapply within_spend; [|apply scan_up_cost; lia|]; [lia|]. intros i' Hi'. cbn beta in *.
  eapply within_spend; [|apply scan_down_cost; lia|]; [lia|]. intros j' Hj'. cbn beta in *.
  destruct (Z.leb_spec j' i'); [apply within_ret; lia|]. apply within_swap; [lia|].
  eapply within_weaken, IH; [lia|done|lia|lia].
Qed.

Lemma sort_partition_cost low high : low < high ->
  within (2 * (high - low)) (sort_partition s low high) (fun p => low <= p < high).
Proof.
  intros Hl. unfold sort_partition. replace (2 * (high - low)) with (high - low + (high - low) + 0) by lia.
  eapply within_bind; [lia|apply partition_loop_cost; lia|]. intros p Hp. apply within_swap; [lia|]. by apply within_ret.
Qed.

(** ** Introsort *)

(** [3] comparisons an element for each level the depth limit allows, and then
    those of the heap sort or of the insertion sort. *)
Definition intro_budget (L n depth : Z) : Z := 3 * n * depth + n * (3 * L + 16).

Lemma sort_introsort_cost fuel frames low high depth L : 0 <= depth -> low <= high -> Z.log2 (high - low) <= L -> 0 <= L ->
  within (intro_budget L (high - low) depth) (sort_introsort s fuel frames low high depth) (fun _ => True).
Proof.
  revert frames low high depth. induction fuel as [|fuel IH]; intros frames low high depth Hd Hl HL HL0; [done|].
  cbn [sort_introsort]. unfold LOKE_RT_SORT_SMALL. destruct (Z.ltb_spec 16 (high - low)) as [Hlarge|Hsmall].
  2: { apply (within_more (16 * (high - low))); [unfold intro_budget; nia|apply sort_insertion_cost; [lia|done]]. }
  destruct (Z.eqb_spec depth 0) as [->|Hdepth].
  { apply (within_more (3 * (high - low) * L)); [unfold intro_budget; nia|by apply sort_heap_cost]. }
  assert (forall lo hi, low <= lo <= hi -> hi <= high -> forall fr,
    within (intro_budget L (hi - lo) (depth - 1)) (sort_introsort s fuel fr lo hi (depth - 1)) (fun _ => True)) as Hrec.
  { intros lo hi Hlo Hhi fr. apply IH; [lia|lia| |lia]. pose proof (Z.log2_le_mono (hi - lo) (high - low) ltac:(lia)). lia. }
  assert (forall p, low <= p < high -> 0 <= intro_budget L (p - low) (depth - 1) /\ 0 <= intro_budget L (high - (p + 1)) (depth - 1) /\
    3 + (2 * (high - low) + (intro_budget L (p - low) (depth - 1) + intro_budget L (high - (p + 1)) (depth - 1))) <=
    intro_budget L (high - low) depth) as Hsum.
  { intros p Hp. unfold intro_budget. nia. }
  apply (within_more (3 + (intro_budget L (high - low) depth - 3))); [lia|].
  destruct (Hsum low ltac:(lia)) as (? & ? & ?).
  eapply within_bind; [lia|apply sort_choose_pivot_cost|]. intros _ _.
  apply (within_more (2 * (high - low) + (intro_budget L (high - low) depth - 3 - 2 * (high - low)))); [lia|].
  eapply within_bind; [lia|apply sort_partition_cost; lia|]. intros p Hp. cbn beta in Hp. destruct (Hsum p Hp) as (B1 & B2 & B3).
  destruct frames as [|below]; [done|]. destruct (p - low <? high - p - 1).
  - apply (within_more (intro_budget L (p - low) (depth - 1) + intro_budget L (high - (p + 1)) (depth - 1))); [lia|].
    eapply within_bind; [lia|apply Hrec; lia|]. intros _ _. apply Hrec; lia.
  - apply (within_more (intro_budget L (high - (p + 1)) (depth - 1) + intro_budget L (p - low) (depth - 1))); [lia|].
    eapply within_bind; [lia|apply Hrec; lia|]. intros _ _. apply Hrec; lia.
Qed.

Lemma sort_all_cost count : 1 <= count < 2 ^ 62 ->
  within (9 * count * Z.log2 count + 16 * count) (sort_all s count) (fun _ => True).
Proof.
  intros Hc. unfold sort_all. pose proof (Z.log2_nonneg count).
  rewrite sort_depth_spec by (split; [lia|]; etransitivity; [apply Hc|reflexivity]).
  eapply within_more, (sort_introsort_cost _ _ 0 count _ (Z.log2 count)); [|lia|lia|by rewrite Z.sub_0_r|done].
  unfold intro_budget. rewrite Z.sub_0_r. nia.
Qed.
End cost.
