(* ===== verification/SortClaims.v ===== *)
(** The properties of the sort, each with a concrete instance. *)
From S2P Require Import Prelude Interfaces Sort SortSwaps SortOrder SortCorrect SortCost.

(** A comparator that always answers [lt], whatever else it does. *)
Definition pure_comparator {E} (lt : elem -> elem -> bool) (f : elem -> elem -> M E bool) : Prop :=
  forall a b e, exists e', f a b e = Ok (lt a b) e'.

Lemma pure_answers {E} lt (f : elem -> elem -> M E bool) : pure_comparator lt f -> answers True lt f.
Proof. intros Hf a b e. destruct (Hf a b e) as [e' He]. unfold wp. by rewrite He. Qed.

Lemma wp_no_stop {S A} (m : M S A) (Q : A -> S -> Prop) (P : halt -> S -> Prop) s :
  wp m Q P s -> (forall h s', ~ P h s') -> exists a s', m s = Ok a s' /\ Q a s'.
Proof. intros Hw HP. unfold wp in Hw. destruct (m s); [eauto|by apply HP in Hw|done|done]. Qed.

Section claims.
Context {E : Type}.
Implicit Types (xs : list elem) (e : E).

(** C3: under a comparator that is a strict weak order, [loke_rt_v1_sort]
    returns a permutation of the elements in which none is below one before it,
    ascending or descending, within the loop fuel of its depth limit and 63
    nested calls. *)
Theorem sort_sorts count elem_size (f : elem -> elem -> M E bool) descending lt xs e :
  strict_weak lt -> pure_comparator lt f ->
  count = zlen xs -> count < 2 ^ 62 -> 0 < elem_size -> Forall (fun a => zlen a = elem_size) xs ->
  exists ys e', sort count elem_size (Some f) descending (xs, e) = Ok tt (ys, e') /\
    ys ≡ₚ xs /\ in_order (fun a b => if descending then lt b a else lt a b) ys.
Proof.
  intros Hw Hf -> Hn Hz Hs.
  destruct (wp_no_stop _ _ _ _ (sort_spec (zlen xs) elem_size f descending True lt xs e
    (pure_answers _ _ Hf) (fun _ => Hw) eq_refl Hn Hz Hs)) as ([] & [ys e'] & Hr & Hp & Ho).
  { by intros h s' [_ ?]. }
  exists ys, e'. split; [done|]. split; [done|]. apply sorted_on_in_order.
  cbn [fst] in Hp. rewrite (Permutation_length Hp). exact (Ho I).
Qed.

(** [loke_rt_v1_sort_by] sorts by the order its stateful comparator
    answers. *)
Theorem sort_by_sorts {St} count elem_size (state : St) (f : St -> elem -> elem -> M E bool) lt xs e :
  strict_weak lt -> pure_comparator lt (f state) ->
  count = zlen xs -> count < 2 ^ 62 -> 0 < elem_size -> Forall (fun a => zlen a = elem_size) xs ->
  exists ys e', sort_by count elem_size state (Some f) (xs, e) = Ok tt (ys, e') /\
    ys ≡ₚ xs /\ in_order lt ys.
Proof.
  intros Hw Hf -> Hn Hz Hs.
  destruct (wp_no_stop _ _ _ _ (sort_by_spec (zlen xs) elem_size state f True lt xs e
    (pure_answers _ _ Hf) (fun _ => Hw) eq_refl Hn Hz Hs)) as ([] & [ys e'] & Hr & Hp & Ho).
  { by intros h s' [_ ?]. }
  exists ys, e'. split; [done|]. split; [done|]. apply sorted_on_in_order.
  cbn [fst] in Hp. rewrite (Permutation_length Hp). exact (Ho I).
Qed.

(** C25: whatever the comparator answers, and wherever it panics, the sort
    ends, never reads or writes outside the array, and leaves a permutation of
    the elements. *)
Theorem sort_any_comparator count elem_size (f : elem -> elem -> M E bool) descending xs e :
  (forall a b, well_behaved (f a b)) ->
  count = zlen xs -> count < 2 ^ 62 -> 0 < elem_size -> Forall (fun a => zlen a = elem_size) xs ->
  wp (sort count elem_size (Some f) descending)
    (fun _ st => st.1 ≡ₚ xs) (fun _ st => st.1 ≡ₚ xs) (xs, e).
Proof. apply sort_any. Qed.

(** C12: the sort makes at most [9 n log2 n + 16 n] comparisons, whatever the
    comparator answers and also where it panics: neither an adversarial input nor
    an inconsistent order makes it quadratic. *)
Theorem sort_comparisons_bounded (ticks : E -> Z) count elem_size (f : elem -> elem -> M E bool) descending xs e :
  (forall a b e, wp (f a b) (fun _ e' => ticks e' <= ticks e + 1) (fun _ e' => ticks e' <= ticks e + 1) e) ->
  count = zlen xs -> count < 2 ^ 62 -> 0 < elem_size -> Forall (fun a => zlen a = elem_size) xs ->
  wp (sort count elem_size (Some f) descending)
    (fun _ st => ticks st.2 <= ticks e + (9 * count * Z.log2 count + 16 * count))
    (fun _ st => ticks st.2 <= ticks e + (9 * count * Z.log2 count + 16 * count)) (xs, e).
Proof.
  intros Hf Hc Hn Hz Hs.
  assert (within ticks (9 * count * Z.log2 count + 16 * count) (sort count elem_size (Some f) descending) (fun _ => True)) as Hcost.
  { unfold sort. pose proof (Z.log2_nonneg count). destruct (Z.ltb_spec count 2); [apply within_ret; [nia|done]|].
    destruct (Z.eqb_spec elem_size 0); [lia|]. cbn [orb]. apply sort_all_cost; [|lia]. intros a b [ys e1].
    unfold sort_before, lift_snd. cbn [less_with_state less Sort.descending]. pose proof (Hf a b e1) as H1. pose proof (Hf b a e1) as H2. unfold wp in H1, H2.
    destruct descending; [destruct (f b a e1)|destruct (f a b e1)]; cbn; done. }
  assert (wp (sort count elem_size (Some f) descending) (fun _ st => st.1 ≡ₚ xs) (fun _ st => st.1 ≡ₚ xs) (xs, e)) as Hend.
  { apply sort_any; [|done..]. intros a b e1. by eapply wp_conseq; [apply Hf| |]. }
  specialize (Hcost (xs, e)). unfold wp in *. destruct (sort _ _ _ _ _); [tauto|done|done|done].
Qed.

(** The heap sort the depth limit falls back to sorts its range and
    touches nothing outside it. *)
Theorem sort_heap_sorts {St} (s : sort_v1 St E) lt low high xs e :
  comparator_ok s True lt -> strict_weak lt -> 0 <= low <= high -> high <= zlen xs -> high < 2 ^ 62 ->
  sized s xs ->
  exists ys e', sort_heap s low high (xs, e) = Ok tt (ys, e') /\ ys ≡ₚ xs /\
    (forall i j, low <= i < j -> j < high -> lt (elt ys j) (elt ys i) = false) /\
    (forall k, 0 <= k -> k < low \/ high <= k -> elt ys k = elt xs k).
Proof.
  intros Hc Hw Hl Hh Hb Hs.
  assert (valid s low high xs) as Hv by (split; [lia|by split]).
  destruct (wp_no_stop _ _ _ _ (sort_heap_spec s True lt Hc (fun _ => Hw) low high xs e Hv ltac:(lia) Hb))
    as ([] & [ys e'] & Hr & Hsh & Ho).
  { by intros h s' [_ ?]. }
  exists ys, e'. split; [done|]. split; [eapply shuffled_Permutation; [| |exact Hsh]; lia|].
  split; [exact (Ho I)|]. intros k Hk Hout. eapply shuffled_out; [| |exact Hsh|done|done]; lia.
Qed.

(** The Hoare partition answers a place [p] of its range with no element
    before it above, and none after it below, the element at [p]. *)
Theorem sort_partition_splits {St} (s : sort_v1 St E) lt low high xs e :
  comparator_ok s True lt -> strict_weak lt -> 0 <= low < high -> high <= zlen xs -> sized s xs ->
  exists p ys e', sort_partition s low high (xs, e) = Ok p (ys, e') /\ ys ≡ₚ xs /\ low <= p < high /\
    (forall k, low <= k < p -> lt (elt ys p) (elt ys k) = false) /\
    (forall k, p < k < high -> lt (elt ys k) (elt ys p) = false).
Proof.
  intros Hc Hw Hl Hh Hs.
  assert (valid s low high xs) as Hv by (split; [lia|by split]).
  destruct (wp_no_stop _ _ _ _ (sort_partition_spec s True lt Hc (fun _ => Hw) low high xs e Hv ltac:(lia)))
    as (p & [ys e'] & Hr & Hsh & Hp & Ho).
  { by intros h s' [_ ?]. }
  exists p, ys, e'. split; [done|]. split; [eapply shuffled_Permutation; [| |exact Hsh]; lia|].
  split; [done|]. exact (Ho I).
Qed.

(** The chunked swap exchanges two elements of any size, however many
    64-byte chunks they span, and changes no other. *)
Theorem sort_swap_exchanges {St} (s : sort_v1 St E) i j xs e :
  sized s xs -> 0 <= i < zlen xs -> 0 <= j < zlen xs ->
  exists ys, sort_swap s i j (xs, e) = Ok tt (ys, e) /\ elt ys i = elt xs j /\ elt ys j = elt xs i /\
    forall k, 0 <= k -> k <> i -> k <> j -> elt ys k = elt xs k.
Proof.
  intros Hs Hi Hj. exists (swap xs i j). split; [by apply sort_swap_spec|].
  rewrite !elt_swap by lia. rewrite !Z.eqb_refl.
  split; [by destruct (Z.eqb_spec i j) as [->|]|]. split; [done|].
  intros k Hk Hki Hkj. rewrite elt_swap by lia.
  destruct (Z.eqb_spec k j); [done|]. by destruct (Z.eqb_spec k i).
Qed.
End claims.

(** The depth limit [sort_all] computes is twice the binary logarithm. *)
Lemma sort_depth_limit count : 1 <= count < 2 ^ 63 -> sort_depth 64 count 0 = Some (2 * Z.log2 count).
Proof. intros Hc. apply (sort_depth_spec 64 count 0). change (Z.of_nat 64) with 64. lia. Qed.

(** * Concrete instances *)

(** Elements of 70 bytes, two chunks, ordered by their first byte; the
    environment counts the comparisons, and the panicking comparator stops at
    the twentieth. *)
Definition wide (i : Z) : elem := (i * 37) mod 101 :: replicate 69 i.
Definition first_less (a b : elem) : bool := default 0 (head a) <? default 0 (head b).
Definition counting (a b : elem) : M nat bool := fun n => Ok (first_less a b) (S n).
Definition panicking (_ _ : elem) : M nat bool := fun n =>
  if decide (n = 20%nat) then Stop (Panicked "compare") n else Ok true (S n).
Definition wides : list elem := wide <$> seqZ 0 40.
Definition wide_sort : sort_v1 unit nat := SortV1 70 (Some counting) None tt false.

Lemma first_less_weak : strict_weak first_less.
Proof. unfold first_less. split; intros; lia. Qed.
Lemma counting_pure : pure_comparator first_less counting.
Proof. intros a b e. by eexists. Qed.
Lemma wide_sort_ok : comparator_ok wide_sort True first_less.
Proof. intros a b xs e. by split. Qed.
Lemma wides_sized : Forall (fun a => zlen a = 70) wides.
Proof. unfold wides. apply Forall_fmap, Forall_true. intros i. done. Qed.

Lemma sort_sorts_witness :
  exists ys e', sort 40 70 (Some counting) true (wides, 0%nat) = Ok tt (ys, e') /\
    ys ≡ₚ wides /\ in_order (fun a b => if true then first_less b a else first_less a b) ys.
Proof.
  apply (sort_sorts 40 70 counting true first_less wides 0%nat first_less_weak counting_pure);
    [reflexivity|lia|lia|apply wides_sized].
Defined.

Lemma sort_by_sorts_witness :
  exists ys e', sort_by 40 70 tt (Some (fun _ => counting)) (wides, 0%nat) = Ok tt (ys, e') /\
    ys ≡ₚ wides /\ in_order first_less ys.
Proof.
  apply (sort_by_sorts 40 70 tt (fun _ => counting) first_less wides 0%nat first_less_weak counting_pure);
    [reflexivity|lia|lia|apply wides_sized].
Defined.

Lemma sort_any_comparator_witness :
  (exists h st, sort 40 70 (Some panicking) false (wides, 0%nat) = Stop h st) /\
  wp (sort 40 70 (Some panicking) false)
    (fun _ st => st.1 ≡ₚ wides) (fun _ st => st.1 ≡ₚ wides) (wides, 0%nat).
Proof.
  split; [eexists _, _; vm_compute; reflexivity|].
  apply (sort_any_comparator 40 70 panicking false wides 0%nat);
    [|reflexivity|lia|lia|apply wides_sized].
  intros a b e. unfold wp, panicking. by destruct (decide _).
Defined.

(** A comparator that always answers yes. *)
Definition always (_ _ : elem) : M nat bool := fun n => Ok true (S n).

Lemma sort_comparisons_bounded_witness :
  (exists xs, sort 40 70 (Some always) false (wides, 0%nat) = Ok tt (xs, 901%nat)) /\
  wp (sort 40 70 (Some always) false)
    (fun _ st => Z.of_nat st.2 <= Z.of_nat 0 + (9 * 40 * Z.log2 40 + 16 * 40))
    (fun _ st => Z.of_nat st.2 <= Z.of_nat 0 + (9 * 40 * Z.log2 40 + 16 * 40)) (wides, 0%nat).
Proof.
  split; [eexists; vm_compute; reflexivity|].
  apply (sort_comparisons_bounded Z.of_nat 40 70 always false wides 0%nat);
    [|reflexivity|lia|lia|apply wides_sized].
  intros a b e. unfold wp, always. lia.
Defined.

Lemma sort_heap_sorts_witness :
  exists ys e', sort_heap wide_sort 3 30 (wides, 0%nat) = Ok tt (ys, e') /\ ys ≡ₚ wides /\
    (forall i j, 3 <= i < j -> j < 30 -> first_less (elt ys j) (elt ys i) = false) /\
    (forall k, 0 <= k -> k < 3 \/ 30 <= k -> elt ys k = elt wides k).
Proof.
  apply (sort_heap_sorts wide_sort first_less 3 30 wides 0%nat wide_sort_ok first_less_weak);
    [lia|by vm_compute|lia|apply wides_sized].
Defined.

Lemma sort_partition_splits_witness :
  exists p ys e', sort_partition wide_sort 0 40 (wides, 0%nat) = Ok p (ys, e') /\ ys ≡ₚ wides /\ 0 <= p < 40 /\
    (forall k, 0 <= k < p -> first_less (elt ys p) (elt ys k) = false) /\
    (forall k, p < k < 40 -> first_less (elt ys k) (elt ys p) = false).
Proof.
  apply (sort_partition_splits wide_sort first_less 0 40 wides 0%nat wide_sort_ok first_less_weak);
    [lia|by vm_compute|apply wides_sized].
Defined.

Lemma sort_swap_exchanges_witness :
  exists ys, sort_swap wide_sort 2 5 (wides, 0%nat) = Ok tt (ys, 0%nat) /\
    elt ys 2 = elt wides 5 /\ elt ys 5 = elt wides 2 /\
    forall k, 0 <= k -> k <> 2 -> k <> 5 -> elt ys k = elt wides k.
Proof.
  apply (sort_swap_exchanges wide_sort 2 5 wides 0%nat);
    [apply wides_sized|split; by vm_compute|split; by vm_compute].
Defined.
