(* ===== verification/Utf8.v ===== *)
(** UTF-8 as [runtime/text.c] reads and writes it: the strict decoder, the
    validator, the rune counter, the encoder, and the byte order of strings. *)
From S2P Require Import Prelude.

(** * Definitions *)

Abbreviation bytes := (list Z).

(** The bytes of a C string literal. *)
Definition lit (text : string) : bytes :=
  (fun c => Z.of_nat (Ascii.nat_of_ascii c)) <$> String.list_ascii_of_string text.

Definition REPLACEMENT : Z := 0xFFFD.

(** The answer of a decoding step: how many bytes were used, 0 for malformed
    text, and the rune written to [*out_rune]. [None] in front of it is a read
    outside the bytes at [data] or a signed overflow. *)
Definition decoded : Type := (Z * Z)%type.

(** [need], [value] and [lowest] for a lead byte above 0x7F. *)
Definition lead_byte (b0 : Z) : option (Z * Z * Z) :=
  if Z.land b0 0xE0 =? 0xC0 then Some (2, Z.land b0 0x1F, 0x80)
  else if Z.land b0 0xF0 =? 0xE0 then Some (3, Z.land b0 0x0F, 0x800)
  else if Z.land b0 0xF8 =? 0xF0 then Some (4, Z.land b0 0x07, 0x10000)
  else None.

(** The continuation loop: [Some None] for a byte that is not one. *)
Fixpoint continue (n : nat) (data : bytes) (at_ value : Z) : option (option Z) :=
  match n with
  | O => Some (Some value)
  | S n =>
      cont ← at_index data at_;
      if negb (Z.land cont 0xC0 =? 0x80) then Some None
      else continue n data (at_ + 1) (wrap32 (Z.lor (Z.shiftl value 6) (Z.land cont 0x3F)))
  end.

(** [loke_rt_v1_rune_at]; [data] is [None] for a null pointer. *)
Definition rune_at (data : option bytes) (len offset : Z) : option decoded :=
  match data with
  | None => Some (0, REPLACEMENT)
  | Some bs =>
      if (offset <? 0) || (len <=? offset) then Some (0, REPLACEMENT)
      else
        b0 ← at_index bs offset;
        if b0 <? 0x80 then Some (1, b0)
        else
          match lead_byte b0 with
          | None => Some (0, REPLACEMENT)
          | Some (need, value, lowest) =>
              if INT64_MAX <? offset + need then None
              else if len <? offset + need then Some (0, REPLACEMENT)
              else
                r ← continue (Z.to_nat (need - 1)) bs (offset + 1) value;
                match r with
                | None => Some (0, REPLACEMENT)
                | Some value =>
                    if (value <? lowest) || (0x10FFFF <? value)
                       || ((0xD800 <=? value) && (value <=? 0xDFFF))
                    then Some (0, REPLACEMENT)
                    else Some (need, value)
                end
          end
  end.

(** The loops over a text answer [None] outside the bytes, or when [fuel] is
    short: one turn per byte is enough. *)
Fixpoint utf8_valid_loop (fuel : nat) (data : option bytes) (len offset : Z) : option bool :=
  if offset <? len then
    match fuel with
    | O => None
    | S fuel =>
        '(used, _) ← rune_at data len offset;
        if used =? 0 then Some false else utf8_valid_loop fuel data len (offset + used)
    end
  else Some true.

Definition utf8_valid (data : option bytes) (len : Z) : option bool :=
  if len <? 0 then Some false else utf8_valid_loop (Z.to_nat len) data len 0.

Fixpoint rune_count_loop (fuel : nat) (data : option bytes) (len offset count : Z) : option Z :=
  if offset <? len then
    match fuel with
    | O => None
    | S fuel =>
        '(used, _) ← rune_at data len offset;
        if used =? 0 then Some count else rune_count_loop fuel data len (offset + used) (count + 1)
    end
  else Some count.

Definition rune_count (data : option bytes) (len : Z) : option Z :=
  rune_count_loop (Z.to_nat len) data len 0 0.

(** [loke_rt_encode_rune]: the bytes written; their number is the answer. *)
Definition encode_rune (value : Z) : bytes :=
  let v := wrap32 value in
  if (value <? 0) || (0x10FFFF <? v) || ((0xD800 <=? v) && (v <=? 0xDFFF)) then []
  else if v <? 0x80 then [wrap8 v]
  else if v <? 0x800 then
    [wrap8 (Z.lor 0xC0 (Z.shiftr v 6)); wrap8 (Z.lor 0x80 (Z.land v 0x3F))]
  else if v <? 0x10000 then
    [wrap8 (Z.lor 0xE0 (Z.shiftr v 12)); wrap8 (Z.lor 0x80 (Z.land (Z.shiftr v 6) 0x3F));
     wrap8 (Z.lor 0x80 (Z.land v 0x3F))]
  else
    [wrap8 (Z.lor 0xF0 (Z.shiftr v 18)); wrap8 (Z.lor 0x80 (Z.land (Z.shiftr v 12) 0x3F));
     wrap8 (Z.lor 0x80 (Z.land (Z.shiftr v 6) 0x3F)); wrap8 (Z.lor 0x80 (Z.land v 0x3F))].

(** ** Byte order *)

(** [memcmp]: the sign of the first difference of the bytes as unsigned. *)
Fixpoint memcmp (a b : bytes) (n : nat) {struct n} : option comparison :=
  match n with
  | O => Some Eq
  | S n =>
      match a, b with
      | x :: a, y :: b => if x =? y then memcmp a b n else Some (x ?= y)
      | _, _ => None
      end
  end.

(** [loke_rt_v1_bytes_compare]. *)
Definition bytes_compare (a : bytes) (a_len : Z) (b : bytes) (b_len : Z) : option Z :=
  let shared := if a_len <? b_len then a_len else b_len in
  order ← (if 0 <? shared then memcmp a b (Z.to_nat shared) else Some Eq);
  match order with
  | Lt => Some (-1)
  | Gt => Some 1
  | Eq => Some (if a_len =? b_len then 0 else if a_len <? b_len then -1 else 1)
  end.

(** [loke_rt_v1_cstring_len]: the scan of the bytes at [p] for the zero. *)
Fixpoint strlen (p : bytes) : option Z :=
  match p with
  | [] => None
  | b :: p => if b =? 0 then Some 0 else n ← strlen p; Some (n + 1)
  end.
Definition cstring_len (p : option bytes) : option Z :=
  match p with None => Some 0 | Some p => strlen p end.

(** * Scalar values *)

Definition is_scalar (v : Z) : Prop := 0 <= v <= 0x10FFFF /\ ~ (0xD800 <= v <= 0xDFFF).
Global Instance is_scalar_dec v : Decision (is_scalar v).
Proof. unfold is_scalar. apply _. Defined.

Definition encode_all (rs : list Z) : bytes := rs ≫= encode_rune.

(** ** Bytes by exhaustion *)

Lemma byte_cases (P : Z -> bool) :
  forallb P (seqZ 0 256) = true -> forall b, is_byte b -> P b = true.
Proof.
  intros Hall b Hb. rewrite forallb_forall in Hall.
  apply Hall, list_elem_of_In, elem_of_seqZ. unfold is_byte in Hb. lia.
Qed.

Lemma lead_byte_spec b0 :
  is_byte b0 ->
  lead_byte b0 =
    if (192 <=? b0) && (b0 <? 224) then Some (2, b0 - 192, 0x80)
    else if (224 <=? b0) && (b0 <? 240) then Some (3, b0 - 224, 0x800)
    else if (240 <=? b0) && (b0 <? 248) then Some (4, b0 - 240, 0x10000)
    else None.
Proof.
  intros Hb. apply (bool_decide_eq_true_1 _). revert b0 Hb. apply byte_cases. vm_compute. reflexivity.
Qed.

Lemma continuation_byte b : is_byte b -> (Z.land b 0xC0 =? 0x80) = (128 <=? b) && (b <? 192).
Proof.
  intros Hb. apply (bool_decide_eq_true_1 _). revert b Hb. apply byte_cases. vm_compute. reflexivity.
Qed.

Lemma low_bits b n : 0 <= n -> Z.land b (2 ^ n - 1) = b mod 2 ^ n.
Proof. intros. rewrite <- Z.land_ones, Z.ones_equiv, <- Z.sub_1_r by done. done. Qed.

Lemma payload b : Z.land b 0x3F = b mod 64.
Proof. apply (low_bits b 6). done. Qed.

(** Setting bits below a multiple of a power of two is adding them. *)
Lemma lor_add a b n : 0 <= n -> 0 <= b < 2 ^ n -> Z.lor (a * 2 ^ n) b = a * 2 ^ n + b.
Proof.
  intros Hn Hb. symmetry. apply Z.add_nocarry_lor.
  rewrite <- (Z.mod_small b (2 ^ n)) by done. rewrite <- Z.land_ones by done.
  rewrite (Z.land_comm b), Z.land_assoc, Z.land_ones by done.
  by rewrite Z.mod_mul, Z.land_0_l by lia.
Qed.

Lemma continuation_step value b :
  0 <= value < 2 ^ 20 -> is_byte b ->
  wrap32 (Z.lor (Z.shiftl value 6) (Z.land b 0x3F)) = value * 64 + b mod 64.
Proof.
  intros Hv Hb. rewrite payload, Z.shiftl_mul_pow2 by done.
  pose proof (Z.mod_pos_bound b 64 ltac:(done)). rewrite lor_add by (done || lia).
  change (2 ^ 6) with 64. unfold wrap32. apply Z.mod_small. lia.
Qed.

Lemma byte_of x : 0 <= x < 256 -> wrap8 x = x.
Proof. intros Hx. unfold wrap8. by apply Z.mod_small. Qed.

Lemma mark_byte tag n x : 0 <= n -> (2 ^ n | tag) -> 0 <= x < 2 ^ n -> Z.lor tag x = tag + x.
Proof. intros Hn [k ->] Hx. by apply lor_add. Qed.

(** ** What the encoder writes, in arithmetic *)

Lemma encode_rune_arith v :
  is_scalar v ->
  encode_rune v =
    if v <? 0x80 then [v]
    else if v <? 0x800 then [192 + v `div` 64; 128 + v mod 64]
    else if v <? 0x10000 then [224 + v `div` 4096; 128 + v `div` 64 mod 64; 128 + v mod 64]
    else [240 + v `div` 262144; 128 + v `div` 4096 mod 64; 128 + v `div` 64 mod 64; 128 + v mod 64].
Proof.
  intros [Hv Hs]. unfold encode_rune. rewrite (Z.mod_small v (2 ^ 32) ltac:(lia) : wrap32 v = v).
  destruct (_ || _) eqn:Hbad; [lia|]. rewrite !Z.shiftr_div_pow2 by done. rewrite !payload.
  assert (forall x, 0 <= x mod 64 < 64) as Hm by (intros; by apply Z.mod_pos_bound).
  change (2 ^ 6) with 64. change (2 ^ 12) with 4096. change (2 ^ 18) with 262144.
  assert (forall x, wrap8 (Z.lor 0x80 (x mod 64)) = 128 + x mod 64) as Hcont.
  { intros x. rewrite (mark_byte 128 6) by (done || apply Hm || by exists 2).
    apply byte_of. specialize (Hm x). lia. }
  rewrite !Hcont.
  destruct (Z.ltb_spec v 0x80); [by rewrite byte_of by lia|].
  assert (forall tag n d, 0 <= n -> (2 ^ n | tag) -> 0 <= d < 2 ^ n -> 0 <= tag -> tag + 2 ^ n <= 256 ->
    wrap8 (Z.lor tag d) = tag + d) as Hlead.
  { intros tag n d ? ? ? ? ?. rewrite (mark_byte tag n) by done. apply byte_of. lia. }
  destruct (Z.ltb_spec v 0x800).
  { rewrite (Hlead 0xC0 5); [done|done|by exists 6| |done|done].
    split; [apply Z.div_pos; lia|]. apply Z.div_lt_upper_bound; lia. }
  destruct (Z.ltb_spec v 0x10000).
  { rewrite (Hlead 0xE0 4); [done|done|by exists 14| |done|done].
    split; [apply Z.div_pos; lia|]. apply Z.div_lt_upper_bound; lia. }
  rewrite (Hlead 0xF0 3); [done|done|by exists 30| |done|done].
  split; [apply Z.div_pos; lia|]. apply Z.div_lt_upper_bound; lia.
Qed.
