(* ===== verification/Utf8Codec.v ===== *)
(** The decoder and the encoder are inverse: a decoding step succeeds exactly
    on the encoding of a scalar value, so the validator accepts exactly the
    encodings of scalar sequences and the rune counter counts them. *)
From S2P Require Import Prelude Utf8.

(** * Reading *)

Lemma at_index_app_r {A} (pre l : list A) k : 0 <= k -> at_index (pre ++ l) (zlen pre + k) = at_index l k.
Proof.
  intros Hk. unfold at_index. destruct (Z.leb_spec 0 k), (Z.leb_spec 0 (zlen pre + k)); try lia.
  replace (Z.to_nat (zlen pre + k)) with (length pre + Z.to_nat k)%nat by lia.
  rewrite lookup_app_r by lia. f_equal. lia.
Qed.

Lemma at_index_lookup {A} (xs : list A) i : 0 <= i -> at_index xs i = xs !! Z.to_nat i.
Proof. intros Hi. unfold at_index. by destruct (Z.leb_spec 0 i); [|lia]. Qed.

Lemma at_index_Some {A} (xs : list A) i : 0 <= i < zlen xs -> exists x, at_index xs i = Some x.
Proof. intros Hi. rewrite at_index_lookup by lia. apply lookup_lt_is_Some. lia. Qed.

Lemma at_index_elem {A} (xs : list A) i x : at_index xs i = Some x -> x ∈ xs /\ 0 <= i < zlen xs.
Proof.
  unfold at_index. destruct (Z.leb_spec 0 i); [|done]. intros Hx.
  split; [by eapply list_elem_of_lookup_2|]. apply lookup_lt_Some in Hx. lia.
Qed.

(** * Encodings *)

Lemma encode_rune_length v : is_scalar v -> 1 <= zlen (encode_rune v) <= 4.
Proof. intros Hv. rewrite encode_rune_arith by done. repeat case_match; cbn; lia. Qed.

Lemma encode_rune_invalid v : - 2 ^ 31 <= v < 2 ^ 31 -> ~ is_scalar v -> encode_rune v = [].
Proof.
  intros Hr Hv. unfold encode_rune. destruct (Z.ltb_spec v 0); [done|].
  assert (wrap32 v = v) as -> by (unfold wrap32; apply Z.mod_small; lia).
  destruct (_ || _) eqn:Hb; [done|]. exfalso. apply Hv. unfold is_scalar. lia.
Qed.

(** Dividing by 64 twice and three times. *)
Lemma div_chain v :
  v `div` 4096 = (v `div` 64) `div` 64 /\ v `div` 262144 = ((v `div` 64) `div` 64) `div` 64.
Proof. rewrite !Z.div_div by done. done. Qed.

Ltac split_64 v :=
  pose proof (Z.div_mod v 64 ltac:(done)); pose proof (Z.mod_pos_bound v 64 ltac:(done)).

Lemma encode_rune_bytes v : is_scalar v -> Forall is_byte (encode_rune v).
Proof.
  intros Hv. rewrite encode_rune_arith by done. destruct (div_chain v) as [H1 H2].
  rewrite H2, H1. destruct Hv as [Hv _].
  split_64 v. split_64 (v `div` 64). split_64 ((v `div` 64) `div` 64).
  repeat case_match; repeat constructor; unfold is_byte; lia.
Qed.

(** * Decoding what was encoded *)

Section decode_encoded.
Context (pre post : bytes) (len : Z) (Hlen : len + 4 <= INT64_MAX).

Lemma lead_at v b0 rest need value lowest :
  is_byte b0 -> 0x80 <= b0 -> lead_byte b0 = Some (need, value, lowest) ->
  2 <= need <= 4 -> zlen pre + need <= len ->
  continue (Z.to_nat (need - 1)) (pre ++ (b0 :: rest) ++ post) (zlen pre + 1) value = Some (Some v) ->
  lowest <= v -> is_scalar v ->
  rune_at (Some (pre ++ (b0 :: rest) ++ post)) len (zlen pre) = Some (need, v).
Proof.
  intros Hb Hhi Hlead Hneed Hroom Hc Hlow [Hv Hs]. unfold rune_at.
  destruct (Z.ltb_spec (zlen pre) 0); [lia|]. destruct (Z.leb_spec len (zlen pre)); [lia|]. cbn [orb].
  assert (at_index (pre ++ (b0 :: rest) ++ post) (zlen pre) = Some b0) as ->.
  { replace (zlen pre) with (zlen pre + 0) by lia. by rewrite at_index_app_r by done. }
  cbn [mbind option_bind]. destruct (Z.ltb_spec b0 0x80); [lia|]. rewrite Hlead.
  destruct (Z.ltb_spec INT64_MAX (zlen pre + need)); [ilia|].
  destruct (Z.ltb_spec len (zlen pre + need)); [lia|]. rewrite Hc. cbn [mbind option_bind].
  destruct (_ || _) eqn:Hbad; [lia|done].
Qed.

Lemma continue_step n value b l k :
  0 <= value < 2 ^ 20 -> 128 <= b < 192 -> 0 <= k -> at_index l k = Some b ->
  continue (S n) (pre ++ l) (zlen pre + k) value = continue n (pre ++ l) (zlen pre + (k + 1)) (value * 64 + (b - 128)).
Proof.
  intros Hv Hb Hk Hl. cbn [continue]. rewrite at_index_app_r, Hl by done. cbn [mbind option_bind].
  rewrite continuation_byte by (unfold is_byte; lia).
  destruct (Z.leb_spec 128 b), (Z.ltb_spec b 192); try lia. cbn [andb negb].
  rewrite continuation_step by (done || unfold is_byte; lia).
  replace (zlen pre + k + 1) with (zlen pre + (k + 1)) by lia. f_equal.
  replace b with (b - 128 + 2 * 64) at 1 by lia. rewrite Z.mod_add, Z.mod_small by lia. done.
Qed.

Lemma rune_at_encode v :
  is_scalar v -> zlen pre + zlen (encode_rune v) <= len ->
  rune_at (Some (pre ++ encode_rune v ++ post)) len (zlen pre) = Some (zlen (encode_rune v), v).
Proof.
  intros Hv. rewrite encode_rune_arith by done. destruct (div_chain v) as [Hd1 Hd2]. rewrite Hd1, Hd2.
  pose proof Hv as [Hr _]. split_64 v. split_64 (v `div` 64). split_64 ((v `div` 64) `div` 64).
  set (q1 := v `div` 64) in *. set (q2 := q1 `div` 64) in *. set (q3 := q2 `div` 64) in *.
  assert (forall b0, 192 <= b0 < 248 -> is_byte b0) as Hbyte by (intros; unfold is_byte; lia).
  destruct (Z.ltb_spec v 0x80); cbn [length]; intros Hroom.
  { unfold rune_at. destruct (Z.ltb_spec (zlen pre) 0); [lia|].
    destruct (Z.leb_spec len (zlen pre)); [lia|]. cbn [orb].
    replace (zlen pre) with (zlen pre + 0) by lia. rewrite at_index_app_r by done.
    change (at_index (([v] ++ post)) 0) with (Some v). cbn [mbind option_bind].
    destruct (Z.ltb_spec v 128); [done|lia]. }
  destruct (Z.ltb_spec v 0x800); cbn [length] in *.
  { eapply (lead_at v _ _ 2 q1 0x80); [apply Hbyte; lia|lia| |lia|lia| |lia|done].
    - rewrite lead_byte_spec by (apply Hbyte; lia).
      destruct (Z.leb_spec 192 (192 + q1)), (Z.ltb_spec (192 + q1) 224); try lia. cbn. do 3 f_equal. lia.
    - change (Z.to_nat (2 - 1)) with 1%nat. rewrite (continue_step _ _ (128 + v mod 64) _ 1) by (done || lia).
      cbn [continue]. do 2 f_equal. lia. }
  destruct (Z.ltb_spec v 0x10000); cbn [length] in *.
  { eapply (lead_at v _ _ 3 q2 0x800); [apply Hbyte; lia|lia| |lia|lia| |lia|done].
    - rewrite lead_byte_spec by (apply Hbyte; lia).
      destruct (Z.leb_spec 192 (224 + q2)), (Z.ltb_spec (224 + q2) 224), (Z.leb_spec 224 (224 + q2)),
        (Z.ltb_spec (224 + q2) 240); try lia. cbn. do 3 f_equal. lia.
    - change (Z.to_nat (3 - 1)) with 2%nat. rewrite (continue_step _ _ (128 + q1 mod 64) _ 1) by (done || lia).
      rewrite (continue_step _ _ (128 + v mod 64) _ 2) by (done || lia).
      cbn [continue]. do 2 f_equal. lia. }
  eapply (lead_at v _ _ 4 q3 0x10000); [apply Hbyte; lia|lia| |lia|lia| |lia|done].
  - rewrite lead_byte_spec by (apply Hbyte; lia).
    destruct (Z.leb_spec 192 (240 + q3)), (Z.ltb_spec (240 + q3) 224), (Z.leb_spec 224 (240 + q3)),
      (Z.ltb_spec (240 + q3) 240), (Z.leb_spec 240 (240 + q3)), (Z.ltb_spec (240 + q3) 248); try lia.
    cbn. do 3 f_equal. lia.
  - change (Z.to_nat (4 - 1)) with 3%nat. rewrite (continue_step _ _ (128 + q2 mod 64) _ 1) by (done || lia).
    rewrite (continue_step _ _ (128 + q1 mod 64) _ 2) by (done || lia).
    rewrite (continue_step _ _ (128 + v mod 64) _ 3) by (done || lia).
    cbn [continue]. do 2 f_equal. lia.
Qed.
End decode_encoded.

(** * Encoding what was decoded *)

(** The bytes of a text from an offset on, as the decoder sees them. *)
Definition tail_at (bs : bytes) (len offset : Z) : bytes :=
  take (Z.to_nat (len - offset)) (drop (Z.to_nat offset) bs).

Section decode.
Context (bs : bytes) (len : Z).
Context (Hbytes : Forall is_byte bs) (Hlen : len <= zlen bs) (Hmax : len + 4 <= INT64_MAX).

Lemma byte_at i b : at_index bs i = Some b -> is_byte b.
Proof. intros [Hin _]%at_index_elem. by eapply Forall_forall. Qed.

(** The continuation loop reads only inside the text; when it answers, the
    bytes are continuation bytes and the value is theirs. *)
Lemma continue_spec n at_ value :
  0 <= at_ -> at_ + Z.of_nat n <= len -> 0 <= value -> (value + 1) * 64 ^ Z.of_nat n <= 2 ^ 26 ->
  exists r, continue n bs at_ value = Some r /\
    match r with
    | None => True
    | Some v => exists cs, length cs = n /\ take n (drop (Z.to_nat at_) bs) = cs /\
        Forall (fun c => 128 <= c < 192) cs /\ v = fold_left (fun v c => v * 64 + (c - 128)) cs value
    end.
Proof.
  revert at_ value. induction n as [|n IH]; intros a value Ha Hroom Hv Hbig.
  { eexists. split; [done|]. exists []. done. }
  destruct (at_index_Some bs a ltac:(lia)) as [b Hb]. cbn [continue]. rewrite Hb. cbn [mbind option_bind].
  pose proof (byte_at a b Hb) as Hbyte. rewrite continuation_byte by done.
  destruct (Z.leb_spec 128 b); [|by eexists]. destruct (Z.ltb_spec b 192); [|by eexists]. cbn [andb negb].
  assert (64 ^ Z.of_nat (S n) = 64 * 64 ^ Z.of_nat n) as Hp.
  { rewrite <- Z.pow_succ_r by lia. f_equal. lia. }
  assert (0 < 64 ^ Z.of_nat n) by (apply Z.pow_pos_nonneg; lia).
  rewrite continuation_step by (done || nia).
  replace (b mod 64) with (b - 128).
  2: { replace b with (b - 128 + 2 * 64) at 2 by lia. by rewrite Z.mod_add, Z.mod_small by lia. }
  destruct (IH (a + 1) (value * 64 + (b - 128))) as (r & Hr & Hs); [lia|lia|lia|nia|].
  exists r. split; [done|]. destruct r as [v|]; [|done].
  destruct Hs as (cs & Hl & Ht & Hall & ->). exists (b :: cs). split; [by cbn; rewrite Hl|].
  rewrite at_index_lookup in Hb by lia. split; [|split; [by constructor|done]].
  rewrite (drop_S _ b) by done. cbn [take]. f_equal. rewrite <- Ht. do 2 f_equal. lia.
Qed.

(** The encoder gives back the bytes a successful decoding read. *)
Lemma encode_two b0 b1 :
  192 <= b0 < 224 -> 128 <= b1 < 192 ->
  let v := (b0 - 192) * 64 + (b1 - 128) in 0x80 <= v -> is_scalar v -> encode_rune v = [b0; b1].
Proof.
  intros H0 H1 v Hlow Hv. rewrite encode_rune_arith by done. split_64 v.
  assert (v `div` 64 = b0 - 192) as -> by lia.
  destruct (Z.ltb_spec v 0x80), (Z.ltb_spec v 0x800); try lia. repeat (f_equal; try lia).
Qed.

Lemma encode_three b0 b1 b2 :
  224 <= b0 < 240 -> 128 <= b1 < 192 -> 128 <= b2 < 192 ->
  let v := ((b0 - 224) * 64 + (b1 - 128)) * 64 + (b2 - 128) in
  0x800 <= v -> is_scalar v -> encode_rune v = [b0; b1; b2].
Proof.
  intros H0 H1 H2 v Hlow Hv. rewrite encode_rune_arith by done.
  destruct (div_chain v) as [-> _]. split_64 v. split_64 (v `div` 64).
  assert (v `div` 64 = (b0 - 224) * 64 + (b1 - 128)) as Hq by lia. rewrite Hq in *.
  destruct (Z.ltb_spec v 0x80), (Z.ltb_spec v 0x800), (Z.ltb_spec v 0x10000); try lia.
  repeat (f_equal; try lia).
Qed.

Lemma encode_four b0 b1 b2 b3 :
  240 <= b0 < 248 -> 128 <= b1 < 192 -> 128 <= b2 < 192 -> 128 <= b3 < 192 ->
  let v := (((b0 - 240) * 64 + (b1 - 128)) * 64 + (b2 - 128)) * 64 + (b3 - 128) in
  0x10000 <= v -> is_scalar v -> encode_rune v = [b0; b1; b2; b3].
Proof.
  intros H0 H1 H2 H3 v Hlow Hv. rewrite encode_rune_arith by done.
  destruct (div_chain v) as [-> ->]. split_64 v. split_64 (v `div` 64). split_64 ((v `div` 64) `div` 64).
  assert (v `div` 64 = ((b0 - 240) * 64 + (b1 - 128)) * 64 + (b2 - 128)) as Hq by lia. rewrite Hq in *.
  assert ((((b0 - 240) * 64 + (b1 - 128)) * 64 + (b2 - 128)) `div` 64 = (b0 - 240) * 64 + (b1 - 128))
    as Hq2 by lia. rewrite Hq2 in *.
  destruct (Z.ltb_spec v 0x80), (Z.ltb_spec v 0x800), (Z.ltb_spec v 0x10000); try lia.
  repeat (f_equal; try lia).
Qed.

Definition step_ok (offset : Z) (r : decoded) : Prop :=
  r = (0, REPLACEMENT) \/
  (is_scalar r.2 /\ r.1 = zlen (encode_rune r.2) /\ offset + r.1 <= len /\
   take (Z.to_nat r.1) (drop (Z.to_nat offset) bs) = encode_rune r.2).

Lemma fold_payload_nonneg cs value :
  0 <= value -> Forall (fun c => 128 <= c < 192) cs ->
  0 <= fold_left (fun v c => v * 64 + (c - 128)) cs value.
Proof.
  intros Hv Hall. revert value Hv. induction Hall as [|c cs Hc _ IH]; intros value Hv; cbn; [done|].
  apply IH. lia.
Qed.

(** The part of [rune_at] after a lead byte of a longer form. *)
Definition decode_rest (offset need value lowest : Z) : option decoded :=
  if INT64_MAX <? offset + need then None
  else if len <? offset + need then Some (0, REPLACEMENT)
  else r ← continue (Z.to_nat (need - 1)) bs (offset + 1) value;
    match r with
    | None => Some (0, REPLACEMENT)
    | Some value =>
        if (value <? lowest) || (0x10FFFF <? value) || ((0xD800 <=? value) && (value <=? 0xDFFF))
        then Some (0, REPLACEMENT) else Some (need, value)
    end.

Lemma decode_rest_spec offset b0 need value lowest :
  0 <= offset < len -> at_index bs offset = Some b0 ->
  2 <= need <= 4 -> 0 <= value -> (value + 1) * 64 ^ (need - 1) <= 2 ^ 26 ->
  (forall cs, length cs = Z.to_nat (need - 1) -> Forall (fun c => 128 <= c < 192) cs ->
     let v := fold_left (fun v c => v * 64 + (c - 128)) cs value in
     lowest <= v -> is_scalar v -> encode_rune v = b0 :: cs) ->
  exists r, decode_rest offset need value lowest = Some r /\ step_ok offset r.
Proof.
  intros Hoff Hb0 Hneed Hvalue Hbig Henc. rewrite at_index_lookup in Hb0 by lia. unfold decode_rest.
  destruct (Z.ltb_spec INT64_MAX (offset + need)); [ilia|].
  destruct (Z.ltb_spec len (offset + need)); [eexists; split; [done|by left]|].
  destruct (continue_spec (Z.to_nat (need - 1)) (offset + 1) value) as (r & -> & Hr);
    [lia|lia|done|by rewrite Z2Nat.id by lia|]. cbn [mbind option_bind].
  destruct r as [v|]; [|eexists; split; [done|by left]].
  destruct ((v <? lowest) || _ || _) eqn:Hbad; [eexists; split; [done|by left]|].
  eexists. split; [done|]. right. destruct Hr as (cs & Hl & Ht & Hall & Hv). cbn [fst snd].
  pose proof (fold_payload_nonneg cs value Hvalue Hall) as Hpos.
  specialize (Henc cs Hl Hall). cbv zeta in Henc. rewrite <- Hv in Hpos, Henc.
  assert (is_scalar v) as Hs by (unfold is_scalar; lia).
  rewrite Henc by (done || lia). split; [done|]. split; [cbn; lia|]. split; [lia|].
  replace (Z.to_nat need) with (S (Z.to_nat (need - 1))) by lia.
  rewrite (drop_S _ b0) by done. cbn [take]. f_equal. rewrite <- Ht. do 2 f_equal. lia.
Qed.

Lemma rune_at_decode offset : exists r, rune_at (Some bs) len offset = Some r /\ step_ok offset r.
Proof.
  unfold rune_at. destruct ((offset <? 0) || _) eqn:Hout; [eexists; split; [done|by left]|].
  destruct (at_index_Some bs offset ltac:(lia)) as [b0 Hb0]. rewrite Hb0. cbn [mbind option_bind].
  pose proof (byte_at _ _ Hb0) as Hbyte. pose proof Hb0 as Hl0. rewrite at_index_lookup in Hl0 by lia.
  destruct (Z.ltb_spec b0 0x80) as [Hascii|Hhi].
  { eexists. split; [done|]. right. cbn [fst snd]. unfold is_byte in Hbyte.
    assert (is_scalar b0) as Hs by (unfold is_scalar; lia). split; [done|].
    rewrite encode_rune_arith by done. destruct (Z.ltb_spec b0 0x80); [|lia].
    split; [done|]. split; [lia|]. rewrite (drop_S _ b0) by done. done. }
  rewrite lead_byte_spec by done. fold (decode_rest offset).
  destruct ((192 <=? b0) && (b0 <? 224)) eqn:H2.
  { apply (decode_rest_spec offset b0); [lia|done|lia|lia|lia|].
    intros [|b1 [|]] Hl Hall; try done. apply Forall_cons in Hall as [? _]. apply encode_two; cbn beta in *; lia. }
  destruct ((224 <=? b0) && (b0 <? 240)) eqn:H3.
  { apply (decode_rest_spec offset b0); [lia|done|lia|lia|lia|].
    intros [|b1 [|b2 [|]]] Hl Hall; try done.
    apply Forall_cons in Hall as [? Hall]. apply Forall_cons in Hall as [? _]. apply encode_three; cbn beta in *; lia. }
  destruct ((240 <=? b0) && (b0 <? 248)) eqn:H4.
  { apply (decode_rest_spec offset b0); [lia|done|lia|lia|lia|].
    intros [|b1 [|b2 [|b3 [|]]]] Hl Hall; try done. apply Forall_cons in Hall as [? Hall].
    apply Forall_cons in Hall as [? Hall]. apply Forall_cons in Hall as [? _]. apply encode_four; cbn beta in *; lia. }
  eexists. split; [done|by left].
Qed.
End decode.

(** * Whole texts *)

Definition scalars (rs : list Z) : Prop := Forall is_scalar rs.

Lemma encode_all_cons v rs : encode_all (v :: rs) = encode_rune v ++ encode_all rs.
Proof. done. Qed.

Lemma encode_rune_nonempty v : is_scalar v -> encode_rune v <> [].
Proof. intros Hv He. pose proof (encode_rune_length v Hv) as Hl. rewrite He in Hl. cbn in Hl. lia. Qed.

Lemma encode_all_bytes rs : scalars rs -> Forall is_byte (encode_all rs).
Proof.
  intros Hs. induction Hs as [|v rs Hv _ IH]; [constructor|].
  rewrite encode_all_cons. apply Forall_app. split; [by apply encode_rune_bytes|done].
Qed.

Lemma encode_all_length rs : scalars rs -> zlen rs <= zlen (encode_all rs).
Proof.
  intros Hs. induction Hs as [|v rs Hv _ IH]; [done|].
  rewrite encode_all_cons, length_app. pose proof (encode_rune_length v Hv). cbn [length]. lia.
Qed.

(** No encoding is a proper prefix of a sequence of encodings. *)
Lemma encode_all_inv v t rs :
  is_scalar v -> scalars rs -> encode_rune v ++ t = encode_all rs ->
  exists rs', rs = v :: rs' /\ scalars rs' /\ t = encode_all rs'.
Proof.
  intros Hv Hrs He. destruct Hrs as [|w rs Hw Hrs].
  { apply app_eq_nil in He as [He _]. by apply encode_rune_nonempty in He. }
  rewrite encode_all_cons in He.
  pose proof (rune_at_encode [] t 4 ltac:(ilia) v Hv) as H1.
  pose proof (rune_at_encode [] (encode_all rs) 4 ltac:(ilia) w Hw) as H2.
  pose proof (encode_rune_length v Hv). pose proof (encode_rune_length w Hw).
  cbn [app length] in H1, H2. specialize (H1 ltac:(lia)). specialize (H2 ltac:(lia)). rewrite He in H1.
  assert (v = w) as <- by congruence. exists rs. apply app_inv_head in He. done.
Qed.

Section text.
Context (bs : bytes) (len : Z).
Context (Hbytes : Forall is_byte bs) (Hlen : len <= zlen bs) (Hmax : len + 4 <= INT64_MAX).
Local Abbreviation tail := (tail_at bs len).

Lemma tail_length off : 0 <= off <= len -> zlen (tail off) = len - off.
Proof. intros. unfold tail_at. rewrite length_take, length_drop. lia. Qed.

Lemma rune_at_prefix off w more :
  is_scalar w -> 0 <= off <= len -> tail off = encode_rune w ++ more ->
  rune_at (Some bs) len off = Some (zlen (encode_rune w), w).
Proof.
  intros Hw Hoff Ht. pose proof (tail_length off Hoff) as Hl. rewrite Ht, length_app in Hl.
  pose proof (rune_at_encode (take (Z.to_nat off) bs)
    (more ++ drop (Z.to_nat (len - off)) (drop (Z.to_nat off) bs)) len Hmax w Hw) as Hd.
  assert (zlen (take (Z.to_nat off) bs) = off) as Hpre by (rewrite length_take; lia).
  rewrite Hpre in Hd. specialize (Hd ltac:(lia)).
  rewrite (app_assoc (encode_rune w)), <- Ht in Hd. unfold tail_at in Hd. by rewrite !take_drop in Hd.
Qed.

(** One step of any loop over a text. *)
Lemma tail_step off :
  0 <= off < len ->
  (exists rep, rune_at (Some bs) len off = Some (0, rep) /\ forall rs, scalars rs -> tail off <> encode_all rs) \/
  (exists v, is_scalar v /\ rune_at (Some bs) len off = Some (zlen (encode_rune v), v) /\
     1 <= zlen (encode_rune v) <= 4 /\ off + zlen (encode_rune v) <= len /\
     tail off = encode_rune v ++ tail (off + zlen (encode_rune v))).
Proof.
  intros Hoff. destruct (rune_at_decode bs len Hbytes Hlen Hmax off) as (r & Hr & [->|Hok]).
  - left. eexists. split; [exact Hr|]. intros rs Hrs Ht.
    destruct Hrs as [|w rs Hw Hrs].
    + pose proof (tail_length off ltac:(lia)) as Hl. rewrite Ht in Hl. cbn in Hl. lia.
    + rewrite encode_all_cons in Ht.
      rewrite (rune_at_prefix off w _ Hw ltac:(lia) Ht) in Hr.
      pose proof (encode_rune_length w Hw). injection Hr as Hr _. lia.
  - right. destruct r as [used v]. cbn [fst snd] in Hok. destruct Hok as (Hv & -> & Hroom & Ht).
    exists v. split; [done|]. split; [done|]. split; [by apply encode_rune_length|]. split; [done|].
    unfold tail_at. rewrite <- Ht at 1.
    replace (Z.to_nat (len - off)) with
      (Z.to_nat (zlen (encode_rune v)) + Z.to_nat (len - (off + zlen (encode_rune v))))%nat by lia.
    rewrite <- take_take_drop, drop_drop. do 3 f_equal. lia.
Qed.

Lemma tail_end off : len <= off -> tail off = [].
Proof. intros. unfold tail_at. replace (Z.to_nat (len - off)) with 0%nat by lia. done. Qed.

Lemma utf8_valid_loop_spec fuel off :
  0 <= off -> len - off <= Z.of_nat fuel ->
  exists b, utf8_valid_loop fuel (Some bs) len off = Some b /\
    (b = true <-> exists rs, scalars rs /\ tail off = encode_all rs).
Proof.
  revert off. induction fuel as [|fuel IH]; intros off Hoff Hf; cbn [utf8_valid_loop];
    destruct (Z.ltb_spec off len) as [Hlt|Hge]; try lia.
  1,3: exists true; split; [done|]; rewrite tail_end by done; split; [|done]; intros _; exists []; split; [constructor|done].
  destruct (tail_step off ltac:(lia)) as [(rep & Hr & Hno)|(v & Hv & Hr & Hl & Hroom & Ht)];
    rewrite Hr; cbn [mbind option_bind].
  - exists false. split; [done|]. split; [done|]. intros (rs & Hrs & Heq). by apply Hno in Heq.
  - destruct (Z.eqb_spec (zlen (encode_rune v)) 0); [lia|].
    destruct (IH (off + zlen (encode_rune v))) as (b & Hb & Hiff); [lia|lia|].
    exists b. split; [done|]. rewrite Hiff, Ht. split.
    + intros (rs & Hrs & ->). exists (v :: rs). split; [by constructor|done].
    + intros (rs & Hrs & Heq). apply encode_all_inv in Heq as (rs' & -> & ? & ?); [|done..]. eauto.
Qed.

Lemma rune_count_loop_spec fuel off count rs :
  0 <= off -> len - off <= Z.of_nat fuel -> scalars rs -> tail off = encode_all rs ->
  rune_count_loop fuel (Some bs) len off count = Some (count + zlen rs).
Proof.
  revert off count rs. induction fuel as [|fuel IH]; intros off count rs Hoff Hf Hrs Ht; cbn [rune_count_loop];
    destruct (Z.ltb_spec off len) as [Hlt|Hge]; try lia.
  1,3: rewrite tail_end in Ht by done; pose proof (encode_all_length rs Hrs) as Hl; rewrite <- Ht in Hl;
    cbn in Hl; f_equal; lia.
  destruct (tail_step off ltac:(lia)) as [(rep & Hr & Hno)|(v & Hv & Hr & Hl & Hroom & Hstep)];
    [by apply Hno in Ht|]. rewrite Hr. cbn [mbind option_bind].
  destruct (Z.eqb_spec (zlen (encode_rune v)) 0); [lia|].
  rewrite Ht in Hstep. symmetry in Hstep. apply encode_all_inv in Hstep as (rs' & -> & Hrs' & Htail); [|done..].
  rewrite (IH _ _ rs'); [|lia|lia|done|done]. f_equal. cbn [length]. lia.
Qed.

(** Also on malformed text the counter ends and stays inside the bytes. *)
Lemma rune_count_loop_total fuel off count :
  0 <= off -> len - off <= Z.of_nat fuel ->
  exists n, rune_count_loop fuel (Some bs) len off count = Some n /\ count <= n <= count + Z.max 0 (len - off).
Proof.
  revert off count. induction fuel as [|fuel IH]; intros off count Hoff Hf; cbn [rune_count_loop];
    destruct (Z.ltb_spec off len) as [Hlt|Hge]; try lia.
  1,3: eexists; split; [done|lia].
  destruct (tail_step off ltac:(lia)) as [(rep & Hr & Hno)|(v & Hv & Hr & Hl & Hroom & Hstep)];
    rewrite Hr; cbn [mbind option_bind].
  - exists count. split; [done|lia].
  - destruct (Z.eqb_spec (zlen (encode_rune v)) 0); [lia|].
    destruct (IH (off + zlen (encode_rune v)) (count + 1)) as (m & -> & Hm); [lia|lia|].
    exists m. split; [done|lia].
Qed.
End text.

(** * Byte order *)

(** The lexical order of byte strings. *)
Fixpoint lex (a b : bytes) : comparison :=
  match a, b with
  | [], [] => Eq
  | [], _ => Lt
  | _, [] => Gt
  | x :: a, y :: b => match x ?= y with Eq => lex a b | c => c end
  end.

Definition sign (c : comparison) : Z := match c with Lt => -1 | Eq => 0 | Gt => 1 end.

Lemma memcmp_lex a b n :
  (n <= length a)%nat -> (n <= length b)%nat ->
  exists c, memcmp a b n = Some c /\ lex a b = match c with Eq => lex (drop n a) (drop n b) | c => c end.
Proof.
  revert a b. induction n as [|n IH]; intros a b Ha Hb; [exists Eq; split; [done|by rewrite !drop_0]|].
  destruct a as [|x a], b as [|y b]; cbn in *; try lia.
  destruct (Z.eqb_spec x y) as [->|Hne].
  - rewrite Z.compare_refl. apply IH; lia.
  - exists (x ?= y). split; [done|]. destruct (Z.compare_spec x y); done.
Qed.

Lemma bytes_compare_lex a b : bytes_compare a (zlen a) b (zlen b) = Some (sign (lex a b)).
Proof.
  unfold bytes_compare. set (shared := if zlen a <? zlen b then zlen a else zlen b).
  assert (0 <= shared <= zlen a /\ shared <= zlen b /\ (shared = zlen a \/ shared = zlen b)) as Hs.
  { unfold shared. destruct (Z.ltb_spec (zlen a) (zlen b)); lia. }
  destruct (memcmp_lex a b (Z.to_nat shared)) as (c & Hc & Hlex); [lia|lia|].
  assert ((if 0 <? shared then memcmp a b (Z.to_nat shared) else Some Eq) = Some c) as ->.
  { destruct (Z.ltb_spec 0 shared); [done|]. rewrite <- Hc. by replace (Z.to_nat shared) with 0%nat by lia. }
  cbn [mbind option_bind]. rewrite Hlex. destruct c; [|done..].
  destruct (Z.eqb_spec (zlen a) (zlen b)) as [He|Hne].
  { rewrite !drop_ge by lia. done. }
  destruct (Z.ltb_spec (zlen a) (zlen b)) as [Hlt|Hge].
  - rewrite (drop_ge a) by lia. destruct (drop _ b) as [|y l] eqn:Hd; [|done].
    apply (f_equal length) in Hd. rewrite length_drop in Hd. cbn in Hd. lia.
  - rewrite (drop_ge b) by lia. destruct (drop _ a) as [|y l] eqn:Hd; [|done].
    apply (f_equal length) in Hd. rewrite length_drop in Hd. cbn in Hd. lia.
Qed.

Lemma lex_refl a : lex a a = Eq.
Proof. induction a as [|x a IH]; [done|]. cbn. by rewrite Z.compare_refl. Qed.

Lemma lex_eq a b : lex a b = Eq -> a = b.
Proof.
  revert b. induction a as [|x a IH]; intros [|y b]; cbn; try done.
  destruct (Z.compare_spec x y); try done. intros ?%IH. by subst.
Qed.

Lemma lex_antisym a b : lex b a = CompOpp (lex a b).
Proof.
  revert b. induction a as [|x a IH]; intros [|y b]; cbn; try done.
  rewrite (Z.compare_antisym x y). destruct (x ?= y); cbn; auto.
Qed.

Lemma lex_lt_trans a b c : lex a b = Lt -> lex b c = Lt -> lex a c = Lt.
Proof.
  revert b c. induction a as [|x a IH]; intros [|y b] [|z c]; cbn; try done.
  destruct (Z.compare_spec x y), (Z.compare_spec y z), (Z.compare_spec x z); intros; subst; try done; try lia.
  by eapply IH.
Qed.

(** * Terminated strings *)

Lemma strlen_spec p rest : Forall (fun b => b <> 0) p -> strlen (p ++ 0 :: rest) = Some (zlen p).
Proof.
  induction 1 as [|b p Hb _ IH]; [done|]. cbn [app strlen]. destruct (Z.eqb_spec b 0); [done|].
  rewrite IH. cbn [mbind option_bind length]. f_equal. lia.
Qed.
