(* ===== verification/Strings.v ===== *)
(** The shared storage behind [string] ([runtime/text.c], "creation"): the
    header with its handle count, and the five ways to make or share one. *)
From S2P Require Import Prelude Checked Interfaces Utf8.

Definition HEADER_ALIGN : Z := 8.
Definition sizeof_string_header : Z := 24.
Definition LOKE_RT_STRING_STATIC : Z := 1.

(** [loke_rt_string_header_v1] and the bytes behind it; a byte the runtime has
    not written yet is [None]. *)
Record buffer := Buffer {
  handles : Z;
  b_allocator : handle;
  block_size : Z;
  contents : list (option Z);
}.

(** [loke_rt_string_v1]. *)
Record rt_string := RtString { s_data : Z; byte_len : Z; owner_flags : Z }.
Definition empty_string : rt_string := RtString 0 0 0.

Section Strings.
Context {E : Type} {api : AllocApi E}.

(** The runtime's buffers, by header address. *)
Record sstate := SState { buffers : gmap Z buffer; s_env : E }.

Definition outside {A} (m : M E A) : M sstate A := fun s =>
  match m (s_env s) with
  | Ok a e => Ok a (SState (buffers s) e)
  | Stop h e => Stop h (SState (buffers s) e)
  | Undefined => Undefined
  | NoFuel => NoFuel
  end.

(** The buffer at a header address: reaching a block that is not one (already
    freed, never allocated) is undefined behaviour. *)
Definition buffer_at (p : Z) : M sstate buffer :=
  let! s := get in need (buffers s !! p).
Definition set_buffer (p : Z) (b : buffer) : M sstate unit :=
  modify (fun s => SState (<[p := b]> (buffers s)) (s_env s)).

Definition header_of (owner : Z) : option Z :=
  if (owner =? 0) || (owner =? LOKE_RT_STRING_STATIC) then None else Some owner.

(** [allocate_buffer]: the string over [len] bytes still to be written and a
    terminator; [None] where the provider refused. *)
Definition allocate_buffer (len : Z) (a : handle) : M sstate (option rt_string) :=
  let block := wrap64 (sizeof_string_header + wrap64 len + 1) in
  let! raw := outside (api_alloc a block HEADER_ALIGN) in
  if raw =? 0 then ret None
  else
    set_buffer raw (Buffer 1 a block (replicate (Z.to_nat len) None ++ [Some 0])) ;;;
    ret (Some (RtString (raw + sizeof_string_header) len raw)).

(** [memcpy(bytes + at, data, len)] into a buffer: both ranges must exist. *)
Definition copy_bytes (p at_ : Z) (data : bytes) (len : Z) : M sstate unit :=
  let! b := buffer_at p in
  let n := Z.to_nat len in
  let k := Z.to_nat at_ in
  if (Z.of_nat n <=? zlen data) && (Z.of_nat (k + n) <=? zlen (contents b)) then
    set_buffer p (Buffer (handles b) (b_allocator b) (block_size b)
      (take k (contents b) ++ (Some <$> take n data) ++ drop (k + n) (contents b)))
  else undefined.

(** The bytes at a source pointer that is read. *)
Definition source (data : option bytes) : M sstate bytes := need data.

Definition never {A} (m : M E Empty_set) : M sstate A :=
  let! x := outside m in match x : Empty_set with end.

Definition string_from_bytes (data : option bytes) (len : Z) (a : handle) : M sstate (bool * rt_string) :=
  let! valid := (if len <? 0 then ret false else need (utf8_valid data len)) in
  if negb valid then ret (false, empty_string)
  else if len =? 0 then ret (true, empty_string)
  else
    let! out := allocate_buffer len a in
    match out with
    | None => never (api_alloc_failed a)
    | Some out =>
        let! bs := source data in
        copy_bytes (owner_flags out) 0 bs len ;;; ret (true, out)
    end.

Definition string_clone (data : option bytes) (len : Z) (a : handle) : M sstate (bool * rt_string) :=
  if len <=? 0 then ret (true, empty_string)
  else
    let! out := allocate_buffer len a in
    match out with
    | None => ret (false, empty_string)
    | Some out =>
        let! bs := source data in
        copy_bytes (owner_flags out) 0 bs len ;;; ret (true, out)
    end.

Definition string_concat (a_data : option bytes) (a_len : Z) (b_data : option bytes) (b_len : Z)
    (a : handle) : M sstate (bool * rt_string) :=
  match checked_add a_len b_len with
  | None => ret (false, empty_string)
  | Some total =>
      if total =? 0 then ret (true, empty_string)
      else
        let! out := allocate_buffer total a in
        match out with
        | None => ret (false, empty_string)
        | Some out =>
            (if 0 <? a_len then
               let! bs := source a_data in copy_bytes (owner_flags out) 0 bs a_len
             else ret tt) ;;;
            (if 0 <? b_len then
               let! bs := source b_data in copy_bytes (owner_flags out) a_len bs b_len
             else ret tt) ;;;
            ret (true, out)
        end
  end.

(** The first pass of [string_from_runes]: the total, [None] for a rune that
    is not a scalar value. *)
Fixpoint encoded_total (runes : list Z) (total : Z) : option Z :=
  match runes with
  | [] => Some total
  | r :: runes =>
      let used := zlen (encode_rune r) in
      if used =? 0 then None else encoded_total runes (total + used)
  end.

(** The second pass, from [cursor] on. *)
Fixpoint write_runes (p : Z) (runes : list Z) (cursor : Z) : M sstate unit :=
  match runes with
  | [] => ret tt
  | r :: runes =>
      let enc := encode_rune r in
      copy_bytes p cursor enc (zlen enc) ;;;
      write_runes p runes (cursor + zlen enc)
  end.

Definition string_from_runes (runes : list Z) (a : handle) : M sstate (bool * rt_string) :=
  match encoded_total runes 0 with
  | None => ret (false, empty_string)
  | Some total =>
      if total =? 0 then ret (true, empty_string)
      else
        let! out := allocate_buffer total a in
        match out with
        | None => never (api_alloc_failed a)
        | Some out => write_runes (owner_flags out) runes 0 ;;; ret (true, out)
        end
  end.

(** ** Sharing *)

Definition with_handles (n : Z) (b : buffer) : buffer :=
  Buffer n (b_allocator b) (block_size b) (contents b).

(** [loke_rt_v1_string_retain]: an atomic increment. *)
Definition string_retain (owner : Z) : M sstate unit :=
  match header_of owner with
  | None => ret tt
  | Some p =>
      let! b := buffer_at p in
      set_buffer p (with_handles (to_i64 (handles b + 1)) b)
  end.

(** [loke_rt_v1_string_release] in the two steps other threads may come between:
    an atomic decrement, which answers the buffer where it takes the count from
    one, and the free of that buffer with the header's own record of it. *)
Definition string_release_count (owner : Z) : M sstate (option Z) :=
  match header_of owner with
  | None => ret None
  | Some p =>
      let! b := buffer_at p in
      set_buffer p (with_handles (to_i64 (handles b - 1)) b) ;;;
      ret (if handles b =? 1 then Some p else None)
  end.

Definition string_free_buffer (p : Z) : M sstate unit :=
  let! b := buffer_at p in
  modify (fun s => SState (delete p (buffers s)) (s_env s)) ;;;
  outside (api_free (b_allocator b) p (block_size b) HEADER_ALIGN).

Definition string_release (owner : Z) : M sstate unit :=
  let! last := string_release_count owner in
  match last with Some p => string_free_buffer p | None => ret tt end.
End Strings.
Arguments sstate : clear implicits.

(** The bytes of a finished buffer: [len] of them and a zero. *)
Definition text_of (b : buffer) : option bytes := mapM id (contents b).
