(* ===== verification/StringsSpec.v ===== *)
(** What makes and shares strings: every constructor answers a finished buffer
    of its own or leaves the store as it was, and the handle count frees a
    buffer exactly when its last handle is released. *)
From S2P Require Import Prelude Checked Interfaces Utf8 Utf8Codec Strings.

Section spec.
Context {E : Type} {api : AllocApi E} {tot : AllocTotal E} {fresh : AllocFresh E}.
Implicit Types (s : sstate E) (bs : bytes) (a : handle).

(** The runtime's own buffers are blocks the provider may have in use. *)
Definition store_ok s : Prop :=
  forall p b, buffers s !! p = Some b -> live (s_env s) p (block_size b) /\ 0 < block_size b /\ 0 < p.

(** [out] is a fresh buffer over [bs], and nothing else changed. *)
Definition made s bs a s' (out : rt_string) : Prop :=
  let p := owner_flags out in
  buffers s !! p = None /\ header_of p = Some p /\
  out = RtString (p + sizeof_string_header) (zlen bs) p /\
  buffers s' = <[p := Buffer 1 a (sizeof_string_header + zlen bs + 1) ((Some <$> bs) ++ [Some 0])]> (buffers s).

(** A string over [bs]: the zero value when there are none. *)
Definition string_of s bs a s' (out : rt_string) : Prop :=
  match bs with
  | [] => out = empty_string /\ buffers s' = buffers s
  | _ => made s bs a s' out
  end.

Lemma outside_total {A} (m : M E A) (Q : A -> sstate E -> Prop) (P : halt -> sstate E -> Prop) s :
  well_behaved m ->
  (forall r e', m (s_env s) = Ok r e' -> Q r (SState (buffers s) e')) ->
  (forall h s', buffers s' = buffers s -> P h s') ->
  wp (outside m) Q P s.
Proof.
  intros Hm HQ HP. specialize (Hm (s_env s)). unfold wp, outside in *.
  destruct (m (s_env s)) as [r e'|h e'| |]; [by apply HQ|by apply HP|done|done].
Qed.

Lemma never_spec {A} (m : M E Empty_set) (Q : A -> sstate E -> Prop) s :
  well_behaved m -> wp (never m) Q (fun _ s' => buffers s' = buffers s) s.
Proof. intros Hm. unfold never. apply wp_bind, outside_total; [done|intros []|done]. Qed.

Lemma header_of_aligned p : (8 | p) -> 0 < p -> header_of p = Some p.
Proof.
  intros [k ->] Hp. unfold header_of, LOKE_RT_STRING_STATIC.
  destruct (Z.eqb_spec (k * 8) 0); [lia|]. destruct (Z.eqb_spec (k * 8) 1); [lia|done].
Qed.

Lemma buffer_size len : 0 <= len <= INT64_MAX ->
  wrap64 (sizeof_string_header + wrap64 len + 1) = sizeof_string_header + len + 1.
Proof.
  intros Hl. unfold sizeof_string_header. rewrite (wrap64_small len) by ilia. apply wrap64_small. ilia.
Qed.

Lemma allocate_buffer_spec len a s :
  store_ok s -> 0 <= len <= INT64_MAX ->
  wp (allocate_buffer len a)
    (fun r s' => store_ok s' /\
       match r with
       | None => buffers s' = buffers s
       | Some out => let p := owner_flags out in
           buffers s !! p = None /\ header_of p = Some p /\
           out = RtString (p + sizeof_string_header) len p /\
           buffers s' = <[p := Buffer 1 a (sizeof_string_header + len + 1)
             (replicate (Z.to_nat len) None ++ [Some 0])]> (buffers s)
       end)
    (fun _ s' => buffers s' = buffers s) s.
Proof.
  intros Hs Hl. unfold allocate_buffer. rewrite buffer_size by done. apply wp_bind.
  apply outside_total; [apply tot| |done].
  intros p e' Hr. assert (0 < sizeof_string_header + len + 1) as Hsize by (unfold sizeof_string_header; lia).
  apply alloc_fresh in Hr as [Hkeep Hnew]; [|done|done].
  destruct (Z.eqb_spec p 0) as [->|Hp].
  { apply wp_ret. split; [|done]. intros q b Hq. cbn [s_env]. destruct (Hs q b Hq). auto. }
  destruct (Hnew Hp) as (Hlive & Hdiv & Hpos & _ & Hapart). unfold set_buffer. apply wp_bind, wp_modify, wp_ret.
  cbn [buffers s_env owner_flags]. split.
  - intros q b. cbn [buffers s_env]. intros [[<- <-]|[_ Hq]]%lookup_insert_Some; [done|].
    destruct (Hs q b Hq). auto.
  - split; [|by rewrite header_of_aligned]. destruct (buffers s !! p) as [b|] eqn:Hb; [|done].
    destruct (Hs p b Hb) as [Hl0 Hb0]. destruct (Hapart p _ Hl0); lia.
Qed.

Lemma copy_bytes_spec p at_ data len b s :
  buffers s !! p = Some b -> 0 <= at_ -> 0 <= len <= zlen data -> at_ + len <= zlen (contents b) ->
  copy_bytes p at_ data len s = Ok tt (SState (<[p := Buffer (handles b) (b_allocator b) (block_size b)
    (take (Z.to_nat at_) (contents b) ++ (Some <$> take (Z.to_nat len) data) ++
     drop (Z.to_nat at_ + Z.to_nat len) (contents b))]> (buffers s)) (s_env s)).
Proof.
  intros Hb Ha Hl Hc. unfold copy_bytes, buffer_at, bind, get. rewrite Hb. cbn [need ret].
  destruct (Z.leb_spec (Z.of_nat (Z.to_nat len)) (zlen data)); [|lia].
  destruct (Z.leb_spec (Z.of_nat (Z.to_nat at_ + Z.to_nat len)) (zlen (contents b))); [|lia]. done.
Qed.

(** Filling a fresh buffer from its cursor on. *)
Definition filling s (done_ : bytes) (total : Z) a s' (p : Z) : Prop :=
  buffers s' = <[p := Buffer 1 a (sizeof_string_header + total + 1)
    ((Some <$> done_) ++ replicate (Z.to_nat (total - zlen done_)) None ++ [Some 0])]> (buffers s).

Lemma copy_filling s done_ total a s1 p bs :
  filling s done_ total a s1 p -> zlen done_ + zlen bs <= total ->
  exists s2, copy_bytes p (zlen done_) bs (zlen bs) s1 = Ok tt s2 /\ s_env s2 = s_env s1 /\
    filling s (done_ ++ bs) total a s2 p.
Proof.
  intros Hf Hroom. eexists. split; [|split].
  - eapply copy_bytes_spec; [rewrite Hf; apply lookup_insert_eq|lia|lia|]. cbn [contents].
    rewrite !length_app, length_fmap, length_replicate. cbn [length]. lia.
  - done.
  - unfold filling. cbn [buffers handles b_allocator block_size contents]. rewrite Hf, insert_insert_eq.
    f_equal. f_equal. rewrite !Nat2Z.id, fmap_app, firstn_all.
    rewrite take_app_length', drop_app_add' by (by rewrite length_fmap).
    rewrite <- app_assoc. f_equal. f_equal.
    rewrite drop_app_le by (rewrite length_replicate; lia). rewrite drop_replicate. f_equal.
    rewrite length_app. f_equal. lia.
Qed.

Lemma filling_made s bs a s' p :
  buffers s !! p = None -> header_of p = Some p -> filling s bs (zlen bs) a s' p ->
  made s bs a s' (RtString (p + sizeof_string_header) (zlen bs) p).
Proof.
  intros Hn Hh Hf. split; [done|]. split; [done|]. split; [done|]. rewrite Hf.
  replace (Z.to_nat (zlen bs - zlen bs)) with 0%nat by lia. done.
Qed.

Lemma made_string_of s bs a s' out : bs <> [] -> made s bs a s' out -> string_of s bs a s' out.
Proof. by destruct bs. Qed.

Lemma store_ok_filling s done_ total a s1 s2 p :
  filling s done_ total a s1 p -> store_ok s1 -> s_env s2 = s_env s1 ->
  (exists done2, filling s done2 total a s2 p) -> store_ok s2.
Proof.
  intros Hf Hs He [done2 Hf2] q b. rewrite Hf2, He.
  intros [[<- <-]|[Hne Hq]]%lookup_insert_Some.
  - apply (Hs p (Buffer 1 a (sizeof_string_header + total + 1)
      ((Some <$> done_) ++ replicate (Z.to_nat (total - zlen done_)) None ++ [Some 0]))).
    rewrite Hf. apply lookup_insert_eq.
  - apply Hs. by rewrite Hf, lookup_insert_ne.
Qed.

(** A buffer for [bs] that is allocated and then filled by [fill]. *)
Lemma allocate_and_fill bs a (fill : rt_string -> M (sstate E) (bool * rt_string))
    (refused : M (sstate E) (bool * rt_string)) (R : sstate E -> Prop) s :
  store_ok s -> 0 < zlen bs <= INT64_MAX ->
  (forall p s1, buffers s !! p = None -> store_ok s1 -> filling s [] (zlen bs) a s1 p ->
     let out := RtString (p + sizeof_string_header) (zlen bs) p in
     exists s2, fill out s1 = Ok (true, out) s2 /\ s_env s2 = s_env s1 /\ filling s bs (zlen bs) a s2 p) ->
  (forall s1, store_ok s1 -> buffers s1 = buffers s ->
     wp refused (fun r s' => r = (false, empty_string) /\ store_ok s' /\ R s')
       (fun _ s' => buffers s' = buffers s) s1) ->
  wp (let! out := allocate_buffer (zlen bs) a in
      match out with None => refused | Some out => fill out end)
    (fun r s' => store_ok s' /\
       if r.1 then string_of s bs a s' r.2 else r.2 = empty_string /\ R s')
    (fun _ s' => buffers s' = buffers s) s.
Proof.
  intros Hs Hl Hfill Href. apply wp_bind. eapply wp_conseq; [apply allocate_buffer_spec; [done|lia]| |done].
  intros [out|] s1 [Hs1 Ho].
  2: { eapply wp_conseq; [by apply Href| |done]. intros r s' (-> & ? & ?). done. }
  destruct Ho as (Hn & Hh & Hout & Hb). set (p := owner_flags out) in *.
  assert (filling s [] (zlen bs) a s1 p) as Hf.
  { unfold filling. rewrite Hb. cbn [length fmap list_fmap app]. by rewrite Z.sub_0_r. }
  destruct (Hfill p s1 Hn Hs1 Hf) as (s2 & Hr & He & Hf2).
  rewrite Hout. unfold wp. rewrite Hr. cbn [fst snd]. split.
  - eapply store_ok_filling; [exact Hf|done|done|eauto].
  - apply made_string_of; [intros ->; cbn in Hl; lia|]. by apply filling_made.
Qed.

Lemma string_from_bytes_spec bs a s :
  store_ok s -> Forall is_byte bs -> zlen bs + 4 <= INT64_MAX ->
  wp (string_from_bytes (Some bs) (zlen bs) a)
    (fun r s' => store_ok s' /\
       if r.1 then (exists rs, scalars rs /\ bs = encode_all rs) /\ string_of s bs a s' r.2
       else (~ exists rs, scalars rs /\ bs = encode_all rs) /\ r.2 = empty_string /\ buffers s' = buffers s)
    (fun _ s' => buffers s' = buffers s) s.
Proof.
  intros Hs Hb Hmax. unfold string_from_bytes.
  destruct (Z.ltb_spec (zlen bs) 0); [lia|].
  destruct (utf8_valid_loop_spec bs (zlen bs) Hb ltac:(lia) Hmax (Z.to_nat (zlen bs)) 0)
    as (v & Hv & Hiff); [lia|lia|].
  assert (tail_at bs (zlen bs) 0 = bs) as Ht.
  { unfold tail_at. rewrite drop_0, take_ge by lia. done. }
  rewrite Ht in Hiff. unfold utf8_valid. destruct (Z.ltb_spec (zlen bs) 0); [lia|]. rewrite Hv.
  apply wp_bind, wp_ret. destruct v; cbn [negb].
  2: { apply wp_ret. split; [done|]. split; [|done]. intros Hr. by apply Hiff in Hr. }
  destruct (Z.eqb_spec (zlen bs) 0) as [Hz|Hz].
  { apply wp_ret. split; [done|]. split; [by apply Hiff|]. by destruct bs. }
  eapply wp_conseq; [apply (allocate_and_fill bs a _ _ (fun _ => False)); [done|ilia| |]| |done].
  - intros p s1 Hn Hs1 Hf out. destruct (copy_filling _ _ _ _ _ _ bs Hf) as (s2 & Hr & He & Hf2); [cbn; lia|].
    exists s2. split; [|done]. subst out. unfold bind, source, need, ret. cbn [owner_flags].
    change (zlen (@nil Z)) with 0 in Hr. by rewrite Hr.
  - intros s1 Hs1 Hb1. eapply wp_conseq; [apply (never_spec _ (fun _ _ => False)), tot|by intros|]. intros h s' Hh. by rewrite Hh.
  - intros [[] out] s' [Hs' Hr]; cbn [fst snd] in *; [|by destruct Hr].
    split; [done|]. split; [by apply Hiff|done].
Qed.

Lemma string_clone_spec bs a s :
  store_ok s -> zlen bs <= INT64_MAX ->
  wp (string_clone (Some bs) (zlen bs) a)
    (fun r s' => store_ok s' /\
       if r.1 then string_of s bs a s' r.2 else r.2 = empty_string /\ buffers s' = buffers s)
    (fun _ s' => buffers s' = buffers s) s.
Proof.
  intros Hs Hmax. unfold string_clone. destruct (Z.leb_spec (zlen bs) 0).
  { apply wp_ret. split; [done|]. cbn. destruct bs; [done|cbn in *; lia]. }
  apply allocate_and_fill; [done|lia| |].
  - intros p s1 Hn Hs1 Hf out. destruct (copy_filling _ _ _ _ _ _ bs Hf) as (s2 & Hr & He & Hf2); [cbn; lia|].
    exists s2. split; [|done]. subst out. unfold bind, source, need, ret. cbn [owner_flags].
    change (zlen (@nil Z)) with 0 in Hr. by rewrite Hr.
  - intros s1 Hs1 Hb1. apply wp_ret. done.
Qed.

(** A source pointer: the bytes, or a null pointer to none. *)
Definition points_to (data : option bytes) bs : Prop := data = Some bs \/ data = None /\ bs = [].

Lemma copy_source s done_ total a s1 p data bs :
  points_to data bs -> filling s done_ total a s1 p -> zlen done_ + zlen bs <= total ->
  exists s2, (if 0 <? zlen bs then let! d := source data in copy_bytes p (zlen done_) d (zlen bs) else ret tt) s1
      = Ok tt s2 /\ s_env s2 = s_env s1 /\ filling s (done_ ++ bs) total a s2 p.
Proof.
  intros Hd Hf Hroom. destruct (Z.ltb_spec 0 (zlen bs)) as [Hpos|H0].
  - destruct Hd as [->|[_ ->]]; [|cbn in Hpos; lia].
    destruct (copy_filling _ _ _ _ _ _ bs Hf Hroom) as (s2 & Hr & He & Hf2).
    exists s2. unfold bind, source, need, ret. by rewrite Hr.
  - exists s1. assert (bs = []) as -> by (destruct bs; [done|cbn in *; lia]). by rewrite app_nil_r.
Qed.

Lemma string_concat_spec xd xs yd ys a s :
  store_ok s -> points_to xd xs -> points_to yd ys ->
  zlen xs <= INT64_MAX -> zlen ys <= INT64_MAX ->
  wp (string_concat xd (zlen xs) yd (zlen ys) a)
    (fun r s' => store_ok s' /\
       if r.1 then string_of s (xs ++ ys) a s' r.2 /\ zlen xs + zlen ys <= INT64_MAX
       else r.2 = empty_string /\ buffers s' = buffers s)
    (fun _ s' => buffers s' = buffers s) s.
Proof.
  intros Hs Hx Hy Hxm Hym. unfold string_concat.
  destruct (checked_add (zlen xs) (zlen ys)) as [total|] eqn:Hadd; [|by apply wp_ret].
  apply checked_add_Some in Hadd as (_ & _ & -> & Hmax); [|ilia|ilia].
  destruct (Z.eqb_spec (zlen xs + zlen ys) 0) as [Hz|Hz].
  { apply wp_ret. split; [done|]. destruct xs, ys; cbn in *; try lia. done. }
  assert (zlen xs + zlen ys = zlen (xs ++ ys)) as Hlen by (rewrite length_app; lia). rewrite Hlen in *.
  eapply wp_conseq; [eapply (allocate_and_fill (xs ++ ys) a _ _ (fun s' => buffers s' = buffers s));
    [done|lia| |]| |done].
  - intros p s1 Hn Hs1 Hf out.
    destruct (copy_source _ _ _ _ _ _ xd xs Hx Hf) as (s2 & Hr2 & He2 & Hf2); [cbn; lia|].
    destruct (copy_source _ _ _ _ _ _ yd ys Hy Hf2) as (s3 & Hr3 & He3 & Hf3); [cbn; lia|].
    exists s3. cbn [app] in *. subst out. cbn [owner_flags]. change (zlen (@nil Z)) with 0 in Hr2.
    unfold bind at 1. rewrite Hr2. unfold bind at 1. rewrite Hr3. split; [done|]. split; [congruence|done].
  - intros s1 Hs1 Hb1. apply wp_ret. done.
  - intros [[] out] s' [Hs' Hr]; done.
Qed.

(** ** [string_from_runes] *)

Definition runes_ok (rs : list Z) : Prop := Forall (fun r => - 2 ^ 31 <= r < 2 ^ 31) rs.

Lemma encode_all_bound rs : scalars rs -> zlen (encode_all rs) <= 4 * zlen rs.
Proof.
  induction 1 as [|r rs Hr _ IH]; [done|]. rewrite encode_all_cons, length_app.
  pose proof (encode_rune_length r Hr). cbn [length]. lia.
Qed.

Lemma encoded_total_spec rs total :
  runes_ok rs ->
  match encoded_total rs total with
  | Some n => scalars rs /\ n = total + zlen (encode_all rs)
  | None => ~ scalars rs
  end.
Proof.
  intros Hrs. revert total. induction Hrs as [|r rs Hr _ IH]; intros total; cbn [encoded_total].
  { split; [constructor|cbn; lia]. }
  destruct (decide (is_scalar r)) as [Hs|Hs].
  - pose proof (encode_rune_length r Hs). destruct (Z.eqb_spec (zlen (encode_rune r)) 0); [lia|].
    specialize (IH (total + zlen (encode_rune r))). destruct (encoded_total rs _).
    + destruct IH as [Hrs ->]. split; [by constructor|]. rewrite encode_all_cons, length_app. lia.
    + intros [_ ?]%Forall_cons. done.
  - rewrite encode_rune_invalid by done. cbn. intros [? _]%Forall_cons. done.
Qed.

Lemma write_runes_spec rs s done_ total a s1 p :
  scalars rs -> filling s done_ total a s1 p -> zlen done_ + zlen (encode_all rs) <= total ->
  exists s2, write_runes p rs (zlen done_) s1 = Ok tt s2 /\ s_env s2 = s_env s1 /\
    filling s (done_ ++ encode_all rs) total a s2 p.
Proof.
  intros Hrs. revert done_ s1. induction Hrs as [|r rs Hr _ IH]; intros done_ s1 Hf Hroom; cbn [write_runes].
  { exists s1. split; [done|]. split; [done|]. by rewrite app_nil_r. }
  rewrite encode_all_cons, length_app in Hroom.
  destruct (copy_filling _ _ _ _ _ _ (encode_rune r) Hf ltac:(lia)) as (s2 & Hr2 & He2 & Hf2).
  destruct (IH _ _ Hf2) as (s3 & Hr3 & He3 & Hf3); [rewrite length_app; lia|].
  exists s3. unfold bind. rewrite Hr2. rewrite length_app in Hr3.
  rewrite <- Nat2Z.inj_add. rewrite Hr3. split; [done|]. split; [congruence|].
  by rewrite encode_all_cons, app_assoc.
Qed.

Lemma string_from_runes_spec rs a s :
  store_ok s -> runes_ok rs -> zlen rs <= 2 ^ 60 ->
  wp (string_from_runes rs a)
    (fun r s' => store_ok s' /\
       if r.1 then scalars rs /\ string_of s (encode_all rs) a s' r.2
       else ~ scalars rs /\ r.2 = empty_string /\ buffers s' = buffers s)
    (fun _ s' => buffers s' = buffers s) s.
Proof.
  intros Hs Hr Hmax. unfold string_from_runes. pose proof (encoded_total_spec rs 0 Hr) as Ht.
  destruct (encoded_total rs 0) as [total|]; [|by apply wp_ret]. destruct Ht as [Hrs ->].
  rewrite Z.add_0_l. pose proof (encode_all_bound rs Hrs).
  destruct (Z.eqb_spec (zlen (encode_all rs)) 0) as [Hz|Hz].
  { apply wp_ret. split; [done|]. split; [done|]. by destruct (encode_all rs). }
  eapply wp_conseq; [apply (allocate_and_fill (encode_all rs) a _ _ (fun _ => False)); [done|ilia| |]| |done].
  - intros p s1 Hn Hs1 Hf out.
    destruct (write_runes_spec rs _ _ _ _ _ _ Hrs Hf) as (s2 & Hr2 & He2 & Hf2); [cbn; lia|].
    exists s2. split; [|done]. subst out. cbn [owner_flags]. change (zlen (@nil Z)) with 0 in Hr2.
    unfold bind. by rewrite Hr2.
  - intros s1 Hs1 Hb1. eapply wp_conseq; [apply (never_spec _ (fun _ _ => False)), tot|by intros|].
    intros h s' Hh. by rewrite Hh.
  - intros [[] out] s' [Hs' Hr']; cbn [fst snd] in *; [done|by destruct Hr'].
Qed.

(** * Sharing *)

(** How many of the held handles name a buffer. *)
Definition held_count (p : Z) (held : list Z) : nat := length (filter (fun o => header_of o = Some p) held).

(** Every buffer's count is the number of handles on it, and every handle's
    buffer is there. *)
Definition counted s (held : list Z) : Prop :=
  (forall p b, buffers s !! p = Some b -> handles b = Z.of_nat (held_count p held) /\ 0 < handles b) /\
  (forall o p, o ∈ held -> header_of o = Some p -> exists b, buffers s !! p = Some b).

Lemma held_count_cons p o held :
  held_count p (o :: held) = ((if decide (header_of o = Some p) then 1 else 0) + held_count p held)%nat.
Proof. unfold held_count. rewrite filter_cons. by case_decide. Qed.

Lemma held_count_bound p held : Z.of_nat (held_count p held) <= zlen held.
Proof. unfold held_count. pose proof (length_filter (fun o => header_of o = Some p) held). lia. Qed.

Lemma held_count_Permutation p l1 l2 : l1 ≡ₚ l2 -> held_count p l1 = held_count p l2.
Proof. intros Hp. unfold held_count. by rewrite Hp. Qed.

Lemma to_i64_small x : is_i64 x -> to_i64 x = x.
Proof.
  intros Hx. unfold to_i64, wrap64. destruct (Z.ltb_spec x 0).
  - rewrite <- (Z.mod_add x 1) by done. rewrite Z.mod_small by ilia. destruct (Z.ltb_spec (x + 1 * 2 ^ 64) (2 ^ 63)); ilia.
  - rewrite Z.mod_small by ilia. destruct (Z.ltb_spec x (2 ^ 63)); ilia.
Qed.

(** The same while some buffers whose last handle is gone, [pend], are still to
    be freed. *)
Record counting s (held pend : list Z) : Prop := {
  counting_handles : forall p b, buffers s !! p = Some b ->
    handles b = Z.of_nat (held_count p held) /\ (0 < handles b \/ p ∈ pend);
  counting_held : forall o p, o ∈ held -> header_of o = Some p -> exists b, buffers s !! p = Some b;
  counting_pend : forall p, p ∈ pend -> exists b, buffers s !! p = Some b /\ handles b = 0;
  counting_once : NoDup pend;
}.

Lemma counting_nil s held : counting s held [] <-> counted s held.
Proof.
  split.
  - intros [Hc Hh _ _]. split; [|done]. intros p b Hb. destruct (Hc p b Hb) as [? [?|Hp]]; [done|by apply elem_of_nil in Hp].
  - intros [Hc Hh]. split; [| |intros p Hp; by apply elem_of_nil in Hp|constructor]; [|done].
    intros p b Hb. destruct (Hc p b Hb). auto.
Qed.

Lemma counting_perm s held held' pend pend' : held ≡ₚ held' -> pend ≡ₚ pend' -> counting s held pend -> counting s held' pend'.
Proof.
  intros Hh Hp [C1 C2 C3 C4]. split.
  - intros p b Hb. rewrite <- (held_count_Permutation p _ _ Hh), <- Hp. by apply C1.
  - intros o p Ho. apply C2. by rewrite Hh.
  - intros p Hin. apply C3. by rewrite Hp.
  - by rewrite <- Hp.
Qed.

(** No handle names a buffer that waits to be freed. *)
Lemma counting_unheld s held pend o p : counting s held pend -> p ∈ pend -> o ∈ held -> header_of o <> Some p.
Proof.
  intros [C1 _ C3 _] Hp Ho Hh. destruct (C3 p Hp) as (b & Hb & H0). destruct (C1 p b Hb) as [Hn _].
  unfold held_count in Hn. assert (o ∈ filter (fun o => header_of o = Some p) held) as Hf by (by apply list_elem_of_filter).
  destruct (filter _ held); [by apply elem_of_nil in Hf|cbn in Hn; lia].
Qed.

Lemma counting_retain o held pend s :
  counting s held pend -> o ∈ held -> zlen held < INT64_MAX ->
  exists s', string_retain o s = Ok tt s' /\ counting s' (o :: held) pend /\
    (forall p, contents <$> buffers s' !! p = contents <$> buffers s !! p).
Proof.
  intros C Ho Hmax. pose proof C as [C1 C2 C3 C4]. unfold string_retain. destruct (header_of o) as [p|] eqn:Hp.
  2: { exists s. split; [done|]. split; [|done]. split; [| |done|done].
       - intros q b Hb. rewrite held_count_cons, decide_False by congruence. by apply C1.
       - intros o' q [->|Hin]%elem_of_cons Hq; [congruence|eauto]. }
  destruct (C2 o p Ho Hp) as [b Hb]. destruct (C1 p b Hb) as [Hn Hpos].
  assert (p ∉ pend) as Hnp by (intros Hin; by apply (counting_unheld s held pend o p)).
  pose proof (held_count_bound p held). unfold buffer_at, bind, get. rewrite Hb. cbn [need ret].
  eexists. split; [done|]. cbn [buffers]. rewrite to_i64_small by ilia. split; [split|].
  - cbn [buffers]. intros q b'. rewrite held_count_cons. intros [[<- <-]|[Hne Hq]]%lookup_insert_Some.
    + rewrite decide_True by done. cbn. lia.
    + rewrite decide_False by congruence. by apply C1.
  - cbn [buffers]. intros o' q Hin Hq.
    assert (exists b', buffers s !! q = Some b') as [b' Hb'].
    { apply elem_of_cons in Hin as [->|Hin]; [|eauto]. exists b. congruence. }
    destruct (decide (p = q)) as [->|]; [rewrite lookup_insert_eq; eauto|].
    rewrite lookup_insert_ne by done. eauto.
  - cbn [buffers]. intros q Hq. rewrite lookup_insert_ne by congruence. by apply C3.
  - done.
  - intros q. destruct (decide (p = q)) as [->|]; [by rewrite lookup_insert_eq, Hb|by rewrite lookup_insert_ne].
Qed.

(** The decrement: the last handle leaves the buffer to be freed. *)
Lemma counting_release o held rest pend s :
  counting s held pend -> held ≡ₚ o :: rest -> zlen held < INT64_MAX ->
  exists last s', string_release_count o s = Ok last s' /\ counting s' rest (option_list last ++ pend) /\
    s_env s' = s_env s /\ forall q b', buffers s' !! q = Some b' -> exists b, buffers s !! q = Some b /\
      contents b' = contents b /\ block_size b' = block_size b.
Proof.
  intros C Hrest Hmax. apply (counting_perm s _ (o :: rest) pend pend) in C as C'; [|done|done]. rewrite Hrest in Hmax.
  pose proof C' as [C1 C2 C3 C4]. unfold string_release_count. destruct (header_of o) as [p|] eqn:Hp.
  2: { exists None, s. split; [done|]. split; [|split; [done|eauto]]. split; [| |done|done].
       - intros q b Hb. specialize (C1 q b Hb). by rewrite held_count_cons, decide_False in C1 by congruence.
       - intros o' q Hin. apply C2. by right. }
  destruct (C2 o p) as [b Hb]; [by left|done|]. destruct (C1 p b Hb) as [Hn Hpos].
  assert (p ∉ pend) as Hnp by (intros Hin; apply (counting_unheld s (o :: rest) pend o p); [done|done|by left|done]).
  destruct Hpos as [Hpos|Hpos]; [|done]. pose proof (held_count_bound p rest). cbn [length] in Hmax. rewrite held_count_cons, decide_True in Hn by done.
  unfold buffer_at, bind, get. rewrite Hb. cbn [need ret]. eexists _, _. split; [done|]. cbn [buffers s_env].
  assert (handles b - 1 = Z.of_nat (held_count p rest)) as Hn1 by lia. rewrite to_i64_small by ilia. split; [|split; [done|]].
  - split; cbn [buffers].
    + intros q b'. intros [[<- <-]|[Hne Hq]]%lookup_insert_Some.
      * cbn. split; [done|]. destruct (Z.eqb_spec (handles b) 1); [right; apply elem_of_app; left; by left|left; lia].
      * destruct (C1 q b' Hq) as [Hc [Hq0|Hq0]]; rewrite held_count_cons, decide_False in Hc by congruence; (split; [done|]); [by left|].
        right. apply elem_of_app. by right.
    + intros o' q Hin Hq. destruct (decide (p = q)) as [<-|]; [rewrite lookup_insert_eq; eauto|]. rewrite lookup_insert_ne by done.
      apply (C2 o'); [by right|done].
    + intros q [Hq|Hq]%elem_of_app.
      * destruct (Z.eqb_spec (handles b) 1) as [H1|]; [|by apply elem_of_nil in Hq]. apply list_elem_of_singleton in Hq as ->.
        eexists. rewrite lookup_insert_eq. split; [done|]. cbn. lia.
      * rewrite lookup_insert_ne by congruence. by apply C3.
    + destruct (handles b =? 1); [|done]. cbn. by constructor.
  - intros q b'. intros [[<- <-]|[Hne Hq]]%lookup_insert_Some; [by exists b|by exists b'].
Qed.

(** The free of a buffer that waits for it. *)
Lemma counting_free p held rest pend s : counting s held pend -> pend ≡ₚ p :: rest ->
  (forall b, buffers s !! p = Some b -> wp (string_free_buffer p)
    (fun _ s' => buffers s' = delete p (buffers s) /\ counting s' held rest /\
       exists e, api_free (b_allocator b) p (block_size b) HEADER_ALIGN (s_env s) = Ok tt e /\ s_env s' = e)
    (fun _ s' => buffers s' = delete p (buffers s) /\ counting s' held rest) s) /\ is_Some (buffers s !! p).
Proof.
  intros C Hp. apply (counting_perm s held held _ (p :: rest)) in C; [|done|done]. pose proof C as [C1 C2 C3 C4].
  destruct (C3 p) as (b & Hb & H0); [by left|]. split; [|by rewrite Hb]. intros b0 Hb0. rewrite Hb in Hb0. injection Hb0 as <-.
  assert (forall s', buffers s' = delete p (buffers s) -> counting s' held rest) as Hdone.
  { intros s' Hs'. apply NoDup_cons in C4 as [Hnr Hnd]. split; [| | |done].
    - intros q b'. rewrite Hs'. intros [Hne Hq]%lookup_delete_Some. destruct (C1 q b' Hq) as [Hc [?|[Hq'|?]%elem_of_cons]]; auto. congruence.
    - intros o q Ho Hq. rewrite Hs'. rewrite lookup_delete_ne; [by eapply C2|]. intros <-.
      by apply (counting_unheld s held (p :: rest) o p); [|left| |].
    - intros q Hq. rewrite Hs', lookup_delete_ne by congruence. apply C3. by right. }
  unfold string_free_buffer, buffer_at. apply wp_bind, wp_bind, wp_get. rewrite Hb. apply wp_ret, wp_bind, wp_modify.
  pose proof (free_total (b_allocator b) p (block_size b) HEADER_ALIGN (s_env s)) as Hf. unfold wp, outside in *. cbn [s_env].
  destruct (api_free _ _ _ _ (s_env s)) as [[] e|h e| |] eqn:Hrun; [|by split; [|apply Hdone]|done|done].
  split; [done|]. split; [by apply Hdone|by exists e].
Qed.

(** ** Whole retains and releases *)

Lemma string_retain_spec o held s :
  counted s held -> o ∈ held -> zlen held < INT64_MAX ->
  exists s', string_retain o s = Ok tt s' /\ counted s' (o :: held) /\
    (forall p, contents <$> buffers s' !! p = contents <$> buffers s !! p).
Proof.
  intros C%counting_nil Ho Hm. destruct (counting_retain o held [] s C Ho Hm) as (s' & ? & C' & ?).
  exists s'. split; [done|]. split; [by apply counting_nil|done].
Qed.

Lemma string_release_spec o held rest s :
  counted s held -> store_ok s -> held ≡ₚ o :: rest -> zlen held < INT64_MAX ->
  wp (string_release o) (fun _ s' => counted s' rest /\ store_ok s' /\
      forall q b', buffers s' !! q = Some b' -> exists b, buffers s !! q = Some b /\ contents b' = contents b)
    (fun _ s' => counted s' rest) s.
Proof.
  intros C%counting_nil Hs Hrest Hm. unfold string_release.
  destruct (counting_release o held rest [] s C Hrest Hm) as (last & s1 & Hr & C1 & He & Hk).
  assert (store_ok s1) as Hs1.
  { intros q b' Hb'. destruct (Hk q b' Hb') as (b & Hb & _ & Hz). rewrite He, Hz. by apply (Hs q b). }
  apply wp_bind. unfold wp at 1. rewrite Hr. destruct last as [p|]; cbn [option_list app] in C1.
  2: { apply wp_ret. split; [by apply counting_nil|]. split; [done|]. intros q b' Hb'. destruct (Hk q b' Hb') as (b & ? & ? & _). by exists b. }
  destruct (counting_free p rest [] [p] s1 C1) as [Hf [b Hb]]; [done|].
  eapply wp_conseq; [by apply Hf| |intros h s2 [_ C2]; by apply counting_nil].
  intros _ s2 (Hb2 & C2 & e & Hrun & He2). split; [by apply counting_nil|]. rewrite Hb2. split.
  - intros q b'. rewrite Hb2. intros [Hne Hq]%lookup_delete_Some. destruct (Hs1 q b' Hq) as (Hl & ? & ?). split; [|done].
    rewrite He2. eapply free_keeps; [exact Hrun|exact Hl|congruence].
  - intros q b' [Hne Hq]%lookup_delete_Some. destruct (Hk q b' Hq) as (b0 & ? & ? & _). by exists b0.
Qed.

End spec.
