(* ===== verification/StringShare.v ===== *)
(** Threads that share strings: retains, decrements and frees of any number of
    them interleave, and a buffer waits between its last decrement and its
    free. *)
From S2P Require Import Prelude Checked Interfaces Utf8 Utf8Codec Strings StringsSpec.

Section share.
Context {E : Type} {api : AllocApi E} {tot : AllocTotal E}.
Implicit Types (s : sstate E) (held pend : list Z).

(** The buffers, the handles that threads hold, and the buffers some thread is
    about to free. *)
Record sharing := Sharing { sh_store : sstate E; sh_held : list Z; sh_pend : list Z }.

(** A thread retains a handle it holds, gives one up, frees the buffer it took
    the last handle of, or makes a string. *)
Inductive share_step : sharing -> sharing -> Prop :=
| share_retain o s held pend s' :
    o ∈ held -> zlen held + 1 < INT64_MAX -> string_retain o s = Ok tt s' ->
    share_step (Sharing s held pend) (Sharing s' (o :: held) pend)
| share_count o s held rest pend last s' :
    held ≡ₚ o :: rest -> string_release_count o s = Ok last s' ->
    share_step (Sharing s held pend) (Sharing s' rest (option_list last ++ pend))
| share_free p s held pend rest s' :
    pend ≡ₚ p :: rest -> string_free_buffer p s = Ok tt s' ->
    share_step (Sharing s held pend) (Sharing s' held rest)
| share_make bs a out s held pend s' :
    zlen held + 1 < INT64_MAX -> made s bs a s' out ->
    share_step (Sharing s held pend) (Sharing s' (owner_flags out :: held) pend).

Definition sound (t : sharing) : Prop := counting (sh_store t) (sh_held t) (sh_pend t) /\ zlen (sh_held t) < INT64_MAX.

Lemma counting_make bs a out s held pend s' : counting s held pend -> made s bs a s' out ->
  counting s' (owner_flags out :: held) pend.
Proof.
  intros [C1 C2 C3 C4] (Hn & Hh & _ & Hb). set (p := owner_flags out) in *.
  assert (held_count p held = 0%nat) as H0.
  { unfold held_count. destruct (filter _ held) as [|o l] eqn:Hf; [done|]. exfalso.
    assert (o ∈ filter (fun o => header_of o = Some p) held) as Hin by (rewrite Hf; by left).
    apply list_elem_of_filter in Hin as [Hop Hin]. destruct (C2 o p Hin Hop). congruence. }
  split; [| | |done].
  - intros q b. rewrite Hb, held_count_cons. intros [[<- <-]|[Hne Hq]]%lookup_insert_Some.
    + rewrite decide_True, H0 by done. cbn. split; [done|]. left. lia.
    + rewrite decide_False by congruence. by apply C1.
  - intros o q Hin Hq. rewrite Hb. destruct (decide (p = q)) as [->|Hne]; [rewrite lookup_insert_eq; eauto|].
    rewrite lookup_insert_ne by done. apply elem_of_cons in Hin as [->|Hin]; [congruence|eauto].
  - intros q Hq. destruct (C3 q Hq) as (b & Hbq & Hz). exists b. rewrite Hb, lookup_insert_ne by congruence. done.
Qed.

Lemma share_step_sound t t' : share_step t t' -> sound t -> sound t'.
Proof.
  intros Hstep [C Hm]. destruct Hstep as [o s held pend s' Ho Hr Hrun|o s held rest pend last s' Hp Hrun|p s held pend rest s' Hp Hrun|
    bs a out s held pend s' Hr Hmade]; cbn [sh_store sh_held sh_pend] in *; unfold sound;
    cbn [sh_store sh_held sh_pend].
  - destruct (counting_retain o held pend s C Ho Hm) as (s1 & Hs1 & C' & _). rewrite Hrun in Hs1. injection Hs1 as <-.
    split; [done|]. cbn [length]. lia.
  - destruct (counting_release o held rest pend s C Hp Hm) as (last1 & s1 & Hs1 & C' & _). rewrite Hrun in Hs1. injection Hs1 as <- <-.
    split; [done|]. apply Permutation_length in Hp. cbn [length] in Hp. lia.
  - destruct (counting_free p held rest pend s C Hp) as [Hf [b Hb]]. specialize (Hf b Hb). unfold wp in Hf. rewrite Hrun in Hf.
    split; [apply Hf|done].
  - split; [by eapply counting_make|]. cbn [length]. lia.
Qed.

Lemma share_run_sound t t' : rtc share_step t t' -> sound t -> sound t'.
Proof. induction 1; [done|]. intros Ht. eauto using share_step_sound. Qed.

(** What is sound can go on: no operation a thread may perform next reaches a
    header that is not there. *)
Lemma sound_next t : sound t ->
  (forall o, o ∈ sh_held t ->
     wp (string_retain o) (fun _ _ => True) (fun _ _ => False) (sh_store t) /\
     wp (string_release_count o) (fun _ _ => True) (fun _ _ => False) (sh_store t)) /\
  (forall p, p ∈ sh_pend t -> wp (string_free_buffer p) (fun _ _ => True) (fun _ _ => True) (sh_store t)).
Proof.
  destruct t as [s held pend]. intros [C Hm]. cbn [sh_store sh_held sh_pend] in *. split.
  - intros o Ho. split.
    + destruct (counting_retain o held pend s C Ho Hm) as (s1 & Hs1 & _). unfold wp. by rewrite Hs1.
    + apply elem_of_Permutation in Ho as [rest Hp]. destruct (counting_release o held rest pend s C Hp Hm) as (l & s1 & Hs1 & _).
      unfold wp. by rewrite Hs1.
  - intros p Hp. apply elem_of_Permutation in Hp as [rest Hp]. destruct (counting_free p held rest pend s C Hp) as [Hf [b Hb]].
    eapply wp_conseq; [by apply Hf|done|done].
Qed.

Lemma sound_present t p : sound t -> is_Some (buffers (sh_store t) !! p) <->
  (exists o, o ∈ sh_held t /\ header_of o = Some p) \/ p ∈ sh_pend t.
Proof.
  destruct t as [s held pend]. intros [[C1 C2 C3 C4] Hm]. cbn [sh_store sh_held sh_pend] in *. split.
  - intros [b Hb]. destruct (C1 p b Hb) as [Hn [Hpos|?]]; [left|by right]. rewrite Hn in Hpos. unfold held_count in Hpos.
    destruct (filter (fun o => header_of o = Some p) held) as [|o l] eqn:Hf; [cbn in Hpos; lia|].
    assert (o ∈ filter (fun o => header_of o = Some p) held) as Hin by (rewrite Hf; by left).
    apply list_elem_of_filter in Hin as [? ?]. eauto.
  - intros [(o & Ho & Hp)|Hp]; [destruct (C2 o p Ho Hp) as [b ->]|destruct (C3 p Hp) as (b & -> & _)]; eauto.
Qed.
End share.
Arguments sharing : clear implicits.
