(* ===== verification/StringProgram.v ===== *)
(** Programs over strings: variables that hold literals or runtime strings, and
    the operations compiled code performs on them. [.copy()] and concatenation
    do not validate again: that every value a variable can hold is valid UTF-8 is
    what this file proves, as typing of the state that each operation keeps. *)
From S2P Require Import Prelude Checked Interfaces Utf8 Utf8Codec Strings StringsSpec.

(** A literal in the program's image, which no one frees, or a string the
    runtime made. *)
Inductive value := Static (bs : bytes) | Made (v : rt_string).

Definition owner_of (v : value) : Z := match v with Static _ => LOKE_RT_STRING_STATIC | Made v => owner_flags v end.
Definition len_of (v : value) : Z := match v with Static bs => zlen bs | Made v => byte_len v end.

Inductive string_op :=
| Literal (bs : bytes)
| FromBytes (data : bytes) (a : handle)
| FromRunes (runes : list Z) (a : handle)
| Copy (i : nat) (a : handle)
| Concat (i j : nat) (a : handle)
| Share (i : nat)
| Drop (i : nat).

Section program.
Context {E : Type} {api : AllocApi E}.

(** What a source pointer points at: the bytes behind the header, all of them
    written. *)
Definition data_of (v : value) : M (sstate E) (option bytes) :=
  match v with
  | Static bs => ret (Some bs)
  | Made v =>
      if s_data v =? 0 then ret None
      else
        let! p := need (header_of (owner_flags v)) in
        let! b := buffer_at p in
        let! bs := need (mapM id (take (Z.to_nat (byte_len v)) (drop (Z.to_nat (s_data v - p - sizeof_string_header)) (contents b)))) in
        ret (Some bs)
  end.

(** What a constructor answered becomes a variable; a refusal leaves none. *)
Definition declare (vars : list value) (m : M (sstate E) (bool * rt_string)) : M (sstate E) (list value) :=
  let! r := m in ret (if (r.1 : bool) then vars ++ [Made r.2] else vars).

(** One operation on the variables; one that is not there is not a program's. *)
Definition exec (op : string_op) (vars : list value) : M (sstate E) (list value) :=
  match op with
  | Literal bs => ret (vars ++ [Static bs])
  | FromBytes data a => declare vars (string_from_bytes (Some data) (zlen data) a)
  | FromRunes runes a => declare vars (string_from_runes runes a)
  | Copy i a =>
      match vars !! i with
      | None => ret vars
      | Some v => let! data := data_of v in declare vars (string_clone data (len_of v) a)
      end
  | Concat i j a =>
      match vars !! i, vars !! j with
      | Some v, Some w =>
          let! x := data_of v in let! y := data_of w in declare vars (string_concat x (len_of v) y (len_of w) a)
      | _, _ => ret vars
      end
  | Share i =>
      match vars !! i with
      | None => ret vars
      | Some v => string_retain (owner_of v) ;;; ret (vars ++ [v])
      end
  | Drop i =>
      match vars !! i with
      | None => ret vars
      | Some v => string_release (owner_of v) ;;; ret (delete i vars)
      end
  end.

Fixpoint exec_all (ops : list string_op) (vars : list value) : M (sstate E) (list value) :=
  match ops with
  | [] => ret vars
  | op :: ops => let! vars := exec op vars in exec_all ops vars
  end.
End program.

(** * Texts *)

Definition is_text (bs : bytes) : Prop := exists rs, scalars rs /\ bs = encode_all rs.

Lemma is_text_app xs ys : is_text xs -> is_text ys -> is_text (xs ++ ys).
Proof.
  intros (r1 & H1 & ->) (r2 & H2 & ->). exists (r1 ++ r2). split; [by apply Forall_app|]. unfold encode_all. by rewrite bind_app.
Qed.

Lemma delete_outside (texts : list bytes) i : texts !! i = None -> delete i texts = texts.
Proof. revert i. induction texts as [|x texts IH]; intros [|i] H; [done..|]. cbn. f_equal. by apply IH. Qed.

(** What an operation does to the texts the variables stand for. *)
Definition means (op : string_op) (texts texts' : list bytes) : Prop :=
  match op with
  | Literal bs => texts' = texts ++ [bs]
  | FromBytes data _ => (is_text data /\ texts' = texts ++ [data]) \/ (~ is_text data /\ texts' = texts)
  | FromRunes runes _ => (scalars runes /\ texts' = texts ++ [encode_all runes]) \/ (~ scalars runes /\ texts' = texts)
  | Copy i _ => (exists x, texts !! i = Some x /\ texts' = texts ++ [x]) \/ texts' = texts
  | Concat i j _ => (exists x y, texts !! i = Some x /\ texts !! j = Some y /\ texts' = texts ++ [x ++ y]) \/ texts' = texts
  | Share i => match texts !! i with Some x => texts' = texts ++ [x] | None => texts' = texts end
  | Drop i => texts' = delete i texts
  end.

Fixpoint means_all (ops : list string_op) (texts texts' : list bytes) : Prop :=
  match ops with
  | [] => texts' = texts
  | op :: ops => exists mid, means op texts mid /\ means_all ops mid texts'
  end.

(** Literals are the compiler's; bytes and runes are anyone's. *)
Definition op_ok (op : string_op) : Prop :=
  match op with
  | Literal bs => is_text bs /\ zlen bs <= INT64_MAX
  | FromBytes data _ => Forall is_byte data /\ zlen data + 4 <= INT64_MAX
  | FromRunes runes _ => runes_ok runes /\ zlen runes <= 2 ^ 60
  | _ => True
  end.

Section typing.
Context {E : Type} {api : AllocApi E} {tot : AllocTotal E} {fresh : AllocFresh E}.
Implicit Types (s : sstate E) (bs : bytes) (v : value) (vars : list value) (texts : list bytes).

(** [v] stands for the text [bs]. *)
Definition stands s v bs : Prop :=
  match v with
  | Static l => l = bs
  | Made v =>
      match bs with
      | [] => v = empty_string
      | _ => exists p b, v = RtString (p + sizeof_string_header) (zlen bs) p /\ header_of p = Some p /\
          buffers s !! p = Some b /\ contents b = (Some <$> bs) ++ [Some 0]
      end
  end.

Definition good_text bs : Prop := is_text bs /\ zlen bs <= INT64_MAX.

(** The state's type: the texts the variables stand for. *)
Record typed s vars texts : Prop := {
  typed_store : store_ok s;
  typed_counted : counted s (owner_of <$> vars);
  typed_values : Forall2 (stands s) vars texts;
  typed_texts : Forall good_text texts;
}.

Lemma stands_keep s s' v bs :
  (forall p b, header_of (owner_of v) = Some p -> buffers s !! p = Some b -> contents <$> buffers s' !! p = Some (contents b)) ->
  stands s v bs -> stands s' v bs.
Proof.
  intros Hk Hs. destruct v as [l|v]; [done|]. destruct bs as [|c bs]; [done|]. destruct Hs as (p & b & -> & Hh & Hb & Hc).
  specialize (Hk p b Hh Hb). destruct (buffers s' !! p) as [b'|] eqn:Hb'; [|done]. injection Hk as Hk.
  exists p, b'. split_and!; [done..|congruence].
Qed.

Lemma stands_keep_all s s' vars texts :
  (forall v p b, v ∈ vars -> header_of (owner_of v) = Some p -> buffers s !! p = Some b -> contents <$> buffers s' !! p = Some (contents b)) ->
  Forall2 (stands s) vars texts -> Forall2 (stands s') vars texts.
Proof.
  intros Hk Hv. induction Hv as [|v bs vars texts Hv _ IH]; constructor.
  - eapply stands_keep, Hv. intros p b. apply Hk. by left.
  - apply IH. intros w p b Hw. apply Hk. by right.
Qed.

Lemma counted_perm s held held' : held ≡ₚ held' -> counted s held -> counted s held'.
Proof.
  intros Hp [Hc Hh]. split.
  - intros p b Hb. rewrite <- (held_count_Permutation p _ _ Hp). by apply Hc.
  - intros o p Ho. apply Hh. by rewrite Hp.
Qed.

(** ** Reading a variable *)

Lemma mapM_written bs : mapM id (Some <$> bs) = Some bs.
Proof. induction bs as [|c bs IH]; [done|]. cbn. by rewrite IH. Qed.

Lemma data_of_spec s v bs : store_ok s -> stands s v bs ->
  exists data, data_of v s = Ok data s /\ points_to data bs /\ len_of v = zlen bs.
Proof.
  intros Hst Hs. destruct v as [l|v]; [exists (Some bs); by rewrite <- Hs; repeat split; left|].
  destruct bs as [|c bs]; [rewrite Hs; exists None; split_and!; [done|by right|done]|].
  destruct Hs as (p & b & -> & Hh & Hb & Hc). destruct (Hst p b Hb) as (_ & _ & Hp). exists (Some (c :: bs)).
  split; [|by split; [left|]]. cbn [data_of s_data owner_flags byte_len]. unfold sizeof_string_header.
  destruct (Z.eqb_spec (p + 24) 0); [lia|]. rewrite Hh. unfold buffer_at, bind, get. cbn [need ret]. rewrite Hb. cbn [need ret].
  replace (p + 24 - p - 24) with 0 by lia. change (Z.to_nat 0) with 0%nat. rewrite drop_0, Hc, Nat2Z.id.
  rewrite take_app_length' by (by rewrite length_fmap). by rewrite mapM_written.
Qed.

Lemma string_clone_points data bs a s : store_ok s -> points_to data bs -> zlen bs <= INT64_MAX ->
  wp (string_clone data (zlen bs) a)
    (fun r s' => store_ok s' /\ if r.1 then string_of s bs a s' r.2 else r.2 = empty_string /\ buffers s' = buffers s)
    (fun _ s' => buffers s' = buffers s) s.
Proof. intros Hs [->|[-> ->]] Hl; [by apply string_clone_spec|by apply wp_ret]. Qed.

(** ** A new variable *)

Lemma typed_same s s' vars texts : buffers s' = buffers s -> store_ok s' -> typed s vars texts -> typed s' vars texts.
Proof.
  intros Hb Hs [_ Hc Hv Ht]. split; [done| | |done].
  - destruct Hc as [Hc Hh]. split; intros; [apply Hc; congruence|]. rewrite Hb. eauto.
  - eapply stands_keep_all, Hv. intros v p b _ _ Hp. by rewrite Hb, Hp.
Qed.

(** A value that names no buffer of the runtime's. *)
Lemma typed_push_plain s vars texts v bs : header_of (owner_of v) = None -> stands s v bs -> good_text bs ->
  typed s vars texts -> typed s (vars ++ [v]) (texts ++ [bs]).
Proof.
  intros Hn Hv Hb [Hs Hc Hvs Ht]. split; [done| |apply Forall2_app; [done|by constructor]|apply Forall_app_2; [done|by constructor]].
  rewrite fmap_app. apply (counted_perm _ (owner_of v :: (owner_of <$> vars))); [by rewrite Permutation_app_comm|].
  destruct Hc as [Hc Hh]. split.
  - intros p b Hp. rewrite held_count_cons, decide_False by congruence. by apply Hc.
  - intros o p [->|Ho]%elem_of_cons Hp; [congruence|eauto].
Qed.

Lemma typed_push_made s s' vars texts bs a out : good_text bs -> store_ok s' -> string_of s bs a s' out ->
  typed s vars texts -> typed s' (vars ++ [Made out]) (texts ++ [bs]).
Proof.
  intros Hb Hs' Ho Hty. destruct (decide (bs = [])) as [->|Hne].
  { destruct Ho as [-> Heq]. by apply typed_push_plain; [| | |eapply typed_same]. }
  assert (made s bs a s' out) as (Hn & Hh & Hout & Hbuf) by (by destruct bs). set (p := owner_flags out) in *.
  destruct Hty as [Hs [Hc Hheld] Hvs Ht]. assert (forall o, o ∈ owner_of <$> vars -> header_of o <> Some p) as Hfresh.
  { intros o Hin Hop. destruct (Hheld o p Hin Hop) as [b Hb']. congruence. }
  assert (held_count p (owner_of <$> vars) = 0%nat) as H0.
  { unfold held_count. destruct (filter _ (owner_of <$> vars)) as [|o l] eqn:Hf; [done|]. exfalso.
    assert (o ∈ filter (fun o => header_of o = Some p) (owner_of <$> vars)) as Hin by (rewrite Hf; by left).
    apply list_elem_of_filter in Hin as [Hop Hin]. by apply (Hfresh o). }
  split; [done| | |apply Forall_app_2; [done|by constructor]].
  - rewrite fmap_app. apply (counted_perm _ (p :: (owner_of <$> vars))); [by rewrite Permutation_app_comm|]. split.
    + intros q b. rewrite Hbuf, held_count_cons. intros [[<- <-]|[Hne' Hq]]%lookup_insert_Some.
      * rewrite decide_True by done. rewrite H0. cbn. lia.
      * rewrite decide_False by congruence. by apply Hc.
    + intros o q Hin Hoq. rewrite Hbuf. destruct (decide (p = q)) as [->|Hne']; [rewrite lookup_insert_eq; eauto|].
      rewrite lookup_insert_ne by done. apply elem_of_cons in Hin as [->|Hin]; [congruence|eauto].
  - apply Forall2_app.
    + eapply stands_keep_all, Hvs. intros v q b _ _ Hq. rewrite Hbuf, lookup_insert_ne by congruence. by rewrite Hq.
    + constructor; [|done]. destruct bs as [|c bs]; [done|]. cbn [stands]. exists p. eexists. split; [done|]. split; [done|].
      rewrite Hbuf, lookup_insert_eq. by split.
Qed.

Lemma declare_spec s vars texts m bs a (R : list bytes -> Prop) : typed s vars texts ->
  wp m (fun r s' => store_ok s' /\ if (r.1 : bool) then good_text bs /\ R (texts ++ [bs]) /\ string_of s bs a s' r.2
        else R texts /\ buffers s' = buffers s) (fun _ _ => True) s ->
  wp (declare vars m) (fun vars' s' => exists texts', R texts' /\ typed s' vars' texts') (fun _ _ => True) s.
Proof.
  intros Hty Hm. unfold declare. apply wp_bind. eapply wp_conseq; [exact Hm| |done].
  intros [[] out] s' [Hs' Hr]; cbn [fst snd] in *; apply wp_ret.
  - destruct Hr as (Hg & HR & Ho). exists (texts ++ [bs]). split; [done|]. by eapply typed_push_made.
  - destruct Hr as [HR Hb]. exists texts. split; [done|]. by eapply typed_same.
Qed.

(** ** Sharing and dropping *)

Lemma typed_share s vars texts i v bs : typed s vars texts -> vars !! i = Some v -> texts !! i = Some bs -> zlen vars < INT64_MAX ->
  exists s', string_retain (owner_of v) s = Ok tt s' /\ typed s' (vars ++ [v]) (texts ++ [bs]).
Proof.
  intros [Hs Hc Hvs Ht] Hv Hb Hmax.
  destruct (string_retain_spec (owner_of v) (owner_of <$> vars) s Hc) as (s' & Hr & Hc' & Hk).
  { apply list_elem_of_fmap. exists v. split; [done|]. by eapply list_elem_of_lookup_2. }
  { by rewrite length_fmap. }
  exists s'. split; [done|].
  assert (forall w ws, stands s w ws -> stands s' w ws) as Hst.
  { intros w ws. apply stands_keep. intros p b _ Hp. by rewrite Hk, Hp. }
  split.
  - unfold string_retain, buffer_at, bind, get, set_buffer in Hr. destruct (header_of (owner_of v)) as [p|] eqn:Hp; [|by injection Hr as <-].
    destruct (buffers s !! p) as [b|] eqn:Hbp; [|done]. cbn in Hr. injection Hr as <-. intros q b'. cbn [buffers s_env].
    intros [[<- <-]|[_ Hq]]%lookup_insert_Some; [by apply (Hs p b)|by apply Hs].
  - rewrite fmap_app. eapply counted_perm, Hc'. by rewrite Permutation_app_comm.
  - apply Forall2_app; [by eapply Forall2_impl|]. constructor; [|done]. by eapply Hst, Forall2_lookup_lr.
  - apply Forall_app. split; [done|]. constructor; [|done]. by eapply Forall_lookup_1.
Qed.

Lemma typed_drop s vars texts i v : typed s vars texts -> vars !! i = Some v -> zlen vars < INT64_MAX ->
  wp (string_release (owner_of v)) (fun _ s' => typed s' (delete i vars) (delete i texts)) (fun _ _ => True) s.
Proof.
  intros [Hs Hc Hvs Ht] Hv Hmax. assert (owner_of <$> vars ≡ₚ owner_of v :: (owner_of <$> delete i vars)) as Hp.
  { rewrite <- fmap_cons. apply Permutation_map. by apply delete_Permutation. }
  eapply wp_conseq; [apply (string_release_spec (owner_of v) _ _ s Hc Hs Hp); by rewrite length_fmap| |done].
  intros u s' (Hc' & Hs' & Hk).
  split; [done|done| |].
  - eapply (stands_keep_all s).
    + intros w p b Hw' Hh Hb. destruct (proj2 Hc' (owner_of w) p) as [b' Hb']; [by apply list_elem_of_fmap_2|done|].
      rewrite Hb'. cbn. f_equal. destruct (Hk p b' Hb') as (b0 & Hb0 & ->). congruence.
    + by apply Forall2_delete.
  - by apply Forall_delete.
Qed.

(** ** Operations *)

Lemma data_of_var s vars texts i v : typed s vars texts -> vars !! i = Some v ->
  exists bs data, texts !! i = Some bs /\ good_text bs /\ data_of v s = Ok data s /\ points_to data bs /\ len_of v = zlen bs.
Proof.
  intros [Hs _ Hvs Ht] Hv. destruct (Forall2_lookup_l _ _ _ _ _ Hvs Hv) as (bs & Hb & Hst).
  destruct (data_of_spec s v bs Hs Hst) as (data & ? & ? & ?). exists bs, data. split_and!; try done. by eapply Forall_lookup_1.
Qed.

Lemma exec_spec op s vars texts : typed s vars texts -> op_ok op -> zlen vars < INT64_MAX ->
  wp (exec op vars) (fun vars' s' => exists texts', means op texts texts' /\ typed s' vars' texts') (fun _ _ => True) s.
Proof.
  intros Hty Hop Hmax. pose proof (typed_store _ _ _ Hty) as Hs. pose proof (Forall2_length _ _ _ (typed_values _ _ _ Hty)) as Hlen.
  assert (forall i, vars !! i = None -> texts !! i = None) as Hnone.
  { intros i. rewrite !lookup_ge_None. lia. }
  destruct op as [bs|data a|runes a|i a|i j a|i|i]; cbn [exec means op_ok] in *.
  - apply wp_ret. exists (texts ++ [bs]). split; [done|]. by apply typed_push_plain.
  - destruct Hop as [Hb Hl]. apply (declare_spec s vars texts _ data a); [done|].
    eapply wp_conseq; [by apply string_from_bytes_spec| |done]. intros [[] out] s' [Hs' Hr]; cbn [fst snd] in *.
    + destruct Hr as [Ht Ho]. split; [done|]. split; [split; [done|lia]|]. split; [by left|done].
    + destruct Hr as (Ht & _ & Hbf). split; [done|]. split; [by right|done].
  - destruct Hop as [Hr0 Hl]. apply (declare_spec s vars texts _ (encode_all runes) a); [done|].
    eapply wp_conseq; [by apply string_from_runes_spec| |done]. intros [[] out] s' [Hs' Hr]; cbn [fst snd] in *.
    + destruct Hr as [Ht Ho]. pose proof (encode_all_bound runes Ht). split; [done|].
      split; [split; [by exists runes|ilia]|]. split; [by left|done].
    + destruct Hr as (Ht & _ & Hbf). split; [done|]. split; [by right|done].
  - destruct (vars !! i) as [v|] eqn:Hv; [|apply wp_ret; exists texts; split; [by right|done]].
    destruct (data_of_var s vars texts i v Hty Hv) as (bs & data & Hb & Hg & Hd & Hp & Hl).
    apply wp_bind. unfold wp at 1. rewrite Hd, Hl. apply (declare_spec s vars texts _ bs a); [done|].
    eapply wp_conseq; [by apply string_clone_points; [| |apply Hg]| |done]. intros [[] out] s' [Hs' Hr]; cbn [fst snd] in *.
    + split; [done|]. split; [done|]. split; [left; by exists bs|done].
    + split; [done|]. split; [by right|]. by destruct Hr.
  - destruct (vars !! i) as [v|] eqn:Hv; [|apply wp_ret; exists texts; split; [by right|done]].
    destruct (vars !! j) as [w|] eqn:Hw; [|apply wp_ret; exists texts; split; [by right|done]].
    destruct (data_of_var s vars texts i v Hty Hv) as (xs & xd & Hx & Hgx & Hdx & Hpx & Hlx).
    destruct (data_of_var s vars texts j w Hty Hw) as (ys & yd & Hy & Hgy & Hdy & Hpy & Hly).
    apply wp_bind. unfold wp at 1. rewrite Hdx. apply wp_bind. unfold wp at 1. rewrite Hdy, Hlx, Hly.
    apply (declare_spec s vars texts _ (xs ++ ys) a); [done|].
    eapply wp_conseq; [by apply string_concat_spec; [| | |apply Hgx|apply Hgy]| |done]. intros [[] out] s' [Hs' Hr]; cbn [fst snd] in *.
    + destruct Hr as [Ho Hsum]. split; [done|]. split; [split; [by apply is_text_app; [apply Hgx|apply Hgy]|rewrite length_app; lia]|].
      split; [left; by exists xs, ys|done].
    + split; [done|]. split; [by right|]. by destruct Hr.
  - destruct (vars !! i) as [v|] eqn:Hv; [|apply wp_ret; exists texts; by rewrite (Hnone i Hv)].
    destruct (data_of_var s vars texts i v Hty Hv) as (bs & data & Hb & _).
    destruct (typed_share s vars texts i v bs Hty Hv Hb Hmax) as (s' & Hr & Hty').
    apply wp_bind. unfold wp at 1. rewrite Hr. apply wp_ret. exists (texts ++ [bs]). by rewrite Hb.
  - destruct (vars !! i) as [v|] eqn:Hv.
    + apply wp_bind. eapply wp_conseq; [by eapply typed_drop| |done]. intros u s' Hty'. apply wp_ret. by eexists.
    + apply wp_ret. exists texts. split; [|done]. by rewrite (delete_outside texts i (Hnone i Hv)).
Qed.

Lemma means_length op texts texts' : means op texts texts' -> (length texts' <= S (length texts))%nat.
Proof.
  destruct op as [bs|data a|runes a|i a|i j a|i|i]; cbn [means]; intros H.
  - subst. rewrite length_app. cbn. lia.
  - destruct H as [[_ ->]|[_ ->]]; [rewrite length_app; cbn|]; lia.
  - destruct H as [[_ ->]|[_ ->]]; [rewrite length_app; cbn|]; lia.
  - destruct H as [(x & _ & ->)| ->]; [rewrite length_app; cbn|]; lia.
  - destruct H as [(x & y & _ & _ & ->)| ->]; [rewrite length_app; cbn|]; lia.
  - destruct (texts !! i); subst; [rewrite length_app; cbn|]; lia.
  - subst. destruct (texts !! i) eqn:Hi; [rewrite length_delete by done|rewrite delete_outside by done]; lia.
Qed.

Lemma exec_all_spec ops s vars texts : typed s vars texts -> Forall op_ok ops -> zlen vars + zlen ops < INT64_MAX ->
  wp (exec_all ops vars) (fun vars' s' => exists texts', means_all ops texts texts' /\ typed s' vars' texts') (fun _ _ => True) s.
Proof.
  revert s vars texts. induction ops as [|op ops IH]; intros s vars texts Hty Hok Hmax; cbn [exec_all means_all].
  { apply wp_ret. by exists texts. }
  apply Forall_cons in Hok as [Hop Hok]. cbn [length] in Hmax. apply wp_bind.
  eapply wp_conseq; [eapply exec_spec; [done|done|lia]| |done]. intros vars' s' (mid & Hm & Hty').
  eapply wp_conseq; [apply IH; [done|done|]| |done].
  - pose proof (means_length op texts mid Hm). pose proof (Forall2_length _ _ _ (typed_values _ _ _ Hty)).
    pose proof (Forall2_length _ _ _ (typed_values _ _ _ Hty')). lia.
  - intros vars2 s2 (texts2 & Hm2 & Hty2). exists texts2. split; [by exists mid|done].
Qed.

Lemma typed_start s : store_ok s -> buffers s = ∅ -> typed s [] [].
Proof.
  intros Hs Hb. split; [done| |constructor|constructor]. split.
  - intros p b. by rewrite Hb, lookup_empty.
  - intros o p Ho. by apply elem_of_nil in Ho.
Qed.

(** Without variables, no buffer is left. *)
Lemma typed_end s texts : typed s [] texts -> buffers s = ∅.
Proof.
  intros [_ [Hc _] _ _]. apply map_eq. intros p. rewrite lookup_empty. destruct (buffers s !! p) as [b|] eqn:Hb; [|done].
  destruct (Hc p b Hb) as [Hn Hpos]. cbn in Hn. lia.
Qed.
End typing.
