(* ===== verification/Args.v ===== *)
(** Process arguments ([runtime/args.c]): the UTF-16 vector of [wmain] made
    into cached UTF-8, its getters, and the choice of a test. *)
From S2P Require Import Prelude Utf8 Utf8Codec.

(** * Definitions *)

(** [while (wide[units] != 0)]: [None] where no terminator is reached. *)
Fixpoint count_units (wide : list Z) : option Z :=
  match wide with
  | [] => None
  | u :: wide => if u =? 0 then Some 0 else n ← count_units wide; Some (n + 1)
  end.

Definition is_high (u : Z) : bool := (0xD800 <=? u) && (u <=? 0xDBFF).
Definition is_low (u : Z) : bool := (0xDC00 <=? u) && (u <=? 0xDFFF).

(** One turn of the conversion loop: the code point at [at] and the next
    [at]. *)
Definition next_code_point (wide : list Z) (units at_ : Z) : option (Z * Z) :=
  u ← at_index wide at_;
  let next := at_ + 1 in
  if is_high u then
    if next <? units then
      lo ← at_index wide next;
      if is_low lo
      then Some (wrap32 (0x10000 + wrap32 (Z.shiftl (u - 0xD800) 10) + (lo - 0xDC00)), next + 1)
      else Some (0xFFFD, next)
    else Some (0xFFFD, next)
  else if is_low u then Some (0xFFFD, next)
  else Some (u, next).

(** The loop of [to_utf8], into a block of [capacity] bytes: writing past it
    is undefined behaviour. *)
Fixpoint convert (fuel : nat) (wide : list Z) (units capacity at_ : Z) (out : bytes) : option bytes :=
  if at_ <? units then
    match fuel with
    | O => None
    | S fuel =>
        '(code_point, next) ← next_code_point wide units at_;
        let enc := encode_rune code_point in
        if capacity <? zlen out + zlen enc then None
        else convert fuel wide units capacity next (out ++ enc)
    end
  else if zlen out <? capacity then Some (out ++ [0]) else None.

Section Args.
(** [malloc] and [_setmode] are the C library's, [E] what they change. *)
Context {E : Type} (malloc : Z -> M E bool) (set_binary : M E unit).

Record args_state := ArgsState {
  arg_count : Z;
  arg_values : list bytes;
  std_err : bytes;
  a_env : E;
}.

Definition lib {A} (m : M E A) : M args_state A := fun s =>
  match m (a_env s) with
  | Ok a e => Ok a (ArgsState (arg_count s) (arg_values s) (std_err s) e)
  | Stop h e => Stop h (ArgsState (arg_count s) (arg_values s) (std_err s) e)
  | Undefined => Undefined
  | NoFuel => NoFuel
  end.

Definition to_utf8 (wide : list Z) : M args_state bytes :=
  let! units := need (count_units wide) in
  let capacity := wrap64 (wrap64 (units * 4) + 1) in
  let! ok := lib (malloc capacity) in
  if negb (ok : bool) then abort "cannot convert the argument vector"
  else need (convert (Z.to_nat units) wide units capacity 0 []).

Fixpoint convert_args (argv : list (list Z)) (n : nat) : M args_state unit :=
  match n, argv with
  | O, _ => ret tt
  | S n, wide :: argv =>
      let! v := to_utf8 wide in
      modify (fun s => ArgsState (arg_count s) (arg_values s ++ [v]) (std_err s) (a_env s)) ;;;
      convert_args argv n
  | S _, [] => undefined
  end.

Definition args_init (argc : Z) (argv : list (list Z)) : M args_state unit :=
  lib set_binary ;;;
  lib set_binary ;;;
  let argc := if argc <? 0 then 0 else argc in
  modify (fun s => ArgsState argc (arg_values s) (std_err s) (a_env s)) ;;;
  let! ok := lib (malloc (wrap64 ((if argc =? 0 then 1 else argc) * 8))) in
  if negb (ok : bool) then abort "cannot convert the argument vector"
  else
    modify (fun s => ArgsState (arg_count s) [] (std_err s) (a_env s)) ;;;
    convert_args argv (Z.to_nat argc).

Definition args_count : M args_state Z := gets arg_count.

(** The zero-terminated bytes at the address [args_at] answers. *)
Definition args_at (index : Z) : M args_state bytes :=
  let! s := get in
  if (index <? 0) || (arg_count s <=? index) then ret [0]
  else need (at_index (arg_values s) index).

Definition args_len (index : Z) : M args_state Z :=
  let! s := get in
  if (index <? 0) || (arg_count s <=? index) then ret 0
  else
    let! v := need (at_index (arg_values s) index) in
    need (strlen v).

(** [strcmp(a, b) == 0]. *)
Fixpoint strcmp_eq (a b : bytes) : option bool :=
  match a, b with
  | x :: a, y :: b => if x =? y then if x =? 0 then Some true else strcmp_eq a b else Some false
  | _, _ => None
  end.

(** The index of the first name equal to [arg]; [None]: no test has it. *)
Fixpoint find_test (names : list bytes) (n : nat) (index : Z) (arg : bytes) : option (option Z) :=
  match n with
  | O => Some None
  | S n =>
      match names with
      | [] => None
      | name :: names =>
          eq ← strcmp_eq arg name;
          if (eq : bool) then Some (Some index) else find_test names n (index + 1) arg
      end
  end.

(** Text written to [stderr]. *)
Definition say (text : bytes) : M args_state unit :=
  modify (fun s => ArgsState (arg_count s) (arg_values s) (std_err s ++ text) (a_env s)).

Definition test_select (names : list bytes) (count : Z) : M args_state Z :=
  let! s := get in
  if arg_count s <? 2 then ret (-1)
  else if arg_count s =? 2 then
    let! arg := need (at_index (arg_values s) 1) in
    let! r := need (find_test names (Z.to_nat count) 0 arg) in
    match r with
    | Some index =>
        modify (fun s => ArgsState 1 (arg_values s) (std_err s) (a_env s)) ;;; ret index
    | None =>
        let! n := need (strlen arg) in
        say (lit "loke: no test is named `" ++ take (Z.to_nat n) arg ++ lit "`" ++ [10]) ;;;
        stop (Exited 2)
    end
  else say (lit "loke: a test executable takes at most one test name" ++ [10]) ;;; stop (Exited 2).
End Args.

(** * UTF-16 *)

Definition is_unit (u : Z) : Prop := 0 < u < 2 ^ 16.

(** The runes of a sequence of code units: an unpaired surrogate is U+FFFD. *)
Fixpoint utf16_runes (us : list Z) : list Z :=
  match us with
  | [] => []
  | u :: us' =>
      if is_high u then
        match us' with
        | lo :: us'' =>
            if is_low lo then (0x10000 + (u - 0xD800) * 1024 + (lo - 0xDC00)) :: utf16_runes us''
            else 0xFFFD :: utf16_runes us'
        | [] => [0xFFFD]
        end
      else (if is_low u then 0xFFFD else u) :: utf16_runes us'
  end.

(** The code units of a scalar value. *)
Definition utf16_encode (v : Z) : list Z :=
  if v <? 0x10000 then [v]
  else [0xD800 + (v - 0x10000) `div` 1024; 0xDC00 + (v - 0x10000) mod 1024].

Lemma utf16_runes_encode cs :
  scalars cs -> utf16_runes (cs ≫= utf16_encode) = cs.
Proof.
  induction 1 as [|v cs Hv _ IH]; [done|].
  change ((v :: cs) ≫= utf16_encode) with (utf16_encode v ++ (cs ≫= utf16_encode)).
  destruct Hv as [Hv Hs]. unfold utf16_encode at 1. destruct (Z.ltb_spec v 0x10000); cbn [app utf16_runes].
  - unfold is_high, is_low. destruct ((_ <=? v) && (v <=? 0xDBFF)) eqn:Hh; [lia|].
    destruct ((_ <=? v) && (v <=? 0xDFFF)) eqn:Hl; [lia|]. by rewrite IH.
  - pose proof (Z.div_mod (v - 0x10000) 1024 ltac:(done)).
    pose proof (Z.mod_pos_bound (v - 0x10000) 1024 ltac:(done)).
    set (q := (v - 0x10000) `div` 1024) in *. set (r := (v - 0x10000) mod 1024) in *.
    assert (is_high (0xD800 + q) = true) as -> by (unfold is_high; lia).
    assert (is_low (0xDC00 + r) = true) as -> by (unfold is_low; lia).
    rewrite IH. f_equal. lia.
Qed.

Lemma utf16_runes_scalars us : Forall is_unit us -> Forall (fun v => is_scalar v /\ v <> 0) (utf16_runes us).
Proof.
  remember (length us) as n eqn:Hn. revert us Hn. induction n as [n IH] using lt_wf_ind.
  intros us -> Hus. destruct Hus as [|u us Hu Hus]; [constructor|]. cbn [utf16_runes].
  assert (is_scalar 0xFFFD /\ 0xFFFD <> 0) as Hrep by (unfold is_scalar; lia).
  destruct (is_high u) eqn:Hh.
  - destruct Hus as [|lo us Hlo Hus]; [by constructor|]. destruct (is_low lo) eqn:Hl.
    + constructor; [|eapply IH; [|done|done]; cbn; lia].
      unfold is_unit, is_high, is_low, is_scalar in *. lia.
    + constructor; [done|]. eapply IH; [|done|by constructor]. cbn. lia.
  - constructor; [|eapply IH; [|done|done]; cbn; lia].
    destruct (is_low u) eqn:Hl; [done|]. unfold is_unit, is_high, is_low, is_scalar in *. lia.
Qed.

(** * The conversion *)

Lemma count_units_spec us rest : Forall is_unit us -> count_units (us ++ 0 :: rest) = Some (zlen us).
Proof.
  induction 1 as [|u us Hu _ IH]; [done|]. cbn [app count_units].
  destruct (Z.eqb_spec u 0); [unfold is_unit in Hu; lia|]. rewrite IH. cbn [mbind option_bind length].
  f_equal. lia.
Qed.

Lemma combine_small u lo :
  is_high u = true -> is_low lo = true ->
  wrap32 (0x10000 + wrap32 (Z.shiftl (u - 0xD800) 10) + (lo - 0xDC00)) =
  0x10000 + (u - 0xD800) * 1024 + (lo - 0xDC00).
Proof.
  unfold is_high, is_low. intros Hu Hl. rewrite Z.shiftl_mul_pow2 by done. change (2 ^ 10) with 1024.
  unfold wrap32. rewrite (Z.mod_small ((u - 0xD800) * 1024)) by lia. apply Z.mod_small. lia.
Qed.

Lemma next_code_point_spec us rest at_ :
  Forall is_unit us -> 0 <= at_ < zlen us ->
  exists v next, next_code_point (us ++ 0 :: rest) (zlen us) at_ = Some (v, next) /\
    at_ < next <= zlen us /\
    utf16_runes (drop (Z.to_nat at_) us) = v :: utf16_runes (drop (Z.to_nat next) us).
Proof.
  intros Hus Hat.
  assert (forall i, 0 <= i < zlen us -> exists u, us !! Z.to_nat i = Some u /\
    at_index (us ++ 0 :: rest) i = Some u /\ drop (Z.to_nat i) us = u :: drop (Z.to_nat (i + 1)) us) as Hget.
  { intros i Hi. destruct (lookup_lt_is_Some_2 us (Z.to_nat i)) as [u Hu]; [lia|]. exists u. split; [done|].
    rewrite at_index_lookup, lookup_app_l by lia. split; [done|]. rewrite (drop_S _ u) by done. do 2 f_equal. lia. }
  destruct (Hget at_ Hat) as (u & Hu & Hau & ->). unfold next_code_point. rewrite Hau. cbn [mbind option_bind utf16_runes].
  destruct (is_high u) eqn:Hh.
  - destruct (Z.ltb_spec (at_ + 1) (zlen us)) as [Hlt|Hge].
    + destruct (Hget (at_ + 1) ltac:(lia)) as (lo & Hlo & Halo & Hd). rewrite Halo, Hd. cbn [mbind option_bind].
      destruct (is_low lo) eqn:Hl.
      * eexists _, _. split; [done|]. split; [lia|]. by rewrite combine_small.
      * eexists _, _. split; [done|]. split; [lia|]. by rewrite Hd.
    + eexists _, _. split; [done|]. split; [lia|]. by rewrite drop_ge by lia.
  - destruct (is_low u); eexists _, _; (split; [done|]); (split; [lia|done]).
Qed.

Lemma convert_spec fuel us rest at_ out capacity :
  Forall is_unit us -> 0 <= at_ <= zlen us -> zlen us - at_ <= Z.of_nat fuel ->
  zlen out + 4 * (zlen us - at_) < capacity ->
  convert fuel (us ++ 0 :: rest) (zlen us) capacity at_ out =
    Some (out ++ encode_all (utf16_runes (drop (Z.to_nat at_) us)) ++ [0]).
Proof.
  intros Hus. revert at_ out. induction fuel as [|fuel IH]; intros at_ out Hat Hf Hroom; cbn [convert];
    (destruct (Z.ltb_spec at_ (zlen us)) as [Hlt|Hge]; [try lia|]).
  1,3: destruct (Z.ltb_spec (zlen out) capacity); [|lia]; rewrite drop_ge by lia; done.
  destruct (next_code_point_spec us rest at_ Hus ltac:(lia)) as (v & next & Hr & Hnext & Hstep).
  rewrite Hr. cbn [mbind option_bind].
  assert (is_scalar v) as Hv.
  { pose proof (utf16_runes_scalars (drop (Z.to_nat at_) us) ltac:(by apply Forall_drop)) as Hall.
    rewrite Hstep in Hall. by apply Forall_cons in Hall as [[? _] _]. }
  pose proof (encode_rune_length v Hv).
  destruct (Z.ltb_spec capacity (zlen out + zlen (encode_rune v))); [lia|].
  rewrite IH; [|lia|lia|rewrite length_app; lia].
  by rewrite Hstep, encode_all_cons, <- !app_assoc.
Qed.

(** A non-zero scalar encodes without a zero byte, so [strlen] sees it all. *)
Lemma encode_rune_nonzero v : is_scalar v -> v <> 0 -> Forall (fun b => b <> 0) (encode_rune v).
Proof.
  intros Hv Hne. rewrite encode_rune_arith by done. pose proof Hv as [Hr _].
  assert (forall x d, 0 < d -> 0 <= x -> 0 <= x `div` d) as Hdiv by (intros; by apply Z.div_pos).
  assert (forall x, 0 <= x mod 64) as Hmod by (intros; by apply Z.mod_pos_bound).
  pose proof (Hdiv v 64 ltac:(lia) ltac:(lia)). pose proof (Hdiv v 4096 ltac:(lia) ltac:(lia)).
  pose proof (Hdiv v 262144 ltac:(lia) ltac:(lia)). pose proof (Hmod v).
  pose proof (Hmod (v `div` 64)). pose proof (Hmod (v `div` 4096)).
  repeat case_match; repeat constructor; lia.
Qed.

Lemma encode_all_nonzero rs :
  Forall (fun v => is_scalar v /\ v <> 0) rs -> Forall (fun b => b <> 0) (encode_all rs).
Proof.
  induction 1 as [|v rs [Hv Hne] _ IH]; [constructor|]. rewrite encode_all_cons. apply Forall_app.
  split; [by apply encode_rune_nonzero|done].
Qed.

Section spec.
Context {E : Type} (malloc : Z -> M E bool) (set_binary : M E unit).
Context (malloc_total : forall n e, wp (malloc n) (fun _ _ => True) (fun _ _ => False) e).
Context (binary_total : forall e, wp set_binary (fun _ _ => True) (fun _ _ => False) e).
Implicit Types (s : args_state (E:=E)).

Lemma lib_spec {A} (m : M E A) (Q : A -> args_state (E:=E) -> Prop) P s :
  (forall e, wp m (fun _ _ => True) (fun _ _ => False) e) ->
  (forall r e, Q r (ArgsState (arg_count s) (arg_values s) (std_err s) e)) -> wp (lib m) Q P s.
Proof. intros Hm HQ. specialize (Hm (a_env s)). unfold wp, lib in *. by destruct (m (a_env s)). Qed.

(** A zero-terminated vector of UTF-16 units, all shorter than memory. *)
Definition wide_ok (wide us : list Z) : Prop :=
  Forall is_unit us /\ zlen us < 2 ^ 60 /\ exists rest, wide = us ++ 0 :: rest.

(** Converting stops only where memory runs out. *)
Definition no_memory (h : halt) (_ : args_state (E:=E)) : Prop := h = Aborted "cannot convert the argument vector".

Definition utf8_of (us : list Z) : bytes := encode_all (utf16_runes us) ++ [0].

Lemma to_utf8_spec wide us s :
  wide_ok wide us ->
  wp (to_utf8 malloc wide)
    (fun v s' => v = utf8_of us /\ arg_count s' = arg_count s /\ arg_values s' = arg_values s)
    no_memory s.
Proof.
  intros (Hus & Hl & rest & ->). unfold to_utf8. rewrite count_units_spec by done. cbn [need].
  apply wp_bind, wp_ret, wp_bind, lib_spec; [done|]. intros [] e; [|done]. cbn [negb].
  assert (wrap64 (wrap64 (zlen us * 4) + 1) = zlen us * 4 + 1) as ->.
  { rewrite (wrap64_small (zlen us * 4)) by ilia. apply wrap64_small. ilia. }
  rewrite convert_spec; [|done|lia|lia|cbn; lia]. by apply wp_ret.
Qed.

Lemma convert_args_spec argv uss s n :
  n = length uss -> Forall2 wide_ok argv uss ->
  wp (convert_args malloc argv n)
    (fun _ s' => arg_count s' = arg_count s /\ arg_values s' = arg_values s ++ (utf8_of <$> uss))
    no_memory s.
Proof.
  intros -> Hall. revert s. induction Hall as [|wide us argv uss Hw _ IH]; intros s; cbn [length convert_args].
  { apply wp_ret. by rewrite app_nil_r. }
  apply wp_bind. eapply wp_conseq; [by apply to_utf8_spec| |done].
  intros v s1 (-> & Hc & Hv). apply wp_bind, wp_modify.
  eapply wp_conseq; [apply IH| |done]. intros ? s2 [Hc2 Hv2]. cbn [arg_count arg_values] in *.
  split; [congruence|]. rewrite Hv2, Hv. cbn [fmap list_fmap]. by rewrite <- app_assoc.
Qed.

(** The cached arguments are those of the vector. *)
Definition caches s (uss : list (list Z)) : Prop :=
  arg_count s = zlen uss /\ arg_values s = utf8_of <$> uss.

Lemma args_init_spec argc argv uss s :
  0 <= argc -> zlen uss = argc -> Forall2 wide_ok argv uss ->
  wp (args_init malloc set_binary argc argv) (fun _ s' => caches s' uss) no_memory s.
Proof.
  intros Hc Hlen Hall. unfold args_init. apply wp_bind, lib_spec; [done|]. intros _ e1.
  apply wp_bind, lib_spec; [done|]. intros _ e2. destruct (Z.ltb_spec argc 0); [lia|].
  apply wp_bind, wp_modify, wp_bind, lib_spec; [done|]. intros [] e3; [|done]. cbn [negb].
  apply wp_bind, wp_modify. eapply wp_conseq; [apply (convert_args_spec argv uss); [lia|done]| |done].
  intros ? s' [Hc' Hv]. cbn [arg_count arg_values app] in *. split; [by rewrite Hc'|done].
Qed.

Lemma args_at_spec uss us index s :
  caches s uss -> uss !! Z.to_nat index = Some us -> 0 <= index ->
  args_at index s = Ok (utf8_of us) s /\ 
  (Forall is_unit us -> args_len index s = Ok (zlen (encode_all (utf16_runes us))) s).
Proof.
  intros [Hc Hv] Hus Hi. pose proof (lookup_lt_Some _ _ _ Hus) as Hlt.
  unfold args_at, args_len, bind, get. rewrite Hc, Hv.
  destruct (Z.ltb_spec index 0); [lia|]. destruct (Z.leb_spec (zlen uss) index); [lia|]. cbn [orb].
  rewrite at_index_lookup, list_lookup_fmap, Hus by lia. cbn [fmap option_fmap option_map need ret].
  split; [done|]. intros Hu. unfold utf8_of. rewrite strlen_spec; [done|].
  by apply encode_all_nonzero, utf16_runes_scalars.
Qed.

(** ** Choosing a test *)

Lemma strcmp_eq_spec a b r1 r2 :
  Forall (fun x => x <> 0) a -> Forall (fun x => x <> 0) b ->
  strcmp_eq (a ++ 0 :: r1) (b ++ 0 :: r2) = Some (bool_decide (a = b)).
Proof.
  intros Ha. revert b. induction Ha as [|x a Hx Ha IH]; intros b Hb; destruct Hb as [|y b Hy Hb]; cbn [app strcmp_eq].
  - done.
  - destruct (Z.eqb_spec 0 y); [congruence|]. done.
  - destruct (Z.eqb_spec x 0) as [|_]; done.
  - destruct (Z.eqb_spec x y) as [->|Hne].
    + destruct (Z.eqb_spec y 0); [done|]. rewrite IH by done. f_equal. apply bool_decide_ext. split; congruence.
    + f_equal. symmetry. apply bool_decide_eq_false. congruence.
Qed.

Lemma find_test_spec names arg index :
  Forall (fun x => x <> 0) arg -> Forall (Forall (fun x => x <> 0)) names ->
  find_test ((fun n => n ++ [0]) <$> names) (length names) index (arg ++ [0]) =
    Some ((fun i => index + Z.of_nat i) <$> (fst <$> list_find (eq arg) names)).
Proof.
  intros Ha Hn. revert index. induction Hn as [|name names Hname _ IH]; intros index; [done|].
  cbn [fmap list_fmap length find_test]. rewrite strcmp_eq_spec by done. cbn [mbind option_bind list_find].
  case_bool_decide as Heq.
  - rewrite decide_True by done. cbn. f_equal. f_equal. lia.
  - rewrite decide_False by done. fold (fmap (M:=list) (fun n : bytes => n ++ [0])). rewrite IH.
    destruct (list_find (eq arg) names) as [[i x]|]; cbn; [|done]. do 2 f_equal. lia.
Qed.
End spec.
