(* ===== verification/TextClaims.v ===== *)
(** The properties of text: UTF-8, strings and process arguments, each with a
    concrete instance. *)
From S2P Require Import Prelude Checked Interfaces Concrete Utf8 Utf8Codec Strings StringsSpec StringShare StringProgram Args.

(** The encoder writes between one and four bytes for every scalar value
    and none for any other [int32], and the decoder reads each encoding back,
    wherever it stands in a text. *)
Theorem encode_decode_rune v pre post len :
  - 2 ^ 31 <= v < 2 ^ 31 -> len + 4 <= INT64_MAX -> zlen pre + zlen (encode_rune v) <= len ->
  if decide (is_scalar v) then
    1 <= zlen (encode_rune v) <= 4 /\
    rune_at (Some (pre ++ encode_rune v ++ post)) len (zlen pre) = Some (zlen (encode_rune v), v)
  else encode_rune v = [].
Proof.
  intros Hr Hmax Hroom. destruct (decide (is_scalar v)) as [Hv|Hv]; [|by apply encode_rune_invalid].
  split; [by apply encode_rune_length|]. by apply rune_at_encode.
Qed.

(** C15: the decoder never reads outside the text, and it answers a rune
    exactly when the encoding of that scalar value is next: overlong forms,
    surrogates, values above U+10FFFF and cut sequences are all refused. *)
Theorem rune_at_strict bs len off :
  Forall is_byte bs -> len <= zlen bs -> len + 4 <= INT64_MAX -> 0 <= off < len ->
  exists r, rune_at (Some bs) len off = Some r /\
    ((r.1 = 0 /\ forall v more, is_scalar v -> tail_at bs len off <> encode_rune v ++ more) \/
     (is_scalar r.2 /\ r.1 = zlen (encode_rune r.2) /\
      exists more, tail_at bs len off = encode_rune r.2 ++ more)).
Proof.
  intros Hb Hl Hm Ho. destruct (tail_step bs len Hb Hl Hm off Ho) as [(rep & Hr & _)|(v & Hv & Hr & _ & _ & Ht)].
  - exists (0, rep). split; [done|]. left. split; [done|]. intros v more Hv Ht.
    rewrite (rune_at_prefix bs len Hl Hm off v more Hv ltac:(lia) Ht) in Hr.
    pose proof (encode_rune_length v Hv). injection Hr as Hr _. lia.
  - exists (zlen (encode_rune v), v). split; [done|]. right. eauto.
Qed.

(** C34: the validator ends and accepts exactly the concatenations of
    encodings of scalar values; on those the rune counter answers how many
    there are. *)
Theorem utf8_valid_exact bs :
  Forall is_byte bs -> zlen bs + 4 <= INT64_MAX ->
  exists b, utf8_valid (Some bs) (zlen bs) = Some b /\
    (b = true <-> exists rs, scalars rs /\ bs = encode_all rs) /\
    (forall rs, scalars rs -> bs = encode_all rs -> rune_count (Some bs) (zlen bs) = Some (zlen rs)).
Proof.
  intros Hb Hm. assert (tail_at bs (zlen bs) 0 = bs) as Ht.
  { unfold tail_at. rewrite drop_0, take_ge by lia. done. }
  destruct (utf8_valid_loop_spec bs (zlen bs) Hb ltac:(lia) Hm (Z.to_nat (zlen bs)) 0) as (b & Hv & Hiff); [lia|lia|].
  exists b. rewrite Ht in Hiff. split; [|split; [done|]].
  - unfold utf8_valid. destruct (Z.ltb_spec (zlen bs) 0); [lia|done].
  - intros rs Hrs He. unfold rune_count.
    rewrite (rune_count_loop_spec bs (zlen bs) Hb ltac:(lia) Hm _ 0 0 rs); [done|lia|lia|done|by rewrite Ht].
Qed.

(** [bytes_compare] is the lexical order of the bytes: it answers 0 only
    for equal strings, is antisymmetric, and its "before" is transitive. *)
Theorem bytes_compare_total_order x y z :
  bytes_compare x (zlen x) y (zlen y) = Some (sign (lex x y)) /\
  (bytes_compare x (zlen x) y (zlen y) = Some 0 <-> x = y) /\
  (forall d, bytes_compare x (zlen x) y (zlen y) = Some d -> bytes_compare y (zlen y) x (zlen x) = Some (- d)) /\
  (bytes_compare x (zlen x) y (zlen y) = Some (-1) -> bytes_compare y (zlen y) z (zlen z) = Some (-1) ->
   bytes_compare x (zlen x) z (zlen z) = Some (-1)).
Proof.
  rewrite !bytes_compare_lex. split; [done|]. split; [split|split].
  - intros [= Hs]. apply lex_eq. by destruct (lex x y).
  - intros ->. by rewrite lex_refl.
  - intros d [= <-]. rewrite (lex_antisym x y). by destruct (lex x y).
  - intros [= H1] [= H2]. rewrite (lex_lt_trans x y z); [done|by destruct (lex x y)|by destruct (lex y z)].
Qed.

Section strings.
Context {E : Type} {api : AllocApi E} {tot : AllocTotal E} {fresh : AllocFresh E}.
Implicit Types (s : sstate E).

(** [string_from_bytes] answers 1 exactly for valid UTF-8, with a
    zero-terminated buffer of its own over the same bytes and one handle; for
    invalid text it answers 0 and allocates nothing; and when memory runs out
    it does not return. *)
Theorem string_from_bytes_correct bs a s :
  store_ok s -> Forall is_byte bs -> zlen bs + 4 <= INT64_MAX ->
  wp (string_from_bytes (Some bs) (zlen bs) a)
    (fun r s' => store_ok s' /\
       if r.1 then (exists rs, scalars rs /\ bs = encode_all rs) /\ string_of s bs a s' r.2
       else (~ exists rs, scalars rs /\ bs = encode_all rs) /\ r.2 = empty_string /\ buffers s' = buffers s)
    (fun _ s' => buffers s' = buffers s) s.
Proof. by apply string_from_bytes_spec. Qed.

(** [string_concat] answers a buffer over the two texts in order, or 0
    with nothing allocated where the length overflows or memory runs out. *)
Theorem string_concat_correct xd xs yd ys a s :
  store_ok s -> points_to xd xs -> points_to yd ys ->
  zlen xs <= INT64_MAX -> zlen ys <= INT64_MAX ->
  wp (string_concat xd (zlen xs) yd (zlen ys) a)
    (fun r s' => store_ok s' /\
       if r.1 then string_of s (xs ++ ys) a s' r.2 /\ zlen xs + zlen ys <= INT64_MAX
       else r.2 = empty_string /\ buffers s' = buffers s)
    (fun _ s' => buffers s' = buffers s) s.
Proof. by apply string_concat_spec. Qed.

(** [string_from_runes] answers the encoding of its runes when all of
    them are scalar values, exactly filling the block the first pass sized;
    otherwise it answers 0 and allocates nothing. *)
Theorem string_from_runes_correct rs a s :
  store_ok s -> runes_ok rs -> zlen rs <= 2 ^ 60 ->
  wp (string_from_runes rs a)
    (fun r s' => store_ok s' /\
       if r.1 then scalars rs /\ string_of s (encode_all rs) a s' r.2
       else ~ scalars rs /\ r.2 = empty_string /\ buffers s' = buffers s)
    (fun _ s' => buffers s' = buffers s) s.
Proof. by apply string_from_runes_spec. Qed.

(** C18: in any interleaving of retains by holders, decrements of held handles,
    frees by whoever took the last one, and new strings: a buffer is there
    exactly while a handle on it is held or its free is still to come; its count
    is the number of handles held; it waits for one free only, and then no
    handle names it; and no step a thread may take next reaches a freed
    header. *)
Theorem string_handles_safe (t t' : sharing E) :
  rtc share_step t t' -> sound t ->
  (forall p, is_Some (buffers (sh_store t') !! p) <-> (exists o, o ∈ sh_held t' /\ header_of o = Some p) \/ p ∈ sh_pend t') /\
  (forall p b, buffers (sh_store t') !! p = Some b -> handles b = Z.of_nat (held_count p (sh_held t'))) /\
  NoDup (sh_pend t') /\ (forall o p, o ∈ sh_held t' -> p ∈ sh_pend t' -> header_of o <> Some p) /\
  (forall o, o ∈ sh_held t' ->
     wp (string_retain o) (fun _ _ => True) (fun _ _ => False) (sh_store t') /\
     wp (string_release_count o) (fun _ _ => True) (fun _ _ => False) (sh_store t')) /\
  (forall p, p ∈ sh_pend t' -> wp (string_free_buffer p) (fun _ _ => True) (fun _ _ => True) (sh_store t')).
Proof.
  intros Hrun Ht. pose proof (share_run_sound _ _ Hrun Ht) as Ht'. pose proof Ht' as [C _].
  split; [intros p; by apply sound_present|]. split; [intros p b Hb; by apply (counting_handles _ _ _ C)|].
  split; [apply C|]. split; [intros o p Ho Hp; by eapply counting_unheld|]. by apply sound_next.
Qed.

(** C11: string programs are typed. However literals, untrusted bytes, runes,
    copies, concatenations, shares and drops follow one another, every variable
    holds valid UTF-8 of its own length, the text the program computes; no
    operation reads an unwritten byte or a freed buffer; and when the last
    variable is dropped no buffer is left. *)
Theorem string_programs_typed ops s : store_ok s -> buffers s = ∅ -> Forall op_ok ops -> zlen ops < INT64_MAX ->
  wp (exec_all ops [])
    (fun vars s' => exists texts, means_all ops [] texts /\ Forall is_text texts /\ length vars = length texts /\
       (forall i v bs, vars !! i = Some v -> texts !! i = Some bs ->
          exists data, data_of v s' = Ok data s' /\ points_to data bs /\ len_of v = zlen bs) /\
       (vars = [] -> buffers s' = ∅))
    (fun _ _ => True) s.
Proof.
  intros Hs Hb Hok Hl. eapply wp_conseq; [eapply exec_all_spec; [by apply typed_start|done|cbn; lia]| |done].
  intros vars s' (texts & Hm & Hty). exists texts. split; [done|]. split; [by eapply Forall_impl; [apply Hty|]; intros ? [? _]|].
  split; [by eapply Forall2_length, Hty|]. split.
  - intros i v bs Hv Hbs. destruct (data_of_var s' vars texts i v Hty Hv) as (bs' & data & Hbs' & _ & Hd).
    rewrite Hbs in Hbs'. injection Hbs' as <-. by exists data.
  - intros ->. by eapply typed_end.
Qed.
End strings.

(** C27: the argument vector becomes cached, zero-terminated, valid UTF-8: a
    well-formed UTF-16 argument is its own text, an unpaired surrogate is
    U+FFFD, no conversion writes outside its block, and [args_at] and
    [args_len] answer the whole text. *)
Theorem args_are_utf8 {E} (malloc : Z -> M E bool) (set_binary : M E unit) argv uss s :
  (forall n e, wp (malloc n) (fun _ _ => True) (fun _ _ => False) e) ->
  (forall e, wp set_binary (fun _ _ => True) (fun _ _ => False) e) ->
  Forall2 wide_ok argv uss ->
  wp (args_init malloc set_binary (zlen uss) argv)
    (fun _ s' => arg_count s' = zlen uss /\
       forall i us, uss !! i = Some us ->
         exists text, scalars (utf16_runes us) /\ text = encode_all (utf16_runes us) /\
           args_at (Z.of_nat i) s' = Ok (text ++ [0]) s' /\
           args_len (Z.of_nat i) s' = Ok (zlen text) s' /\
           (forall cs, scalars cs -> us = cs ≫= utf16_encode -> text = encode_all cs))
    (fun h _ => h = Aborted "cannot convert the argument vector") s.
Proof.
  intros Hm Hb Hall. eapply wp_conseq; [apply (args_init_spec malloc set_binary Hm Hb _ argv uss); [lia|done|done]| |done].
  intros ? s' Hc. split; [apply Hc|]. intros i us Hi.
  assert (Forall is_unit us) as Hu.
  { destruct (Forall2_lookup_r _ _ _ _ _ Hall Hi) as (w & _ & ? & _). done. }
  destruct (args_at_spec uss us (Z.of_nat i) s' Hc) as [Hat Hlen]; [by rewrite Nat2Z.id|lia|].
  eexists. split; [|split; [done|split; [exact Hat|split; [by apply Hlen|]]]].
  - eapply Forall_impl; [by apply utf16_runes_scalars|]. by intros ? [? _].
  - intros cs Hcs ->. by rewrite utf16_runes_encode.
Qed.

(** * Concrete instances *)

(** "aé€" and U+1F600, one scalar of each length. *)
Definition sample_runes : list Z := [97; 233; 8364; 128512].
Definition sample : bytes := Eval vm_compute in encode_all sample_runes.
Definition store : sstate heap := SState ∅ (Heap 4096 3).

Lemma store_store_ok : store_ok store.
Proof. intros p b. unfold store. cbn [buffers]. by rewrite lookup_empty. Qed.
Lemma sample_bytes : Forall is_byte sample.
Proof. repeat constructor; done. Qed.
Lemma sample_ok : runes_ok sample_runes.
Proof. repeat constructor; done. Qed.

Lemma encode_decode_rune_witness :
  if decide (is_scalar 8364) then
    1 <= zlen (encode_rune 8364) <= 4 /\
    rune_at (Some ([97] ++ encode_rune 8364 ++ [255])) 4 1 = Some (zlen (encode_rune 8364), 8364)
  else encode_rune 8364 = [].
Proof. apply (encode_decode_rune 8364 [97] [255] 4); [lia|ilia|by vm_compute]. Defined.

Lemma rune_at_strict_witness :
  rune_at (Some [0xC0; 0x80]) 2 0 = Some (0, REPLACEMENT) /\
  exists r, rune_at (Some [0xC0; 0x80]) 2 0 = Some r /\
    ((r.1 = 0 /\ forall v more, is_scalar v -> tail_at [0xC0; 0x80] 2 0 <> encode_rune v ++ more) \/
     (is_scalar r.2 /\ r.1 = zlen (encode_rune r.2) /\
      exists more, tail_at [0xC0; 0x80] 2 0 = encode_rune r.2 ++ more)).
Proof.
  split; [reflexivity|]. apply rune_at_strict; [repeat constructor; done|done|ilia|lia].
Defined.

Lemma utf8_valid_exact_witness :
  utf8_valid (Some sample) (zlen sample) = Some true /\
  exists b, utf8_valid (Some sample) (zlen sample) = Some b /\
    (b = true <-> exists rs, scalars rs /\ sample = encode_all rs) /\
    (forall rs, scalars rs -> sample = encode_all rs -> rune_count (Some sample) (zlen sample) = Some (zlen rs)).
Proof. split; [reflexivity|]. apply utf8_valid_exact; [apply sample_bytes|by vm_compute]. Defined.

Lemma string_from_bytes_correct_witness :
  (exists s', string_from_bytes (Some sample) (zlen sample) 7 store = Ok (true, RtString 4120 10 4096) s') /\
  wp (string_from_bytes (Some sample) (zlen sample) 7)
    (fun r s' => store_ok s' /\
       if r.1 then (exists rs, scalars rs /\ sample = encode_all rs) /\ string_of store sample 7 s' r.2
       else (~ exists rs, scalars rs /\ sample = encode_all rs) /\ r.2 = empty_string /\
         buffers s' = buffers store)
    (fun _ s' => buffers s' = buffers store) store.
Proof.
  split; [eexists; vm_compute; reflexivity|].
  apply (string_from_bytes_correct sample 7 store);
    [apply store_store_ok|apply sample_bytes|by vm_compute].
Defined.

Lemma string_concat_correct_witness :
  wp (string_concat (Some sample) (zlen sample) None (zlen (@nil Z)) 7)
    (fun r s' => store_ok s' /\
       if r.1 then string_of store (sample ++ []) 7 s' r.2 /\ zlen sample + zlen (@nil Z) <= INT64_MAX
       else r.2 = empty_string /\ buffers s' = buffers store)
    (fun _ s' => buffers s' = buffers store) store.
Proof.
  apply (string_concat_correct (Some sample) sample None [] 7 store);
    [apply store_store_ok|by left|by right|by vm_compute|by vm_compute].
Defined.

Lemma string_from_runes_correct_witness :
  (exists s', string_from_runes sample_runes 7 store = Ok (true, RtString 4120 10 4096) s') /\
  wp (string_from_runes sample_runes 7)
    (fun r s' => store_ok s' /\
       if r.1 then scalars sample_runes /\ string_of store (encode_all sample_runes) 7 s' r.2
       else ~ scalars sample_runes /\ r.2 = empty_string /\ buffers s' = buffers store)
    (fun _ s' => buffers s' = buffers store) store.
Proof.
  split; [eexists; vm_compute; reflexivity|].
  apply (string_from_runes_correct sample_runes 7 store);
    [apply store_store_ok|apply sample_ok|by vm_compute].
Defined.

(** Two texts, their concatenation and a copy of it that outlive their sources;
    bytes that are no text; and every variable dropped. *)
Definition sample_program : list string_op :=
  [FromBytes sample 7; Literal [33]; Concat 0 1 7; FromBytes [0xC0; 0x80] 7; Drop 0; Share 1; Copy 1 7; Drop 1].
Definition sample_drops : list string_op := [Drop 0; Drop 0; Drop 0].

Lemma sample_program_ok : Forall op_ok (sample_program ++ sample_drops).
Proof.
  unfold sample_program, sample_drops. cbn [app]. repeat apply Forall_cons_2; try exact I; [| | |apply Forall_nil_2].
  - split; [apply sample_bytes|by vm_compute].
  - split; [|by vm_compute]. exists [33]. split; [|done]. repeat constructor; unfold is_scalar; lia.
  - split; [repeat constructor; unfold is_byte; lia|by vm_compute].
Qed.

Lemma string_programs_typed_witness :
  (match exec_all sample_program [] store with
   | Ok vars s' => map len_of vars = [1; 11; 11] /\ size (buffers s') = 2%nat
   | _ => False
   end) /\
  (match exec_all (sample_program ++ sample_drops) [] store with
   | Ok vars s' => vars = [] /\ size (buffers s') = 0%nat
   | _ => False
   end) /\
  wp (exec_all (sample_program ++ sample_drops) [])
    (fun vars s' => exists texts, means_all (sample_program ++ sample_drops) [] texts /\ Forall is_text texts /\
       length vars = length texts /\
       (forall i v bs, vars !! i = Some v -> texts !! i = Some bs ->
          exists data, data_of v s' = Ok data s' /\ points_to data bs /\ len_of v = zlen bs) /\
       (vars = [] -> buffers s' = ∅))
    (fun _ _ => True) store.
Proof.
  split; [vm_compute; by split|]. split; [vm_compute; by split|].
  apply string_programs_typed; [apply store_store_ok|done|apply sample_program_ok|by vm_compute].
Defined.

(** A buffer that two handles share, and one of them released. *)
Definition shared : buffer := Buffer 2 7 26 [Some 97; Some 0].
Definition shared_store : sstate heap := SState {[4096 := shared]} (Heap 8192 3).
Definition shared_twice : sharing heap := Sharing shared_store [4096; 4096] [].
Definition one_left : sstate heap := final (string_release_count 4096) shared_store.
Definition none_left : sstate heap := final (string_release_count 4096) one_left.

Lemma shared_sound : sound shared_twice.
Proof.
  split; [|by vm_compute]. apply counting_nil. split.
  - intros p b. unfold shared_twice, shared_store. cbn [sh_store buffers]. intros [<- <-]%lookup_singleton_Some. done.
  - intros o p Ho Hp. assert (o = 4096) as -> by (cbn in Ho; set_solver). vm_compute in Hp. injection Hp as <-.
    exists shared. reflexivity.
Qed.

(** Both holders have let go, and the block is still to be freed. *)
Lemma string_handles_safe_witness :
  let t' := Sharing none_left [] [4096] in
  is_Some (buffers none_left !! 4096) /\ size (buffers (final (string_free_buffer 4096) none_left)) = 0%nat /\
  (forall p, is_Some (buffers (sh_store t') !! p) <-> (exists o, o ∈ sh_held t' /\ header_of o = Some p) \/ p ∈ sh_pend t') /\
  (forall p b, buffers (sh_store t') !! p = Some b -> handles b = Z.of_nat (held_count p (sh_held t'))) /\
  NoDup (sh_pend t') /\ (forall o p, o ∈ sh_held t' -> p ∈ sh_pend t' -> header_of o <> Some p) /\
  (forall o, o ∈ sh_held t' ->
     wp (string_retain o) (fun _ _ => True) (fun _ _ => False) (sh_store t') /\
     wp (string_release_count o) (fun _ _ => True) (fun _ _ => False) (sh_store t')) /\
  (forall p, p ∈ sh_pend t' -> wp (string_free_buffer p) (fun _ _ => True) (fun _ _ => True) (sh_store t')).
Proof.
  intros t'. split; [vm_compute; by eexists|]. split; [reflexivity|].
  apply (string_handles_safe shared_twice t'); [|apply shared_sound].
  apply (rtc_l _ _ (Sharing one_left [4096] [])); [|apply rtc_once].
  - apply (share_count 4096 shared_store [4096; 4096] [4096] [] None); done.
  - apply (share_count 4096 one_left [4096] [] [] (Some 4096)); done.
Defined.

(** [wmain]'s vector for "hi" and a smiley before an unpaired surrogate. *)
Definition sample_argv : list (list Z) := [[104; 105; 0]; [0xD83D; 0xDE00; 0xD800; 0]].
Definition sample_units : list (list Z) := [[104; 105]; [0xD83D; 0xDE00; 0xD800]].
Definition no_args : args_state (E:=unit) := ArgsState 0 [] [] tt.

Lemma sample_wide_ok : Forall2 wide_ok sample_argv sample_units.
Proof. repeat constructor; try done; by exists []. Qed.

Lemma args_are_utf8_witness :
  wp (args_init (fun _ => ret true) (ret tt) (zlen sample_units) sample_argv)
    (fun _ s' => arg_count s' = zlen sample_units /\
       forall i us, sample_units !! i = Some us ->
         exists text, scalars (utf16_runes us) /\ text = encode_all (utf16_runes us) /\
           args_at (Z.of_nat i) s' = Ok (text ++ [0]) s' /\
           args_len (Z.of_nat i) s' = Ok (zlen text) s' /\
           (forall cs, scalars cs -> us = cs ≫= utf16_encode -> text = encode_all cs))
    (fun h _ => h = Aborted "cannot convert the argument vector") no_args.
Proof.
  apply (args_are_utf8 (fun _ => ret true) (ret tt) sample_argv sample_units no_args);
    [done|done|apply sample_wide_ok].
Defined.
