(* ===== verification/Arena.v ===== *)
(** Local allocator regions ([runtime/arena.c]): a bump pointer over a chain of
    blocks got from a parent provider, or over one caller's buffer. *)
From S2P Require Import Prelude Interfaces MapTable.

Definition ARENA_DEFAULT_BLOCK : Z := 4096.
Definition ARENA_CONTROL_ALIGN : Z := 16.
Definition sizeof_arena_block : Z := 32.
Definition sizeof_arena : Z := 80.

(** * Addresses *)

Definition arena_align (align : Z) : Z := if align =? 0 then 1 else align.

(** [slack & ~(align - 1)] on 64 bits. *)
Definition clear_low (slack align : Z) : Z := Z.land slack (UINT64_MAX - wrap64 (align - 1)).

Definition arena_round_up (value align : Z) : Z :=
  let slack := wrap64 (value + wrap64 (align - 1)) in
  if slack <? value then 0 else clear_low slack align.

(** * Data *)

(** [loke_rt_arena_block_v1] at address [b_at]. *)
Record arena_block := ArenaBlock {
  b_at : Z;
  b_size : Z;
  b_used : Z;
  b_owned : bool;
}.

Definition with_used (u : Z) (b : arena_block) : arena_block :=
  ArenaBlock (b_at b) (b_size b) u (b_owned b).

(** [loke_rt_arena_v1] at address [control]. The chain [blocks] is newest
    first; [first] is the address of the block that lives with the control
    block. *)
Record arena_v1 := ArenaV1 {
  control : Z;
  record : allocator_record;
  parent : handle;
  blocks : list arena_block;
  first : Z;
  block_bytes : Z;
  control_bytes : Z;
}.

Definition with_blocks (bs : list arena_block) (a : arena_v1) : arena_v1 :=
  ArenaV1 (control a) (record a) (parent a) bs (first a) (block_bytes a) (control_bytes a).
Definition with_record (r : allocator_record) (a : arena_v1) : arena_v1 :=
  ArenaV1 (control a) r (parent a) (blocks a) (first a) (block_bytes a) (control_bytes a).
Definition with_policy (p : Z) (r : allocator_record) : allocator_record :=
  AllocatorRecord (abi_version r) (record_size r) (r_state r) (region r) (r_ops r) p.
Definition with_ops (o : provider_ops) (r : allocator_record) : allocator_record :=
  AllocatorRecord (abi_version r) (record_size r) (r_state r) (region r) (Some o) (on_failure r).

Definition arena_block_bytes (b : arena_block) : Z := wrap64 (b_at b + sizeof_arena_block).

(** [arena_bump]: the address, 0 when the block cannot hold the request, and
    the block. *)
Definition arena_bump (b : arena_block) (size align : Z) : Z * arena_block :=
  let base := arena_block_bytes b in
  let at_ := arena_round_up (wrap64 (base + b_used b)) align in
  if at_ =? 0 then (0, b)
  else
    let end_ := wrap64 (at_ + size) in
    if (end_ <? at_) || (wrap64 (base + b_size b) <? end_) then (0, b)
    else (at_, with_used (wrap64 (end_ - base)) b).

Definition arena_min_buffer : Z := sizeof_arena + sizeof_arena_block + ARENA_CONTROL_ALIGN.

(** [arena_place]: the control block, the first block's header and the rest
    over [size] bytes of [storage]; [None] when they do not fit. *)
Definition arena_place (storage size : Z) (parent : handle) (block_bytes : Z) : option arena_v1 :=
  let base := storage in
  let control_at := arena_round_up base ARENA_CONTROL_ALIGN in
  if (control_at =? 0) || (control_at <? base) then None
  else
    let header_at := arena_round_up (wrap64 (control_at + sizeof_arena)) ARENA_CONTROL_ALIGN in
    if header_at =? 0 then None
    else
      let usable_at := wrap64 (header_at + sizeof_arena_block) in
      if (usable_at <? header_at) || (wrap64 (base + size) <? usable_at) then None
      else
        Some (ArenaV1 control_at
          (AllocatorRecord LOKE_RT_ABI_VERSION sizeof_allocator_record control_at control_at None
            LOKE_RT_ON_FAILURE_PANIC)
          parent [ArenaBlock header_at (wrap64 (base + size - usable_at)) 0 false] header_at block_bytes size).

(** [while (want < needed)]: [Some None] where doubling overflows. *)
Fixpoint grow_want (fuel : nat) (want needed : Z) : option (option Z) :=
  if want <? needed then
    match fuel with
    | O => None
    | S fuel =>
        let doubled := wrap64 (want * 2) in
        if doubled <=? want then Some None else grow_want fuel doubled needed
    end
  else Some (Some want).

(** * Operations *)

Section Arena.
Context {E : Type} {api : AllocApi E}.

Abbreviation ev := (event (K:=Empty_set) (V:=Empty_set)).

(** The arena a state pointer reaches ([None] for the null pointer), the bytes
    of memory, and the calls made to the parent provider. *)
Record astate := AState {
  arena : option arena_v1;
  memory : Z -> Z;
  a_trace : list ev;
  a_env : E;
}.

Definition set_arena (a : option arena_v1) : M astate unit :=
  modify (fun s => AState a (memory s) (a_trace s) (a_env s)).
Definition note (e : ev) : M astate unit :=
  modify (fun s => AState (arena s) (memory s) (a_trace s ++ [e]) (a_env s)).
Definition outside {A} (m : M E A) : M astate A := fun s =>
  match m (a_env s) with
  | Ok a e => Ok a (AState (arena s) (memory s) (a_trace s) e)
  | Stop h e => Stop h (AState (arena s) (memory s) (a_trace s) e)
  | Undefined => Undefined
  | NoFuel => NoFuel
  end.
Definition parent_alloc (a : handle) (size align : Z) : M astate Z :=
  let! p := outside (api_alloc a size align) in
  note (EvAlloc a size align p) ;;; ret p.
Definition parent_free (a : handle) (p size align : Z) : M astate unit :=
  note (EvFree a p size align) ;;; outside (api_free a p size align).

(** The loop of [arena_release_blocks]. *)
Fixpoint release_loop (parent : handle) (bs : list arena_block) : M astate unit :=
  match bs with
  | [] => ret tt
  | b :: bs =>
      (if b_owned b && negb (parent =? 0)
       then parent_free parent (b_at b) (wrap64 (sizeof_arena_block + b_size b)) ARENA_CONTROL_ALIGN
       else ret tt) ;;;
      release_loop parent bs
  end.

Definition arena_release_blocks (a : arena_v1) (keep_first : bool) : M astate unit :=
  release_loop (parent a) (blocks a) ;;;
  if keep_first then
    let! b := need (List.find (fun b => b_at b =? first a) (blocks a)) in
    set_arena (Some (with_blocks [with_used 0 b] a))
  else set_arena (Some (with_blocks [] a)).

Definition arena_grow (a : arena_v1) (size align : Z) : M astate bool :=
  let want := block_bytes a in
  let needed := wrap64 (size + align + sizeof_arena_block) in
  if parent a =? 0 then ret false
  else if needed <? size then ret false
  else
    let! r := need (grow_want 64 want needed) in
    match r with
    | None => ret false
    | Some want =>
        let! storage := parent_alloc (parent a) want ARENA_CONTROL_ALIGN in
        if storage =? 0 then ret false
        else
          let b := ArenaBlock storage (wrap64 (want - sizeof_arena_block)) 0 true in
          set_arena (Some (ArenaV1 (control a) (record a) (parent a) (b :: blocks a) (first a) want
            (control_bytes a))) ;;;
          ret true
    end.

(** [arena_bump(arena->blocks, ...)]: the chain of a live arena is not empty. *)
Definition bump_newest (size align : Z) : M astate Z :=
  let! a := gets arena in
  let! a := need a in
  match blocks a with
  | [] => undefined
  | b :: bs =>
      let '(p, b) := arena_bump b size align in
      set_arena (Some (with_blocks (b :: bs) a)) ;;; ret p
  end.

Definition arena_alloc (size align : Z) : M astate Z :=
  let! a := gets arena in
  match a with
  | None => ret 0
  | Some a =>
      if size =? 0 then ret 0
      else
        let align := arena_align align in
        let! out := bump_newest size align in
        if negb (out =? 0) then ret out
        else
          let! grown := arena_grow a size align in
          if negb (grown : bool) then ret 0 else bump_newest size align
  end.

Definition arena_is_top (a : arena_v1) (ptr old_size : Z) : bool :=
  if ptr =? 0 then false
  else
    match blocks a with
    | [] => false
    | b :: _ => wrap64 (ptr + old_size) =? wrap64 (arena_block_bytes b + b_used b)
    end.

(** [memcpy(dst, src, n)]: undefined where the ranges meet. *)
Definition copy_memory (dst src n : Z) : M astate unit :=
  if (dst + n <=? src) || (src + n <=? dst) then
    modify (fun s => AState (arena s)
      (fun x => if (dst <=? x) && (x <? dst + n) then memory s (src + (x - dst)) else memory s x)
      (a_trace s) (a_env s))
  else undefined.

(** From the second half of [arena_resize] on: keep a block that shrinks, move
    one that grows. *)
Definition resize_move (ptr old_size new_size align : Z) : M astate Z :=
  if new_size <=? old_size then ret ptr
  else
    let! out := arena_alloc new_size align in
    if out =? 0 then ret 0
    else
      copy_memory out ptr (if old_size <? new_size then old_size else new_size) ;;;
      ret out.

Definition arena_resize (ptr old_size new_size align : Z) : M astate Z :=
  let! a := gets arena in
  match a with
  | None => ret 0
  | Some a =>
      if new_size =? 0 then ret 0
      else if ptr =? 0 then arena_alloc new_size align
      else if arena_is_top a ptr old_size then
        match blocks a with
        | [] => undefined
        | b :: bs =>
            let base := arena_block_bytes b in
            let end_ := wrap64 (ptr + new_size) in
            if (ptr <=? end_) && (end_ <=? wrap64 (base + b_size b)) then
              set_arena (Some (with_blocks (with_used (wrap64 (end_ - base)) b :: bs) a)) ;;; ret ptr
            else resize_move ptr old_size new_size align
        end
      else resize_move ptr old_size new_size align
  end.

Definition arena_free (ptr size align : Z) : M astate unit :=
  let! a := gets arena in
  match a with
  | None => ret tt
  | Some a =>
      if ptr =? 0 then ret tt
      else if arena_is_top a ptr size then
        match blocks a with
        | [] => undefined
        | b :: bs => set_arena (Some (with_blocks (with_used (wrap64 (b_used b - size)) b :: bs) a))
        end
      else ret tt
  end.

Definition arena_reset : M astate bool :=
  let! a := gets arena in
  match a with
  | None => ret false
  | Some a => arena_release_blocks a true ;;; ret true
  end.

(** [arena->record.ops = &loke_rt_arena_ops]. *)
Definition publish_arena (a : arena_v1) : M astate unit :=
  set_arena (Some (with_record (with_ops arena_ops (record a)) a)).

Definition arena_open (parent : handle) : M astate bool :=
  let! s := get in
  let parent := if parent =? 0 then api_selected (a_env s) else parent in
  let! storage := parent_alloc parent ARENA_DEFAULT_BLOCK ARENA_CONTROL_ALIGN in
  if storage =? 0 then set_arena None ;;; ret false
  else
    match arena_place storage ARENA_DEFAULT_BLOCK parent ARENA_DEFAULT_BLOCK with
    | None =>
        parent_free parent storage ARENA_DEFAULT_BLOCK ARENA_CONTROL_ALIGN ;;;
        set_arena None ;;; ret false
    | Some a => publish_arena a ;;; ret true
    end.

Definition arena_open_fixed (buffer size : Z) : M astate unit :=
  if (buffer =? 0) || (size <? 0) || (size <? arena_min_buffer) then
    panic "this buffer is too small to host an arena"
  else
    match arena_place buffer size 0 0 with
    | None => panic "this buffer is too small to host an arena"
    | Some a => publish_arena a
    end.

Definition arena_set_failure (policy : Z) : M astate unit :=
  let! a := gets arena in
  match a with
  | None => ret tt
  | Some a => set_arena (Some (with_record (with_policy (wrap32 policy) (record a)) a))
  end.

Definition arena_drop : M astate unit :=
  let! a := gets arena in
  match a with
  | None => ret tt
  | Some a =>
      arena_release_blocks a false ;;;
      (if negb (parent a =? 0)
       then parent_free (parent a) (control a) (control_bytes a) ARENA_CONTROL_ALIGN
       else ret tt) ;;;
      set_arena None
  end.
End Arena.
Arguments astate : clear implicits.

(** * The empty region *)

Section empty_region.
Context {E : Type} (loke_rt_empty_region : handle).

Definition empty_alloc (size align : Z) : M E Z := ret 0.
Definition empty_resize (ptr old_size new_size align : Z) : M E Z := ret 0.
Definition empty_free (ptr size align : Z) : M E unit := ret tt.
Definition empty_reset : M E bool := ret true.

Definition empty_region_record : allocator_record :=
  AllocatorRecord LOKE_RT_ABI_VERSION sizeof_allocator_record 0 loke_rt_empty_region (Some empty_ops)
    LOKE_RT_ON_FAILURE_PANIC.

(** [loke_rt_v1_arena_allocator]: the record is the control block's first
    member, so its address is the control block's. *)
Definition arena_allocator (a : option arena_v1) : handle :=
  match a with None => loke_rt_empty_region | Some a => control a end.

(** [loke_rt_arena_name]; [parent_of] reads the [parent] of the control block
    at a state pointer. *)
Definition arena_name (parent_of : Z -> handle) (a : handle) (r : allocator_record) : option string :=
  if a =? loke_rt_empty_region then Some "a zero-value arena, which holds no memory"%string
  else if negb (bool_decide (r_ops r = Some arena_ops)) then None
  else Some (if parent_of (r_state r) =? 0 then "a fixed-buffer arena"%string else "an arena"%string).
End empty_region.
