(* ===== verification/ArenaSpec.v ===== *)
(** What the arena's layout guarantees: exact rounding, a bump that answers the
    least fitting address, growth that always makes room, and the invariant of
    a live region. *)
From S2P Require Import Prelude Interfaces MapTable MapSpec Arena.

(** * Rounding *)

Definition pow2_align (align : Z) : Prop := exists k, 0 <= k <= 63 /\ arena_align align = 2 ^ k.

Lemma clear_low_pow2 x k : 0 <= k <= 63 -> is_u64 x -> clear_low x (2 ^ k) = x / 2 ^ k * 2 ^ k.
Proof.
  intros Hk Hx. unfold clear_low.
  assert (0 < 2 ^ k <= 2 ^ 63) as Hp by (split; [lia|apply Z.pow_le_mono_r; lia]).
  rewrite wrap64_small by ilia.
  replace (UINT64_MAX - (2 ^ k - 1)) with (Z.ldiff (Z.ones 64) (Z.ones k)).
  - rewrite <- Z.shiftr_div_pow2, <- Z.shiftl_mul_pow2, <- Z.ldiff_ones_r by lia.
    apply Z.bits_inj'. intros n Hn. rewrite Z.land_spec, !Z.ldiff_spec, Z.testbit_ones_nonneg by lia.
    destruct (Z.ltb_spec n 64); [done|].
    rewrite (Z.bits_above_log2 x n); [done|ilia|].
    destruct (decide (x = 0)) as [->|]; [simpl; lia|]. apply Z.log2_lt_pow2; [ilia|].
    apply (Z.lt_le_trans _ (2 ^ 64)); [ilia|apply Z.pow_le_mono_r; lia].
  - rewrite <- Z.sub_nocarry_ldiff; [rewrite !Z.ones_equiv; ilia|].
    apply Z.bits_inj'. intros n Hn. rewrite Z.ldiff_spec, !Z.testbit_ones_nonneg, Z.bits_0 by lia.
    destruct (Z.ltb_spec n k), (Z.ltb_spec n 64); try done; lia.
Qed.

(** The least multiple of [2 ^ k] from [value] on, 0 when it does not fit. *)
Lemma arena_round_up_spec value k :
  0 <= k <= 63 -> 0 < value <= UINT64_MAX ->
  (arena_round_up value (2 ^ k) = 0 /\ UINT64_MAX < value + (2 ^ k - 1)) \/
  (value <= arena_round_up value (2 ^ k) < value + 2 ^ k /\ (2 ^ k | arena_round_up value (2 ^ k)) /\
   value + (2 ^ k - 1) <= UINT64_MAX).
Proof.
  intros Hk Hv.
  assert (0 < 2 ^ k <= 2 ^ 63) as Hp by (split; [lia|apply Z.pow_le_mono_r; lia]).
  unfold arena_round_up. rewrite (wrap64_small (2 ^ k - 1)) by ilia.
  destruct (Z.le_gt_cases (value + (2 ^ k - 1)) UINT64_MAX) as [Hle|Hgt].
  - right. rewrite (wrap64_small (value + _)) by ilia.
    destruct (Z.ltb_spec (value + (2 ^ k - 1)) value); [lia|].
    rewrite clear_low_pow2 by ilia.
    pose proof (Z.div_mod (value + (2 ^ k - 1)) (2 ^ k) ltac:(lia)).
    pose proof (Z.mod_pos_bound (value + (2 ^ k - 1)) (2 ^ k) ltac:(lia)).
    split; [lia|]. split; [apply Z.divide_factor_r|done].
  - left. split; [|done]. unfold wrap64.
    replace ((value + (2 ^ k - 1)) mod 2 ^ 64) with (value + (2 ^ k - 1) - 2 ^ 64).
    + destruct (Z.ltb_spec (value + (2 ^ k - 1) - 2 ^ 64) value); [done|ilia].
    + symmetry. rewrite <- (Z.mod_small (value + (2 ^ k - 1) - 2 ^ 64) (2 ^ 64)) by ilia.
      rewrite <- (Z_mod_plus_full (value + (2 ^ k - 1) - 2 ^ 64) 1). f_equal. lia.
Qed.

(** * One block *)

Definition bytes_at (b : arena_block) : Z := b_at b + sizeof_arena_block.
Definition span (b : arena_block) : Z * Z := (b_at b, sizeof_arena_block + b_size b).

Record block_ok (b : arena_block) : Prop := {
  block_at : 0 < b_at b;
  block_used : 0 <= b_used b <= b_size b;
  block_end : bytes_at b + b_size b <= UINT64_MAX;
}.

(** [size] bytes at [q] are free in the block and aligned. *)
Definition fits_at (b : arena_block) (size align q : Z) : Prop :=
  (arena_align align | q) /\ bytes_at b + b_used b <= q /\ q + size <= bytes_at b + b_size b.

Ltac sizes := unfold bytes_at, sizeof_arena_block, sizeof_arena, ARENA_CONTROL_ALIGN in *.

Lemma arena_block_bytes_ok b : block_ok b -> arena_block_bytes b = bytes_at b.
Proof. intros [H1 H2 H3]. unfold arena_block_bytes. apply wrap64_small. sizes. ilia. Qed.

Lemma bump_spec b size align :
  block_ok b -> 0 < size <= UINT64_MAX -> pow2_align align ->
  (arena_bump b size (arena_align align) = (0, b) /\ forall q, ~ fits_at b size align q) \/
  exists p, arena_bump b size (arena_align align) = (p, with_used (p + size - bytes_at b) b) /\
    0 < p /\ fits_at b size align p /\ forall q, fits_at b size align q -> p <= q.
Proof.
  intros Hb Hs (k & Hk & Ha). unfold arena_bump, fits_at. rewrite arena_block_bytes_ok, Ha by done.
  destruct Hb as [H1 H2 H3].
  rewrite (wrap64_small (bytes_at b + b_used b)), (wrap64_small (bytes_at b + b_size b)) by (sizes; ilia).
  pose proof (arena_round_up_spec (bytes_at b + b_used b) k Hk ltac:(sizes; ilia)) as Hr.
  set (p := arena_round_up (bytes_at b + b_used b) (2 ^ k)) in *.
  assert (0 < 2 ^ k) by (apply Z.pow_pos_nonneg; lia).
  assert (forall q, (2 ^ k | q) -> bytes_at b + b_used b <= q -> (2 ^ k | p) ->
    p < bytes_at b + b_used b + 2 ^ k -> p <= q) as Hleast.
  { intros q [i ->] Hq [j ->] Hp. assert (j < i + 1) by nia. nia. }
  destruct Hr as [[-> Hov]|(Hp & Hd & Hov)].
  { left. split; [done|]. intros q ([i ->] & Hq & He).
    assert (2 ^ 64 = 2 ^ (64 - k) * 2 ^ k) as Htop by (rewrite <- Z.pow_add_r by lia; f_equal; lia).
    assert (i < 2 ^ (64 - k)) by (apply (Zmult_lt_reg_r _ _ (2 ^ k)); ilia).
    assert ((i + 1) * 2 ^ k <= 2 ^ (64 - k) * 2 ^ k) by (apply Z.mul_le_mono_nonneg_r; lia). ilia. }
  destruct (Z.eqb_spec p 0); [sizes; lia|].
  destruct (Z.le_gt_cases (p + size) (bytes_at b + b_size b)) as [Hfit|Hno].
  - right. exists p. rewrite (wrap64_small (p + size)) by (sizes; ilia).
    destruct (Z.ltb_spec (p + size) p), (Z.ltb_spec (bytes_at b + b_size b) (p + size)); try lia. cbn [orb].
    rewrite wrap64_small by (sizes; ilia). split_and!; [done|sizes; lia|done|lia|done|].
    intros q (Hq & Hu & He). apply Hleast; [done|done|done|lia].
  - left. split.
    + destruct (Z.le_gt_cases (p + size) UINT64_MAX) as [Hle|Hgt].
      * rewrite (wrap64_small (p + size)) by (sizes; ilia).
        destruct (Z.ltb_spec (bytes_at b + b_size b) (p + size)); [|lia]. by rewrite orb_true_r.
      * replace (wrap64 (p + size)) with (p + size - 2 ^ 64).
        { destruct (Z.ltb_spec (p + size - 2 ^ 64) p); [done|ilia]. }
        unfold wrap64. symmetry. rewrite <- (Z.mod_small (p + size - 2 ^ 64) (2 ^ 64)) by (sizes; ilia).
        rewrite <- (Z_mod_plus_full (p + size - 2 ^ 64) 1). f_equal. lia.
    + intros q (Hq & Hu & He). pose proof (Hleast q Hq Hu Hd ltac:(lia)). lia.
Qed.

Lemma grow_want_S n want needed : grow_want (S n) want needed =
  if want <? needed then
    let doubled := wrap64 (want * 2) in
    if doubled <=? want then Some None else grow_want n doubled needed
  else Some (Some want).
Proof. done. Qed.

(** Doubling reaches every request up to half of the address space; 64 rounds
    are enough. *)
Lemma grow_want_spec n want needed :
  0 < want <= UINT64_MAX -> is_u64 needed -> 2 ^ 63 <= want * 2 ^ Z.of_nat n ->
  (grow_want (S n) want needed = Some None /\ 2 ^ 63 < needed) \/
  exists w, grow_want (S n) want needed = Some (Some w) /\ want <= w <= UINT64_MAX /\ needed <= w.
Proof.
  revert want. induction n as [|n IH]; intros want Hw Hn Hreach; rewrite grow_want_S; cbv zeta;
    (destruct (Z.ltb_spec want needed) as [Hlt|]; [|right; exists want; split_and!; [done|lia|lia|lia]]).
  all: destruct (Z.le_gt_cases (2 ^ 63) want) as [Hbig|Hsmall].
  1, 3: left; replace (wrap64 (want * 2)) with (want * 2 - 2 ^ 64);
    [destruct (Z.leb_spec (want * 2 - 2 ^ 64) want); [split; [done|lia]|ilia]|];
    unfold wrap64; rewrite <- (Z.mod_small (want * 2 - 2 ^ 64) (2 ^ 64)) by ilia;
    rewrite <- (Z_mod_plus_full (want * 2 - 2 ^ 64) 1); f_equal; lia.
  { exfalso. change (2 ^ Z.of_nat 0) with 1 in Hreach. lia. }
  rewrite (wrap64_small (want * 2)) by ilia. destruct (Z.leb_spec (want * 2) want); [lia|].
  destruct (IH (want * 2)) as [[He Hb]|(w & He & Hw' & Hf)]; [ilia|done| | |].
  - rewrite Nat2Z.inj_succ, Z.pow_succ_r in Hreach by lia. lia.
  - left. by rewrite He.
  - right. exists w. rewrite He. split_and!; [done|lia|lia|lia].
Qed.

(** * Ranges *)

Definition apart_from (r q : Z * Z) : Prop := apart r.1 r.2 q.1 q.2.

Fixpoint pairwise_apart (rs : list (Z * Z)) : Prop :=
  match rs with
  | [] => True
  | r :: rs => Forall (apart_from r) rs /\ pairwise_apart rs
  end.

Lemma apart_from_sym r q : apart_from r q -> apart_from q r.
Proof. unfold apart_from, apart. lia. Qed.

#[export] Instance pairwise_apart_perm : Proper (Permutation ==> iff) pairwise_apart.
Proof.
  assert (forall l k : list (Z * Z), Permutation l k -> pairwise_apart l -> pairwise_apart k) as H.
  { induction 1 as [|x l k Hp IH|x y l|? ? ? ? IH1 ? IH2]; cbn; [done| | |auto].
    - intros [Hx Hl]. split; [by rewrite <- Hp|auto].
    - rewrite !Forall_cons. intros ((Hyx & Hy) & Hx & Hl). split_and!; [|done..]. by apply apart_from_sym. }
  intros l k Hp. split; apply H; [done|by symmetry].
Qed.

(** * A live region *)

Fixpoint chain (first_at : Z) (bs : list arena_block) : Prop :=
  match bs with
  | [] => False
  | [b] => b_at b = first_at /\ b_owned b = false
  | b :: bs => b_owned b = true /\ chain first_at bs
  end.

(** The [r] range is in the used part of the block. *)
Definition inside (r : Z * Z) (b : arena_block) : Prop :=
  bytes_at b <= r.1 /\ r.1 + r.2 <= bytes_at b + b_used b.

(** The allocations clients still use: apart, and each in a block. *)
Definition clients_ok (bs : list arena_block) (allocs : list (Z * Z)) : Prop :=
  pairwise_apart allocs /\ Forall (fun r => 0 < r.2 /\ Exists (inside r) bs) allocs.

(** What holds of a block of arena [a] whatever its [used] is. *)
Record place_ok {E} {api : AllocApi E} {fresh : AllocFresh E} (e : E) (a : arena_v1) (b : arena_block) : Prop := {
  place_owned : b_owned b = true -> parent a <> 0 /\ live e (b_at b) (sizeof_arena_block + b_size b);
  place_home : b_owned b = false ->
    control a + sizeof_arena <= b_at b /\ bytes_at b + b_size b <= control a + control_bytes a;
}.

Record region_ok {E} {api : AllocApi E} {fresh : AllocFresh E} (e : E) (a : arena_v1) : Prop := {
  r_chain : chain (first a) (blocks a);
  r_blocks : Forall block_ok (blocks a);
  r_apart : pairwise_apart ((control a, sizeof_arena) :: map span (blocks a));
  r_places : Forall (place_ok e a) (blocks a);
  r_control : 0 < control a;
  r_grow : parent a <> 0 -> 0 < block_bytes a <= UINT64_MAX /\ live e (control a) (control_bytes a);
  r_identity : region (record a) = control a /\ r_state (record a) = control a /\
    r_ops (record a) = Some arena_ops;
}.

(** The parent blocks a region holds, in the order it frees them. *)
Definition chain_blocks (a : arena_v1) : list (handle * Z * Z * Z) :=
  map (fun b => (parent a, b_at b, sizeof_arena_block + b_size b, ARENA_CONTROL_ALIGN)) (filter (fun b => b_owned b = true) (blocks a)).
Definition control_block (a : arena_v1) : list (handle * Z * Z * Z) :=
  if parent a =? 0 then [] else [(parent a, control a, control_bytes a, ARENA_CONTROL_ALIGN)].

Section region.
Context {E : Type} {api : AllocApi E} {tot : AllocTotal E} {fresh : AllocFresh E}.
Implicit Types (s : astate E) (e : E) (a : arena_v1).

(** The region [a] is live in [s], with the allocations [allocs] in use, and
    the parents' other blocks are [held]. *)
Record region_in s a allocs held : Prop := {
  in_arena : arena s = Some a;
  in_ok : region_ok (a_env s) a;
  in_clients : clients_ok (blocks a) allocs;
  in_ledger : ledger (a_trace s) = Some (chain_blocks a ++ control_block a ++ held);
}.

Lemma chain_used f u b bs : chain f (b :: bs) -> chain f (with_used u b :: bs).
Proof. by destruct bs. Qed.

(** Only the fill of the newest block changed. *)
Lemma region_used e a b bs u :
  region_ok e a -> blocks a = b :: bs -> 0 <= u <= b_size b ->
  region_ok e (with_blocks (with_used u b :: bs) a).
Proof.
  intros [Hc Hb Ha Hp H0 Hg Hi] Hbs Hu. rewrite Hbs in *.
  apply Forall_cons in Hb as [Hb1 Hb2]. apply Forall_cons in Hp as [[Ho Hh] Hp2].
  split; cbn [blocks control parent first block_bytes control_bytes record with_blocks]; try done.
  - apply Forall_cons. split; [|done]. destruct Hb1. by split.
  - apply Forall_cons. split; [by split|]. eapply Forall_impl; [apply Hp2|]. intros x []. by split.
Qed.

Lemma chain_blocks_used a b bs u :
  blocks a = b :: bs -> chain_blocks (with_blocks (with_used u b :: bs) a) = chain_blocks a.
Proof.
  intros Hbs. unfold chain_blocks. cbn [blocks with_blocks parent]. rewrite Hbs, !filter_cons.
  cbn [with_used b_owned]. by destruct (decide _).
Qed.

Lemma region_nonempty e a : region_ok e a -> exists b bs, blocks a = b :: bs.
Proof. intros [Hc _ _ _ _ _ _]. destruct (blocks a) as [|b bs]; [done|eauto]. Qed.

(** A client of an older block is apart from the newest one. *)
Lemma older_apart e a b bs r :
  region_ok e a -> blocks a = b :: bs -> Exists (inside r) bs -> apart_from (span b) r.
Proof.
  intros [_ Hb Ha _ _ _ _] Hbs (b' & Hin & H1 & H2)%Exists_exists. rewrite Hbs in *.
  cbn [map pairwise_apart] in Ha. destruct Ha as (_ & Ha & _).
  rewrite Forall_forall in Ha. specialize (Ha (span b') ltac:(by apply list_elem_of_fmap_2)).
  rewrite Forall_forall in Hb. destruct (Hb b' ltac:(by right)) as [_ ? _].
  revert Ha. unfold apart_from, apart, span. cbn. sizes. lia.
Qed.
End region.
