(* ===== verification/ArenaOps.v ===== *)
(** What each region operation does, as total-correctness triples over the
    invariant of a live region. *)
From S2P Require Import Prelude Interfaces MapTable MapSpec Arena ArenaSpec.

Section ops.
Context {E : Type} {api : AllocApi E} {tot : AllocTotal E} {fresh : AllocFresh E}.
Implicit Types (s : astate E) (e : E) (a : arena_v1).

(** * Clients of a chain *)

Lemma clients_bump e a b bs allocs size align p :
  region_ok e a -> blocks a = b :: bs -> clients_ok (b :: bs) allocs ->
  fits_at b size align p -> 0 < size ->
  clients_ok (with_used (p + size - bytes_at b) b :: bs) ((p, size) :: allocs).
Proof.
  intros Hr Hbs [Hap Hin] (Hd & Hlo & Hhi) Hs.
  assert (block_ok b) as [B1 B2 B3].
  { pose proof (r_blocks _ _ Hr) as Hb. rewrite Hbs in Hb. by apply Forall_inv in Hb. }
  assert (Forall (fun r => apart_from (p, size) r /\ (0 < r.2 /\
    Exists (inside r) (with_used (p + size - bytes_at b) b :: bs))) allocs) as H.
  { eapply Forall_impl; [apply Hin|]. intros r [Hpos [[H1 H2]|Hold]%Exists_cons].
    - split; [unfold apart_from, apart; cbn; lia|]. split; [done|]. apply Exists_cons_hd.
      unfold inside, with_used, bytes_at in *. cbn. lia.
    - split; [|split; [done|by apply Exists_cons_tl]].
      pose proof (older_apart e a b bs r Hr Hbs Hold) as Hx.
      revert Hx. unfold apart_from, apart, span. cbn. sizes. lia. }
  apply Forall_and in H as [H1 H2]. split; [by split|]. apply Forall_cons. split; [|done].
  split; [done|]. apply Exists_cons_hd. unfold inside, with_used, bytes_at in *. cbn. lia.
Qed.

Lemma clients_grow b bs allocs : clients_ok bs allocs -> clients_ok (b :: bs) allocs.
Proof.
  intros [Ha Hin]. split; [done|]. eapply Forall_impl; [apply Hin|].
  intros r [? ?]. split; [done|by apply Exists_cons_tl].
Qed.

(** * The parent's calls *)

Lemma parent_alloc_spec h size align s :
  wp (parent_alloc h size align)
    (fun p s' => arena s' = arena s /\ memory s' = memory s /\
       a_trace s' = a_trace s ++ [EvAlloc h size align p] /\
       api_alloc h size align (a_env s) = Ok p (a_env s'))
    (fun _ _ => True) s.
Proof.
  pose proof (alloc_total h size align (a_env s)) as Ht.
  unfold parent_alloc, wp, bind, outside in *.
  destruct (api_alloc h size align (a_env s)); done.
Qed.

Lemma parent_free_spec h p size align s :
  wp (parent_free h p size align)
    (fun _ s' => arena s' = arena s /\ memory s' = memory s /\
       a_trace s' = a_trace s ++ [EvFree h p size align] /\
       api_free h p size align (a_env s) = Ok tt (a_env s'))
    (fun _ _ => True) s.
Proof.
  pose proof (free_total h p size align (a_env s)) as Ht.
  unfold parent_free, wp, bind, outside, note, modify in *. cbn [a_env].
  destruct (api_free h p size align (a_env s)) as [[] ?| | |]; done.
Qed.

(** * Allocation *)

Lemma bump_newest_spec s a allocs held size align :
  region_in s a allocs held -> 0 < size <= UINT64_MAX -> pow2_align align ->
  wp (bump_newest size (arena_align align))
    (fun p s' => memory s' = memory s /\ a_env s' = a_env s /\ a_trace s' = a_trace s /\
       exists b bs, blocks a = b :: bs /\
         ((p = 0 /\ s' = s /\ forall q, ~ fits_at b size align q) \/
          (0 < p /\ fits_at b size align p /\ (forall q, fits_at b size align q -> p <= q) /\
           region_in s' (with_blocks (with_used (p + size - bytes_at b) b :: bs) a) ((p, size) :: allocs) held)))
    (fun _ _ => False) s.
Proof.
  intros [Hs Hr Hc Hl] Hsz Hal. unfold bump_newest. apply wp_bind, wp_gets, wp_bind.
  apply (wp_need _ a); [done|]. destruct (region_nonempty _ _ Hr) as (b & bs & Hbs). rewrite Hbs.
  assert (block_ok b) as Hb.
  { pose proof (r_blocks _ _ Hr) as Hb. rewrite Hbs in Hb. by apply Forall_inv in Hb. }
  destruct (bump_spec b size align Hb Hsz Hal) as [[-> Hno]|(p & -> & Hp & Hfit & Hleast)];
    apply wp_bind, wp_modify, wp_ret; (split_and!; [done..|]); exists b, bs; (split; [done|]).
  - left. split_and!; [done| |done]. destruct s; cbn in *. subst. f_equal. f_equal. by destruct a; cbn in *; subst.
  - right. split_and!; [done..|]. rewrite Hbs in Hc.
    destruct Hb as [B1 B2 B3]. destruct (Hfit) as (_ & F2 & F3).
    split; cbn [arena a_env a_trace]; [done| | |].
    + apply region_used; [done|done|lia].
    + eapply clients_bump; [done..|lia].
    + rewrite (chain_blocks_used _ b bs) by done. done.
Qed.

Definition grown a want storage : arena_v1 :=
  ArenaV1 (control a) (record a) (parent a)
    (ArenaBlock storage (wrap64 (want - sizeof_arena_block)) 0 true :: blocks a) (first a) want (control_bytes a).

Lemma region_grown e e' a want storage :
  region_ok e a -> parent a <> 0 -> sizeof_arena_block < want <= UINT64_MAX -> storage <> 0 ->
  api_alloc (parent a) want ARENA_CONTROL_ALIGN e = Ok storage e' ->
  region_ok e' (grown a want storage).
Proof.
  intros [Hc Hb Ha Hp H0 Hg Hi] Hpar Hw Hst Hrun.
  destruct (alloc_fresh (parent a) want ARENA_CONTROL_ALIGN e storage e') as [Hkeep Hnew];
    [sizes; lia|done|done|]. destruct (Hnew Hst) as (Hlive & _ & Hpos & Hend & Hap).
  destruct (Hg Hpar) as [_ Hctl]. unfold grown. rewrite wrap64_small by (sizes; ilia).
  split; cbn [blocks control parent first block_bytes control_bytes record map span b_at b_size].
  - destruct (blocks a); [done|]. done.
  - apply Forall_cons. split; [split; sizes; cbn; lia|done].
  - cbn [pairwise_apart] in *. destruct Ha as [Ha1 Ha2].
    assert (control a + sizeof_arena <= control a + control_bytes a) as Hroom.
    { clear -Hc Hp Hb. revert Hp Hb. induction (blocks a) as [|b bs IH]; [done|].
      intros [[_ Hh] Hp]%Forall_cons [[? ? ?] Hb]%Forall_cons. cbn [chain] in Hc.
      destruct bs; [|apply IH; [apply Hc|done|done]]. destruct (Hh (proj2 Hc)). sizes. lia. }
    split_and!; [apply Forall_cons; split; [|done]|clear Ha1 Ha2|done..].
    + specialize (Hap _ _ Hctl). revert Hap. unfold apart_from, apart. cbn. lia.
    + apply Forall_map. rewrite Forall_forall in *. intros b Hin.
      destruct (Hp b Hin) as [Ho Hh]. unfold apart_from, span. cbn.
      destruct (b_owned b); [specialize (Hap _ _ (proj2 (Ho eq_refl))); revert Hap; unfold apart; lia|].
      specialize (Hap _ _ Hctl). destruct (Hh eq_refl). destruct (Hb b Hin).
      revert Hap. unfold apart. sizes. lia.
  - apply Forall_cons. split; [split; cbn; [intros _; split; [done|]|done]|].
    { by replace (sizeof_arena_block + (want - sizeof_arena_block)) with want by lia. }
    eapply Forall_impl; [apply Hp|]. intros b [Ho Hh]. split; cbn; [|done].
    intros Hb'. destruct (Ho Hb'). auto.
  - done.
  - intros _. split; [sizes; lia|auto].
  - done.
Qed.

(** What a successful growth leaves: the same clients, and an unused newest
    block with room for any placement of the request. *)
Definition roomy size align a : Prop :=
  exists nb bs, blocks a = nb :: bs /\ b_used nb = 0 /\ size + align <= b_size nb /\
    bytes_at nb + b_size nb <= UINT64_MAX.

(** Why a region cannot grow. *)
Definition refused s s' a size align : Prop :=
  parent a = 0 \/ 2 ^ 63 < size + align + sizeof_arena_block \/
  exists want, a_trace s' = a_trace s ++ [EvAlloc (parent a) want ARENA_CONTROL_ALIGN 0].

Lemma region_env s s' a allocs held :
  region_in s a allocs held -> arena s' = arena s -> region_ok (a_env s') a ->
  ledger (a_trace s') = ledger (a_trace s) -> region_in s' a allocs held.
Proof. intros [? ? ? ?] ? ? ?. split; [congruence|done|done|congruence]. Qed.

Lemma ledger_refused evs h size align :
  ledger (evs ++ [EvAlloc (K:=Empty_set) (V:=Empty_set) h size align 0]) = ledger evs.
Proof. by rewrite ledger_app. Qed.

Lemma region_later e e' a : (forall q n, live e q n -> live e' q n) -> region_ok e a -> region_ok e' a.
Proof.
  intros Hk [Hc Hb Ha Hp H0 Hg Hi]. split; [done..| |done| |done].
  - eapply Forall_impl; [apply Hp|]. intros b [Ho Hh]. split; [|done]. intros Hb'. destruct (Ho Hb'). auto.
  - intros Hpar. destruct (Hg Hpar). auto.
Qed.

Lemma arena_grow_spec s a allocs held size k :
  region_in s a allocs held -> 0 < size <= UINT64_MAX -> 0 <= k <= 63 ->
  wp (arena_grow a size (2 ^ k))
    (fun ok s' => memory s' = memory s /\ if (ok : bool) then exists a', region_in s' a' allocs held /\ roomy size (2 ^ k) a' /\
           control a' = control a /\ parent a' = parent a
       else region_in s' a allocs held /\ refused s s' a size (2 ^ k))
    (fun _ _ => True) s.
Proof.
  intros Hin Hsz Hk. pose proof Hin as [Hs Hr Hc Hl]. unfold arena_grow.
  assert (0 < 2 ^ k <= 2 ^ 63) as Hp by (split; [apply Z.pow_pos_nonneg; lia|apply Z.pow_le_mono_r; lia]).
  destruct (Z.eqb_spec (parent a) 0) as [H0|H0].
  { apply wp_ret. split; [done|]. split; [done|by left]. }
  destruct (r_grow _ _ Hr H0) as [Hbb _].
  destruct (Z.le_gt_cases (size + 2 ^ k + sizeof_arena_block) UINT64_MAX) as [Hle|Hgt].
  2: { replace (wrap64 (size + 2 ^ k + sizeof_arena_block)) with (size + 2 ^ k + sizeof_arena_block - 2 ^ 64).
    - destruct (Z.ltb_spec (size + 2 ^ k + sizeof_arena_block - 2 ^ 64) size); [|sizes; lia].
      apply wp_ret. split; [done|]. split; [done|]. right. left. ilia.
    - unfold wrap64. rewrite <- (Z.mod_small (size + 2 ^ k + sizeof_arena_block - 2 ^ 64) (2 ^ 64)) by (sizes; ilia).
      rewrite <- (Z_mod_plus_full (size + 2 ^ k + sizeof_arena_block - 2 ^ 64) 1). f_equal. lia. }
  rewrite wrap64_small by (sizes; ilia).
  destruct (Z.ltb_spec (size + 2 ^ k + sizeof_arena_block) size); [sizes; lia|].
  destruct (grow_want_spec 63 (block_bytes a) (size + 2 ^ k + sizeof_arena_block)) as [[He Hb]|(w & He & Hw & Hn)];
    [done|sizes; ilia|lia| |].
  all: apply wp_bind; eapply wp_need; [apply He|].
  { apply wp_ret. split; [done|]. split; [done|]. right. by left. }
  apply wp_bind. eapply wp_conseq; [apply parent_alloc_spec| |done].
  intros p s1 (Ha1 & Hm1 & Ht1 & Hrun). cbn beta.
  destruct (Z.eqb_spec p 0) as [->|Hp0].
  - apply wp_ret. split; [done|]. split; [|right; right; eauto].
    apply (region_env s s1); [done|done| |by rewrite Ht1, ledger_refused].
    eapply region_later, Hr. eapply alloc_fresh; [| |apply Hrun]; [lia|done].
  - destruct (alloc_fresh (parent a) w ARENA_CONTROL_ALIGN (a_env s) p (a_env s1)) as [_ Hnew]; [lia|done|done|].
    destruct (Hnew Hp0) as (_ & _ & Hpos & Hend & _).
    apply wp_bind, wp_modify, wp_ret. split; [done|]. exists (grown a w p).
    split; [|split; [|done]].
    + split; [done| |by apply clients_grow|].
      * eapply region_grown; [apply Hr|done|sizes; lia|done|apply Hrun].
      * cbn [a_trace]. rewrite Ht1, ledger_app, Hl. unfold ledger_from. cbn [foldl ledger_step].
        destruct (Z.eqb_spec p 0); [done|]. unfold chain_blocks, grown. cbn [blocks parent].
        rewrite filter_cons, decide_True by done. cbn [map b_at b_size fmap option_fmap option_map].
        rewrite wrap64_small by (sizes; ilia).
        replace (sizeof_arena_block + (w - sizeof_arena_block)) with w by lia. done.
    + eexists _, _. split; [done|]. cbn. rewrite wrap64_small by (sizes; ilia). sizes. cbn. lia.
Qed.

(** The allocation of a region: what a client is promised. *)
Definition alloc_post s a allocs held size align (p : Z) s' : Prop :=
  memory s' = memory s /\
  exists a', control a' = control a /\ parent a' = parent a /\
    if decide (p = 0) then
      region_in s' a' allocs held /\
      (size = 0 \/
       (refused s s' a size (arena_align align) /\
       forall b, head (blocks a) = Some b -> forall q, ~ fits_at b size align q))
    else
      region_in s' a' ((p, size) :: allocs) held /\ 0 < size /\ (arena_align align | p) /\ 0 < p.

Lemma arena_alloc_spec s a allocs held size align :
  region_in s a allocs held -> is_u64 size -> pow2_align align ->
  wp (arena_alloc size align) (alloc_post s a allocs held size align) (fun _ _ => True) s.
Proof.
  intros Hin Hsz Hal. unfold arena_alloc. apply wp_bind, wp_gets. rewrite (in_arena _ _ _ _ Hin).
  destruct (Z.eqb_spec size 0) as [->|Hn0].
  { apply wp_ret. split; [done|]. exists a. split_and!; [done..|]. rewrite decide_True by done. auto. }
  assert (0 < size <= UINT64_MAX) as Hs by ilia.
  apply wp_bind. eapply wp_conseq; [by apply bump_newest_spec|clear Hsz|done].
  intros p s1 (Hm1 & He1 & Ht1 & b & bs & Hbs & [(-> & -> & Hno)|(Hp & Hfit & _ & Hin1)]); cbn beta.
  2: { destruct (Z.eqb_spec p 0); [lia|]. cbn [negb]. apply wp_ret. split; [done|]. eexists. rewrite decide_False by done.
    split; [|split; [|split; [apply Hin1|]]]; [done..|]. split; [lia|]. split; [apply Hfit|done]. }
  change (negb (0 =? 0)) with false. cbn iota. apply wp_bind.
  destruct Hal as (k & Hk & Hal). rewrite Hal.
  eapply wp_conseq; [by apply (arena_grow_spec s a allocs held size k)| |done].
  intros [|] s2 [Hm2 H2]; cbn [negb].
  - destruct H2 as (a2 & Hin2 & (nb & nbs & Hnb & Hu & Hroom & Hend) & Hc2 & Hp2).
    rewrite <- Hal. eapply wp_conseq; [apply (bump_newest_spec s2 a2); [done|lia|by exists k]| |done].
    intros p s3 (Hm3 & He3 & Ht3 & b3 & bs3 & Hbs3 & H3). rewrite Hnb in Hbs3. injection Hbs3 as <- <-.
    split; [congruence|]. destruct H3 as [(-> & -> & Hfull)|(Hp & Hfit & _ & Hin3)].
    + exfalso. destruct (arena_round_up_spec (bytes_at nb) k Hk) as [[_ Hov]|(Hr & Hd & _)].
      * assert (block_ok nb) as [? ? ?].
        { pose proof (r_blocks _ _ (in_ok _ _ _ _ Hin2)) as Hb. rewrite Hnb in Hb. by apply Forall_inv in Hb. }
        sizes. lia.
      * lia.
      * apply (Hfull (arena_round_up (bytes_at nb) (2 ^ k))). split; [by rewrite Hal|]. lia.
    + eexists. rewrite decide_False by lia. split; [|split; [|split; [apply Hin3|]]]; [done..|]. split; [lia|]. split; [apply Hfit|done].
  - apply wp_ret. split; [done|]. exists a. rewrite decide_True by done. destruct H2 as [Hin2 Href].
    split_and!; [done..|]. right. rewrite Hal. split; [done|]. rewrite Hbs. cbn. intros b' [= <-]. done.
Qed.

(** * The newest allocation *)

Lemma head_ok e a b bs : region_ok e a -> blocks a = b :: bs -> block_ok b.
Proof. intros Hr Hbs. pose proof (r_blocks _ _ Hr) as Hb. rewrite Hbs in Hb. by apply Forall_inv in Hb. Qed.

Lemma clients_forget bs r allocs : clients_ok bs (r :: allocs) -> clients_ok bs allocs.
Proof. intros [[_ Ha] [_ Hi]%Forall_cons]. by split. Qed.

Lemma clients_shrink bs p old new allocs :
  clients_ok bs ((p, old) :: allocs) -> 0 < new <= old -> clients_ok bs ((p, new) :: allocs).
Proof.
  intros [[Hf Ha] [[_ Hx] Hi]%Forall_cons] Hn. split.
  - split; [|done]. eapply Forall_impl; [apply Hf|]. intros r. unfold apart_from, apart. cbn. lia.
  - apply Forall_cons. split; [|done]. split; [cbn; lia|]. eapply Exists_impl; [apply Hx|].
    intros b. unfold inside. cbn. lia.
Qed.

(** The allocation that ends where the newest block's bytes in use end. *)
Definition at_top a p old : Prop :=
  exists b bs, blocks a = b :: bs /\ p + old = bytes_at b + b_used b.

(** A client's range lies inside one block. *)
Lemma client_range e a p n allocs :
  region_ok e a -> clients_ok (blocks a) ((p, n) :: allocs) -> 0 < p /\ 0 < n /\ p + n <= UINT64_MAX.
Proof.
  intros Hr [_ [[Hn Hx] _]%Forall_cons]. cbn in Hn.
  apply Exists_exists in Hx as (b & Hb & H1 & H2). cbn in H1, H2.
  pose proof (r_blocks _ _ Hr) as Hok. rewrite Forall_forall in Hok. destruct (Hok b Hb). sizes. lia.
Qed.

Lemma arena_is_top_spec e a p n allocs :
  region_ok e a -> clients_ok (blocks a) ((p, n) :: allocs) ->
  arena_is_top a p n = true <-> at_top a p n.
Proof.
  intros Hr Hc. destruct (client_range e a p n allocs Hr Hc) as (Hp & Hn & Hend).
  destruct (region_nonempty e a Hr) as (b & bs & Hbs). destruct (head_ok _ _ _ _ Hr Hbs) as [B1 B2 B3] eqn:Hb.
  unfold arena_is_top, at_top. rewrite Hbs. destruct (Z.eqb_spec p 0); [lia|].
  rewrite arena_block_bytes_ok by done. rewrite !wrap64_small by (sizes; ilia). rewrite Z.eqb_eq.
  split; [by eauto|]. by intros (? & ? & [= <- <-] & ?).
Qed.

Lemma top_is_newest e a b bs p n allocs :
  region_ok e a -> blocks a = b :: bs -> clients_ok (blocks a) ((p, n) :: allocs) ->
  p + n = bytes_at b + b_used b -> bytes_at b <= p.
Proof.
  intros Hr Hbs [_ [[Hn Hx] _]%Forall_cons] Htop. rewrite Hbs in Hx. cbn in Hn.
  destruct (head_ok _ _ _ _ Hr Hbs) as [? ? ?].
  apply Exists_cons in Hx as [[H1 _]|Hold]; [done|].
  pose proof (older_apart e a b bs (p, n) Hr Hbs Hold) as Hap.
  revert Hap. unfold apart_from, apart, span. cbn. sizes. lia.
Qed.

(** The others keep clear of the top allocation's part of the block. *)
Lemma top_others e a b bs p n allocs u :
  region_ok e a -> blocks a = b :: bs -> clients_ok (blocks a) ((p, n) :: allocs) ->
  p + n = bytes_at b + b_used b -> p <= bytes_at b + u ->
  Forall (fun r => (r.1 + r.2 <= p \/ apart_from (span b) r) /\
    0 < r.2 /\ Exists (inside r) (with_used u b :: bs)) allocs.
Proof.
  intros Hr Hbs [[Hf _] [_ Hi]%Forall_cons] Htop Hu. rewrite Hbs in Hi.
  rewrite Forall_forall in *. intros r Hin. destruct (Hi r Hin) as [Hpos Hx].
  specialize (Hf r Hin). apply Exists_cons in Hx as [[H1 H2]|Hold].
  - revert Hf. unfold apart_from, apart. cbn. intros Hf. assert (r.1 + r.2 <= p) by lia.
    split; [by left|]. split; [done|]. apply Exists_cons_hd. unfold inside, with_used, bytes_at in *. cbn. lia.
  - split; [right; by eapply older_apart|]. split; [done|by apply Exists_cons_tl].
Qed.

Lemma clients_top_freed e a b bs p n allocs :
  region_ok e a -> blocks a = b :: bs -> clients_ok (blocks a) ((p, n) :: allocs) ->
  p + n = bytes_at b + b_used b -> clients_ok (with_used (b_used b - n) b :: bs) allocs.
Proof.
  intros Hr Hbs Hc Htop. split; [apply Hc|].
  eapply Forall_impl; [apply (top_others e a b bs p n allocs (b_used b - n)); [done..|lia]|]. by intros r [_ ?].
Qed.

Lemma clients_top_resized e a b bs p n new allocs :
  region_ok e a -> blocks a = b :: bs -> clients_ok (blocks a) ((p, n) :: allocs) ->
  p + n = bytes_at b + b_used b -> 0 < new -> p + new <= bytes_at b + b_size b ->
  clients_ok (with_used (p + new - bytes_at b) b :: bs) ((p, new) :: allocs).
Proof.
  intros Hr Hbs Hc Htop Hn Hfit.
  pose proof (top_is_newest _ _ _ _ _ _ _ Hr Hbs Hc Htop) as Hlo.
  pose proof (top_others _ _ _ _ p n allocs (p + new - bytes_at b) Hr Hbs Hc Htop ltac:(lia)) as Ho.
  split; [split; [|apply Hc]|apply Forall_cons; split].
  - eapply Forall_impl; [apply Ho|]. intros r [[H|H] _]; revert H; unfold apart_from, apart, span; cbn; sizes; lia.
  - split; [done|]. apply Exists_cons_hd. unfold inside, with_used, bytes_at in *. cbn. lia.
  - eapply Forall_impl; [apply Ho|]. by intros r [_ ?].
Qed.

(** Giving an allocation back: the clients that stay, whether or not its
    bytes can be used again. *)
Lemma arena_free_spec s a p n allocs held align :
  region_in s a ((p, n) :: allocs) held ->
  wp (arena_free p n align)
    (fun _ s' => memory s' = memory s /\ a_env s' = a_env s /\ a_trace s' = a_trace s /\
       exists a', control a' = control a /\ parent a' = parent a /\ region_in s' a' allocs held /\
         (at_top a p n -> forall b bs, blocks a = b :: bs -> blocks a' = with_used (b_used b - n) b :: bs) /\
         (~ at_top a p n -> a' = a))
    (fun _ _ => False) s.
Proof.
  intros [Hs Hr Hc Hl]. unfold arena_free. apply wp_bind, wp_gets. rewrite Hs.
  destruct (client_range _ a p n allocs Hr Hc) as (Hp & Hn & Hend).
  destruct (Z.eqb_spec p 0); [lia|].
  pose proof (arena_is_top_spec _ a p n allocs Hr Hc) as Htop.
  destruct (arena_is_top a p n).
  - destruct (proj1 Htop eq_refl) as (b & bs & Hbs & He). rewrite Hbs.
    destruct (head_ok _ _ _ _ Hr Hbs) as [B1 B2 B3].
    pose proof (top_is_newest _ _ _ _ _ _ _ Hr Hbs Hc He).
    rewrite wrap64_small by (sizes; ilia).
    apply wp_modify. split_and!; [done..|]. eexists. split; [|split; [|split; [split|]]]; [| |done|..]; [done..| | | |].
    + apply region_used; [done..|lia].
    + cbn [blocks with_blocks]. by eapply clients_top_freed.
    + cbn [a_trace]. by rewrite (chain_blocks_used _ b bs).
    + split; [by intros _ ? ? [= <- <-]|]. intros Hno. by destruct Hno; exists b, bs.
  - apply wp_ret. split_and!; [done..|]. exists a. split_and!; [done|done| | |done].
    + split; [done..| |done]. by eapply clients_forget.
    + intros H. by apply Htop in H.
Qed.

(** * Resizing *)

Lemma copy_memory_spec dst src n s :
  apart dst n src n ->
  wp (copy_memory dst src n)
    (fun _ s' => arena s' = arena s /\ a_env s' = a_env s /\ a_trace s' = a_trace s /\
       (forall i, 0 <= i < n -> memory s' (dst + i) = memory s (src + i)) /\
       (forall x, ~ (dst <= x < dst + n) -> memory s' x = memory s x))
    (fun _ _ => False) s.
Proof.
  intros Hap. unfold copy_memory. apply wp_if; intros Hb.
  - apply wp_modify. split_and!; [done..| |]; cbn [memory].
    + intros i Hi. destruct (Z.leb_spec dst (dst + i)), (Z.ltb_spec (dst + i) (dst + n)); try lia. cbn. f_equal. lia.
    + intros x Hx. destruct (Z.leb_spec dst x), (Z.ltb_spec x (dst + n)); cbn; try done. lia.
  - exfalso. apply orb_false_iff in Hb as [?%Z.leb_gt ?%Z.leb_gt]. unfold apart in Hap. lia.
Qed.

(** The newest allocation can take the new size where it is. *)
Definition room_above a p old new : Prop :=
  at_top a p old /\ exists b, head (blocks a) = Some b /\ p + new <= bytes_at b + b_size b.

(** What resizing [(p, old)] to [new] bytes promises its client and the
    others. *)
Definition resize_post s a p old new allocs held align (q : Z) s' : Prop :=
  exists a', control a' = control a /\ parent a' = parent a /\
  if decide (q = 0) then
    region_in s' a' ((p, old) :: allocs) held /\ memory s' = memory s /\
    (new = 0 \/ (old < new /\ refused s s' a new (arena_align align)))
  else
    region_in s' a' ((q, new) :: allocs) held /\
    (forall i, 0 <= i < Z.min old new -> memory s' (q + i) = memory s (p + i)) /\
    (forall r x, r ∈ allocs -> r.1 <= x < r.1 + r.2 -> memory s' x = memory s x) /\
    (new <= old \/ room_above a p old new -> q = p) /\
    (q = p \/ (arena_align align | q)).

Lemma resize_move_spec s a p old new allocs held align :
  region_in s a ((p, old) :: allocs) held -> 0 < new <= UINT64_MAX -> pow2_align align ->
  ~ room_above a p old new ->
  wp (resize_move p old new align) (resize_post s a p old new allocs held align) (fun _ _ => True) s.
Proof.
  intros Hin Hn Hal Hno. pose proof Hin as [Hs Hr Hc Hl].
  destruct (client_range _ a p old allocs Hr Hc) as (Hp & Ho & Hend).
  unfold resize_move. destruct (Z.leb_spec new old) as [Hle|Hgt].
  { apply wp_ret. exists a. split_and!; [done..|]. rewrite decide_False by lia.
    split_and!; [|done..|by left].
    split; [done..| |done]. eapply clients_shrink; [done|lia]. }
  apply wp_bind. eapply wp_conseq; [apply (arena_alloc_spec s a); [done|ilia|done]| |done].
  intros q s1 (Hm & a1 & Hc1 & Hp1 & H1). cbn beta.
  destruct (decide (q = 0)) as [->|Hq].
  { apply wp_ret. exists a1. split_and!; [done..|]. rewrite decide_True by done.
    destruct H1 as [H1 [?|[Href _]]]; [lia|]. split_and!; [done..|]. by right. }
  destruct (Z.eqb_spec q 0); [done|]. destruct H1 as (Hin1 & _ & Hd & Hq0).
  destruct (Z.ltb_spec old new); [|lia].
  pose proof (in_clients _ _ _ _ Hin1) as [[Hap [Hap2 Hap3]] Hins].
  apply Forall_cons in Hap as [Hqp Hqo]. unfold apart_from, apart in Hqp. cbn in Hqp.
  apply wp_bind. eapply wp_conseq; [apply copy_memory_spec; unfold apart; lia| |done].
  intros _ s2 (Ha2 & He2 & Ht2 & Hcp & Hkeep). apply wp_ret. exists a1.
  split_and!; [done..|]. rewrite decide_False by done. rewrite Z.min_l by lia. split_and!.
  - destruct Hin1 as [I1 I2 I3 I4]. split; [congruence|by rewrite He2| |by rewrite Ht2].
    split; [by split|]. by apply Forall_cons in Hins as [? [_ ?]%Forall_cons]; apply Forall_cons.
  - intros i Hi. rewrite Hcp by done. by rewrite Hm.
  - intros r x Hr' Hx. rewrite Forall_forall in Hqo. specialize (Hqo r Hr').
    unfold apart_from, apart in Hqo. cbn in Hqo. rewrite Hkeep by lia. by rewrite Hm.
  - intros [?|?]; [lia|done].
  - by right.
Qed.

Lemma arena_resize_spec s a p old new allocs held align :
  region_in s a ((p, old) :: allocs) held -> is_u64 new -> pow2_align align ->
  wp (arena_resize p old new align) (resize_post s a p old new allocs held align) (fun _ _ => True) s.
Proof.
  intros Hin Hn Hal. pose proof Hin as [Hs Hr Hc Hl].
  destruct (client_range _ a p old allocs Hr Hc) as (Hp & Ho & Hend).
  unfold arena_resize. apply wp_bind, wp_gets. rewrite Hs.
  destruct (Z.eqb_spec new 0) as [->|Hn0].
  { apply wp_ret. exists a. split_and!; [done..|]. rewrite decide_True by done. auto. }
  assert (0 < new <= UINT64_MAX) as Hnew by ilia.
  destruct (Z.eqb_spec p 0); [lia|].
  pose proof (arena_is_top_spec _ a p old allocs Hr Hc) as Htop.
  destruct (arena_is_top a p old).
  2: { apply resize_move_spec; [done..|]. intros [Ht _]. by apply Htop in Ht. }
  destruct (proj1 Htop eq_refl) as (b & bs & Hbs & He). rewrite Hbs.
  pose proof (head_ok _ _ _ _ Hr Hbs) as Hb. pose proof Hb as [B1 B2 B3].
  rewrite arena_block_bytes_ok by done. rewrite (wrap64_small (bytes_at b + b_size b)) by (sizes; ilia).
  pose proof (top_is_newest _ _ _ _ _ _ _ Hr Hbs Hc He) as Hlo.
  apply wp_if; intros Hg.
  2: { apply resize_move_spec; [done..|]. intros (_ & b' & Hb' & Hfit). rewrite Hbs in Hb'.
    injection Hb' as <-. revert Hg.
    rewrite wrap64_small by (sizes; ilia). destruct (Z.leb_spec p (p + new)), (Z.leb_spec (p + new) (bytes_at b + b_size b));
      (done || lia). }
  apply andb_true_iff in Hg as [Hg1%Z.leb_le Hg2%Z.leb_le].
  assert (p + new <= UINT64_MAX) as Hov.
  { destruct (Z.le_gt_cases (p + new) UINT64_MAX); [done|]. exfalso. revert Hg1. unfold wrap64.
    replace ((p + new) mod 2 ^ 64) with (p + new - 2 ^ 64); [ilia|].
    rewrite <- (Z.mod_small (p + new - 2 ^ 64) (2 ^ 64)) by ilia.
    rewrite <- (Z_mod_plus_full (p + new - 2 ^ 64) 1). f_equal. lia. }
  rewrite (wrap64_small (p + new)) in * by ilia. rewrite wrap64_small by (sizes; ilia).
  apply wp_bind, wp_modify, wp_ret. eexists. rewrite decide_False by lia.
  split; [|split; [|split; [split|]]]; [| |done|..]; [done..| | | |].
  - apply region_used; [done..|lia].
  - cbn [blocks with_blocks]. eapply clients_top_resized; [done..|lia|done].
  - cbn [a_trace]. by rewrite (chain_blocks_used _ b bs).
  - split_and!; [done..|by left].
Qed.
End ops.
