(* ===== verification/ArenaLife.v ===== *)
(** The life of a region: opening over a provider or over a buffer, ending its
    allocations with a reset, and releasing every parent block on drop. *)
From S2P Require Import Prelude Interfaces MapTable MapSpec Arena ArenaSpec ArenaOps.

Section life.
Context {E : Type} {api : AllocApi E} {tot : AllocTotal E} {fresh : AllocFresh E}.
Implicit Types (s : astate E) (e : E) (a : arena_v1).

(** * Releasing the chain *)

Definition owned_blocks (h : handle) (bs : list arena_block) : list (handle * Z * Z * Z) :=
  map (fun b => (h, b_at b, sizeof_arena_block + b_size b, ARENA_CONTROL_ALIGN))
    (filter (fun b => b_owned b = true) bs).

Lemma release_loop_spec h bs s held :
  Forall block_ok bs -> Forall (fun b => b_owned b = true -> h <> 0) bs ->
  ledger (a_trace s) = Some (owned_blocks h bs ++ held) ->
  wp (release_loop h bs)
    (fun _ s' => arena s' = arena s /\ memory s' = memory s /\ ledger (a_trace s') = Some held /\
       forall q n, Forall (fun b => b_owned b = true -> b_at b <> q) bs -> live (a_env s) q n -> live (a_env s') q n)
    (fun _ _ => True) s.
Proof.
  revert s. induction bs as [|b bs IH]; intros s; [by intros|].
  intros [[B1 B2 B3] Hb]%Forall_cons [Hh Hp]%Forall_cons. unfold owned_blocks. rewrite filter_cons.
  intros Hl. cbn [release_loop]. apply wp_bind. destruct (b_owned b) eqn:Hob.
  - rewrite decide_True in Hl by done. specialize (Hh eq_refl). destruct (Z.eqb_spec h 0) as [|_]; [done|]. cbn.
    rewrite wrap64_small by (sizes; ilia). eapply wp_conseq; [apply parent_free_spec| |done].
    intros _ s1 (Ha & Hm & Ht & Hrun). eapply wp_conseq; [apply IH; [done..|]| |done].
    + rewrite Ht, ledger_app, Hl. unfold ledger_from. cbn [map app foldl ledger_step mbind option_bind].
      apply release_head.
    + intros _ s2 (Ha2 & Hm2 & Hl2 & Hk). split_and!; [congruence|congruence|done|].
      intros q n [Hq Hqs]%Forall_cons Hlive. apply Hk; [done|]. eapply free_keeps; [done|done|].
      intros ->. by apply (Hq Hob).
  - rewrite decide_False in Hl by done. cbn [andb]. apply wp_ret.
    eapply wp_conseq; [by apply IH| |done].
    intros _ s2 (Ha2 & Hm2 & Hl2 & Hk). split_and!; [done..|].
    intros q n [_ Hqs]%Forall_cons. auto.
Qed.

Lemma chain_last f bs : chain f bs -> exists pre lst, bs = pre ++ [lst] /\
  Forall (fun b => b_owned b = true) pre /\ b_at lst = f /\ b_owned lst = false.
Proof.
  induction bs as [|b [|b' bs] IH]; [done| |].
  - intros [? ?]. by exists [], b.
  - intros [Ho Hc]. destruct (IH Hc) as (pre & lst & -> & ? & ? & ?). exists (b :: pre), lst.
    split_and!; [done| |done..]. by constructor.
Qed.

Lemma pairwise_apart_app l k :
  pairwise_apart (l ++ k) -> forall r q, r ∈ l -> q ∈ k -> apart_from r q.
Proof.
  induction l as [|x l IH]; intros H r q Hr Hq; [by apply not_elem_of_nil in Hr|].
  cbn in H. destruct H as [Hx Hl]. rewrite Forall_forall in Hx.
  apply elem_of_cons in Hr as [->|Hr]; [apply Hx, elem_of_app; by right|by apply IH].
Qed.

(** The first block is the only one at its address. *)
Lemma first_block e a : region_ok e a -> exists pre lst,
  blocks a = pre ++ [lst] /\ Forall (fun b => b_owned b = true) pre /\ b_owned lst = false /\
  b_at lst = first a /\ Forall (fun b => b_at b <> first a) pre.
Proof.
  intros [Hc Hb Ha Hp H0 _ _]. destruct (chain_last _ _ Hc) as (pre & lst & Hbs & Ho & Hat & Hn).
  exists pre, lst. split_and!; [done..|]. rewrite Hbs in *. destruct Ha as [_ Ha]. rewrite map_app in Ha.
  rewrite Forall_forall in *. intros b Hin He.
  pose proof (pairwise_apart_app _ _ Ha (span b) (span lst) ltac:(by apply list_elem_of_fmap_2) ltac:(by left)) as Hap.
  destruct (Hb b) as [? ? ?]; [apply elem_of_app; by left|].
  destruct (Hb lst) as [? ? ?]; [apply elem_of_app; right; by left|].
  revert Hap. unfold apart_from, apart, span. cbn. sizes. lia.
Qed.

Lemma find_first a pre lst :
  blocks a = pre ++ [lst] -> b_at lst = first a -> Forall (fun b => b_at b <> first a) pre ->
  List.find (fun b => b_at b =? first a) (blocks a) = Some lst.
Proof.
  intros -> Hl. induction 1 as [|b pre Hb _ IH]; cbn; [by rewrite Hl, Z.eqb_refl|].
  by destruct (Z.eqb_spec (b_at b) (first a)).
Qed.

Lemma chain_blocks_none h bs : Forall (fun b => b_owned b = false) bs -> owned_blocks h bs = [].
Proof.
  unfold owned_blocks. induction 1 as [|b bs Hb _ IH]; [done|]. rewrite filter_cons, decide_False by (by rewrite Hb). done.
Qed.

Lemma owned_parent e a : region_ok e a -> Forall (fun b => b_owned b = true -> parent a <> 0) (blocks a).
Proof. intros Hr. eapply Forall_impl; [apply (r_places _ _ Hr)|]. intros b [Ho _] H. by apply Ho. Qed.

Lemma owned_not_control e a :
  region_ok e a -> Forall (fun b => b_owned b = true -> b_at b <> control a) (blocks a).
Proof.
  intros [_ Hb [Ha _] _ _ _ _]. rewrite Forall_map in Ha. rewrite Forall_forall in *.
  intros b Hin _ He. specialize (Ha b Hin). destruct (Hb b Hin).
  revert Ha. unfold apart_from, apart, span. cbn. sizes. lia.
Qed.

(** The region after a reset: its first block, empty. *)
Definition is_reset a a' : Prop :=
  control a' = control a /\ parent a' = parent a /\ block_bytes a' = block_bytes a /\
  record a' = record a /\ exists f, f ∈ blocks a /\ b_at f = first a /\ blocks a' = [with_used 0 f].

Lemma region_reset e e' a pre lst :
  region_ok e a -> blocks a = pre ++ [lst] -> b_owned lst = false -> b_at lst = first a ->
  (parent a <> 0 -> live e' (control a) (control_bytes a)) ->
  region_ok e' (with_blocks [with_used 0 lst] a).
Proof.
  intros [Hc Hb Ha Hp H0 Hg Hi] Hbs Hn Hat Hk. rewrite Hbs in *.
  apply Forall_app in Hb as [_ [[B1 B2 B3] _]%Forall_cons].
  apply Forall_app in Hp as [_ [[_ Hh] _]%Forall_cons]. destruct (Hh Hn) as [Hc1 Hc2].
  split; cbn [blocks control parent first block_bytes control_bytes record with_blocks]; try done.
  - apply Forall_singleton. split; cbn; [lia|lia|done].
  - cbn. split; [|done]. apply Forall_singleton. unfold apart_from, apart. cbn. lia.
  - apply Forall_singleton. split; cbn; [by rewrite Hn|done].
  - intros Hpar. split; [by apply Hg|auto].
Qed.

Lemma arena_reset_spec s a allocs held :
  region_in s a allocs held ->
  wp arena_reset
    (fun ok s' => ok = true /\ memory s' = memory s /\
       exists a', is_reset a a' /\ region_in s' a' [] held)
    (fun _ _ => True) s.
Proof.
  intros [Hs Hr Hc Hl]. unfold arena_reset, arena_release_blocks. apply wp_bind, wp_gets. rewrite Hs.
  apply wp_bind, wp_bind. eapply wp_conseq; [apply (release_loop_spec (parent a) (blocks a) s (control_block a ++ held))| |done].
  { apply Hr. } { by eapply owned_parent. } { done. }
  intros _ s1 (Ha1 & Hm1 & Hl1 & Hk). cbn beta iota.
  destruct (first_block _ _ Hr) as (pre & lst & Hbs & Ho & Hn & Hat & Hne).
  apply wp_bind. eapply wp_need; [by apply (find_first a pre lst)|].
  apply wp_modify, wp_ret. split; [done|]. split; [done|]. exists (with_blocks [with_used 0 lst] a). split.
  - split_and!; [done..|]. exists lst. split_and!; [|done..]. rewrite Hbs. apply elem_of_app. right. by left.
  - split; [done| |done|].
    + cbn [a_env]. eapply region_reset; [done..|]. intros Hpar.
      apply Hk; [by eapply owned_not_control|]. by apply (r_grow _ _ Hr).
    + cbn [a_trace]. rewrite Hl1. unfold chain_blocks. cbn [blocks with_blocks].
      rewrite filter_cons, decide_False by (cbn; by rewrite Hn). done.
Qed.

Lemma arena_drop_spec s a allocs held :
  region_in s a allocs held ->
  wp arena_drop (fun _ s' => arena s' = None /\ memory s' = memory s /\ ledger (a_trace s') = Some held)
    (fun _ _ => True) s.
Proof.
  intros [Hs Hr Hc Hl]. unfold arena_drop, arena_release_blocks. apply wp_bind, wp_gets. rewrite Hs.
  apply wp_bind, wp_bind. eapply wp_conseq; [apply (release_loop_spec (parent a) (blocks a) s (control_block a ++ held))| |done].
  { apply Hr. } { by eapply owned_parent. } { done. }
  intros _ s1 (Ha1 & Hm1 & Hl1 & Hk). apply wp_modify. apply wp_bind.
  unfold control_block in Hl1. destruct (Z.eqb_spec (parent a) 0).
  - apply wp_ret, wp_modify. done.
  - eapply wp_conseq; [apply parent_free_spec| |done]. intros _ s2 (Ha2 & Hm2 & Ht2 & _).
    apply wp_modify. split_and!; [done|by cbn; rewrite Hm2|]. cbn [a_trace] in *.
    rewrite Ht2, ledger_app, Hl1. apply release_head.
Qed.

(** * Opening *)

Lemma round_up_16 x : 0 < x -> x + 15 <= UINT64_MAX ->
  x <= arena_round_up x ARENA_CONTROL_ALIGN < x + 16 /\ (16 | arena_round_up x ARENA_CONTROL_ALIGN).
Proof.
  intros Hx Hm. change ARENA_CONTROL_ALIGN with (2 ^ 4).
  destruct (arena_round_up_spec x 4) as [[_ ?]|(Hr & Hd & _)]; [lia|lia|lia|]. done.
Qed.

Lemma multiple_16 x y : (16 | x) -> (16 | y) -> x <= y < x + 16 -> y = x.
Proof. intros [i ->] [j ->] H. lia. Qed.

(** The region laid out at [c] over the [size] bytes at [storage]. *)
Definition placed storage size h bb c : arena_v1 :=
  ArenaV1 c (AllocatorRecord LOKE_RT_ABI_VERSION sizeof_allocator_record c c None LOKE_RT_ON_FAILURE_PANIC)
    h [ArenaBlock (c + sizeof_arena) (storage + size - (c + sizeof_arena + sizeof_arena_block)) 0 false]
    (c + sizeof_arena) bb size.

Lemma arena_place_spec storage size h bb :
  0 < storage -> storage + size <= UINT64_MAX -> arena_min_buffer <= size ->
  exists c, arena_place storage size h bb = Some (placed storage size h bb c) /\
    storage <= c < storage + 16 /\ (16 | c).
Proof.
  intros Hp Hend Hs. unfold arena_min_buffer in Hs. sizes.
  destruct (round_up_16 storage ltac:(lia) ltac:(lia)) as [Hc Hd].
  unfold arena_place; cbv zeta. set (c := arena_round_up storage ARENA_CONTROL_ALIGN) in *.
  exists c. split; [|done]. sizes.
  destruct (Z.eqb_spec c 0), (Z.ltb_spec c storage); try lia. cbn [orb].
  rewrite (wrap64_small (c + 80)) by ilia.
  destruct (round_up_16 (c + 80) ltac:(lia) ltac:(lia)) as [Hh Hd'].
  unfold ARENA_CONTROL_ALIGN in *. assert (arena_round_up (c + 80) 16 = c + 80) as ->.
  { apply multiple_16; [|done|done]. apply Z.divide_add_r; [done|]. by exists 5. }
  destruct (Z.eqb_spec (c + 80) 0); [lia|].
  rewrite (wrap64_small (c + 80 + 32)), (wrap64_small (storage + size)) by ilia.
  destruct (Z.ltb_spec (c + 80 + 32) (c + 80)), (Z.ltb_spec (storage + size) (c + 80 + 32)); try lia. cbn [orb].
  rewrite wrap64_small by ilia. done.
Qed.

Definition published a : arena_v1 := with_record (with_ops arena_ops (record a)) a.

Lemma placed_region e storage size h bb c :
  0 < storage -> storage + size <= UINT64_MAX -> arena_min_buffer <= size -> storage <= c < storage + 16 ->
  (h <> 0 -> 0 < bb <= UINT64_MAX /\ live e c size) ->
  region_ok e (published (placed storage size h bb c)).
Proof.
  intros Hp Hend Hs Hc Hg. unfold arena_min_buffer in Hs. sizes.
  split; cbn; [done| | | |lia|done|done].
  - apply Forall_singleton. split; sizes; cbn; lia.
  - split; [|done]. apply Forall_singleton. unfold apart_from, apart. cbn. sizes. lia.
  - apply Forall_singleton. split; sizes; cbn; [done|lia].
Qed.

(** A fresh region: nothing in use, and the record every handle copy reads. *)
Definition opened s' a h held : Prop :=
  region_in s' a [] held /\ parent a = h /\ on_failure (record a) = LOKE_RT_ON_FAILURE_PANIC /\
  abi_version (record a) = LOKE_RT_ABI_VERSION /\ record_size (record a) = sizeof_allocator_record.

Lemma arena_open_spec h s held :
  ledger (a_trace s) = Some held ->
  wp (arena_open h)
    (fun ok s' => memory s' = memory s /\
       if (ok : bool) then exists a, opened s' a (if h =? 0 then api_selected (a_env s) else h) held /\
           block_bytes a = ARENA_DEFAULT_BLOCK
       else arena s' = None /\ ledger (a_trace s') = Some held)
    (fun _ _ => True) s.
Proof.
  intros Hl. unfold arena_open. apply wp_bind, wp_get.
  set (h' := if h =? 0 then _ else h).
  assert (h' <> 0) as Hpar.
  { subst h'. destruct (Z.eqb_spec h 0); [apply selected_not_nil|done]. }
  apply wp_bind. eapply wp_conseq; [apply parent_alloc_spec| |done].
  intros p s1 (Ha1 & Hm1 & Ht1 & Hrun). cbn beta.
  destruct (Z.eqb_spec p 0) as [->|Hp].
  { apply wp_bind, wp_modify, wp_ret. split; [done|]. split; [done|]. cbn [a_trace]. by rewrite Ht1, ledger_refused. }
  destruct (alloc_fresh h' ARENA_DEFAULT_BLOCK ARENA_CONTROL_ALIGN (a_env s) p (a_env s1)) as [_ Hnew];
    [done..|]. destruct (Hnew Hp) as (Hlive & Hd & Hpos & Hend & _).
  destruct (arena_place_spec p ARENA_DEFAULT_BLOCK h' ARENA_DEFAULT_BLOCK) as (c & -> & Hc & Hdc); [done..|].
  assert (c = p) as -> by by apply multiple_16.
  apply wp_bind, wp_modify, wp_ret. split; [done|]. exists (published (placed p ARENA_DEFAULT_BLOCK h' ARENA_DEFAULT_BLOCK p)). split; [|done]. split; [|done].
  split; [done| |by split|].
  - apply placed_region; [done..|]. intros _. split; [done|]. done.
  - cbn [a_trace]. rewrite Ht1, ledger_app, Hl. unfold ledger_from. cbn [foldl ledger_step].
    destruct (Z.eqb_spec p 0); [done|]. unfold chain_blocks, control_block. cbn [blocks parent placed published with_record control control_bytes].
    rewrite filter_cons, decide_False by done. cbn. by rewrite (proj2 (Z.eqb_neq h' 0) Hpar).
Qed.

Lemma arena_open_fixed_spec buffer size s held :
  0 <= buffer -> buffer + size <= UINT64_MAX -> ledger (a_trace s) = Some held ->
  wp (arena_open_fixed buffer size)
    (fun _ s' => memory s' = memory s /\ a_trace s' = a_trace s /\ a_env s' = a_env s /\
       buffer <> 0 /\ arena_min_buffer <= size /\
       exists a b, opened s' a 0 held /\ blocks a = [b] /\ buffer <= control a /\
         bytes_at b + b_size b = buffer + size)
    (fun x s' => s' = s /\ x = Panicked "this buffer is too small to host an arena" /\
       (buffer = 0 \/ size < arena_min_buffer)) s.
Proof.
  intros Hb Hend Hl. unfold arena_open_fixed.
  destruct (Z.eqb_spec buffer 0) as [->|Hb0]; [cbn [orb]; apply wp_stop; auto|].
  destruct (Z.ltb_spec size 0).
  { cbn [orb]. apply wp_stop. split_and!; [done..|]. right. unfold arena_min_buffer. sizes. lia. }
  destruct (Z.ltb_spec size arena_min_buffer); cbn [orb]; [apply wp_stop; auto|].
  destruct (arena_place_spec buffer size 0 0) as (c & -> & Hc & _); [lia|done|done|].
  apply wp_modify. split_and!; [done..|]. exists (published (placed buffer size 0 0 c)),
    (ArenaBlock (c + sizeof_arena) (buffer + size - (c + sizeof_arena + sizeof_arena_block)) 0 false).
  split; [|split; [done|split; [cbn; lia|cbn; sizes; cbn; lia]]].
  split; [|done]. split; [done| |by split|done].
  apply placed_region; [lia|done..].
Qed.

(** The failure policy is the only thing [arena_set_failure] changes. *)
Lemma arena_set_failure_spec s a allocs held policy :
  region_in s a allocs held ->
  wp (arena_set_failure policy)
    (fun _ s' => exists a', on_failure (record a') = wrap32 policy /\ blocks a' = blocks a /\
       control a' = control a /\ region_in s' a' allocs held)
    (fun _ _ => False) s.
Proof.
  intros [Hs Hr Hc Hl]. unfold arena_set_failure. apply wp_bind, wp_gets. rewrite Hs.
  apply wp_modify. eexists. split; [|split; [|split; [|split; [done|..]]]]; [done..| | |]; [|done|done].
  destruct Hr as [R1 R2 R3 R4 R5 R6 R7]. split; [done..| |done|done|done].
  eapply Forall_impl; [apply R4|]. intros b [? ?]. by split.
Qed.
End life.
