(* ===== verification/ArenaClaims.v ===== *)
(** The properties of allocator regions, each with a concrete instance over the
    bump provider of [Concrete]. *)
From S2P Require Import Prelude Interfaces MapTable MapSpec Concrete Arena ArenaSpec ArenaOps ArenaLife.

(** * Client programs over one region *)

(** A request names the allocation it works on by its place in the list of
    those in use. *)
Inductive request :=
| RAlloc (size align : Z)
| RResize (i : nat) (size align : Z)
| RFree (i : nat) (align : Z)
| RReset.

Definition request_ok (r : request) : Prop :=
  match r with
  | RAlloc size align | RResize _ size align => is_u64 size /\ pow2_align align
  | RFree _ _ | RReset => True
  end.

Section session.
Context {E : Type} {api : AllocApi E}.

Fixpoint session (rs : list request) (allocs : list (Z * Z)) : M (astate E) (list (Z * Z)) :=
  match rs with
  | [] => ret allocs
  | RAlloc size align :: rs =>
      let! p := arena_alloc size align in
      session rs (if p =? 0 then allocs else (p, size) :: allocs)
  | RResize i size align :: rs =>
      match allocs !! i with
      | None => session rs allocs
      | Some (p, old) =>
          let! q := arena_resize p old size align in
          session rs (if q =? 0 then allocs else (q, size) :: delete i allocs)
      end
  | RFree i align :: rs =>
      match allocs !! i with
      | None => session rs allocs
      | Some (p, old) => arena_free p old align ;;; session rs (delete i allocs)
      end
  | RReset :: rs => let! _ := arena_reset in session rs []
  end.

(** Open, work, drop. *)
Definition arena_life (h : handle) (rs : list request) : M (astate E) (list (Z * Z)) :=
  let! ok := arena_open h in
  if (ok : bool) then
    let! allocs := session rs [] in
    arena_drop ;;; ret allocs
  else ret [].
End session.

Section claims.
Context {E : Type} {api : AllocApi E} {tot : AllocTotal E} {fresh : AllocFresh E}.
Implicit Types (s : astate E) (a : arena_v1).

Lemma region_perm s a allocs allocs' held :
  Permutation allocs allocs' -> region_in s a allocs held -> region_in s a allocs' held.
Proof.
  intros Hp [? ? [Ha Hi] ?]. split; [done..| |done]. split; [by rewrite <- Hp|by rewrite <- Hp].
Qed.

Lemma region_pick s a allocs i p n held :
  allocs !! i = Some (p, n) -> region_in s a allocs held -> region_in s a ((p, n) :: delete i allocs) held.
Proof. intros Hi. apply region_perm. by apply delete_Permutation. Qed.

Lemma session_spec rs s a allocs held :
  Forall request_ok rs -> region_in s a allocs held ->
  wp (session rs allocs) (fun allocs' s' => exists a', region_in s' a' allocs' held) (fun _ _ => True) s.
Proof.
  intros Hrs. revert s a allocs. induction Hrs as [|r rs Hr Hrs IH]; intros s a allocs Hin; [by exists a|].
  destruct r as [size align|i size align|i align|]; cbn [session].
  - destruct Hr. apply wp_bind. eapply wp_conseq; [by apply (arena_alloc_spec s a allocs held)| |done].
    intros p s1 (_ & a1 & _ & _ & H1). destruct (Z.eqb_spec p 0) as [->|Hp].
    + rewrite decide_True in H1 by done. eapply IH, H1.
    + rewrite decide_False in H1 by done. eapply IH, H1.
  - destruct Hr. destruct (allocs !! i) as [[p old]|] eqn:Hi; [|by eapply IH].
    apply wp_bind. eapply wp_conseq; [apply (arena_resize_spec s a p old size (delete i allocs) held align)| |done];
      [by apply region_pick|done|done|].
    intros q s1 (a1 & _ & _ & H1). destruct (Z.eqb_spec q 0) as [->|Hq].
    + rewrite decide_True in H1 by done. eapply IH, region_perm, H1. symmetry. by apply delete_Permutation.
    + rewrite decide_False in H1 by done. eapply IH, H1.
  - destruct (allocs !! i) as [[p old]|] eqn:Hi; [|by eapply IH].
    apply wp_bind. eapply wp_conseq; [apply (arena_free_spec s a p old (delete i allocs) held align); by apply region_pick| |done].
    intros _ s1 (_ & _ & _ & a1 & _ & _ & H1 & _). by eapply IH.
  - apply wp_bind. eapply wp_conseq; [by eapply arena_reset_spec| |done].
    intros _ s1 (_ & _ & a1 & _ & H1). by eapply IH.
Qed.

(** C5: whatever a program does with a region between opening and dropping it,
    the allocations it holds never meet, nothing is written or read outside
    them, and the drop returns every block to the parent exactly once, with
    the size and alignment it was got with. *)
Theorem arena_life_safe h rs s held :
  Forall request_ok rs -> ledger (a_trace s) = Some held ->
  wp (arena_life h rs)
    (fun allocs s' => arena s' = None /\ ledger (a_trace s') = Some held /\ pairwise_apart allocs)
    (fun _ _ => True) s.
Proof.
  intros Hrs Hl. unfold arena_life. apply wp_bind. eapply wp_conseq; [by apply (arena_open_spec h s held)| |done].
  intros [|] s1 [_ H1]; cbn beta iota; [|by apply wp_ret; destruct H1].
  destruct H1 as (a & [Hin _] & _). apply wp_bind. eapply wp_conseq; [by eapply session_spec| |done].
  intros allocs s2 [a2 Hin2]. apply wp_bind. eapply wp_conseq; [by eapply arena_drop_spec| |done].
  intros _ s3 (Hn & _ & Hl3). apply wp_ret. split; [done|]. split; [done|]. apply (in_clients _ _ _ _ Hin2).
Qed.

(** C24: an allocation answers bytes that are aligned, inside the bytes in use
    of a block, and apart from every allocation in use; it fails only for a
    zero size, or when the newest block has no aligned room left and no parent
    block can be had. *)
Theorem arena_alloc_correct size align s a allocs held :
  region_in s a allocs held -> is_u64 size -> pow2_align align ->
  wp (arena_alloc size align)
    (fun p s' => memory s' = memory s /\
       if decide (p = 0) then
         size = 0 \/ (refused s s' a size (arena_align align) /\
           forall b, head (blocks a) = Some b -> forall q, ~ fits_at b size align q)
       else
         (arena_align align | p) /\ 0 < p /\ Forall (apart_from (p, size)) allocs /\
         exists a', arena s' = Some a' /\ Exists (inside (p, size)) (blocks a') /\
           region_in s' a' ((p, size) :: allocs) held)
    (fun _ _ => True) s.
Proof.
  intros Hin Hs Ha. eapply wp_conseq; [by apply (arena_alloc_spec s a allocs held)| |done].
  intros p s' (Hm & a' & _ & _ & H). split; [done|]. destruct (decide (p = 0)); [apply H|].
  destruct H as (Hin' & _ & Hd & Hp). pose proof (in_clients _ _ _ _ Hin') as [[Hap _] [[_ Hx] _]%Forall_cons].
  split_and!; [done..|]. exists a'. split_and!; [apply Hin'|done|done].
Qed.

(** C29: a resize keeps the first bytes of the allocation, touches no other
    allocation, never copies between ranges that meet, keeps the address when
    it shrinks or when the newest allocation has room above it, and leaves the
    allocation unchanged where it fails. *)
Theorem arena_resize_correct p old new align s a allocs held :
  region_in s a ((p, old) :: allocs) held -> is_u64 new -> pow2_align align ->
  wp (arena_resize p old new align) (resize_post s a p old new allocs held align) (fun _ _ => True) s.
Proof. apply arena_resize_spec. Qed.

(** A free of the newest allocation makes its bytes available again: the
    next request of the same size answers the same address; a free of another
    allocation changes nothing. *)
Theorem arena_free_correct p n align s a allocs held :
  region_in s a ((p, n) :: allocs) held -> pow2_align align -> (arena_align align | p) ->
  (at_top a p n ->
   wp (let! _ := arena_free p n align in arena_alloc n align)
     (fun q s' => q = p /\ a_trace s' = a_trace s /\ exists a', region_in s' a' ((p, n) :: allocs) held)
     (fun _ _ => False) s) /\
  (~ at_top a p n -> wp (arena_free p n align) (fun _ s' => s' = s) (fun _ _ => False) s).
Proof.
  intros Hin Hal Hd. pose proof Hin as [Hs Hr Hc _].
  destruct (client_range _ a p n allocs Hr Hc) as (Hp & Hn & Hend). split.
  - intros (b & bs & Hbs & He). destruct (head_ok _ _ _ _ Hr Hbs) as [B1 B2 B3].
    apply wp_bind. eapply wp_conseq; [by eapply arena_free_spec| |done].
    intros _ s1 (_ & _ & Ht1 & a1 & _ & _ & Hin1 & Htop & _).
    specialize (Htop ltac:(by exists b, bs) b bs Hbs).
    unfold arena_alloc. apply wp_bind, wp_gets. rewrite (in_arena _ _ _ _ Hin1).
    destruct (Z.eqb_spec n 0); [lia|]. apply wp_bind.
    eapply wp_conseq; [apply (bump_newest_spec s1 a1 allocs held n align); [done|lia|done]| |done].
    intros q s2 (_ & _ & Ht2 & b1 & bs1 & Hbs1 & Hq). rewrite Htop in Hbs1. injection Hbs1 as <- <-.
    assert (fits_at (with_used (b_used b - n) b) n align p) as Hfit.
    { unfold fits_at, with_used, bytes_at in *. cbn. split; [done|lia]. }
    destruct Hq as [(-> & -> & Hno)|(Hq & (_ & Hlo & _) & Hleast & Hin2)]; [by destruct (Hno p)|].
    cbn beta. destruct (Z.eqb_spec q 0); [lia|]. apply wp_ret.
    assert (q = p) as ->.
    { pose proof (Hleast p Hfit). unfold with_used, bytes_at in *. cbn in Hlo. lia. }
    split; [done|]. split; [congruence|eauto].
  - intros Hno. unfold arena_free. apply wp_bind, wp_gets. rewrite Hs. destruct (Z.eqb_spec p 0); [lia|].
    pose proof (arena_is_top_spec _ a p n allocs Hr Hc) as Htop. destruct (arena_is_top a p n); [by destruct Hno; apply Htop|].
    by apply wp_ret.
Qed.

(** A reset ends every allocation, returns the blocks the region grew by
    to the parent, and leaves the region open on the whole of its first block. *)
Theorem arena_reset_correct s a allocs held :
  region_in s a allocs held ->
  wp arena_reset
    (fun ok s' => ok = true /\ exists a', is_reset a a' /\ region_in s' a' [] held /\
       ledger (a_trace s') = Some (control_block a' ++ held))
    (fun _ _ => True) s.
Proof.
  intros Hin. eapply wp_conseq; [by eapply arena_reset_spec| |done].
  intros ok s' (-> & _ & a' & Hres & Hin'). split; [done|]. exists a'. split; [done|]. split; [done|].
  rewrite (in_ledger _ _ _ _ Hin'). destruct Hres as (_ & _ & _ & _ & f & Hf & Hat & Hbs).
  pose proof (r_chain _ _ (in_ok _ _ _ _ Hin')) as Hch. rewrite Hbs in Hch. destruct Hch as [_ Hown].
  unfold chain_blocks. rewrite Hbs, filter_cons, decide_False by (by rewrite Hown). done.
Qed.

(** C35: a buffer hosts a region exactly when it holds [arena_min_buffer]
    bytes, whatever its address; the region then owns the rest of the buffer to
    its last byte and has no parent to call. *)
Theorem arena_open_fixed_correct buffer size s held :
  0 <= buffer -> buffer + size <= UINT64_MAX -> ledger (a_trace s) = Some held ->
  wp (arena_open_fixed buffer size)
    (fun _ s' => a_trace s' = a_trace s /\ buffer <> 0 /\ arena_min_buffer <= size /\
       exists a b, opened s' a 0 held /\ blocks a = [b] /\ buffer <= control a /\
         control a + sizeof_arena <= b_at b /\ bytes_at b + b_size b = buffer + size)
    (fun x s' => s' = s /\ x = Panicked "this buffer is too small to host an arena" /\
       (buffer = 0 \/ size < arena_min_buffer)) s.
Proof.
  intros Hb He Hl. eapply wp_conseq; [by apply (arena_open_fixed_spec buffer size s held)| |done].
  intros _ s' (_ & Ht & _ & Hb0 & Hs & a & b & Hop & Hbs & Hc & Hend). split_and!; [done..|].
  exists a, b. split_and!; [done..| |done].
  destruct Hop as [[_ [Hch _ _ Hpl _ _ _] _ _] _]. rewrite Hbs in *.
  apply Forall_inv in Hpl as [_ Hh]. by apply Hh, Hch.
Qed.
End claims.

(** * Concrete instances *)

Definition idle : astate heap := AState None (fun x => x) [] (Heap 4096 4).

(** A region over the provider 7, with one allocation of 24 bytes. *)
Definition live_arena : arena_v1 :=
  ArenaV1 4096 (AllocatorRecord 1 40 4096 4096 (Some arena_ops) 0) 7
    [ArenaBlock 4176 3984 24 false] 4176 4096 4096.
Definition live_region : astate heap :=
  AState (Some live_arena) (fun x => x) [EvAlloc 7 4096 16 4096] (Heap 8193 3).

Lemma live_region_in : region_in live_region live_arena [(4208, 24)] [].
Proof.
  split; [done| | |done].
  - split; cbn; [done| | | |lia| |done].
    + apply Forall_singleton. split; sizes; cbn; ilia.
    + split; [|done]. apply Forall_singleton. unfold apart_from, apart, span. cbn. sizes. lia.
    + apply Forall_singleton. split; cbn; [done|]. intros _. sizes. cbn. lia.
    + intros _. split; [ilia|lia].
  - split; [done|]. apply Forall_singleton. split; [done|]. apply Exists_cons_hd.
    unfold inside. sizes. cbn. lia.
Qed.

Lemma pow2_align_8 : pow2_align 8.
Proof. by exists 3. Qed.

Definition work : list request :=
  [RAlloc 100 8; RAlloc 5000 16; RResize 0 9000 16; RFree 1 8; RResize 0 10 16; RReset; RAlloc 64 0].

Lemma arena_life_safe_witness :
  Forall request_ok work /\
  wp (arena_life 0 work)
    (fun allocs s' => arena s' = None /\ ledger (a_trace s') = Some [] /\ pairwise_apart allocs)
    (fun _ _ => True) idle.
Proof.
  assert (Forall request_ok work) as Hw.
  { unfold work. repeat (apply Forall_cons; split; [|]); [..|done]; cbn; try done;
      (split; [ilia|]); first [by exists 3 | by exists 4 | by exists 0]. }
  split; [exact Hw|]. apply (arena_life_safe 0 work idle []); [exact Hw|done].
Defined.

Lemma arena_alloc_correct_witness :
  region_in live_region live_arena [(4208, 24)] [] /\
  wp (arena_alloc 40 8)
    (fun p s' => memory s' = memory live_region /\
       if decide (p = 0) then
         40 = 0 \/ (refused live_region s' live_arena 40 (arena_align 8) /\
           forall b, head (blocks live_arena) = Some b -> forall q, ~ fits_at b 40 8 q)
       else
         (arena_align 8 | p) /\ 0 < p /\ Forall (apart_from (p, 40)) [(4208, 24)] /\
         exists a', arena s' = Some a' /\ Exists (inside (p, 40)) (blocks a') /\
           region_in s' a' [(p, 40); (4208, 24)] [])
    (fun _ _ => True) live_region.
Proof.
  split; [exact live_region_in|].
  apply (arena_alloc_correct 40 8 live_region live_arena [(4208, 24)] []);
    [exact live_region_in|ilia|exact pow2_align_8].
Defined.

Lemma arena_resize_correct_witness :
  wp (arena_resize 4208 24 4000 8) (resize_post live_region live_arena 4208 24 4000 [] [] 8)
    (fun _ _ => True) live_region.
Proof.
  apply (arena_resize_correct 4208 24 4000 8 live_region live_arena [] []);
    [exact live_region_in|ilia|exact pow2_align_8].
Defined.

Lemma arena_free_correct_witness :
  at_top live_arena 4208 24 /\
  wp (let! _ := arena_free 4208 24 8 in arena_alloc 24 8)
     (fun q s' => q = 4208 /\ a_trace s' = a_trace live_region /\
        exists a', region_in s' a' [(4208, 24)] [])
     (fun _ _ => False) live_region.
Proof.
  assert (at_top live_arena 4208 24) as Ht by (eexists _, _; split; [reflexivity|reflexivity]).
  split; [exact Ht|].
  refine (proj1 (arena_free_correct 4208 24 8 live_region live_arena [] [] live_region_in pow2_align_8 _) Ht).
  by exists 526.
Defined.

Lemma arena_reset_correct_witness :
  wp arena_reset
    (fun ok s' => ok = true /\ exists a', is_reset live_arena a' /\ region_in s' a' [] [] /\
       ledger (a_trace s') = Some (control_block a' ++ []))
    (fun _ _ => True) live_region.
Proof. apply (arena_reset_correct live_region live_arena [(4208, 24)] []). exact live_region_in. Defined.

Lemma arena_open_fixed_correct_witness :
  wp (arena_open_fixed 1001 128)
    (fun _ s' => a_trace s' = a_trace idle /\ 1001 <> 0 /\ arena_min_buffer <= 128 /\
       exists a b, opened s' a 0 [] /\ blocks a = [b] /\ 1001 <= control a /\
         control a + sizeof_arena <= b_at b /\ bytes_at b + b_size b = 1001 + 128)
    (fun x s' => s' = idle /\ x = Panicked "this buffer is too small to host an arena" /\
       (1001 = 0 \/ 128 < arena_min_buffer)) idle.
Proof. apply (arena_open_fixed_correct 1001 128 idle []); [lia|ilia|reflexivity]. Defined.

(** What the program [work] does to the provider: the control block, a block of
    8192 bytes and one of 16384, all returned. *)
Example work_trace :
  a_trace (final (arena_life 0 work) idle) =
  [EvAlloc 7 4096 16 4096; EvAlloc 7 8192 16 8208; EvAlloc 7 16384 16 16416;
   EvFree 7 16416 16384 16; EvFree 7 8208 8192 16; EvFree 7 4096 4096 16].
Proof. vm_compute. reflexivity. Qed.
