(* ===== verification/Printed.v ===== *)
(** Text the runtime prints: the C library's decimal conversion and the lemmas
    about appending that reports of failures, panics and traces share. *)
From Stdlib Require Import Strings.Ascii.
From S2P Require Import Prelude.

Definition newline : string := String (Ascii.ascii_of_nat 10) "".

(** ["%llu"]: 20 digits hold every [uint64_t]. *)
Fixpoint llu (fuel : nat) (n : Z) (acc : string) : string :=
  match fuel with
  | O => acc
  | S fuel =>
      let acc := String (ascii_of_nat (Z.to_nat (48 + n `mod` 10))) acc in
      if n <? 10 then acc else llu fuel (n / 10) acc
  end.

(** * Decimal spelling *)

Definition digit_of (c : ascii) : option Z :=
  let n := Z.of_nat (nat_of_ascii c) in
  if (48 <=? n) && (n <=? 57) then Some (n - 48) else None.

(** The number a decimal text spells, from [acc] on. *)
Fixpoint read_decimal (text : string) (acc : Z) : option Z :=
  match text with
  | EmptyString => Some acc
  | String c text => d ← digit_of c; read_decimal text (acc * 10 + d)
  end.

Lemma digit_of_spell d : 0 <= d < 10 -> digit_of (ascii_of_nat (Z.to_nat (48 + d))) = Some d.
Proof.
  intros Hd. unfold digit_of. rewrite nat_ascii_embedding by lia. rewrite Z2Nat.id by lia.
  destruct (Z.leb_spec 48 (48 + d)), (Z.leb_spec (48 + d) 57); try lia. cbn. f_equal. lia.
Qed.

Lemma length_string_app (t u : string) : String.length (t +:+ u) = (String.length t + String.length u)%nat.
Proof. induction t as [|c t IH]; [done|]. exact (f_equal S IH). Qed.

Lemma append_assoc_string (t u w : string) : (t +:+ u) +:+ w = t +:+ (u +:+ w).
Proof. induction t as [|c t IH]; [done|]. exact (f_equal (String c) IH). Qed.

Lemma append_nil_string (t : string) : t +:+ "" = t.
Proof. induction t as [|c t IH]; [done|]. exact (f_equal (String c) IH). Qed.

Lemma read_decimal_app t u v w :
  read_decimal t v = Some w -> read_decimal (t +:+ u) v = read_decimal u w.
Proof.
  revert v. induction t as [|c t IH]; intros v; [by intros [= ->]|].
  change (String c t +:+ u) with (String c (t +:+ u)). cbn [read_decimal].
  destruct (digit_of c); cbn; [apply IH|done].
Qed.

Lemma llu_spec fuel n acc v :
  0 <= n < 10 ^ Z.of_nat fuel -> (0 < fuel)%nat ->
  exists t, llu fuel n acc = t +:+ acc /\ t <> ""%string /\ (String.length t <= fuel)%nat /\
    read_decimal t v = Some (v * 10 ^ Z.of_nat (String.length t) + n) .
Proof.
  revert n acc v. induction fuel as [|fuel IH]; intros n acc v Hn Hf; [lia|]. cbn [llu].
  pose proof (Z.mod_pos_bound n 10 eq_refl) as Hm. pose proof (Z.div_mod n 10 ltac:(lia)) as Hdm.
  destruct (Z.ltb_spec n 10) as [Hs|Hb].
  - exists (String (ascii_of_nat (Z.to_nat (48 + n `mod` 10))) ""). split_and!; [done|done|cbn; lia|].
    cbn [read_decimal String.length]. rewrite digit_of_spell by done. cbn. f_equal. rewrite Z.mod_small by lia. lia.
  - assert (0 < fuel)%nat as Hf'.
    { destruct fuel; [|lia]. change (10 ^ Z.of_nat 1) with 10 in Hn. lia. }
    rewrite Nat2Z.inj_succ, Z.pow_succ_r in Hn by lia.
    destruct (IH (n / 10) (String (ascii_of_nat (Z.to_nat (48 + n `mod` 10))) acc) v) as (t & -> & Hne & Hl & Hr);
      [split; [apply Z.div_pos; lia|apply Z.div_lt_upper_bound; lia]|done|].
    exists (t +:+ String (ascii_of_nat (Z.to_nat (48 + n `mod` 10))) "").
    split; [by rewrite append_assoc_string|]. split; [by destruct t|].
    rewrite length_string_app. cbn [String.length]. split; [lia|].
    rewrite (read_decimal_app _ _ _ _ Hr). cbn [read_decimal]. rewrite digit_of_spell by done. cbn. f_equal.
    rewrite Nat2Z.inj_add, Z.pow_add_r by lia. change (10 ^ Z.of_nat 1) with 10. lia.
Qed.

Lemma llu_u64 n : is_u64 n ->
  read_decimal (llu 20 n "") 0 = Some n /\ (1 <= String.length (llu 20 n "") <= 20)%nat.
Proof.
  intros Hn. destruct (llu_spec 20 n "" 0) as (t & -> & Hne & Hl & Hr); [|lia|].
  { change (10 ^ Z.of_nat 20) with 100000000000000000000. ilia. }
  rewrite append_nil_string.
  split; [rewrite Hr; f_equal; lia|]. destruct t; [done|]. cbn in *. lia.
Qed.
