(* ===== verification/Alloc.v ===== *)
(** Allocator dispatch ([runtime/alloc.c]): the system heap provider, the
    record check, the build-selected handle, the note of the last refusal, and
    what an allocation failure reports. *)
From Stdlib Require Import Strings.Ascii.
From S2P Require Import Prelude Printed Interfaces Arena.

(** [loke_rt_allocator_ops_v1]. *)
Record ops_table (E : Type) := OpsTable {
  op_alloc : Z -> Z -> Z -> M E Z;
  op_resize : Z -> Z -> Z -> Z -> Z -> M E Z;
  op_free : Z -> Z -> Z -> Z -> M E unit;
  op_reset : Z -> M E bool;
}.
Arguments OpsTable {E} _ _ _ _.
Arguments op_alloc {E} _ _ _ _.
Arguments op_resize {E} _ _ _ _ _ _.
Arguments op_free {E} _ _ _ _ _.
Arguments op_reset {E} _ _.

(** A handle that is not nil: what publication leaves in [loke_rt_selected]. *)
Record nonnil := Nonnil { address : handle; address_ok : address <> 0 }.

Definition LOKE_RT_INIT_IDLE : Z := 0.
Definition LOKE_RT_INIT_RUNNING : Z := 1.
Definition LOKE_RT_INIT_DONE : Z := 2.
Definition LOKE_RT_REFUSAL_UNSIZED : Z := UINT64_MAX.

(** * The report *)

(** [snprintf] into [size] bytes. *)
Definition snprintf (size : nat) (text : string) : string := String.substring 0 (size - 1) text.

Definition sane_align (align : Z) : Z := if align =? 0 then 1 else align.

Section Alloc.
(** The C library's aligned heap, the operation tables of regions and of
    programs, the [parent] field at an arena's state pointer, and the addresses
    of the two records of the runtime. *)
Context {E : Type}.
Context (aligned_malloc : Z -> Z -> M E Z) (aligned_realloc : Z -> Z -> Z -> M E Z)
  (aligned_free : Z -> M E unit).
Context (other_table : provider_ops -> ops_table E) (arena_parent : E -> Z -> handle).
Context (default_allocator empty_region : handle).

(** ** The system heap *)

Definition sys_alloc (state size align : Z) : M E Z :=
  if size =? 0 then ret 0 else aligned_malloc size (sane_align align).

Definition sys_resize (state ptr old_size new_size align : Z) : M E Z :=
  if new_size =? 0 then ret 0
  else if ptr =? 0 then aligned_malloc new_size (sane_align align)
  else aligned_realloc ptr new_size (sane_align align).

Definition sys_free (state ptr size align : Z) : M E unit := aligned_free ptr.
Definition sys_reset (state : Z) : M E bool := ret false.

Definition system_table : ops_table E := OpsTable sys_alloc sys_resize sys_free sys_reset.

Definition default_record : allocator_record :=
  AllocatorRecord LOKE_RT_ABI_VERSION sizeof_allocator_record 0 0 (Some system_ops) LOKE_RT_ON_FAILURE_PANIC.

Definition table_of (o : provider_ops) : ops_table E :=
  match o with
  | system_ops => system_table
  | empty_ops => OpsTable (fun _ => empty_alloc) (fun _ => empty_resize) (fun _ => empty_free) (fun _ => empty_reset)
  | arena_ops | program_ops _ => other_table o
  end.

(** ** State *)

(** The records handles point at, the process's selection and initialization
    state, this thread's note of a refusal, and the bytes of memory. *)
Record alloc_state := AllocState {
  records : handle -> allocator_record;
  selected : nonnil;
  init_state : Z;
  refused_by : handle;
  refused_size : Z;
  bytes : Z -> Z;
  foreign : E;
}.

Definition set_refused (by_ : handle) (size : Z) : M alloc_state unit :=
  modify (fun s => AllocState (records s) (selected s) (init_state s) by_ size (bytes s) (foreign s)).
Definition set_init (i : Z) : M alloc_state unit :=
  modify (fun s => AllocState (records s) (selected s) i (refused_by s) (refused_size s) (bytes s) (foreign s)).
Definition set_selected (a : nonnil) : M alloc_state unit :=
  modify (fun s => AllocState (records s) a (init_state s) (refused_by s) (refused_size s) (bytes s) (foreign s)).
Definition provider {A} (m : M E A) : M alloc_state A := fun s =>
  let back e := AllocState (records s) (selected s) (init_state s) (refused_by s) (refused_size s) (bytes s) e in
  match m (foreign s) with
  | Ok a e => Ok a (back e)
  | Stop h e => Stop h (back e)
  | Undefined => Undefined
  | NoFuel => NoFuel
  end.

(** ** Handles *)

Definition record_matches (r : allocator_record) : bool :=
  (abi_version r =? LOKE_RT_ABI_VERSION) && negb (record_size r <? sizeof_allocator_record)
  && negb (bool_decide (r_ops r = None)).

Definition check_record (a : handle) : M alloc_state unit :=
  let! s := get in
  if negb (record_matches (records s a)) then abort "allocator record does not match this runtime's ABI"
  else ret tt.

Definition selected_allocator (s : alloc_state) : handle := address (selected s).

Definition resolve (a : handle) : M alloc_state handle :=
  let! s := get in
  let a := if a =? 0 then selected_allocator s else a in
  check_record a ;;; ret a.

Definition publish_allocator (a : handle) : M alloc_state unit :=
  match decide (a = 0) with
  | left _ => abort "the selected allocator factory returned no handle"
  | right ok => check_record a ;;; set_selected (Nonnil a ok)
  end.

Definition provider_init_begin : M alloc_state Z :=
  let! s := get in
  if init_state s =? LOKE_RT_INIT_DONE then ret 0
  else if init_state s =? LOKE_RT_INIT_RUNNING then abort "provider initialization re-entered itself"
  else set_init LOKE_RT_INIT_RUNNING ;;; ret 1.

Definition provider_init_end : M alloc_state unit := set_init LOKE_RT_INIT_DONE.

(** ** Requests *)

Definition note_request (a : handle) (size result : Z) : M alloc_state Z :=
  set_refused (if result =? 0 then a else 0) size ;;; ret result.

(** The operations of the record at [a], which [resolve] has checked. *)
Definition ops_at (a : handle) : M alloc_state (allocator_record * ops_table E) :=
  let! s := get in
  let! o := need (r_ops (records s a)) in
  ret (records s a, table_of o).

Definition alloc (a : handle) (size align : Z) : M alloc_state Z :=
  let! a := resolve a in
  if size =? 0 then ret (sane_align align)
  else
    let! (r, t) := ops_at a in
    let! p := provider (op_alloc t (r_state r) size align) in
    note_request a size p.

Definition memset (p value n : Z) : M alloc_state unit :=
  modify (fun s => AllocState (records s) (selected s) (init_state s) (refused_by s) (refused_size s)
    (fun x => if (p <=? x) && (x <? p + n) then value else bytes s x) (foreign s)).

Definition alloc_zeroed (a : handle) (size align : Z) : M alloc_state Z :=
  let! p := alloc a size align in
  (if negb (p =? 0) then memset p 0 size else ret tt) ;;;
  ret p.

Definition resize (a : handle) (ptr old_size new_size align : Z) : M alloc_state Z :=
  let! a := resolve a in
  let! (r, t) := ops_at a in
  let! p := provider (op_resize t (r_state r) ptr old_size new_size align) in
  note_request a new_size p.

Definition free (a : handle) (ptr size align : Z) : M alloc_state unit :=
  let! a := resolve a in
  if size =? 0 then ret tt
  else
    let! (r, t) := ops_at a in
    provider (op_free t (r_state r) ptr size align).

Definition take_refusal : M alloc_state Z :=
  let! s := get in
  set_refused 0 (refused_size s) ;;;
  ret (if negb (refused_by s =? 0) then refused_size s else LOKE_RT_REFUSAL_UNSIZED).

Definition restore_refusal (a : handle) (size : Z) : M alloc_state unit :=
  let unsized := (size =? 0) || (size =? LOKE_RT_REFUSAL_UNSIZED) in
  let! by_ := (if unsized then ret 0 else resolve a) in
  set_refused by_ size.

Definition reset (a : handle) : M alloc_state unit :=
  let! a := resolve a in
  let! (r, t) := ops_at a in
  let! ok := provider (op_reset t (r_state r)) in
  if negb (ok : bool) then abort "this allocator does not support free_all" else ret tt.

(** ** Failure *)

Definition allocator_kind (s : alloc_state) (a : handle) : string :=
  match arena_name empty_region (arena_parent (foreign s)) a (records s a) with
  | Some arena => arena
  | None => if a =? default_allocator then "the system heap" else "a program-defined allocator"
  end.

Definition allocator_role (s : alloc_state) (a : handle) : string :=
  if (a =? selected_allocator s) && negb (a =? default_allocator) then ", the build-selected default" else "".

Definition failure_text (s : alloc_state) (a : handle) : string :=
  if negb (refused_by s =? 0) then
    "allocation failed: " +:+ llu 20 (refused_size s) "" +:+ " bytes requested from "
      +:+ allocator_kind s (refused_by s) +:+ allocator_role s (refused_by s)
  else
    "allocation failed in " +:+ allocator_kind s a +:+ allocator_role s a +:+ ", with no size requested".

Definition alloc_failed (a : handle) : M alloc_state Empty_set :=
  let! a := resolve a in
  let! s := get in
  let message := snprintf 160 (failure_text s a) in
  set_refused 0 (refused_size s) ;;;
  if on_failure (records s a) =? LOKE_RT_ON_FAILURE_TRAP then abort message else panic message.
End Alloc.
Arguments alloc_state : clear implicits.
