(* ===== verification/AllocSpec.v ===== *)
(** What the dispatch of [Alloc] promises: the report of a failure, the note of
    a refusal across error values, and the allocator interface the containers,
    strings and regions are proved against. *)
From Stdlib Require Import Strings.Ascii.
From S2P Require Import Prelude Printed Interfaces Arena Alloc.

Lemma substring_all n t : (String.length t <= n)%nat -> String.substring 0 n t = t.
Proof.
  revert n. induction t as [|c t IH]; intros [|n] H; cbn in *; try done; [lia|]. f_equal. apply IH. lia.
Qed.

(** * The interface *)

Section Alloc.
Context {E : Type}.
Context (aligned_malloc : Z -> Z -> M E Z) (aligned_realloc : Z -> Z -> Z -> M E Z)
  (aligned_free : Z -> M E unit).
Context (other_table : provider_ops -> ops_table E) (arena_parent : E -> Z -> handle).
Context (default_allocator empty_region : handle).

Abbreviation state := (alloc_state E).
Abbreviation tables := (table_of aligned_malloc aligned_realloc aligned_free other_table).
Abbreviation Alloc_alloc := (Alloc.alloc aligned_malloc aligned_realloc aligned_free other_table).
Abbreviation Alloc_failed := (alloc_failed arena_parent default_allocator empty_region).
Abbreviation text := (failure_text arena_parent default_allocator empty_region).
Implicit Types (s : state).

#[local] Instance runtime_api : AllocApi state := {
  api_alloc := Alloc_alloc;
  api_alloc_zeroed := alloc_zeroed aligned_malloc aligned_realloc aligned_free other_table;
  api_resize := resize aligned_malloc aligned_realloc aligned_free other_table;
  api_free := free aligned_malloc aligned_realloc aligned_free other_table;
  api_alloc_failed := Alloc_failed;
  api_selected := selected_allocator;
}.

(** The handle a call with [a] works on. *)
Definition target s (a : handle) : handle := if a =? 0 then selected_allocator s else a.

Lemma target_not_nil s a : target s a <> 0.
Proof. unfold target. destruct (Z.eqb_spec a 0); [apply address_ok|done]. Qed.

Lemma resolve_eq a s :
  resolve a s = if record_matches (records s (target s a)) then Ok (target s a) s
    else Stop (Aborted "allocator record does not match this runtime's ABI") s.
Proof.
  unfold resolve, check_record, bind, get, target.
  by destruct (record_matches (records s (if a =? 0 then selected_allocator s else a))).
Qed.

Lemma matches_ops r : record_matches r = true -> exists o, r_ops r = Some o.
Proof.
  unfold record_matches. intros [_ Ho]%andb_true_iff. destruct (r_ops r); [eauto|].
  by rewrite bool_decide_true in Ho.
Qed.

Definition with_foreign (e : E) s : state :=
  AllocState (records s) (selected s) (init_state s) (refused_by s) (refused_size s) (bytes s) e.

Lemma alloc_eq a size align s o :
  record_matches (records s (target s a)) = true -> r_ops (records s (target s a)) = Some o -> size <> 0 ->
  Alloc_alloc a size align s =
    match op_alloc (tables o) (r_state (records s (target s a))) size align (foreign s) with
    | Ok p e => Ok p (AllocState (records s) (selected s) (init_state s)
        (if p =? 0 then target s a else 0) size (bytes s) e)
    | Stop h e => Stop h (with_foreign e s)
    | Undefined => Undefined
    | NoFuel => NoFuel
    end.
Proof.
  intros Hm Ho Hs. unfold Alloc.alloc. cbn. unfold bind at 1. rewrite resolve_eq, Hm.
  destruct (Z.eqb_spec size 0); [done|]. unfold ops_at, bind, get. rewrite Ho. cbn.
  unfold provider. by destruct (op_alloc _ _ _ _ _).
Qed.

(** The system heap, regions and programs answer requests as documented: they
    end, and a block they answer is aligned, inside the address space and apart
    from every block that may be in use. *)
Class Provider (live0 : E -> Z -> Z -> Prop) (t : ops_table E) : Prop := {
  p_alloc_total st size align : well_behaved (op_alloc t st size align);
  p_resize_total st p old new align : well_behaved (op_resize t st p old new align);
  p_free_total st p size align : well_behaved (op_free t st p size align);
  p_fresh st size align e p e' : 0 < size -> 0 < align -> op_alloc t st size align e = Ok p e' ->
    (forall q n, live0 e q n -> live0 e' q n) /\
    (p <> 0 -> live0 e' p size /\ (align | p) /\ 0 < p /\ p + size <= UINT64_MAX /\
       forall q n, live0 e q n -> apart p size q n);
  p_free_keeps st p size align e e' q n : op_free t st p size align e = Ok tt e' ->
    live0 e q n -> q <> p -> live0 e' q n;
}.

Context (live0 : E -> Z -> Z -> Prop) {ok : forall o, Provider live0 (tables o)}.

Lemma well_resolved {A} (a : handle) (k : handle -> M state A) :
  (forall s h o, h = target s a -> record_matches (records s h) = true -> r_ops (records s h) = Some o ->
     wp (k h) (fun _ _ => True) (fun _ _ => True) s) ->
  well_behaved (bind (resolve a) k).
Proof.
  intros Hk s. unfold wp, bind. rewrite resolve_eq. destruct (record_matches (records s (target s a))) eqn:Hm; [|done].
  destruct (matches_ops _ Hm) as [o Ho]. by apply (Hk s (target s a) o).
Qed.

Lemma wp_ops_at {A} a o (k : allocator_record * ops_table E -> M state A) s :
  r_ops (records s a) = Some o ->
  wp (k (records s a, tables o)) (fun _ _ => True) (fun _ _ => True) s ->
  wp (bind (ops_at aligned_malloc aligned_realloc aligned_free other_table a) k) (fun _ _ => True) (fun _ _ => True) s.
Proof. intros Ho Hk. unfold wp, ops_at, bind, get in *. rewrite Ho. exact Hk. Qed.

Lemma wp_provider {A B} (m : M E A) (k : A -> M state B) s :
  well_behaved m -> (forall a s', wp (k a) (fun _ _ => True) (fun _ _ => True) s') ->
  wp (bind (provider m) k) (fun _ _ => True) (fun _ _ => True) s.
Proof.
  intros Hm Hk. specialize (Hm (foreign s)). unfold wp, provider, bind in *.
  destruct (m (foreign s)) as [a e|? ?| |]; [apply Hk|done..].
Qed.

Lemma alloc_well_behaved a size align : well_behaved (Alloc_alloc a size align).
Proof.
  apply well_resolved. intros s h o Hh Hm Ho. destruct (Z.eqb_spec size 0); [done|].
  eapply wp_ops_at; [done|]. apply wp_provider; [apply ok|]. done.
Qed.

#[local] Instance runtime_total : AllocTotal state.
Proof.
  split.
  - apply alloc_well_behaved.
  - intros a size align s. apply wp_bind. eapply wp_conseq; [apply alloc_well_behaved| |done].
    intros p s' _. apply wp_bind, wp_if; intros; apply wp_modify || apply wp_ret; done.
  - intros a p old new align. apply well_resolved. intros s h o Hh Hm Ho.
    eapply wp_ops_at; [done|]. apply wp_provider; [apply ok|]. done.
  - intros a p size align. apply well_resolved. intros s h o Hh Hm Ho. destruct (Z.eqb_spec size 0); [done|].
    eapply wp_ops_at; [done|]. pose proof (p_free_total (t:=tables o) (r_state (records s h)) p size align (foreign s)) as Hw.
    unfold wp, provider in *. destruct (op_free _ _ _ _ _ _); done.
  - intros a. apply well_resolved. intros s h o Hh Hm Ho. unfold wp, bind, get, set_refused, modify.
    by destruct (on_failure _ =? _).
  - intros s. apply address_ok.
Qed.

(** What may be in use, seen through the dispatch. *)
#[local] Program Instance runtime_fresh : AllocFresh state := {
  live s p n := live0 (foreign s) p n;
}.
Next Obligation.
  intros a size align s p s' Hs Ha Hrun. cbn in Hrun.
  destruct (record_matches (records s (target s a))) eqn:Hm.
  2: { unfold Alloc.alloc, bind in Hrun. by rewrite resolve_eq, Hm in Hrun. }
  destruct (matches_ops _ Hm) as [o Ho]. rewrite (alloc_eq a size align s o) in Hrun by (done || lia).
  destruct (op_alloc _ _ _ _ _) as [q e| | |] eqn:Hop; try done. injection Hrun as -> <-. cbn.
  by eapply p_fresh.
Qed.
Next Obligation.
  intros a p size align s s' q n Hrun Hl Hq. cbn in Hrun. unfold free, bind in Hrun. rewrite resolve_eq in Hrun.
  destruct (record_matches _) eqn:Hm; [|done]. destruct (size =? 0); [by injection Hrun as <-|].
  destruct (matches_ops _ Hm) as [o Ho]. unfold ops_at, bind, get in Hrun. rewrite Ho in Hrun. cbn in Hrun.
  unfold provider in Hrun. destruct (op_free _ _ _ _ _ _) as [[] e| | |] eqn:Hop; try done. injection Hrun as <-. cbn.
  by eapply p_free_keeps.
Qed.
End Alloc.
