(* ===== verification/AllocClaims.v ===== *)
(** The properties of the allocator dispatch, each with a concrete instance,
    and a region whose parent is the dispatch itself. *)
From S2P Require Import Prelude Printed Interfaces MapTable MapSpec Concrete Arena ArenaClaims Alloc AllocSpec.

Section claims.
Context {E : Type}.
Context (aligned_malloc : Z -> Z -> M E Z) (aligned_realloc : Z -> Z -> Z -> M E Z)
  (aligned_free : Z -> M E unit).
Context (other_table : provider_ops -> ops_table E) (arena_parent : E -> Z -> handle).
Context (default_allocator empty_region : handle).
Abbreviation request := (Alloc.alloc aligned_malloc aligned_realloc aligned_free other_table).
Abbreviation tables := (table_of aligned_malloc aligned_realloc aligned_free other_table).
Implicit Types (s : alloc_state E).

(** The note of a state, set. *)
Definition noted (by_ : handle) (size : Z) s : alloc_state E :=
  AllocState (records s) (selected s) (init_state s) by_ size (bytes s) (foreign s).

Lemma kind_length s a :
  (String.length (allocator_kind arena_parent default_allocator empty_region s a) <= 41)%nat.
Proof.
  unfold allocator_kind, arena_name. destruct (a =? empty_region); [cbn; lia|].
  destruct (bool_decide _); cbn [negb]; [|destruct (a =? default_allocator); cbn; lia].
  destruct (_ =? 0); cbn; lia.
Qed.

Lemma role_length s a : (String.length (allocator_role default_allocator s a) <= 28)%nat.
Proof. unfold allocator_role. destruct (_ && _); cbn; lia. Qed.

Lemma failure_text_length s a :
  is_u64 (refused_size s) ->
  (String.length (failure_text arena_parent default_allocator empty_region s a) < 160)%nat.
Proof.
  intros Hu. destruct (llu_u64 _ Hu) as [_ Hl]. unfold failure_text.
  destruct (negb _); rewrite !length_string_app.
  - pose proof (kind_length s (refused_by s)). pose proof (role_length s (refused_by s)).
    change (String.length "allocation failed: ") with 19%nat.
    change (String.length " bytes requested from ") with 22%nat. lia.
  - pose proof (kind_length s a). pose proof (role_length s a).
    change (String.length "allocation failed in ") with 21%nat.
    change (String.length ", with no size requested") with 24%nat. lia.
Qed.

(** C38: a failure that reaches its policy ends the program with a report that
    always fits its buffer: it aborts under [.Trap] and panics otherwise,
    spells the exact size of the refused request when one is noted, and leaves
    no note behind. *)
Theorem alloc_failure_reports a s :
  is_u64 (refused_size s) -> record_matches (records s (target s a)) = true ->
  exists m,
    alloc_failed arena_parent default_allocator empty_region a s =
      Stop (if on_failure (records s (target s a)) =? LOKE_RT_ON_FAILURE_TRAP then Aborted m else Panicked m)
        (noted 0 (refused_size s) s) /\
    m = failure_text arena_parent default_allocator empty_region s (target s a) /\
    (refused_by s <> 0 -> exists number rest,
       m = "allocation failed: " +:+ number +:+ " bytes requested from " +:+ rest /\
       read_decimal number 0 = Some (refused_size s)).
Proof.
  intros Hu Hm. eexists. split; [|split; [reflexivity|]].
  - unfold alloc_failed, bind. rewrite resolve_eq, Hm. unfold get, set_refused, modify, snprintf.
    rewrite substring_all by (pose proof (failure_text_length s (target s a) Hu); lia).
    by destruct (on_failure _ =? _).
  - intros Hr. unfold failure_text. destruct (Z.eqb_spec (refused_by s) 0); [done|]. cbn [negb].
    eexists _, _. split; [done|]. by apply llu_u64.
Qed.

(** The note of a refusal survives its trip through an error value: after a
    request that was refused, taking the note answers the size and clears it,
    and restoring it gives back the very state the refusal left, so the report
    is the same; and a request that succeeds leaves no note. *)
Theorem refusal_roundtrip a size align s p s1 :
  is_u64 size -> size <> 0 -> request a size align s = Ok p s1 ->
  (p <> 0 -> refused_by s1 = 0) /\
  (p = 0 ->
     refused_by s1 = target s a /\ refused_size s1 = size /\
     exists s2, take_refusal s1 = Ok size s2 /\ refused_by s2 = 0 /\
       (size <> LOKE_RT_REFUSAL_UNSIZED -> restore_refusal a size s2 = Ok tt s1)).
Proof.
  intros Hu Hs Hrun.
  destruct (record_matches (records s (target s a))) eqn:Hm.
  2: { unfold Alloc.alloc, bind in Hrun. by rewrite resolve_eq, Hm in Hrun. }
  destruct (matches_ops _ Hm) as [o Ho]. rewrite (alloc_eq _ _ _ _ a size align s o) in Hrun by done.
  destruct (op_alloc _ _ _ _ _) as [q e| | |]; [|done..]. injection Hrun as -> <-. split.
  - intros Hp. cbn. by destruct (Z.eqb_spec p 0).
  - intros ->. cbn [refused_by refused_size Z.eqb]. split; [done|]. split; [done|].
    unfold take_refusal, bind, get, set_refused, modify, ret. cbn [refused_by refused_size].
    destruct (Z.eqb_spec (target s a) 0) as [H0|_]; [by apply target_not_nil in H0|].
    eexists. split; [reflexivity|]. split; [reflexivity|].
    intros Hne. unfold restore_refusal.
    destruct (Z.eqb_spec size 0), (Z.eqb_spec size LOKE_RT_REFUSAL_UNSIZED); try done. cbn [orb].
    unfold bind. rewrite resolve_eq. unfold target, selected_allocator in *. cbn [records selected].
    by rewrite Hm.
Qed.
End claims.

(** * Concrete instances *)

(** The C library's heap is the bump provider of [Concrete]; no program table. *)
Definition no_table (o : provider_ops) : ops_table heap :=
  OpsTable (fun _ _ _ => ret 0) (fun _ _ _ _ _ => ret 0) (fun _ _ _ _ => ret tt) (fun _ => ret false).
Definition heap_realloc (p size align : Z) : M heap Z := heap_alloc size align.
Definition heap_free (p : Z) : M heap unit := ret tt.
Definition no_parent (e : heap) (p : Z) : handle := 0.

(** The process at its start: record 5 is the default one, 6 the empty region. *)
Definition process (n : nat) : alloc_state heap :=
  AllocState (fun h => if h =? 6 then empty_region_record 6 else default_record)
    (Nonnil 5 ltac:(discriminate)) LOKE_RT_INIT_IDLE 0 0 (fun _ => 0) (Heap 4096 n).

Lemma alloc_failure_reports_witness :
  exists m,
    alloc_failed no_parent 5 6 0 (noted 5 123456789 (process 0)) =
      Stop (Panicked m) (noted 0 123456789 (process 0)) /\
    m = failure_text no_parent 5 6 (noted 5 123456789 (process 0)) 5 /\
    (5 <> 0 -> exists number rest,
       m = "allocation failed: " +:+ number +:+ " bytes requested from " +:+ rest /\
       read_decimal number 0 = Some 123456789).
Proof.
  apply (alloc_failure_reports no_parent 5 6 0 (noted 5 123456789 (process 0))); [vm_compute; split; discriminate|reflexivity].
Defined.

Lemma refusal_roundtrip_witness :
  let run := Alloc.alloc heap_alloc heap_realloc heap_free no_table in
  run 0 64 8 (process 0) = Ok 0 (noted 5 64 (process 0)) /\
  (0 <> 0 -> refused_by (noted 5 64 (process 0)) = 0) /\
  (0 = 0 ->
     refused_by (noted 5 64 (process 0)) = 5 /\ refused_size (noted 5 64 (process 0)) = 64 /\
     exists s2, take_refusal (noted 5 64 (process 0)) = Ok 64 s2 /\ refused_by s2 = 0 /\
       (64 <> LOKE_RT_REFUSAL_UNSIZED -> restore_refusal 0 64 s2 = Ok tt (noted 5 64 (process 0)))).
Proof.
  intros run. assert (run 0 64 8 (process 0) = Ok 0 (noted 5 64 (process 0))) as Hrun by reflexivity.
  split; [exact Hrun|].
  apply (refusal_roundtrip heap_alloc heap_realloc heap_free no_table 0 64 8 (process 0) 0
    (noted 5 64 (process 0))); [vm_compute; split; discriminate|discriminate|exact Hrun].
Defined.

(** ** A region over the dispatch *)

Definition heap_live (e : heap) (p n : Z) : Prop := p + n <= next_address e.

Lemma sys_align_pos align : 0 < align -> sane_align align = align.
Proof. unfold sane_align. destruct (Z.eqb_spec align 0); [lia|done]. Qed.

#[local] Instance heap_table_ok o :
  Provider heap_live (table_of heap_alloc heap_realloc heap_free no_table o).
Proof.
  destruct o; split; cbn; try done.
  - intros st size align e. unfold sys_alloc. destruct (size =? 0); [done|]. apply heap_alloc_total.
  - intros st p old new align e. unfold sys_resize, heap_realloc. destruct (new =? 0); [done|].
    destruct (p =? 0); apply heap_alloc_total.
  - intros st size align e p e' Hs Ha. unfold sys_alloc. destruct (Z.eqb_spec size 0); [lia|].
    rewrite sys_align_pos by done. intros Hrun. exact (alloc_fresh (api:=heap_api) (AllocFresh:=heap_fresh) 0 size align e p e' Hs Ha Hrun).
  - intros st p size align e e' q n. unfold sys_free, heap_free. by intros [= <-].
  - intros st size align e p e' _ _ [= <- <-]. by split.
  - intros st p size align e e' q n [= <-]. done.
  - intros st size align e p e' _ _ [= <- <-]. by split.
  - intros st p size align e e' q n [= <-]. done.
  - intros st size align e p e' _ _ [= <- <-]. by split.
  - intros st p size align e e' q n [= <-]. done.
Qed.

(** The interface the regions, containers and strings are proved against holds
    of the dispatch over the system heap; so a region opened over the
    build-selected handle keeps its promises. *)
Example region_over_dispatch rs s :
  let api := runtime_api heap_alloc heap_realloc heap_free no_table no_parent 5 6 in
  Forall request_ok rs -> ledger (a_trace s) = Some [] ->
  wp (arena_life (api:=api) 0 rs)
    (fun allocs s' => arena s' = None /\ ledger (a_trace s') = Some [] /\ ArenaSpec.pairwise_apart allocs)
    (fun _ _ => True) s.
Proof.
  intros api Hrs Hl.
  pose proof (runtime_total heap_alloc heap_realloc heap_free no_table no_parent 5 6 heap_live) as Ht.
  pose proof (runtime_fresh heap_alloc heap_realloc heap_free no_table no_parent 5 6 heap_live) as Hf.
  by apply (arena_life_safe 0 rs s []).
Qed.
