(* ===== verification/Panic.v ===== *)
(** Panic, per-thread unwind state and abort ([runtime/panic.c],
    [runtime/fail.c]): the chain of cleanup frames, and how the process ends. *)
From S2P Require Import Prelude Printed.

(** [loke_rt_frame_v1]. *)
Record frame_v1 := FrameV1 {
  previous : Z;
  cleanup : option Z;
  context : Z;
}.

Section Panic.
Context {E : Type}.

(** One thread and the process's standard streams: text written to [stdout]
    waits in [pending] until it is flushed. [ran] lists the cleanups the unwind
    called, with their contexts. *)
Record pstate := PState {
  pending : string;
  out : string;
  err : string;
  frames : Z;
  panicking : bool;
  attached : bool;
  frame_memory : gmap Z frame_v1;
  ran : list (Z * Z);
  world : E;
}.

(** The generated cleanup thunks and thread-local cleanup, and the stack trace
    of [runtime/trace.c]. *)
Context (cleanup_code : Z -> Z -> M pstate unit).
Context (program_tls_cleanup panic_trace : M pstate unit).

Definition fflush_stdout : M pstate unit := modify (fun s =>
  PState "" (out s +:+ pending s) (err s) (frames s) (panicking s) (attached s) (frame_memory s) (ran s) (world s)).
Definition fputs_stderr (text : string) : M pstate unit := modify (fun s =>
  PState (pending s) (out s) (err s +:+ text) (frames s) (panicking s) (attached s) (frame_memory s) (ran s) (world s)).
Definition set_thread (fr : Z) (p at_ : bool) : M pstate unit := modify (fun s =>
  PState (pending s) (out s) (err s) fr p at_ (frame_memory s) (ran s) (world s)).
Definition log_cleanup (c x : Z) : M pstate unit := modify (fun s =>
  PState (pending s) (out s) (err s) (frames s) (panicking s) (attached s) (frame_memory s) (ran s ++ [(c, x)]) (world s)).
Definition write_frame (frame : Z) (f : frame_v1) : M pstate unit := modify (fun s =>
  PState (pending s) (out s) (err s) (frames s) (panicking s) (attached s) (<[frame := f]> (frame_memory s)) (ran s) (world s)).
Definition frame_at (frame : Z) : M pstate frame_v1 :=
  let! s := get in need (frame_memory s !! frame).

(** [loke_rt_v1_abort] and [_Exit(3)]. *)
Definition rt_abort {A} (what : option string) : M pstate A :=
  fflush_stdout ;;;
  fputs_stderr "loke: " ;;;
  fputs_stderr (default "runtime failure"%string what) ;;;
  fputs_stderr newline ;;;
  stop (Exited 3).

Definition thread_attach : M pstate unit := set_thread 0 false true.

Definition thread_detach : M pstate unit :=
  let! s := get in
  set_thread 0 (panicking s) (attached s) ;;;
  if attached s then set_thread 0 (panicking s) false ;;; program_tls_cleanup else ret tt.

Definition run_task (run : Z -> M pstate unit) (frame : Z) : M pstate unit := run frame.

Definition frame_push (frame : Z) (c : option Z) (x : Z) : M pstate unit :=
  let! s := get in
  write_frame frame (FrameV1 (frames s) c x) ;;;
  set_thread frame (panicking s) (attached s).

Definition frame_pop (frame : Z) : M pstate unit :=
  let! s := get in
  if frames s =? frame then
    let! f := frame_at frame in
    set_thread (previous f) (panicking s) (attached s)
  else ret tt.

Definition panic_begin (message : option string) : M pstate unit :=
  let! s := get in
  if panicking s then rt_abort (Some "panic while unwinding a panic")
  else
    set_thread (frames s) true (attached s) ;;;
    fflush_stdout ;;;
    fputs_stderr "loke: panic: " ;;;
    fputs_stderr (default "runtime failure"%string message).

(** The loop of [panic_end]: [frame->previous] is read after the cleanup. *)
Fixpoint unwind (fuel : nat) (frame : Z) : M pstate unit :=
  if frame =? 0 then ret tt
  else
    match fuel with
    | O => no_fuel
    | S fuel =>
        let! f := frame_at frame in
        match cleanup f with
        | Some c => log_cleanup c (context f) ;;; cleanup_code c (context f)
        | None => ret tt
        end ;;;
        let! f := frame_at frame in
        unwind fuel (previous f)
    end.

Definition panic_end {A} : M pstate A :=
  fputs_stderr newline ;;;
  panic_trace ;;;
  let! s := get in
  unwind (size (frame_memory s)) (frames s) ;;;
  rt_abort (Some "panicked").

Definition rt_panic {A} (message : option string) : M pstate A :=
  panic_begin message ;;; panic_end.

(** * The chain *)

(** The frames from [head] on, newest first. *)
Fixpoint linked (mem : gmap Z frame_v1) (head : Z) (l : list Z) : Prop :=
  match l with
  | [] => head = 0
  | f :: l => head = f /\ f <> 0 /\ exists r, mem !! f = Some r /\ linked mem (previous r) l
  end.

(** The cleanups of a chain, newest first. *)
Definition cleanups (mem : gmap Z frame_v1) (l : list Z) : list (Z * Z) :=
  l ≫= fun f => match mem !! f with
    | Some (FrameV1 _ (Some c) x) => [(c, x)]
    | _ => []
    end.

Implicit Types (s : pstate).

Lemma linked_agree mem mem' head l :
  linked mem head l -> (forall f, f ∈ l -> mem' !! f = mem !! f) -> linked mem' head l.
Proof.
  revert head. induction l as [|f l IH]; intros head; [done|]. intros (-> & Hf & r & Hr & Hl) Ha.
  split; [done|]. split; [done|]. exists r. rewrite Ha by by left. split; [done|].
  apply IH; [done|]. intros g Hg. apply Ha. by right.
Qed.

Lemma cleanups_agree mem mem' l :
  (forall f, f ∈ l -> mem' !! f = mem !! f) -> cleanups mem' l = cleanups mem l.
Proof.
  intros Ha. induction l as [|f l IH]; [done|]. unfold cleanups in *. cbn. rewrite Ha by by left. f_equal.
  apply IH. intros g Hg. apply Ha. by right.
Qed.

(** Two chains from one head are the same, so a chain has no frame twice and
    is no longer than the memory. *)
Lemma linked_unique mem head l l' : linked mem head l -> linked mem head l' -> l = l'.
Proof.
  revert head l'. induction l as [|f l IH]; intros head [|f' l']; cbn.
  - done.
  - intros -> (<- & ? & _). done.
  - intros (-> & ? & _) ->. done.
  - intros (-> & _ & r & Hr & Hl) (<- & _ & r' & Hr' & Hl'). rewrite Hr in Hr'. injection Hr' as <-.
    f_equal. by eapply IH.
Qed.

Lemma linked_from mem head l f : linked mem head l -> f ∈ l -> exists l1 l2, l = l1 ++ f :: l2 /\ linked mem f (f :: l2).
Proof.
  intros Hl Hf. apply list_elem_of_split in Hf as (l1 & l2 & ->). exists l1, l2. split; [done|].
  revert head Hl. induction l1 as [|g l1 IH]; intros head; cbn; [by intros (-> & ?)|].
  intros (_ & _ & r & _ & Hl). by apply (IH _ Hl).
Qed.

Lemma linked_nodup mem head l : linked mem head l -> NoDup l.
Proof.
  revert head. induction l as [|f l IH]; intros head Hl; [constructor|].
  pose proof Hl as (-> & _ & r & _ & Hl'). constructor; [|by eapply IH]. intros Hin.
  destruct (linked_from _ _ _ _ Hl' Hin) as (l1 & l2 & -> & Hf).
  pose proof (linked_unique _ _ _ _ Hl Hf) as He.
  apply (f_equal length) in He. rewrite !length_cons, length_app, length_cons in He. lia.
Qed.

Lemma linked_dom mem head l f : linked mem head l -> f ∈ l -> f ∈ dom mem.
Proof.
  intros Hl Hf. destruct (linked_from _ _ _ _ Hl Hf) as (_ & l2 & _ & _ & _ & r & Hr & _).
  by apply elem_of_dom.
Qed.

Lemma linked_length mem head l : linked mem head l -> (length l <= size mem)%nat.
Proof.
  intros Hl. rewrite <- size_dom. rewrite <- (size_list_to_set (C:=gset Z)) by by eapply linked_nodup.
  apply subseteq_size. intros f. rewrite elem_of_list_to_set. by apply linked_dom with head.
Qed.

(** ** The unwind *)

(** Cleanup code returns or ends the process; it leaves the frames it did not
    push where they are. *)
Context (cleanup_keeps : forall c x s,
  wp (cleanup_code c x)
    (fun _ s' => ran s' = ran s /\ forall f r, frame_memory s !! f = Some r -> frame_memory s' !! f = Some r)
    (fun _ s' => ran s' = ran s) s).

(** One of the cleanups [cs] ended the process: those before it and it are the
    ones that ran, and how the process ended is its doing. *)
Definition ended_by (cs : list (Z * Z)) s (h : halt) s' : Prop :=
  exists n c x s1, cs !! n = Some (c, x) /\ ran s1 = ran s ++ take (S n) cs /\ cleanup_code c x s1 = Stop h s'.

Lemma ended_by_later cs1 cs2 s s1 h s' :
  ran s1 = ran s ++ cs1 -> ended_by cs2 s1 h s' -> ended_by (cs1 ++ cs2) s h s'.
Proof.
  intros H1 (n & c & x & s2 & Hn & H2 & Hc). exists (length cs1 + n)%nat, c, x, s2. split_and!; [|..|done].
  - rewrite lookup_app_r by lia. by replace (length cs1 + n - length cs1)%nat with n by lia.
  - rewrite H2, H1, <- Nat.add_succ_r, take_app_add, <- app_assoc. done.
Qed.

(** Every cleanup has run, or one of them ended the process. *)
Lemma unwind_spec l : forall fuel s head mem,
  linked mem head l -> (forall f r, mem !! f = Some r -> frame_memory s !! f = Some r) ->
  (length l <= fuel)%nat ->
  wp (unwind fuel head)
    (fun _ s' => ran s' = ran s ++ cleanups mem l)
    (ended_by (cleanups mem l) s) s.
Proof.
  induction l as [|f l IH]; intros fuel s head mem Hl Hmem Hf.
  { cbn in Hl. subst head. destruct fuel; cbn; by rewrite app_nil_r. }
  destruct Hl as (-> & H0 & r & Hr & Hl). destruct fuel as [|fuel]; [cbn in Hf; lia|].
  cbn [unwind]. destruct (Z.eqb_spec f 0); [done|].
  assert (forall s (k : frame_v1 -> M pstate unit) Q P, frame_memory s !! f = Some r ->
    wp (k r) Q P s -> wp (bind (frame_at f) k) Q P s) as Hat.
  { intros s1 k Q P He Hk. unfold frame_at, wp, bind, get in *. by rewrite He. }
  apply Hat; [by apply Hmem|].
  assert (cleanups mem (f :: l) = match cleanup r with Some c => [(c, context r)] | None => [] end ++ cleanups mem l) as ->.
  { unfold cleanups. cbn. rewrite Hr. by destruct r as [? [?|] ?]. }
  apply wp_bind. destruct (cleanup r) as [c|].
  - apply wp_bind, wp_modify. set (s0 := PState _ _ _ _ _ _ _ _ _).
    assert (wp (cleanup_code c (context r))
      (fun _ s' => ran s' = ran s0 /\ forall f r, frame_memory s0 !! f = Some r -> frame_memory s' !! f = Some r)
      (fun h s' => cleanup_code c (context r) s0 = Stop h s') s0) as Hcode.
    { pose proof (cleanup_keeps c (context r) s0) as H. unfold wp in *. by destruct (cleanup_code c (context r) s0). }
    eapply wp_conseq; [exact Hcode| |].
    + intros [] s1 [Hran Hk]. cbn in Hran. apply Hat; [apply Hk, Hmem, Hr|].
      eapply wp_conseq; [apply (IH fuel s1 (previous r) mem)| |].
      * done.
      * intros g r' Hg. apply Hk, Hmem, Hg.
      * cbn in Hf. lia.
      * intros [] s2 Hrest. by rewrite Hrest, Hran, <- app_assoc.
      * intros h s2. by apply (ended_by_later [_]).
    + intros h s1 Hstop. exists 0%nat, c, (context r), s0. cbn. by rewrite take_0.
  - apply wp_ret, Hat; [by apply Hmem|]. apply (IH fuel s (previous r) mem); [done|done|]. cbn in Hf. lia.
Qed.

(** The stack trace changes only what it writes. *)
Context (trace_keeps : forall s,
  wp panic_trace (fun _ s' => ran s' = ran s /\ frames s' = frames s /\ frame_memory s' = frame_memory s)
    (fun _ _ => False) s).

Lemma rt_abort_spec {A} what s (Q : A -> pstate -> Prop) :
  wp (rt_abort what) Q
    (fun h s' => h = Exited 3 /\ ran s' = ran s /\ pending s' = "" /\ out s' = out s +:+ pending s /\
       exists shown, err s' = shown +:+ default "runtime failure"%string what +:+ newline) s.
Proof.
  unfold rt_abort. do 4 apply wp_bind, wp_modify. apply wp_stop. split_and!; try done. cbn.
  exists (err s +:+ "loke: "). clear. generalize (err s +:+ "loke: ") (default "runtime failure"%string what) newline.
  intros t u v. induction t as [|c t IH]; [done|]. exact (f_equal (String c) IH).
Qed.

Lemma panic_spec {A} message s l (Q : A -> pstate -> Prop) :
  panicking s = false -> linked (frame_memory s) (frames s) l ->
  wp (rt_panic message) Q
    (fun h s' => (h = Exited 3 /\ ran s' = ran s ++ cleanups (frame_memory s) l /\ pending s' = "" /\
        exists shown, err s' = shown +:+ "panicked" +:+ newline) \/
      ended_by (cleanups (frame_memory s) l) s h s') s.
Proof.
  intros Hp Hl. unfold rt_panic, panic_begin, panic_end. apply wp_bind, wp_bind, wp_get. rewrite Hp.
  apply wp_bind, wp_modify, wp_bind, wp_modify, wp_bind, wp_modify, wp_modify.
  apply wp_bind, wp_modify, wp_bind. eapply wp_conseq; [apply trace_keeps| |done].
  intros _ s1 (Hran & Hfr & Hmem). cbn in Hran, Hfr, Hmem. apply wp_bind, wp_get. apply wp_bind.
  rewrite Hfr, Hmem. eapply wp_conseq; [apply (unwind_spec l _ s1 _ (frame_memory s))| |].
  - done.
  - by rewrite Hmem.
  - by eapply linked_length.
  - intros [] s2 Hs2. eapply wp_conseq; [apply rt_abort_spec|done|].
    intros h s3 (-> & Hr3 & Hpend & _ & shown & He). left. split_and!; [done| |done|eauto]. by rewrite Hr3, Hs2, Hran.
  - intros h s2 Hs2. right. apply (ended_by_later [] _ s s1); [by rewrite Hran, app_nil_r|done].
Qed.
End Panic.
Arguments pstate : clear implicits.
