(* ===== verification/PanicClaims.v ===== *)
(** The properties of a panic, with a concrete thread. *)
From S2P Require Import Prelude Printed Panic.

Section claims.
Context {E : Type}.
Abbreviation code := (M (pstate E) unit).
Implicit Types (s : pstate E).

(** Cleanup thunks return or end the process, and leave the frames they did
    not push; the stack trace only writes. *)
Definition cleanups_behave (cleanup_code : Z -> Z -> code) : Prop := forall c x s,
  wp (cleanup_code c x)
    (fun _ s' => ran s' = ran s /\ forall f r, frame_memory s !! f = Some r -> frame_memory s' !! f = Some r)
    (fun _ s' => ran s' = ran s) s.
Definition trace_writes (panic_trace : code) : Prop := forall s,
  wp panic_trace (fun _ s' => ran s' = ran s /\ frames s' = frames s /\ frame_memory s' = frame_memory s)
    (fun _ _ => False) s.

(** C39: a panic never returns: it runs the cleanup of every frame the thread
    pushed, once each, newest first, and then ends the process with status 3,
    its report written and standard output flushed. Only a cleanup that itself
    ends the process cuts the walk short: then those up to it ran, and the
    process ends the way that cleanup ends it. A panic raised while one unwinds
    runs no cleanup at all. *)
Theorem panic_unwinds cleanup_code panic_trace message s l :
  cleanups_behave cleanup_code -> trace_writes panic_trace -> linked (frame_memory s) (frames s) l ->
  wp (rt_panic cleanup_code panic_trace message)
    (fun (_ : unit) _ => False)
    (fun h s' =>
       if panicking s then
         h = Exited 3 /\ ran s' = ran s /\
         exists shown, err s' = shown +:+ "panic while unwinding a panic" +:+ newline
       else
         (h = Exited 3 /\ ran s' = ran s ++ cleanups (frame_memory s) l /\ pending s' = "" /\
          exists shown, err s' = shown +:+ "panicked" +:+ newline) \/
         ended_by cleanup_code (cleanups (frame_memory s) l) s h s') s.
Proof.
  intros Hc Ht Hl. destruct (panicking s) eqn:Hp.
  - unfold rt_panic, panic_begin. apply wp_bind, wp_bind, wp_get. rewrite Hp.
    eapply wp_conseq; [apply (rt_abort_spec _ s (fun _ _ => False))|done|]. intros h s' (-> & Hr & _ & _ & He). done.
  - by apply panic_spec.
Qed.

(** Pushing a frame puts it in front of the chain, popping it then gives
    back the chain that was there, and popping a frame that is not the newest
    one (a procedure that registered nothing never pushed its own) changes
    nothing. *)
Theorem frames_nest s frame c x l g :
  frame <> 0 -> frame ∉ l -> linked (frame_memory s) (frames s) l -> g <> frame ->
  wp (frame_push frame c x)
    (fun _ s' => linked (frame_memory s') (frames s') (frame :: l) /\
       cleanups (frame_memory s') (frame :: l) =
         match c with Some c => [(c, x)] | None => [] end ++ cleanups (frame_memory s) l /\
       wp (frame_pop g) (fun _ s'' => s'' = s') (fun _ _ => False) s' /\
       wp (frame_pop frame)
         (fun _ s'' => frames s'' = frames s /\ linked (frame_memory s'') (frames s'') l) (fun _ _ => False) s')
    (fun _ _ => False) s.
Proof.
  intros H0 Hn Hl Hg. unfold frame_push. apply wp_bind, wp_get, wp_bind, wp_modify, wp_modify.
  assert (linked (<[frame := FrameV1 (frames s) c x]> (frame_memory s)) (frames s) l) as Hl'.
  { eapply linked_agree; [done|]. intros f Hf. apply lookup_insert_ne. by intros ->. }
  split_and!.
  - cbn. split; [done|]. split; [done|]. exists (FrameV1 (frames s) c x). split; [apply lookup_insert_eq|done].
  - unfold cleanups at 1. cbn. rewrite lookup_insert_eq. f_equal.
    apply (cleanups_agree (frame_memory s)). intros f Hf. apply lookup_insert_ne. by intros ->.
  - unfold frame_pop. apply wp_bind, wp_get. cbn [frames]. destruct (Z.eqb_spec frame g); [done|]. by apply wp_ret.
  - unfold frame_pop, frame_at. apply wp_bind, wp_get. cbn [frames]. rewrite Z.eqb_refl.
    apply wp_bind, wp_bind, wp_get. eapply wp_need; [apply lookup_insert_eq|]. apply wp_modify. done.
Qed.
End claims.

(** * Concrete instances *)

(** Frame 100 is the newest, then 200, which registered nothing, then 300. *)
Definition thread : pstate unit :=
  PState "partial line" "" "" 100 false true
    (<[100 := FrameV1 200 (Some 1) 11]> (<[200 := FrameV1 300 None 0]> (<[300 := FrameV1 0 (Some 3) 33]> ∅)))
    [] tt.

Definition quiet : Z -> Z -> M (pstate unit) unit := fun _ _ => ret tt.

Lemma panic_unwinds_witness :
  linked (frame_memory thread) (frames thread) [100; 200; 300] /\
  wp (rt_panic quiet (ret tt) (Some "index out of range"%string))
    (fun (_ : unit) _ => False)
    (fun h s' =>
       if panicking thread then
         h = Exited 3 /\ ran s' = ran thread /\
         exists shown, err s' = shown +:+ "panic while unwinding a panic" +:+ newline
       else
         (h = Exited 3 /\ ran s' = ran thread ++ cleanups (frame_memory thread) [100; 200; 300] /\ pending s' = "" /\
          exists shown, err s' = shown +:+ "panicked" +:+ newline) \/
         ended_by quiet (cleanups (frame_memory thread) [100; 200; 300]) thread h s') thread.
Proof.
  assert (linked (frame_memory thread) (frames thread) [100; 200; 300]) as Hl.
  { split; [reflexivity|]. split; [discriminate|]. eexists. split; [reflexivity|].
    split; [reflexivity|]. split; [discriminate|]. eexists. split; [reflexivity|].
    split; [reflexivity|]. split; [discriminate|]. eexists. split; [reflexivity|]. reflexivity. }
  split; [exact Hl|]. apply panic_unwinds; [intros c x s; by split|intros s; by split|exact Hl].
Defined.

Example thread_cleanups : ran (match rt_panic (A:=unit) quiet (ret tt) None thread with Stop _ s => s | _ => thread end)
  = [(1, 11); (3, 33)].
Proof. vm_compute. reflexivity. Qed.

Lemma frames_nest_witness :
  wp (frame_push 400 (Some 4) 44)
    (fun _ s' => linked (frame_memory s') (frames s') [400; 300] /\
       cleanups (frame_memory s') [400; 300] =
         [(4, 44)] ++ cleanups (frame_memory (PState "" "" "" 300 false true (<[300 := FrameV1 0 (Some 3) 33]> ∅) [] tt)) [300] /\
       wp (frame_pop 500) (fun _ s'' => s'' = s') (fun _ _ => False) s' /\
       wp (frame_pop 400)
         (fun _ s'' => frames s'' = 300 /\ linked (frame_memory s'') (frames s'') [300]) (fun _ _ => False) s')
    (fun _ _ => False) (PState "" "" "" 300 false true (<[300 := FrameV1 0 (Some 3) 33]> ∅) [] tt).
Proof.
  apply (frames_nest (PState "" "" "" 300 false true (<[300 := FrameV1 0 (Some 3) 33]> ∅) [] tt) 400 (Some 4) 44 [300] 500);
    [discriminate| |split; [reflexivity|split; [discriminate|eexists; split; reflexivity]]|discriminate].
  intros Hin%list_elem_of_singleton. discriminate Hin.
Defined.
