(* ===== verification/Cpu.v ===== *)
(** CPU levels ([runtime/cpu.c]): whether the processor runs what a build was
    compiled for, and what a program built for more reports. *)
From S2P Require Import Prelude Printed Panic.

(** * Definitions *)

Definition level_names : list string := ["x86-64"; "x86-64-v2"; "x86-64-v3"]%string.
Definition LEVEL_COUNT : Z := zlen level_names.

(** The search of [loke_rt_v1_cpu_dispatch]: the last index whose name is
    [cap]. *)
Fixpoint find_level (cap : string) (names : list string) (index allowed : Z) : Z :=
  match names with
  | [] => allowed
  | name :: names => find_level cap names (index + 1) (if bool_decide (cap = name) then index else allowed)
  end.

Section Cpu.
(** compiler-rt's [__builtin_cpu_supports], and [getenv]. *)
Context (builtin_cpu_supports : string -> bool) (getenv : string -> option string).
Context {E : Type}.

Definition cpu_supports (level : Z) : bool :=
  if level =? 0 then true
  else if level =? 1 then builtin_cpu_supports "x86-64-v2"
  else if level =? 2 then builtin_cpu_supports "x86-64-v3"
  else false.

Definition cpu_dispatch (level : Z) : bool :=
  match getenv "LOKE_DISPATCH_CPU" with
  | Some cap =>
      let allowed := find_level cap level_names 0 (-1) in
      if allowed <? level then false else cpu_supports level
  | None => cpu_supports level
  end.

Definition require_cpu (level : Z) : M (pstate E) unit :=
  if cpu_supports level then ret tt
  else
    fflush_stdout ;;;
    (if (0 <=? level) && (level <? LEVEL_COUNT) then
       fputs_stderr "loke: this processor does not support " ;;;
       (let! name := need (at_index level_names level) in fputs_stderr name) ;;;
       fputs_stderr (", which the program was built for" +:+ newline)
     else fputs_stderr ("loke: the program was built for a CPU level this runtime does not know" +:+ newline)) ;;;
    stop (Exited 3).

(** * Properties *)

(** The level a cap allows: the index of its name, or none. *)
Definition cap_level (cap : string) : option Z :=
  if bool_decide (cap = "x86-64"%string) then Some 0
  else if bool_decide (cap = "x86-64-v2"%string) then Some 1
  else if bool_decide (cap = "x86-64-v3"%string) then Some 2 else None.

Lemma find_level_names cap : find_level cap level_names 0 (-1) = default (-1) (cap_level cap).
Proof. unfold cap_level. cbn. repeat (case_bool_decide; subst; try done). Qed.

Lemma cap_level_name cap n : cap_level cap = Some n <-> at_index level_names n = Some cap.
Proof.
  unfold cap_level, at_index. split.
  - repeat case_bool_decide; intros [= <-]; by subst.
  - destruct (Z.leb_spec 0 n) as [Hn|]; [|done]. destruct (Z.to_nat n) as [|[|[|k]]] eqn:E2; cbn; intros [= <-]; cbn; f_equal; lia.
Qed.

Lemma cpu_supports_range level : cpu_supports level = true -> 0 <= level < LEVEL_COUNT.
Proof.
  unfold cpu_supports, LEVEL_COUNT. cbn. destruct (Z.eqb_spec level 0), (Z.eqb_spec level 1), (Z.eqb_spec level 2); lia || done.
Qed.

(** A dispatched procedure runs its copy for a level exactly when the
    processor has the level and [LOKE_DISPATCH_CPU], where it is set, names that
    level or a higher one: a value naming no level runs none, not even the
    baseline copy, and so does a level the runtime does not know. *)
Theorem cpu_dispatch_correct level :
  cpu_dispatch level = true <->
  cpu_supports level = true /\
    match getenv "LOKE_DISPATCH_CPU" with
    | None => True
    | Some cap => exists n, at_index level_names n = Some cap /\ level <= n
    end.
Proof.
  unfold cpu_dispatch. destruct (getenv _) as [cap|]; [|naive_solver]. rewrite find_level_names. split.
  - intros H. destruct (Z.ltb_spec (default (-1) (cap_level cap)) level) as [|Hle]; [done|]. split; [done|].
    pose proof (cpu_supports_range level H). destruct (cap_level cap) as [n|] eqn:Hc; cbn in Hle; [|lia].
    exists n. split; [by apply cap_level_name|done].
  - intros [H (n & Hn & Hle)]. apply cap_level_name in Hn. rewrite Hn. cbn. destruct (Z.ltb_spec n level); [lia|done].
Qed.

(** A program built for a level starts only where the processor has it:
    the check returns, having done nothing, exactly then, and otherwise ends the
    process with status 3, output already written flushed first, and a report
    that names the level or says that it is unknown. *)
Theorem require_cpu_correct level s :
  wp (require_cpu level) (fun _ s' => cpu_supports level = true /\ s' = s)
    (fun h s' => cpu_supports level = false /\ h = Exited 3 /\ out s' = out s +:+ pending s /\ pending s' = "" /\
       err s' = err s +:+ "loke: " +:+
         match at_index level_names level with
         | Some name => "this processor does not support " +:+ name +:+ ", which the program was built for"
         | None => "the program was built for a CPU level this runtime does not know"
         end +:+ newline) s.
Proof.
  unfold require_cpu. destruct (cpu_supports level) eqn:Hs; [by apply wp_ret|]. apply wp_bind, wp_modify, wp_bind.
  destruct (at_index level_names level) as [name|] eqn:Hn.
  - assert (0 <= level < LEVEL_COUNT) as Hl.
    { unfold at_index in Hn. destruct (Z.leb_spec 0 level); [|done]. apply lookup_lt_Some in Hn. unfold LEVEL_COUNT. lia. }
    destruct (Z.leb_spec 0 level); [|lia]. destruct (Z.ltb_spec level LEVEL_COUNT); [|lia]. cbn [andb].
    apply wp_bind, wp_modify, wp_bind, wp_bind. eapply wp_need; [done|]. apply wp_modify, wp_modify, wp_stop. cbn [out err pending].
    split_and!; [done..|]. by rewrite !append_assoc_string.
  - assert ((0 <=? level) && (level <? LEVEL_COUNT) = false) as ->.
    { unfold at_index in Hn. destruct (Z.leb_spec 0 level); [|done]. apply lookup_ge_None in Hn. unfold LEVEL_COUNT.
      cbn [andb]. apply Z.ltb_ge. lia. }
    apply wp_modify, wp_stop. cbn [out err pending]. by split_and!.
Qed.
End Cpu.
