(* ===== verification/Trace.v ===== *)
(** Panic stack traces of [-g] executables ([runtime/trace.c]), over the answers
    DbgHelp gives. *)
From Stdlib Require Import Strings.Ascii.
From S2P Require Import Prelude Printed Panic.

(** * Definitions *)

(** The fields of [IMAGEHLP_LINE64] that are read. *)
Record line_info := LineInfo { file_name : string; line_number : Z }.

(** The entry points of [dbghelp.dll], [None] where [GetProcAddress] finds
    none, by the answers they give: a name or a line where the call succeeds. *)
Record dbghelp_api := DbghelpApi {
  initialize : option bool;
  set_options : option unit;
  from_addr : option (Z -> option string);
  line_from_addr : option (Z -> option line_info);
  inline_count : option (Z -> Z);
  inline_query : option (Z -> option Z);
  inline_symbol : option (Z -> Z -> option string);
  inline_line : option (Z -> Z -> option line_info);
}.

(** [_stricmp] of the C locale. *)
Definition lower (c : ascii) : ascii :=
  let n := nat_of_ascii c in if ((65 <=? n) && (n <=? 90))%nat then ascii_of_nat (n + 32) else c.
Fixpoint stricmp_equal (a b : string) : bool :=
  match a, b with
  | EmptyString, EmptyString => true
  | String c a, String d b => bool_decide (lower c = lower d) && stricmp_equal a b
  | _, _ => false
  end.

Definition is_loke_source (path : string) : bool :=
  let length := String.length path in
  (5 <? length)%nat && stricmp_equal (String.substring (length - 5) 5 path) ".loke".

(** The loop of [print_frame] over the path: what follows its last separator. *)
Definition is_separator (c : ascii) : bool := (nat_of_ascii c =? 92)%nat || (nat_of_ascii c =? 47)%nat.
Fixpoint after_separators (at_ file : string) : string :=
  match at_ with
  | EmptyString => file
  | String c rest => after_separators rest (if is_separator c then rest else file)
  end.
Definition base_name (path : string) : string := after_separators path path.

Definition header_line : string := "loke: stack trace, newest call first:" +:+ newline.
Definition frame_line (named : option string) (line : line_info) : string :=
  "    " +:+ default "?"%string named +:+ " at " +:+ base_name (file_name line) +:+ ":" +:+ llu 10 (line_number line) "" +:+ newline.

(** The process-wide flags, beside what the rest of the program keeps. *)
Record flags := Flags { enabled : bool; taken : bool }.

Section Trace.
Context {E : Type}.
Notation tstate := (pstate (flags * E)).

(** [LoadLibraryA] of [dbghelp.dll], and the return addresses that
    [RtlCaptureStackBackTrace] finds, at most 64. *)
Context (dbghelp : option dbghelp_api) (backtrace : list Z).

Definition set_flags (f : flags) : M tstate unit := modify (fun s =>
  PState (pending s) (out s) (err s) (frames s) (panicking s) (attached s) (frame_memory s) (ran s) (f, (world s).2)).
Definition flags_of (s : tstate) : flags := (world s).1.

Definition enable_panic_trace : M tstate unit :=
  let! s := get in set_flags (Flags true (taken (flags_of s))).

(** Answers whether the heading is printed by now. *)
Definition print_frame (api : dbghelp_api) (printed : bool) (address : Z) (inlined : bool) (context : Z) : M tstate bool :=
  let! found :=
    if inlined then (let! f := need (inline_line api) in ret (f address context))
    else (let! f := need (line_from_addr api) in ret (f address)) in
  match found with
  | None => ret printed
  | Some line =>
      if negb (is_loke_source (file_name line)) then ret printed
      else
        let! named :=
          if inlined then (let! f := need (inline_symbol api) in ret (f address context))
          else (let! f := need (from_addr api) in ret (f address)) in
        (if printed then ret tt else fputs_stderr header_line) ;;;
        fputs_stderr (frame_line named line) ;;;
        ret true
  end.

(** [for (k = 0; k < inlined; k++)], from [k] on. *)
Fixpoint print_inlined (api : dbghelp_api) (printed : bool) (address context : Z) (k : Z) (rest : nat) : M tstate bool :=
  match rest with
  | O => ret printed
  | S rest =>
      let! printed := print_frame api printed address true (wrap32 (context + k)) in
      print_inlined api printed address context (k + 1) rest
  end.

Definition inlining (api : dbghelp_api) : bool :=
  bool_decide (is_Some (inline_count api)) && bool_decide (is_Some (inline_query api)) &&
  bool_decide (is_Some (inline_symbol api)) && bool_decide (is_Some (inline_line api)).

Definition print_address (api : dbghelp_api) (printed : bool) (frame : Z) : M tstate bool :=
  let address := wrap64 (frame - 1) in
  let! inlined := if inlining api then (let! f := need (inline_count api) in ret (f address)) else ret 0 in
  let! printed :=
    if 0 <? inlined then
      let! query := need (inline_query api) in
      match query address with
      | Some context => print_inlined api printed address context 0 (Z.to_nat inlined)
      | None => ret printed
      end
    else ret printed in
  print_frame api printed address false 0.

Fixpoint print_addresses (api : dbghelp_api) (printed : bool) (frames : list Z) : M tstate unit :=
  match frames with
  | [] => ret tt
  | frame :: frames => let! printed := print_address api printed frame in print_addresses api printed frames
  end.

Definition usable (api : dbghelp_api) : bool :=
  bool_decide (is_Some (initialize api)) && bool_decide (is_Some (set_options api)) &&
  bool_decide (is_Some (from_addr api)) && bool_decide (is_Some (line_from_addr api)).

Definition panic_trace : M tstate unit :=
  let! s := get in
  let f := flags_of s in
  if negb (enabled f) then ret tt
  else
    set_flags (Flags (enabled f) true) ;;;
    if taken f then ret tt
    else
      match dbghelp with
      | None => ret tt
      | Some api =>
          if negb (usable api) then ret tt
          else
            let! _ := need (set_options api) in
            let! ok := need (initialize api) in
            if negb ok then ret tt else print_addresses api false backtrace
      end.

(** * What a trace says *)

(** The line of one frame; only a frame of a [.loke] file has one. *)
Definition shown (found : option line_info) (named : option string) : list string :=
  match found with
  | Some line => if is_loke_source (file_name line) then [frame_line named line] else []
  | None => []
  end.

Definition answer1 {A} (f : option (Z -> option A)) (address : Z) : option A := g ← f; g address.
Definition answer2 {A} (f : option (Z -> Z -> option A)) (address context : Z) : option A := g ← f; g address context.

(** The lines of one return address: the procedures inlined there, innermost
    first, then the procedure itself. *)
Definition address_lines (api : dbghelp_api) (frame : Z) : list string :=
  let a := wrap64 (frame - 1) in
  (if inlining api then
     match answer1 (inline_query api) a with
     | Some c => seqZ 0 (Z.max 0 (default 0 ((fun f => f a) <$> inline_count api))) ≫= fun k =>
         shown (answer2 (inline_line api) a (wrap32 (c + k))) (answer2 (inline_symbol api) a (wrap32 (c + k)))
     | None => []
     end
   else []) ++ shown (answer1 (line_from_addr api) a) (answer1 (from_addr api) a).

Definition joined (lines : list string) : string := foldr String.append EmptyString lines.

Definition trace_text : string :=
  match dbghelp with
  | Some api =>
      if usable api && default false (initialize api) then
        match backtrace ≫= address_lines api with
        | [] => EmptyString
        | lines => header_line +:+ joined lines
        end
      else EmptyString
  | None => EmptyString
  end.
End Trace.
