(* ===== verification/TraceSpec.v ===== *)
(** What a stack trace prints, and the whole report of a panic. *)
From Stdlib Require Import Strings.Ascii.
From S2P Require Import Prelude Printed Panic Trace.

(** * Text *)

Lemma joined_app l l' : joined (l ++ l') = joined l +:+ joined l'.
Proof.
  induction l as [|t l IH]; [done|]. change (joined ((t :: l) ++ l')) with (t +:+ joined (l ++ l')).
  change (joined (t :: l)) with (t +:+ joined l). by rewrite IH, append_assoc_string.
Qed.

Fixpoint no_separator (t : string) : Prop :=
  match t with EmptyString => True | String c t => is_separator c = false /\ no_separator t end.

Lemma no_separator_app t u : no_separator t -> no_separator u -> no_separator (t +:+ u).
Proof.
  induction t as [|c t IH]; [done|]. intros [Hc Ht] Hu. change (String c t +:+ u) with (String c (t +:+ u)). split; [done|by apply IH].
Qed.

(** A directory part: nothing, or text up to a separator. *)
Definition directory (t : string) : Prop := t = EmptyString \/ exists d c, t = d +:+ String c EmptyString /\ is_separator c = true.

Lemma after_separators_spec at_ : forall dir seen,
  directory dir -> no_separator seen ->
  exists dir', dir +:+ seen +:+ at_ = dir' +:+ after_separators at_ (seen +:+ at_) /\ directory dir' /\
    no_separator (after_separators at_ (seen +:+ at_)).
Proof.
  induction at_ as [|c at_ IH]; intros dir seen Hd Hs; [rewrite append_nil_string; by exists dir|].
  cbn [after_separators]. assert (seen +:+ String c at_ = (seen +:+ String c EmptyString) +:+ at_) as He by (by rewrite append_assoc_string).
  destruct (is_separator c) eqn:Hc.
  - destruct (IH (dir +:+ seen +:+ String c EmptyString) EmptyString) as (dir' & H1 & H2 & H3);
      [right; exists (dir +:+ seen), c; by rewrite append_assoc_string|done|].
    exists dir'. split; [|done]. change (EmptyString +:+ at_) with at_ in H1. rewrite <- H1, !append_assoc_string. done.
  - destruct (IH dir (seen +:+ String c EmptyString)) as (dir' & H1 & H2 & H3);
      [done|by apply no_separator_app|]. rewrite He. by exists dir'.
Qed.

Lemma base_name_spec path : exists dir, path = dir +:+ base_name path /\ directory dir /\ no_separator (base_name path).
Proof. by destruct (after_separators_spec path EmptyString EmptyString (or_introl eq_refl) I) as (dir & H); exists dir. Qed.

Section trace.
Context {E : Type}.
Notation tstate := (pstate (flags * E)).
Implicit Types s : tstate.

(** [s] with text [t] on standard error. *)
Definition said (t : string) s : tstate :=
  PState (pending s) (out s) (err s +:+ t) (frames s) (panicking s) (attached s) (frame_memory s) (ran s) (world s).

Lemma said_said t u s : said u (said t s) = said (t +:+ u) s.
Proof. unfold said. cbn. by rewrite append_assoc_string. Qed.

Lemma said_nothing s : said "" s = s.
Proof. unfold said. rewrite append_nil_string. by destruct s. Qed.

(** The heading comes before the first line. *)
Definition block (printed : bool) (lines : list string) : string :=
  match lines with [] => EmptyString | _ => (if printed then EmptyString else header_line) +:+ joined lines end.
Definition now_printed (printed : bool) (lines : list string) : bool := match lines with [] => printed | _ => true end.

Lemma block_app printed l l' : block printed (l ++ l') = block printed l +:+ block (now_printed printed l) l'.
Proof.
  destruct l as [|t l]; [done|]. destruct l' as [|u l']; [by rewrite app_nil_r, append_nil_string|].
  unfold now_printed, block. change ((t :: l) ++ u :: l') with (t :: (l ++ u :: l')). cbn iota.
  change (EmptyString +:+ joined (u :: l')) with (joined (u :: l')).
  rewrite append_assoc_string. f_equal. apply (joined_app (t :: l)).
Qed.

Lemma now_printed_app printed l l' : now_printed printed (l ++ l') = now_printed (now_printed printed l) l'.
Proof. by destruct l, l'. Qed.

(** Printing code that says [lines] and nothing else. *)
Definition prints (m : bool -> M tstate bool) (lines : list string) : Prop := forall printed s,
  m printed s = Ok (now_printed printed lines) (said (block printed lines) s).

Lemma prints_nothing : prints (fun printed => ret printed) [].
Proof. intros printed s. by rewrite said_nothing. Qed.

Lemma prints_app m m' l l' : prints m l -> prints m' l' -> prints (fun p => bind (m p) m') (l ++ l').
Proof.
  intros H H' printed s. unfold bind. by rewrite H, H', said_said, block_app, now_printed_app.
Qed.

Lemma print_frame_physical api a : is_Some (line_from_addr api) -> is_Some (from_addr api) ->
  prints (fun p => print_frame api p a false 0) (shown (answer1 (line_from_addr api) a) (answer1 (from_addr api) a)).
Proof.
  intros [f Hf] [g Hg] printed s. unfold print_frame, need, answer1. rewrite Hf, Hg. cbn.
  destruct (f a) as [line|]; [|by apply prints_nothing]. unfold shown. destruct (is_loke_source (file_name line)); [|by apply prints_nothing].
  cbn [negb]. destruct printed; unfold bind, ret, fputs_stderr, modify, now_printed; cbn; by rewrite ?append_assoc_string, ?append_nil_string.
Qed.

Lemma print_frame_inlined api a c : is_Some (inline_line api) -> is_Some (inline_symbol api) ->
  prints (fun p => print_frame api p a true c) (shown (answer2 (inline_line api) a c) (answer2 (inline_symbol api) a c)).
Proof.
  intros [f Hf] [g Hg] printed s. unfold print_frame, need, answer2. rewrite Hf, Hg. cbn.
  destruct (f a c) as [line|]; [|by apply prints_nothing]. unfold shown. destruct (is_loke_source (file_name line)); [|by apply prints_nothing].
  cbn [negb]. destruct printed; unfold bind, ret, fputs_stderr, modify, now_printed; cbn; by rewrite ?append_assoc_string, ?append_nil_string.
Qed.

Lemma print_inlined_spec api a c n : is_Some (inline_line api) -> is_Some (inline_symbol api) -> forall k,
  prints (fun p => print_inlined api p a c k n)
    (seqZ k (Z.of_nat n) ≫= fun k => shown (answer2 (inline_line api) a (wrap32 (c + k))) (answer2 (inline_symbol api) a (wrap32 (c + k)))).
Proof.
  intros Hl Hs. induction n as [|n IH]; intros k; [apply prints_nothing|]. rewrite seqZ_cons by lia. cbn [mbind list_bind].
  replace (Z.pred (Z.of_nat (S n))) with (Z.of_nat n) by lia. change (Z.succ k) with (k + 1).
  apply (prints_app (fun p => print_frame api p a true (wrap32 (c + k))) (fun p => print_inlined api p a c (k + 1) n));
    [by apply print_frame_inlined|apply IH].
Qed.

Lemma print_address_spec api frame : usable api = true -> prints (fun p => print_address api p frame) (address_lines api frame).
Proof.
  unfold usable. intros [[[_ _]%andb_true_iff Hf%bool_decide_eq_true]%andb_true_iff Hl%bool_decide_eq_true]%andb_true_iff.
  unfold address_lines, print_address. set (a := wrap64 (frame - 1)). destruct (inlining api) eqn:Hi.
  - unfold inlining in Hi. apply andb_true_iff in Hi as [[[Hc%bool_decide_eq_true Hq%bool_decide_eq_true]%andb_true_iff Hs%bool_decide_eq_true]%andb_true_iff Hil%bool_decide_eq_true].
    destruct Hc as [count Hc], Hq as [query Hq]. rewrite Hc, Hq. cbn [need default fmap option_fmap option_map answer1 mbind option_bind].
    intros printed s. unfold bind at 1 2. cbn [ret]. revert printed s. apply prints_app; [|by apply print_frame_physical].
    intros printed s. cbn. unfold bind, ret. destruct (Z.ltb_spec 0 (count a)) as [Hpos|Hpos]; destruct (query a) as [c|]; cbn.
    + rewrite Z.max_r by lia. pose proof (print_inlined_spec api a c (Z.to_nat (count a)) Hil Hs 0 printed s) as H.
      rewrite Z2Nat.id in H by lia. apply H.
    + apply prints_nothing.
    + rewrite Z.max_l by lia. apply prints_nothing.
    + apply prints_nothing.
  - by apply print_frame_physical.
Qed.

Lemma print_addresses_spec api l : usable api = true -> forall printed s,
  print_addresses api printed l s = Ok tt (said (block printed (l ≫= address_lines api)) s).
Proof.
  intros Hu. induction l as [|f l IH]; intros printed s; [cbn; by rewrite said_nothing|].
  cbn [print_addresses mbind list_bind]. unfold bind. rewrite print_address_spec, IH by done. by rewrite said_said, <- block_app.
Qed.

(** [s] with the flags [f]. *)
Definition flagged (f : flags) s : tstate :=
  PState (pending s) (out s) (err s) (frames s) (panicking s) (attached s) (frame_memory s) (ran s) (f, (world s).2).

Lemma panic_trace_spec dbghelp backtrace s :
  panic_trace dbghelp backtrace s = Ok tt
    (if enabled (flags_of s) then
       said (if taken (flags_of s) then EmptyString else trace_text dbghelp backtrace) (flagged (Flags true true) s)
     else s).
Proof.
  unfold panic_trace, bind, get. destruct (enabled (flags_of s)) eqn:He; cbn [negb]; [|done].
  unfold set_flags, modify. destruct (taken (flags_of s)); [by rewrite said_nothing|]. unfold trace_text.
  destruct dbghelp as [api|]; [|by rewrite said_nothing]. destruct (usable api) eqn:Hu; [|by rewrite said_nothing].
  cbn [negb andb]. destruct (set_options api) as [[]|] eqn:Hs; [|by unfold usable in Hu; rewrite Hs, andb_false_r in Hu].
  cbn [need]. destruct (initialize api) as [ok|] eqn:Hi; [|by unfold usable in Hu; rewrite Hi in Hu].
  cbn [need ret default]. unfold ret. destruct ok; cbn [negb]; [|by rewrite said_nothing]. rewrite print_addresses_spec by done.
  by destruct (backtrace ≫= address_lines api).
Qed.
End trace.

(** Every line is of a [.loke] file. *)
Definition loke_line (line : string) : Prop :=
  exists l named dir, line = frame_line named l /\ is_loke_source (file_name l) = true /\
    file_name l = dir +:+ base_name (file_name l) /\ directory dir /\ no_separator (base_name (file_name l)).

Lemma shown_loke found named line : line ∈ shown found named -> loke_line line.
Proof.
  unfold shown. destruct found as [l|]; [|by intros ?%not_elem_of_nil]. destruct (is_loke_source (file_name l)) eqn:Hl; [|by intros ?%not_elem_of_nil].
  intros ->%list_elem_of_singleton. destruct (base_name_spec (file_name l)) as (dir & H1 & H2 & H3). by exists l, named, dir.
Qed.

Lemma shown_in_address api backtrace line : line ∈ (backtrace ≫= address_lines api) -> loke_line line.
Proof.
  intros (a & Hin & _)%list_elem_of_bind. unfold address_lines in Hin. apply elem_of_app in Hin as [Hin|Hin]; [|by eapply shown_loke].
  destruct (inlining api); [|by apply not_elem_of_nil in Hin]. destruct (answer1 _ _); [|by apply not_elem_of_nil in Hin].
  apply list_elem_of_bind in Hin as (k & Hin & _). by eapply shown_loke.
Qed.

(** * Cleanups that return *)

(** Cleanup thunks that return, write nothing to standard error and keep the
    frames they did not push. *)
Definition cleanups_return {W} (cleanup_code : Z -> Z -> M (pstate W) unit) : Prop := forall c x s,
  wp (cleanup_code c x)
    (fun _ s' => ran s' = ran s /\ err s' = err s /\ forall f r, frame_memory s !! f = Some r -> frame_memory s' !! f = Some r)
    (fun _ _ => False) s.

Lemma wp_and {S A} (m : M S A) (Q Q' : A -> S -> Prop) (P P' : halt -> S -> Prop) s :
  wp m Q P s -> wp m Q' P' s -> wp m (fun a s => Q a s /\ Q' a s) (fun h s => P h s /\ P' h s) s.
Proof. unfold wp. by destruct (m s). Qed.

Section unwind.
Context {W : Type} (cleanup_code : Z -> Z -> M (pstate W) unit) (Hreturn : cleanups_return cleanup_code).

Lemma unwind_err fuel : forall head (s : pstate W),
  match unwind cleanup_code fuel head s with Ok _ s' => err s' = err s | Stop _ _ => False | _ => True end.
Proof.
  induction fuel as [|fuel IH]; intros head s; cbn [unwind]; (destruct (head =? 0); [done|]); [done|].
  unfold frame_at, bind, get, need, log_cleanup, modify, ret. cbn. destruct (frame_memory s !! head) as [f|]; [|done].
  destruct (cleanup f) as [c|].
  - match goal with |- context [cleanup_code c ?x ?s1] => pose proof (Hreturn c x s1) as H; unfold wp in H; destruct (cleanup_code c x s1) as [[] s2|h s2| |]; try done end.
    destruct H as (_ & He & _). cbn in He. destruct (frame_memory s2 !! head) as [f2|]; [|done].
    specialize (IH (previous f2) s2). destruct (unwind cleanup_code fuel (previous f2) s2); congruence.
  - destruct (frame_memory s !! head) as [f2|]; [|done]. apply IH.
Qed.

(** All cleanups run, and the unwind says nothing. *)
Lemma unwind_returns l fuel (s : pstate W) head mem :
  linked mem head l -> (forall f r, mem !! f = Some r -> frame_memory s !! f = Some r) -> (length l <= fuel)%nat ->
  wp (unwind cleanup_code fuel head) (fun _ s' => ran s' = ran s ++ cleanups mem l /\ err s' = err s) (fun _ _ => False) s.
Proof.
  intros Hl Hm Hf. pose proof (unwind_err fuel head s) as He.
  assert (forall c x s, wp (cleanup_code c x)
    (fun _ s' => ran s' = ran s /\ forall f r, frame_memory s !! f = Some r -> frame_memory s' !! f = Some r)
    (fun _ s' => ran s' = ran s) s) as Hkeep.
  { intros c x s1. eapply wp_conseq; [apply Hreturn|naive_solver|done]. }
  pose proof (unwind_spec cleanup_code Hkeep l fuel s head mem Hl Hm Hf) as Hw.
  unfold wp in *. by destruct (unwind cleanup_code fuel head s).
Qed.
End unwind.
