(* ===== verification/TraceClaims.v ===== *)
(** Stack traces: what one prints, and what a panic reports with one. *)
From Stdlib Require Import Strings.Ascii.
From S2P Require Import Prelude Printed Panic PanicClaims Trace TraceSpec.

Section claims.
Context {E : Type}.
Abbreviation tstate := (pstate (flags * E)).
Implicit Types s : tstate.

(** A stack trace is printed once per process, by the first thread to panic
    while traces are enabled; it changes nothing but standard error and the
    mark that it was taken. It holds the frames DbgHelp has a line of a [.loke]
    file for, newest first, procedures inlined into a frame before it, one
    line each, under one heading that is left out when there are none; each
    line names its file without its directory. *)
Theorem panic_trace_correct dbghelp backtrace s :
  exists s', panic_trace dbghelp backtrace s = Ok tt s' /\
    err s' = err s +:+ (if enabled (flags_of s) && negb (taken (flags_of s)) then trace_text dbghelp backtrace else EmptyString) /\
    flags_of s' = (if enabled (flags_of s) then Flags true true else flags_of s) /\
    (frames s', frame_memory s', ran s', out s', pending s', panicking s', (world s').2) =
      (frames s, frame_memory s, ran s, out s, pending s, panicking s, (world s).2) /\
    forall api line, dbghelp = Some api -> line ∈ (backtrace ≫= address_lines api) ->
      exists l named dir, line = frame_line named l /\ is_loke_source (file_name l) = true /\
        file_name l = dir +:+ base_name (file_name l) /\ directory dir /\ no_separator (base_name (file_name l)).
Proof.
  eexists. split; [apply panic_trace_spec|]. split_and!.
  - destruct (enabled (flags_of s)) eqn:He; [|by rewrite append_nil_string]. by destruct (taken (flags_of s)).
  - by destruct (enabled (flags_of s)).
  - by destruct (enabled (flags_of s)).
  - intros api line _ Hin. by apply (shown_in_address api backtrace).
Qed.

(** C21: the whole report of a panic, trace included. Where the cleanups of the
    frames return and write nothing to standard error, a panic ends the process
    with status 3 after every cleanup ran, newest frame first; output already
    written is flushed, and standard error holds the panic's message, the trace
    that this is the first panic to print (if any), and the final line, in that
    order. *)
Theorem panic_report cleanup_code dbghelp backtrace message s l :
  cleanups_return cleanup_code -> panicking s = false -> linked (frame_memory s) (frames s) l ->
  wp (rt_panic cleanup_code (panic_trace dbghelp backtrace) message)
    (fun (_ : unit) _ => False)
    (fun h s' => h = Exited 3 /\ ran s' = ran s ++ cleanups (frame_memory s) l /\ pending s' = "" /\
       err s' = err s +:+ "loke: panic: " +:+ default "runtime failure"%string message +:+ newline +:+
         (if enabled (flags_of s) && negb (taken (flags_of s)) then trace_text dbghelp backtrace else EmptyString) +:+
         "loke: panicked" +:+ newline) s.
Proof.
  intros Hc Hp Hl. unfold rt_panic, panic_begin, panic_end. apply wp_bind, wp_bind, wp_get. rewrite Hp.
  apply wp_bind, wp_modify, wp_bind, wp_modify, wp_bind, wp_modify, wp_modify, wp_bind, wp_modify, wp_bind.
  unfold wp at 1. rewrite panic_trace_spec. set (s1 := if enabled _ then _ else _).
  assert (frames s1 = frames s /\ frame_memory s1 = frame_memory s /\ ran s1 = ran s /\
    err s1 = err s +:+ "loke: panic: " +:+ default "runtime failure"%string message +:+ newline +:+
      (if enabled (flags_of s) && negb (taken (flags_of s)) then trace_text dbghelp backtrace else EmptyString)) as (Hf & Hm & Hr & He).
  { unfold s1, flags_of. cbn. destruct (enabled (world s).1); [destruct (taken (world s).1)|]; cbn; (split_and!; [done|done|done|]);
      by rewrite !append_assoc_string, ?append_nil_string. }
  apply wp_bind, wp_get, wp_bind. rewrite Hf, Hm. eapply wp_conseq.
  - apply (unwind_returns cleanup_code Hc l (size (frame_memory s)) s1 _ (frame_memory s)); [done|by rewrite Hm|by eapply linked_length].
  - intros [] s2 [Hr2 He2]. apply wp_bind, wp_modify, wp_bind, wp_modify, wp_bind, wp_modify, wp_bind, wp_modify, wp_stop.
    split_and!; [done|by cbn; rewrite Hr2, Hr|done|]. cbn [err]. rewrite He2, He. cbn [default]. by rewrite !append_assoc_string.
  - done.
Qed.

(** So the traces printed here are ones [panic_unwinds] allows. *)
Lemma panic_trace_writes dbghelp backtrace : trace_writes (panic_trace (E:=E) dbghelp backtrace).
Proof. intros s. unfold wp. rewrite panic_trace_spec. by destruct (enabled (flags_of s)). Qed.
End claims.

(** * A concrete panic *)

(** Three return addresses: [main.loke] with one procedure inlined into it, a
    frame of the C library, and a frame whose name DbgHelp does not know. *)
Definition symbols : dbghelp_api := DbghelpApi (Some true) (Some tt)
  (Some (fun a => if a =? 99 then Some "main"%string else if a =? 199 then Some "memcpy"%string else None))
  (Some (fun a => if a =? 99 then Some (LineInfo "C:\work\main.loke" 12) else if a =? 199 then Some (LineInfo "crt.c" 7)
    else Some (LineInfo "lib/start.LOKE" 305)))
  (Some (fun a => if a =? 99 then 1 else 0)) (Some (fun a => if a =? 99 then Some 0 else None))
  (Some (fun _ _ => Some "helper"%string)) (Some (fun _ _ => Some (LineInfo "C:\work\util.loke" 3))).
Definition stack : list Z := [100; 200; 300].

Definition panicking_thread : pstate (flags * unit) :=
  PState "partial line" "" "" 100 false true
    (<[100 := FrameV1 200 (Some 1) 11]> (<[200 := FrameV1 300 None 0]> (<[300 := FrameV1 0 (Some 3) 33]> ∅)))
    [] (Flags true false, tt).

Definition quiet_cleanup : Z -> Z -> M (pstate (flags * unit)) unit := fun _ _ => ret tt.

Example traced_report :
  err (match rt_panic (A:=unit) quiet_cleanup (panic_trace (Some symbols) stack) (Some "index out of range"%string) panicking_thread
       with Stop _ s => s | _ => panicking_thread end) =
    "loke: panic: index out of range" +:+ newline +:+ "loke: stack trace, newest call first:" +:+ newline +:+
    "    helper at util.loke:3" +:+ newline +:+ "    main at main.loke:12" +:+ newline +:+
    "    ? at start.LOKE:305" +:+ newline +:+ "loke: panicked" +:+ newline.
Proof. vm_compute. reflexivity. Qed.

Lemma quiet_cleanups_return : cleanups_return quiet_cleanup.
Proof. intros c x s. by split_and!. Qed.

Lemma panicking_thread_linked : linked (frame_memory panicking_thread) (frames panicking_thread) [100; 200; 300].
Proof.
  split; [reflexivity|]. split; [discriminate|]. eexists. split; [reflexivity|].
  split; [reflexivity|]. split; [discriminate|]. eexists. split; [reflexivity|].
  split; [reflexivity|]. split; [discriminate|]. eexists. split; reflexivity.
Qed.

Lemma panic_report_witness :
  wp (rt_panic quiet_cleanup (panic_trace (Some symbols) stack) (Some "index out of range"%string))
    (fun (_ : unit) _ => False)
    (fun h s' => h = Exited 3 /\ ran s' = [] ++ cleanups (frame_memory panicking_thread) [100; 200; 300] /\ pending s' = "" /\
       err s' = "" +:+ "loke: panic: " +:+ "index out of range" +:+ newline +:+
         trace_text (Some symbols) stack +:+ "loke: panicked" +:+ newline) panicking_thread.
Proof.
  exact (panic_report quiet_cleanup (Some symbols) stack (Some "index out of range"%string) panicking_thread [100; 200; 300]
    quiet_cleanups_return eq_refl panicking_thread_linked).
Defined.
