(* ===== verification/Dynamic.v ===== *)
(** Managed dynamic arrays ([runtime/container.c], "dynamic" and "dynamic
    operations"): growth, bulk insertion that may read the array's own storage,
    removal, destruction and cloning, as the C code writes them. *)
From S2P Require Import Prelude Checked Interfaces MapTable Utf8.

Section Dynamic.
Context {V E : Type} {api : AllocApi E}.
Abbreviation ev := (event (K:=Empty_set) (V:=V)).

(** * Data *)

(** One block of storage: its address and its elements, [None] where the bytes
    were never written. Blocks are named by the order they were got in, so a
    pointer into a released one is recognised. *)
Record block := Block { addr : Z; cells : list (option V) }.

(** [loke_rt_dynamic_v1]; [data] is [None] for the null pointer. *)
Record rt_dynamic := RtDynamic {
  data : option Z;
  len : Z;
  cap : Z;
  allocator : handle;
}.

Definition zero_dynamic : rt_dynamic := RtDynamic None 0 0 0.

(** [dyn_grow_undo]. *)
Record dyn_grow_undo := DynGrowUndo { old_data : option Z; old_cap : Z; grew : bool }.

(** Where the elements of an insertion are read: outside every block of the
    array, or in block [b] from element [i] on. *)
Inductive source :=
| Outside (vs : list V)
| Inside (b : Z) (i : Z).

Record dstate := DState {
  d_self : rt_dynamic;
  d_store : gmap Z block;
  d_next : Z;
  d_trace : list ev;
  d_env : E;
}.

(** The half of the operation table an array uses. *)
Record elem_ops := ElemOps {
  e_size : Z;
  e_align : Z;
  e_drop : option (V -> M E unit);
  e_clone : option (V -> handle -> M E (option V));
  e_zero : V;
}.
Context (ops : elem_ops).

(** * Steps *)

Definition set_self (d : rt_dynamic) : M dstate unit := modify (fun s =>
  DState d (d_store s) (d_next s) (d_trace s) (d_env s)).
Definition set_len (n : Z) : M dstate unit := modify (fun s =>
  DState (RtDynamic (data (d_self s)) n (cap (d_self s)) (allocator (d_self s)))
    (d_store s) (d_next s) (d_trace s) (d_env s)).
Definition set_cap (n : Z) : M dstate unit := modify (fun s =>
  DState (RtDynamic (data (d_self s)) (len (d_self s)) n (allocator (d_self s)))
    (d_store s) (d_next s) (d_trace s) (d_env s)).
Definition set_data (b : option Z) (n : Z) : M dstate unit := modify (fun s =>
  DState (RtDynamic b (len (d_self s)) n (allocator (d_self s))) (d_store s) (d_next s) (d_trace s) (d_env s)).
Definition d_note (e : ev) : M dstate unit := modify (fun s =>
  DState (d_self s) (d_store s) (d_next s) (d_trace s ++ [e]) (d_env s)).
Definition set_block (b : Z) (x : block) : M dstate unit := modify (fun s =>
  DState (d_self s) (<[b := x]> (d_store s)) (d_next s) (d_trace s) (d_env s)).
Definition drop_block (b : Z) : M dstate unit := modify (fun s =>
  DState (d_self s) (delete b (d_store s)) (d_next s) (d_trace s) (d_env s)).
Definition new_block (x : block) : M dstate Z := fun s =>
  Ok (d_next s) (DState (d_self s) (<[d_next s := x]> (d_store s)) (d_next s + 1) (d_trace s) (d_env s)).
Definition outside {A} (m : M E A) : M dstate A := fun s =>
  let back e := DState (d_self s) (d_store s) (d_next s) (d_trace s) e in
  match m (d_env s) with
  | Ok a e => Ok a (back e)
  | Stop h e => Stop h (back e)
  | Undefined => Undefined
  | NoFuel => NoFuel
  end.
Definition block_at (b : option Z) : M dstate (Z * block) :=
  let! s := get in
  let! b := need b in
  let! x := need (d_store s !! b) in
  ret (b, x).

(** [n] cells at element [i]; a zero-sized element has no bytes. *)
Definition read_cells (b : option Z) (i n : Z) : M dstate (list (option V)) :=
  if (e_size ops =? 0) || (n =? 0) then ret (replicate (Z.to_nat n) (Some (e_zero ops)))
  else
    let! (_, x) := block_at b in
    if (0 <=? i) && (0 <=? n) && (i + n <=? zlen (cells x)) then
      ret (take (Z.to_nat n) (drop (Z.to_nat i) (cells x)))
    else undefined.
Definition write_cells (b : option Z) (i : Z) (vs : list (option V)) : M dstate unit :=
  if (e_size ops =? 0) || (zlen vs =? 0) then ret tt
  else
    let! (b, x) := block_at b in
    if (0 <=? i) && (i + zlen vs <=? zlen (cells x)) then
      set_block b (Block (addr x)
        (take (Z.to_nat i) (cells x) ++ vs ++ drop (Z.to_nat (i + zlen vs)) (cells x)))
    else undefined.

(** [memmove] of [n] elements within a block; [memcpy] into it from another
    place, undefined where the ranges meet. *)
Definition memmove (b : option Z) (dst src n : Z) : M dstate unit :=
  let! vs := read_cells b src n in write_cells b dst vs.
Definition memcpy (b : option Z) (dst : Z) (from : option Z) (src n : Z) : M dstate unit :=
  if negb (e_size ops =? 0) && bool_decide (b = from) && negb ((dst + n <=? src) || (src + n <=? dst))
  then undefined
  else let! vs := read_cells from src n in write_cells b dst vs.

(** The initialized element at [dyn_at(self, ops, i)]. *)
Definition elem_at (b : option Z) (i : Z) : M dstate V :=
  let! vs := read_cells b i 1 in
  match vs with [Some v] => ret v | _ => undefined end.

Definition source_at (src : source) (i : Z) : M dstate V :=
  match src with
  | Outside vs => need (at_index vs i)
  | Inside b k => elem_at (Some b) (k + i)
  end.

Definition call_drop (v : V) : M dstate unit :=
  match e_drop ops with
  | Some hook => d_note (EvDropValue v) ;;; outside (hook v)
  | None => ret tt
  end.

(** A clone hook called on [v]. *)
Definition call_clone (hook : V -> handle -> M E (option V)) (v : V) (a : handle) : M dstate (option V) :=
  let! r := outside (hook v a) in d_note (EvCloneValue v r) ;;; ret r.

Definition elem_align_of : Z := sane_container_align (e_align ops).

Definition storage_free (a : handle) (b : Z) (bytes : Z) : M dstate unit :=
  let! (b, x) := block_at (Some b) in
  d_note (EvFree a (addr x) bytes elem_align_of) ;;;
  drop_block b ;;;
  outside (api_free a (addr x) bytes elem_align_of).

(** [loke_rt_v1_alloc] of [n] elements: [None] where the provider refused. *)
Definition storage_alloc (a : handle) (n bytes : Z) : M dstate (option Z) :=
  let! p := outside (api_alloc a bytes elem_align_of) in
  d_note (EvAlloc a bytes elem_align_of p) ;;;
  if p =? 0 then ret None
  else
    let! b := new_block (Block p (replicate (Z.to_nat n) None)) in
    ret (Some b).

Definition resized_cells (vs : list (option V)) (n : Z) : list (option V) :=
  take (Z.to_nat n) vs ++ replicate (Z.to_nat n - length vs) None.

(** [loke_rt_v1_resize] to [n] elements: the provider moves the bytes, or
    refuses and leaves the block as it is. *)
Definition storage_resize (a : handle) (old : option Z) (old_bytes n new_bytes : Z) : M dstate (option Z) :=
  let! s := get in
  let! x := (match old with
    | None => ret (Block 0 [])
    | Some b => need (d_store s !! b)
    end) in
  let! q := outside (api_resize a (addr x) old_bytes new_bytes elem_align_of) in
  if q =? 0 then d_note (EvAlloc a new_bytes elem_align_of 0) ;;; ret None
  else
    (match old with
     | None => ret tt
     | Some b => d_note (EvFree a (addr x) old_bytes elem_align_of) ;;; drop_block b
     end) ;;;
    d_note (EvAlloc a new_bytes elem_align_of q) ;;;
    let! b := new_block (Block q (resized_cells (cells x) n)) in
    ret (Some b).

(** * Operations *)

Definition dyn_bind : M dstate unit := modify (fun s =>
  DState (RtDynamic (data (d_self s)) (len (d_self s)) (cap (d_self s))
      (if allocator (d_self s) =? 0 then api_selected (d_env s) else allocator (d_self s)))
    (d_store s) (d_next s) (d_trace s) (d_env s)).

Definition dyn_reserve (min_capacity : Z) : M dstate bool :=
  if min_capacity <? 0 then panic "a container capacity cannot be negative"
  else
    dyn_bind ;;;
    let! d := gets d_self in
    if min_capacity <=? cap d then ret true
    else
      match dyn_growth_target (cap d) min_capacity with
      | None => ret false
      | Some target =>
          match checked_bytes target (e_size ops) with
          | None => ret false
          | Some new_bytes =>
              match checked_bytes (cap d) (e_size ops) with
              | None => ret false
              | Some old_bytes =>
                  if new_bytes =? 0 then set_cap target ;;; ret true
                  else
                    let! r := storage_resize (allocator d) (data d) old_bytes target new_bytes in
                    match r with
                    | None => ret false
                    | Some b => set_data (Some b) target ;;; ret true
                    end
              end
          end
      end.

(** [while (self->len > new_len)]: shorten, then drop. *)
Fixpoint drop_down (n : nat) (new_len : Z) : M dstate unit :=
  let! d := gets d_self in
  if new_len <? len d then
    match n with
    | O => no_fuel
    | S n =>
        set_len (len d - 1) ;;;
        let! v := elem_at (data d) (len d - 1) in
        call_drop v ;;;
        drop_down n new_len
    end
  else ret tt.

Definition has_drop : bool := match e_drop ops with Some _ => true | None => false end.

(** Gives back [cap] elements of storage, where there are bytes. *)
Definition release_bytes (a : handle) (b : option Z) (n : Z) : M dstate unit :=
  match b, checked_bytes n (e_size ops) with
  | Some b, Some bytes => if negb (bytes =? 0) then storage_free a b bytes else ret tt
  | _, _ => ret tt
  end.

Definition dyn_drop : M dstate unit :=
  let! d := gets d_self in
  (if has_drop then drop_down (Z.to_nat (len d)) 0 else ret tt) ;;;
  let! d := gets d_self in
  release_bytes (allocator d) (data d) (cap d) ;;;
  set_self zero_dynamic.

(** The second half of [dyn_regrow], from the allocation of [target] elements
    on. *)
Definition regrow_fresh (d : rt_dynamic) (target bytes : Z) : M dstate (option dyn_grow_undo) :=
  let! r := storage_alloc (allocator d) target bytes in
  match r with
  | None => ret None
  | Some fresh =>
      (match checked_bytes (len d) (e_size ops) with
       | Some used => if negb (used =? 0) then memcpy (Some fresh) 0 (data d) 0 (len d) else ret tt
       | None => ret tt
       end) ;;;
      set_data (Some fresh) target ;;;
      ret (Some (DynGrowUndo (data d) (cap d) true))
  end.

(** [dyn_regrow]; [None] is answer 0. *)
Definition dyn_regrow (need_ : Z) (force : bool) : M dstate (option dyn_grow_undo) :=
  let! d := gets d_self in
  let undo := DynGrowUndo (data d) (cap d) false in
  if (need_ <=? cap d) && negb force then ret (Some undo)
  else
    match dyn_growth_target (cap d) need_ with
    | None => ret None
    | Some target =>
        match checked_bytes target (e_size ops) with
        | None => ret None
        | Some bytes =>
            if bytes =? 0 then set_cap target ;;; ret (Some undo)
            else regrow_fresh d target bytes
        end
    end.

Definition dyn_regrow_commit (u : dyn_grow_undo) : M dstate unit :=
  let! d := gets d_self in
  if grew u then release_bytes (allocator d) (old_data u) (old_cap u) else ret tt.

Definition dyn_regrow_rollback (u : dyn_grow_undo) : M dstate unit :=
  if negb (grew u) then ret tt
  else
    let! d := gets d_self in
    release_bytes (allocator d) (data d) (cap d) ;;;
    set_data (old_data u) (old_cap u).

Definition dyn_src_aliases (d : rt_dynamic) (src : source) : bool :=
  match src with
  | Outside _ => false
  | Inside b i =>
      match data d, checked_bytes (cap d) (e_size ops) with
      | Some base, Some bytes => (b =? base) && (0 <=? i) && (i * e_size ops <? bytes)
      | _, _ => false
      end
  end.

Definition is_owned (owned : option (list bool)) (i : Z) : M dstate bool :=
  match owned with
  | None => ret false
  | Some flags => need (at_index flags i)
  end.

(** The clean-up of a failed fill: the clones among slots [at .. at + n). *)
Fixpoint undo_fill (n : nat) (at_ : Z) (owned : option (list bool)) (j : Z) : M dstate unit :=
  match n with
  | O => ret tt
  | S n =>
      let! o := is_owned owned j in
      (if negb o then
         let! d := gets d_self in
         let! v := elem_at (data d) (at_ + j) in
         call_drop v
       else ret tt) ;;;
      undo_fill n at_ owned (j + 1)
  end.

Fixpoint fill_loop (clone : V -> handle -> M E (option V)) (n : nat) (at_ : Z) (src : source)
    (owned : option (list bool)) (i : Z) : M dstate bool :=
  match n with
  | O => ret true
  | S n =>
      let! d := gets d_self in
      let! v := source_at src i in
      let! o := is_owned owned i in
      if (o : bool) then
        write_cells (data d) (at_ + i) [Some v] ;;;
        fill_loop clone n at_ src owned (i + 1)
      else
        let! r := call_clone clone v (allocator d) in
        match r with
        | Some w =>
            write_cells (data d) (at_ + i) [Some w] ;;;
            fill_loop clone n at_ src owned (i + 1)
        | None =>
            (if has_drop then undo_fill (Z.to_nat i) at_ owned 0 else ret tt) ;;;
            ret false
        end
  end.

Definition dyn_fill (at_ : Z) (src : source) (owned : option (list bool)) (count : Z) : M dstate bool :=
  match e_clone ops with
  | None =>
      match checked_bytes count (e_size ops) with
      | None => ret false
      | Some bytes =>
          let! d := gets d_self in
          (if negb (bytes =? 0) then
             match src with
             | Outside vs =>
                 if count <=? zlen vs then write_cells (data d) at_ (Some <$> take (Z.to_nat count) vs) else undefined
             | Inside b i => memcpy (data d) at_ (Some b) i count
             end
           else ret tt) ;;;
          ret true
      end
  | Some clone => fill_loop clone (Z.to_nat count) at_ src owned 0
  end.

Definition dyn_append_owned (src : source) (owned : option (list bool)) (count : Z) : M dstate bool :=
  if count <? 0 then panic "a container append count cannot be negative"
  else if count =? 0 then ret true
  else
    dyn_bind ;;;
    let! d := gets d_self in
    match checked_add (len d) count with
    | None => ret false
    | Some need_ =>
        let! u := dyn_regrow need_ false in
        match u with
        | None => ret false
        | Some u =>
            let! ok := dyn_fill (len d) src owned count in
            if negb (ok : bool) then dyn_regrow_rollback u ;;; ret false
            else set_len need_ ;;; dyn_regrow_commit u ;;; ret true
        end
    end.

Definition dyn_append (src : source) (count : Z) : M dstate bool := dyn_append_owned src None count.

Definition dyn_insert (index : Z) (src : source) (count : Z) : M dstate bool :=
  let! d := gets d_self in
  if (index <? 0) || (len d <? index) then panic "this insert index is out of range"
  else if count <? 0 then panic "a container insert count cannot be negative"
  else if count =? 0 then ret true
  else
    dyn_bind ;;;
    match checked_add (len d) count with
    | None => ret false
    | Some need_ =>
        let! u := dyn_regrow need_ (dyn_src_aliases d src) in
        match u with
        | None => ret false
        | Some u =>
            let! d' := gets d_self in
            let tail := len d - index in
            let tail_bytes := default 0 (checked_bytes tail (e_size ops)) in
            (if negb (tail_bytes =? 0) then memmove (data d') (index + count) index tail else ret tt) ;;;
            let! ok := dyn_fill index src None count in
            if negb (ok : bool) then
              (if negb (tail_bytes =? 0) then memmove (data d') index (index + count) tail else ret tt) ;;;
              dyn_regrow_rollback u ;;; ret false
            else set_len need_ ;;; dyn_regrow_commit u ;;; ret true
        end
    end.

(** [loke_rt_v1_dyn_pop]: the element moved to [out], the zero value where it
    answers 0. *)
Definition dyn_pop : M dstate (option V) :=
  let! d := gets d_self in
  if len d =? 0 then ret None
  else
    set_len (len d - 1) ;;;
    let! v := elem_at (data d) (len d - 1) in
    ret (Some v).

Definition dyn_remove (index : Z) (unordered : bool) : M dstate V :=
  let! d := gets d_self in
  if (index <? 0) || (len d <=? index) then panic "this removal index is out of range"
  else
    let! v := elem_at (data d) index in
    let n := len d - 1 in
    set_len n ;;;
    (if index =? n then ret tt
     else if unordered then memcpy (data d) index (data d) n 1
     else
       match checked_bytes (n - index) (e_size ops) with
       | Some bytes => if negb (bytes =? 0) then memmove (data d) index (index + 1) (n - index) else ret tt
       | None => ret tt
       end) ;;;
    ret v.

Definition dyn_truncate (new_len : Z) : M dstate unit :=
  let! d := gets d_self in
  if negb has_drop then set_len new_len else drop_down (Z.to_nat (len d - new_len)) new_len.

Definition dyn_clear : M dstate unit := dyn_truncate 0.

Definition dyn_resize (new_len : Z) : M dstate bool :=
  let! d := gets d_self in
  if new_len <? 0 then panic "a container length cannot be negative"
  else if new_len <? len d then dyn_truncate new_len ;;; ret true
  else if new_len =? len d then ret true
  else
    dyn_bind ;;;
    let! ok := dyn_reserve new_len in
    if negb (ok : bool) then ret false
    else
      let! d := gets d_self in
      (match checked_bytes (new_len - len d) (e_size ops) with
       | Some bytes =>
           if negb (bytes =? 0)
           then write_cells (data d) (len d) (replicate (Z.to_nat (new_len - len d)) (Some (e_zero ops)))
           else ret tt
       | None => ret tt
       end) ;;;
      set_len new_len ;;; ret true.

Definition dyn_shrink (min_capacity : Z) : M dstate bool :=
  let! d := gets d_self in
  let target := if len d <? min_capacity then min_capacity else len d in
  if min_capacity <? 0 then panic "a container capacity cannot be negative"
  else if cap d <=? target then ret true
  else
    match checked_bytes (cap d) (e_size ops), checked_bytes target (e_size ops) with
    | Some old_bytes, Some new_bytes =>
        if new_bytes =? 0 then
          (match data d with
           | Some b => storage_free (allocator d) b old_bytes
           | None => ret tt
           end) ;;;
          set_data None target ;;; ret true
        else
          let! r := storage_resize (allocator d) (data d) old_bytes target new_bytes in
          match r with
          | None => ret false
          | Some b => set_data (Some b) target ;;; ret true
          end
    | _, _ => ret false
    end.

(** ** Clone

    [dyn_clone] builds [*out] from zero, so here the array of the state is
    [*out] and the source is the list its block holds. *)

(** The loop: the initialized prefix, and only it, is destroyed on failure. *)
Fixpoint clone_loop (clone : V -> handle -> M E (option V)) (vs : list V) (a : handle) (i : Z) : M dstate bool :=
  match vs with
  | [] => ret true
  | v :: vs =>
      let! r := call_clone clone v a in
      match r with
      | None =>
          set_len i ;;;
          dyn_drop ;;;
          set_self (RtDynamic None 0 0 a) ;;;
          ret false
      | Some w =>
          let! d := gets d_self in
          write_cells (data d) i [Some w] ;;;
          clone_loop clone vs a (i + 1)
      end
  end.

Definition dyn_clone (vs : list V) (a : handle) : M dstate bool :=
  set_self (RtDynamic None 0 0 a) ;;;
  let n := zlen vs in
  if n =? 0 then ret true
  else
    let! ok := dyn_reserve n in
    if negb (ok : bool) then set_self (RtDynamic None 0 0 a) ;;; ret false
    else
      match e_clone ops with
      | None =>
          match checked_bytes n (e_size ops) with
          | None => dyn_drop ;;; set_self (RtDynamic None 0 0 a) ;;; ret false
          | Some bytes =>
              let! d := gets d_self in
              write_cells (data d) 0 (Some <$> vs) ;;;
              set_len n ;;; ret true
          end
      | Some clone =>
          let! ok := clone_loop clone vs a 0 in
          if negb (ok : bool) then ret false else set_len n ;;; ret true
      end.
End Dynamic.
Arguments dstate : clear implicits.
Arguments elem_ops : clear implicits.
Arguments source : clear implicits.
Arguments block : clear implicits.
