(* ===== verification/DynamicSpec.v ===== *)
(** What the storage steps of [Dynamic] do: the array as its elements followed
    by spare cells, and how reading, writing, growing and releasing act on it. *)
From S2P Require Import Prelude Checked Interfaces MapTable MapSpec Dynamic.

(** [ws] over [cs] from position [i]. *)
Definition splice {A} (i : Z) (ws cs : list A) : list A :=
  take (Z.to_nat i) cs ++ ws ++ drop (Z.to_nat i + length ws) cs.

Lemma splice_nil {A} i (cs : list A) : splice i [] cs = cs.
Proof. unfold splice. cbn. rewrite Nat.add_0_r. apply take_drop. Qed.

Lemma splice_length {A} i (ws cs : list A) : 0 <= i -> i + zlen ws <= zlen cs -> length (splice i ws cs) = length cs.
Proof. intros. unfold splice. rewrite !length_app, length_take, length_drop. lia. Qed.

Lemma splice_app {A} (xs ws us rest : list A) :
  length ws = length us -> splice (zlen xs) ws (xs ++ us ++ rest) = xs ++ ws ++ rest.
Proof.
  intros Hl. unfold splice. rewrite Nat2Z.id, take_app_length. f_equal. f_equal.
  rewrite <- drop_drop, drop_app_length, Hl, drop_app_length. done.
Qed.

Class ElemOk {V E : Type} (ops : elem_ops V E) (R : V -> V -> Prop) : Prop := {
  (** A zero-sized element carries no information. *)
  zero_sized v : e_size ops = 0 -> v = e_zero ops;
  size_u64 : is_u64 (e_size ops);
  drop_behaves f v : e_drop ops = Some f -> well_behaved (f v);
  (** A clone that succeeds relates to its source by [R]. *)
  clone_relates f v a e : e_clone ops = Some f ->
    wp (f v a) (fun r _ => forall w, r = Some w -> R v w) (fun _ _ => True) e;
}.

Section spec.
Context {V E : Type} {api : AllocApi E} {tot : AllocTotal E} (ops : elem_ops V E).
Context {R : V -> V -> Prop} {ok : ElemOk ops R}.
Abbreviation state := (dstate V E).
Implicit Types (s : state) (cs : list (option V)) (vs ws : list V).

(** * The block of the array *)

Definition holds s cs : Prop :=
  (e_size ops = 0 /\ data (d_self s) = None) \/
  (e_size ops <> 0 /\ exists b p, data (d_self s) = Some b /\ d_store s !! b = Some (Block p cs)).

Definition put_cells cs s : state :=
  match data (d_self s) with
  | None => s
  | Some b =>
      match d_store s !! b with
      | None => s
      | Some x => DState (d_self s) (<[b := Block (addr x) cs]> (d_store s)) (d_next s) (d_trace s) (d_env s)
      end
  end.

Lemma put_cells_self cs s : d_self (put_cells cs s) = d_self s.
Proof. unfold put_cells. destruct (data (d_self s)) as [b|]; [by destruct (d_store s !! b)|done]. Qed.
Lemma put_cells_trace cs s : d_trace (put_cells cs s) = d_trace s.
Proof. unfold put_cells. destruct (data (d_self s)) as [b|]; [by destruct (d_store s !! b)|done]. Qed.
Lemma put_cells_env cs s : d_env (put_cells cs s) = d_env s.
Proof. unfold put_cells. destruct (data (d_self s)) as [b|]; [by destruct (d_store s !! b)|done]. Qed.
Lemma put_cells_next cs s : d_next (put_cells cs s) = d_next s.
Proof. unfold put_cells. destruct (data (d_self s)) as [b|]; [by destruct (d_store s !! b)|done]. Qed.
Lemma put_cells_other cs s b : data (d_self s) <> Some b -> d_store (put_cells cs s) !! b = d_store s !! b.
Proof.
  intros Hb. unfold put_cells. destruct (data (d_self s)) as [b'|]; [|done]. destruct (d_store s !! b'); [|done].
  cbn. apply lookup_insert_ne. congruence.
Qed.
Lemma put_cells_dom cs s : dom (d_store (put_cells cs s)) = dom (d_store s).
Proof.
  unfold put_cells. destruct (data (d_self s)) as [b|]; [|done]. destruct (d_store s !! b) eqn:Hx; [|done]. cbn.
  rewrite dom_insert_L. apply elem_of_dom_2 in Hx. set_solver.
Qed.

Lemma holds_put s cs cs' : holds s cs -> holds (put_cells cs' s) cs'.
Proof.
  intros [[H0 Hd]|(H0 & b & p & Hd & Hb)].
  - left. unfold put_cells. by rewrite Hd.
  - right. split; [done|]. exists b, p. rewrite put_cells_self. split; [done|].
    unfold put_cells. rewrite Hd, Hb. cbn. apply lookup_insert_eq.
Qed.

Lemma put_put s cs cs1 cs2 : holds s cs -> put_cells cs2 (put_cells cs1 s) = put_cells cs2 s.
Proof.
  intros [[H0 Hd]|(H0 & b & p & Hd & Hb)]; unfold put_cells; rewrite Hd; [by rewrite Hd|].
  rewrite Hb. cbn. rewrite Hd, lookup_insert_eq. cbn. by rewrite insert_insert_eq.
Qed.

Lemma put_same s cs : holds s cs -> put_cells cs s = s.
Proof.
  intros [[H0 Hd]|(H0 & b & p & Hd & Hb)]; unfold put_cells; rewrite Hd; [done|].
  rewrite Hb. cbn. rewrite insert_id by done. by destruct s.
Qed.

(** * Reading and writing *)

Lemma wp_block_at b x (Q : Z * block V -> state -> Prop) P s :
  d_store s !! b = Some x -> Q (b, x) s -> wp (block_at (Some b)) Q P s.
Proof. intros Hb HQ. unfold wp, block_at, bind, get, need. cbn. by rewrite Hb. Qed.

Lemma wp_read_cells b x i n (Q : list (option V) -> state -> Prop) P s :
  d_store s !! b = Some x -> 0 <= i -> 0 <= n -> i + n <= zlen (cells x) ->
  (forall xs, (e_size ops <> 0 -> xs = take (Z.to_nat n) (drop (Z.to_nat i) (cells x))) ->
    length xs = Z.to_nat n -> Q xs s) ->
  wp (read_cells ops (Some b) i n) Q P s.
Proof.
  intros Hb Hi Hn Hl HQ. unfold read_cells. destruct (Z.eqb_spec (e_size ops) 0).
  { cbn [orb]. apply wp_ret, HQ; [done|]. by rewrite length_replicate. }
  destruct (Z.eqb_spec n 0) as [->|]; cbn [orb].
  { apply wp_ret, HQ; done. }
  apply wp_bind, wp_block_at with x; [done|].
  destruct (Z.leb_spec 0 i), (Z.leb_spec 0 n), (Z.leb_spec (i + n) (zlen (cells x))); try lia. cbn.
  apply HQ; [done|]. rewrite length_take, length_drop. lia.
Qed.

(** An element is read from any block that holds it. *)
Lemma wp_elem_in b x i v (Q : V -> state -> Prop) P s :
  (e_size ops <> 0 -> d_store s !! b = Some x /\ cells x !! Z.to_nat i = Some (Some v)) -> 0 <= i ->
  Q v s -> wp (elem_at ops (Some b) i) Q P s.
Proof.
  intros Hx Hi HQ. unfold elem_at, read_cells. destruct (Z.eqb_spec (e_size ops) 0) as [H0|H0].
  { cbn. apply wp_bind, wp_ret. change (Z.to_nat 1) with 1%nat. cbn.
    by rewrite <- (zero_sized v H0). }
  destruct (Hx H0) as [Hb Hv]. change (1 =? 0) with false. cbn [orb].
  apply wp_bind, wp_bind, wp_block_at with x; [done|].
  pose proof (lookup_lt_Some _ _ _ Hv).
  destruct (Z.leb_spec 0 i), (Z.leb_spec (i + 1) (zlen (cells x))); try lia.
  change (0 <=? 1) with true. cbn [andb]. apply wp_ret. change (Z.to_nat 1) with 1%nat.
  by rewrite (drop_S _ _ _ Hv).
Qed.

Lemma wp_elem_at s cs i v (Q : V -> state -> Prop) P :
  holds s cs -> 0 <= i -> cs !! Z.to_nat i = Some (Some v) -> Q v s ->
  wp (elem_at ops (data (d_self s)) i) Q P s.
Proof.
  intros [[H0 Hd]|(H0 & b & p & Hd & Hb)] Hi Hv HQ.
  - unfold elem_at, read_cells. rewrite H0. cbn. apply wp_bind, wp_ret. cbn.
    by rewrite <- (zero_sized v H0).
  - rewrite Hd. by apply (wp_elem_in b (Block p cs) i v).
Qed.

Lemma wp_write s cs i (ws' : list (option V)) (Q : unit -> state -> Prop) P :
  holds s cs -> 0 <= i -> i + zlen ws' <= zlen cs -> Q tt (put_cells (splice i ws' cs) s) ->
  wp (write_cells ops (data (d_self s)) i ws') Q P s.
Proof.
  intros Hh Hi Hl HQ. unfold write_cells. destruct ws' as [|w ws'].
  { rewrite orb_true_r. apply wp_ret. rewrite splice_nil, (put_same s cs Hh) in HQ. done. }
  destruct Hh as [[H0 Hd]|(H0 & b & p & Hd & Hb)].
  { rewrite H0. cbn [Z.eqb orb]. apply wp_ret. unfold put_cells in HQ. by rewrite Hd in HQ. }
  destruct (Z.eqb_spec (e_size ops) 0); [done|].
  destruct (Z.eqb_spec (zlen (w :: ws')) 0); [cbn in *; lia|]. cbn [orb]. rewrite Hd.
  apply wp_bind, wp_block_at with (Block p cs); [done|]. cbn [cells addr].
  destruct (Z.leb_spec 0 i), (Z.leb_spec (i + zlen (w :: ws')) (zlen cs)); try lia. cbn [andb].
  apply wp_modify. unfold put_cells in HQ. rewrite Hd, Hb in HQ. cbn [addr] in HQ. unfold splice in HQ.
  replace (Z.to_nat (i + zlen (w :: ws'))) with (Z.to_nat i + length (w :: ws'))%nat by lia. exact HQ.
Qed.

Lemma holds_self s s' cs :
  holds s cs -> data (d_self s') = data (d_self s) -> d_store s' = d_store s -> holds s' cs.
Proof. intros Hh Hd Hst. unfold holds in *. by rewrite Hd, Hst. Qed.

(** A move within the block; of a zero-sized element, nothing. *)
Lemma wp_memmove s cs dst src n (Q : unit -> state -> Prop) P :
  holds s cs -> 0 <= dst -> 0 <= src -> 0 <= n -> dst + n <= zlen cs -> src + n <= zlen cs ->
  Q tt (put_cells (splice dst (take (Z.to_nat n) (drop (Z.to_nat src) cs)) cs) s) ->
  wp (memmove ops (data (d_self s)) dst src n) Q P s.
Proof.
  intros Hh Hd0 Hs0 Hn0 Hd Hs HQ. unfold memmove. apply wp_bind.
  assert (length (take (Z.to_nat n) (drop (Z.to_nat src) cs)) = Z.to_nat n) as Hlen
    by (rewrite length_take, length_drop; lia).
  destruct Hh as [[H0 Hdt]|(H0 & b & p & Hdt & Hb)].
  - unfold read_cells. rewrite H0. cbn [Z.eqb orb]. apply wp_ret.
    unfold write_cells. rewrite H0. cbn [Z.eqb orb]. apply wp_ret.
    unfold put_cells in HQ. by rewrite Hdt in HQ.
  - rewrite Hdt. apply (wp_read_cells b (Block p cs)); [done..|]. cbn [cells].
    intros xs Hxs Hlx. rewrite (Hxs H0), <- Hdt. apply (wp_write s cs).
    + right. eauto.
    + done.
    + rewrite Hlen. lia.
    + done.
Qed.
End spec.
