(* ===== verification/DynamicFill.v ===== *)
(** The invariant of a dynamic array, and the two halves of an insertion: a
    growth that keeps the old block, and a fill that clones or moves its source
    in, or takes back what it cloned. *)
From S2P Require Import Prelude Checked Interfaces MapTable MapSpec Dynamic DynamicSpec.

(** A provider's [free] has no failure answer: it returns. *)
Class FreeReturns (E : Type) {api : AllocApi E} : Prop :=
  free_returns a p size align e : exists e', api_free a p size align e = Ok tt e'.

(** * What a trace shows of an operation *)

Section calls.
Context {V : Type}.
Abbreviation ev := (event (K:=Empty_set) (V:=V)).
Implicit Types (evs : list ev) (vs : list V).

(** The hook calls, and the requests for storage that were refused; what is left
    out is the blocks got and given back, which the ledger accounts for. *)
Definition is_act (e : ev) : bool :=
  match e with EvAlloc _ _ _ p => p =? 0 | EvFree _ _ _ _ => false | _ => true end.
Definition acts evs : list ev := filter is_act evs.

(** The values it destroyed, in order, and how often a provider or a clone hook
    refused. *)
Definition dropped evs : list V := omap (fun e => match e with EvDropValue v => Some v | _ => None end) evs.
Definition is_refusal (e : ev) : bool :=
  match e with EvAlloc _ _ _ p => p =? 0 | EvCloneValue _ None => true | _ => false end.
Definition refusals evs : Z := zlen (filter is_refusal evs).

Lemma acts_app evs1 evs2 : acts (evs1 ++ evs2) = acts evs1 ++ acts evs2.
Proof. apply filter_app. Qed.
Lemma dropped_app evs1 evs2 : dropped (evs1 ++ evs2) = dropped evs1 ++ dropped evs2.
Proof. apply omap_app. Qed.
Lemma refusals_app evs1 evs2 : refusals (evs1 ++ evs2) = refusals evs1 + refusals evs2.
Proof. unfold refusals. rewrite filter_app, length_app. lia. Qed.

Lemma acts_snoc evs e : acts (evs ++ [e]) = acts evs ++ if is_act e then [e] else [].
Proof. rewrite acts_app. unfold acts. cbn [filter list_filter]. by destruct (is_act e). Qed.
Lemma acts_self evs : Forall is_act evs -> acts evs = evs.
Proof.
  unfold acts. induction 1 as [|e evs He _ IH]; [done|]. by rewrite filter_cons_True, IH.
Qed.

Lemma acts_values vs : acts (EvDropValue <$> vs) = EvDropValue <$> vs.
Proof. apply acts_self, Forall_fmap. by induction vs; constructor. Qed.
Lemma dropped_values vs : dropped (EvDropValue <$> vs) = vs.
Proof. induction vs as [|v vs IH]; [done|]. unfold dropped in *. cbn. by rewrite IH. Qed.

(** Both are read off the hook calls. *)
Lemma dropped_acts evs : dropped (acts evs) = dropped evs.
Proof.
  induction evs as [|e evs IH]; [done|]. unfold acts, dropped in *. rewrite filter_cons.
  case_decide as He; cbn; rewrite IH; [done|]. by destruct e.
Qed.
Lemma refusals_acts evs : refusals (acts evs) = refusals evs.
Proof.
  induction evs as [|e evs IH]; [done|]. unfold acts, refusals in *. rewrite !filter_cons.
  case_decide as He; rewrite ?filter_cons; [by case_decide; cbn [length]; lia|].
  rewrite decide_False, IH; [done|]. by destruct e.
Qed.

Lemma acts_dropped evs evs' l : acts evs' = acts evs ++ l -> dropped evs' = dropped evs ++ dropped l.
Proof. intros H. by rewrite <- (dropped_acts evs'), H, dropped_app, dropped_acts. Qed.
Lemma acts_refusals evs evs' l : acts evs' = acts evs ++ l -> refusals evs' = refusals evs + refusals l.
Proof. intros H. by rewrite <- (refusals_acts evs'), H, refusals_app, refusals_acts. Qed.
End calls.

Lemma ledger_values {V} (evs : list (event (K:=Empty_set) (V:=V))) (vs : list V) :
  ledger (evs ++ (EvDropValue <$> vs)) = ledger evs.
Proof. rewrite ledger_app, ledger_hooks; [done|]. apply Forall_fmap. by induction vs; constructor. Qed.

Section fill.
Context {V E : Type} {api : AllocApi E} {tot : AllocTotal E} (ops : elem_ops V E).
Context {R : V -> V -> Prop} {ok : ElemOk ops R}.
Abbreviation state := (dstate V E).
Implicit Types (s : state) (cs : list (option V)) (vs ws : list V).

(** * The invariant *)

(** Where the elements are: a zero-sized element has no storage; otherwise
    there is no block yet, or one that holds [cap] elements, the initialized
    ones first. *)
Inductive layout_ok s vs : Prop :=
| layout_zero_sized : e_size ops = 0 -> data (d_self s) = None -> layout_ok s vs
| layout_empty : e_size ops <> 0 -> data (d_self s) = None -> cap (d_self s) = 0 -> layout_ok s vs
| layout_block b p rest : e_size ops <> 0 -> data (d_self s) = Some b -> p <> 0 ->
    d_store s !! b = Some (Block p ((Some <$> vs) ++ rest)) ->
    zlen vs + zlen rest = cap (d_self s) -> 0 < cap (d_self s) ->
    cap (d_self s) * e_size ops <= UINT64_MAX -> allocator (d_self s) <> 0 -> layout_ok s vs.

(** The array is the list [vs]; this is all a drop relies on. *)
Record live s vs : Prop := {
  live_len : len (d_self s) = zlen vs;
  live_cap : zlen vs <= cap (d_self s) <= INT64_MAX;
  live_layout : layout_ok s vs;
  live_ids : forall b x, d_store s !! b = Some x -> b < d_next s;
}.

(** A state with the same header, the same block and no new ones. *)
Lemma live_sub s s' vs :
  live s vs -> d_self s' = d_self s -> d_next s <= d_next s' ->
  (forall b, data (d_self s) = Some b -> d_store s' !! b = d_store s !! b) ->
  (forall b, is_Some (d_store s' !! b) -> is_Some (d_store s !! b)) -> live s' vs.
Proof.
  intros [Hl Hc Hlay Hi] H1 H2 Hb Hsub. split; rewrite ?H1; [done..| |].
  - destruct Hlay as [??|???|b p rest]; [by apply layout_zero_sized; rewrite ?H1|by apply layout_empty; rewrite ?H1|].
    apply (layout_block _ _ b p rest); rewrite ?H1, ?Hb; done.
  - intros b x Hx. destruct (Hsub b) as [y Hy]; [eauto|]. specialize (Hi b y Hy). lia.
Qed.

Lemma live_eq s s' vs :
  live s vs -> d_self s' = d_self s -> d_store s' = d_store s -> d_next s' = d_next s -> live s' vs.
Proof. intros Hl H1 H2 H3. apply (live_sub s); try done; [lia|by rewrite H2..]. Qed.

(** The provider block of the array. *)
Definition array_block s : list (handle * Z * Z * Z) :=
  match data (d_self s) with
  | Some b =>
      match d_store s !! b with
      | Some x => [(allocator (d_self s), addr x, cap (d_self s) * e_size ops, elem_align_of ops)]
      | None => []
      end
  | None => []
  end.

(** It holds no other block, and the provider's books agree. *)
Record owns s held : Prop := {
  owns_store : forall b, is_Some (d_store s !! b) -> data (d_self s) = Some b;
  owns_ledger : ledger (d_trace s) = Some (array_block s ++ held);
}.

Definition is_array s vs held : Prop := live s vs /\ owns s held.

Lemma checked_cap s vs : live s vs -> data (d_self s) <> None ->
  checked_bytes (cap (d_self s)) (e_size ops) = Some (cap (d_self s) * e_size ops).
Proof.
  intros [Hl Hc Hlay _] Hd. destruct Hlay; [done..|].
  rewrite checked_bytes_eq by (apply ok || ilia).
  destruct (Z.leb_spec 0 (cap (d_self s))), (Z.leb_spec (cap (d_self s) * e_size ops) UINT64_MAX); (done || lia).
Qed.

(** Fewer elements than the capacity have a byte count too. *)
Lemma checked_part s vs n : live s vs -> 0 <= n <= cap (d_self s) ->
  checked_bytes n (e_size ops) = Some (n * e_size ops).
Proof.
  intros [Hl Hc Hlay _] Hn. pose proof (size_u64 (ops:=ops) (R:=R)) as Hu.
  rewrite checked_bytes_eq by (done || ilia).
  destruct (Z.leb_spec 0 n); [|lia]. cbn [andb].
  enough (n * e_size ops <= UINT64_MAX) by (destruct (Z.leb_spec (n * e_size ops) UINT64_MAX); (done || lia)).
  destruct Hlay as [->|? _ H0|]; [ilia|rewrite H0 in Hn; replace n with 0 by lia; ilia|]. unfold is_u64 in Hu. nia.
Qed.

Lemma live_holds s vs : live s vs -> 0 < cap (d_self s) ->
  exists rest, holds ops s ((Some <$> vs) ++ rest) /\ zlen vs + zlen rest = cap (d_self s).
Proof.
  intros [Hl Hc Hlay _] H0. destruct Hlay as [Hz Hd|Hz Hd Hcap|b p rest Hz Hd Hp Hb Hr].
  - exists (replicate (Z.to_nat (cap (d_self s) - zlen vs)) None). split; [by left|]. rewrite length_replicate. lia.
  - lia.
  - exists rest. split; [|done]. right. eauto.
Qed.

(** * Binding *)

Definition bound s : rt_dynamic :=
  RtDynamic (data (d_self s)) (len (d_self s)) (cap (d_self s))
    (if allocator (d_self s) =? 0 then api_selected (d_env s) else allocator (d_self s)).
Definition with_self d s : state := DState d (d_store s) (d_next s) (d_trace s) (d_env s).

Lemma bind_allocator s : allocator (bound s) <> 0.
Proof.
  unfold bound. cbn. destruct (Z.eqb_spec (allocator (d_self s)) 0); [apply selected_not_nil|done].
Qed.

Lemma bind_array s vs held : is_array s vs held -> is_array (with_self (bound s) s) vs held.
Proof.
  intros [[Hl Hc Hlay Hi] [Ho Hg]]. split.
  - split; [done|done| |done]. destruct Hlay as [Hz Hd|Hz Hd Hcap|b p rest]; [by apply layout_zero_sized|by apply layout_empty|].
    eapply (layout_block _ _ b p rest); try done. apply bind_allocator.
  - split; [done|]. unfold array_block in *. cbn [with_self d_self d_store d_trace].
    destruct Hlay as [Hz Hd|Hz Hd Hcap|b p rest Hz Hd Hp Hb Hr H0 Hm Ha]; cbn [data bound] in *; rewrite ?Hd in *; try done.
    rewrite Hg. cbn [cap allocator bound]. by destruct (Z.eqb_spec (allocator (d_self s)) 0).
Qed.

Lemma wp_bind_array s (Q : unit -> state -> Prop) P : Q tt (with_self (bound s) s) -> wp dyn_bind Q P s.
Proof. intros HQ. by apply wp_modify. Qed.

(** * Storage *)

Lemma storage_alloc_spec a n bytes s :
  wp (storage_alloc ops a n bytes)
    (fun r s' => exists e,
       match r with
       | None => s' = DState (d_self s) (d_store s) (d_next s)
           (d_trace s ++ [EvAlloc a bytes (elem_align_of ops) 0]) e
       | Some b => b = d_next s /\ exists p, p <> 0 /\
           s' = DState (d_self s) (<[b := Block p (replicate (Z.to_nat n) None)]> (d_store s)) (d_next s + 1)
             (d_trace s ++ [EvAlloc a bytes (elem_align_of ops) p]) e
       end)
    (fun _ s' => exists e, s' = DState (d_self s) (d_store s) (d_next s) (d_trace s) e) s.
Proof.
  pose proof (alloc_total a bytes (elem_align_of ops) (d_env s)) as Ht.
  unfold storage_alloc, wp, bind, outside, d_note, modify, new_block, ret in *.
  destruct (api_alloc a bytes (elem_align_of ops) (d_env s)) as [p e|h e| |]; [|eauto|done..].
  cbn. destruct (Z.eqb_spec p 0) as [->|Hp]; exists e; [done|]. split; [done|]. eauto.
Qed.

Context {fr : FreeReturns E}.

Lemma storage_free_spec a b x bytes s :
  d_store s !! b = Some x ->
  wp (storage_free ops a b bytes)
    (fun _ s' => exists e, s' = DState (d_self s) (delete b (d_store s)) (d_next s)
       (d_trace s ++ [EvFree a (addr x) bytes (elem_align_of ops)]) e)
    (fun _ _ => False) s.
Proof.
  intros Hb. unfold storage_free. apply wp_bind, wp_block_at with x; [done|].
  apply wp_bind, wp_modify, wp_bind, wp_modify. unfold wp, outside. cbn.
  destruct (free_returns a (addr x) bytes (elem_align_of ops) (d_env s)) as [e ->]. eauto.
Qed.

(** * Growth *)

(** A growth that [dyn_regrow] made: the elements in a fresh block, the old
    block still there. *)
Definition regrown s vs (u : dyn_grow_undo) s' : Prop :=
  old_data u = data (d_self s) /\ old_cap u = cap (d_self s) /\
  len (d_self s') = len (d_self s) /\ allocator (d_self s') = allocator (d_self s) /\ live s' vs /\
  ((grew u = false /\ data (d_self s') = data (d_self s) /\ d_store s' = d_store s /\
    d_trace s' = d_trace s /\ (e_size ops <> 0 -> cap (d_self s') = cap (d_self s))) \/
   (grew u = true /\ e_size ops <> 0 /\ data (d_self s') = Some (d_next s) /\
    exists p rest, d_store s' = <[d_next s := Block p ((Some <$> vs) ++ rest)]> (d_store s) /\ p <> 0 /\
      d_trace s' = d_trace s ++ [EvAlloc (allocator (d_self s)) (cap (d_self s') * e_size ops) (elem_align_of ops) p])).

Lemma target_bounds c m t : is_i64 c -> 0 <= m <= INT64_MAX -> dyn_growth_target c m = Some t ->
  m <= t <= INT64_MAX /\ 8 <= t.
Proof.
  intros Hc Hm. unfold dyn_growth_target.
  assert (forall w, m <= w <= INT64_MAX -> (if (if w <? 8 then 8 else w) <? m then None else Some (if w <? 8 then 8 else w)) = Some t ->
    m <= t <= INT64_MAX /\ 8 <= t) as H.
  { intros w Hw. destruct (Z.ltb_spec w 8); [destruct (Z.ltb_spec 8 m)|destruct (Z.ltb_spec w m)]; intros [= <-]; ilia. }
  apply H. destruct (0 <? c) eqn:H0; [|lia].
  destruct (checked_add c c) as [d|] eqn:Hd; [|lia]. apply checked_add_Some in Hd as (? & ? & -> & ?); [|done..].
  destruct (Z.ltb_spec m (c + c)); lia.
Qed.

(** The array and the provider's books are as they were, no hook was called, and
    there is a cause: more elements than can be counted in [int64_t], more bytes
    than in [uint64_t], or a request that was refused. *)
Definition too_big (c n : Z) : Prop := INT64_MAX < n \/ UINT64_MAX < Z.max 8 (Z.max (2 * c) n) * e_size ops.
Definition denied s n s' : Prop :=
  (acts (d_trace s') = acts (d_trace s) /\ too_big (cap (d_self s)) n) \/
  exists size, acts (d_trace s') = acts (d_trace s) ++ [EvAlloc (allocator (d_self s')) size (elem_align_of ops) 0].
Definition grow_refused s n s' : Prop :=
  d_self s' = d_self s /\ d_store s' = d_store s /\ d_next s' = d_next s /\
  ledger (d_trace s') = ledger (d_trace s) /\ denied s n s'.

(** The target of a growth is what it is asked for or double what there is, so
    that a target whose bytes cannot be counted is too big. *)
Lemma growth_target c m : is_i64 c -> 0 <= m <= INT64_MAX ->
  exists t, dyn_growth_target c m = Some t /\ t <= Z.max 8 (Z.max (2 * c) m).
Proof.
  intros Hc Hm. unfold dyn_growth_target.
  assert (forall w, m <= w <= Z.max (2 * c) m ->
    exists t, (if (if w <? 8 then 8 else w) <? m then None else Some (if w <? 8 then 8 else w)) = Some t /\
      t <= Z.max 8 (Z.max (2 * c) m)) as H.
  { intros w Hw. destruct (Z.ltb_spec w 8); [destruct (Z.ltb_spec 8 m)|destruct (Z.ltb_spec w m)];
      (lia || (eexists; split; [done|lia])). }
  apply H. destruct (0 <? c) eqn:H0; [|lia].
  destruct (checked_add c c) as [d|] eqn:Hd; [|lia]. apply checked_add_Some in Hd as (? & ? & -> & ?); [|done..].
  destruct (Z.ltb_spec m (c + c)); lia.
Qed.

Lemma too_many_bytes c m t : is_i64 c -> 0 <= m <= INT64_MAX -> dyn_growth_target c m = Some t ->
  UINT64_MAX < t * e_size ops -> too_big c m.
Proof.
  intros Hc Hm Ht Hb. right. destruct (growth_target c m Hc Hm) as (t' & Ht' & Hle). rewrite Ht in Ht'.
  injection Ht' as <-. pose proof (size_u64 (ops:=ops) (R:=R)) as Hu. unfold is_u64 in Hu.
  pose proof (Z.mul_le_mono_nonneg_r _ _ (e_size ops) (proj1 Hu) Hle). lia.
Qed.

Definition regrow_post s vs n force (r : option dyn_grow_undo) s' : Prop :=
  match r with
  | None => grow_refused s n s'
  | Some u => regrown s vs u s' /\ n <= cap (d_self s') /\ (force = true -> grew u = true)
  end.

Lemma wp_memcpy_into s b x from xf n (Q : unit -> state -> Prop) P :
  e_size ops <> 0 -> d_store s !! b = Some x -> d_store s !! from = Some xf -> b <> from ->
  0 < n -> n <= zlen (cells xf) -> n <= zlen (cells x) ->
  Q tt (DState (d_self s)
    (<[b := Block (addr x) (take (Z.to_nat n) (cells xf) ++ drop (Z.to_nat n) (cells x))]> (d_store s))
    (d_next s) (d_trace s) (d_env s)) ->
  wp (memcpy ops (Some b) 0 (Some from) 0 n) Q P s.
Proof.
  intros Hz Hb Hf Hne Hn Hlf Hlx HQ. unfold memcpy. rewrite bool_decide_false by congruence.
  rewrite andb_false_r. cbn [andb]. apply wp_bind, (wp_read_cells ops from xf); [done|lia|lia|lia|].
  intros xs Hxs Hlen. rewrite (Hxs Hz), drop_0 in *. unfold write_cells.
  destruct (Z.eqb_spec (e_size ops) 0); [done|].
  destruct (Z.eqb_spec (zlen (take (Z.to_nat n) (cells xf))) 0) as [H0|_]; [lia|]. cbn [orb].
  apply wp_bind, wp_block_at with x; [done|]. rewrite Hlen.
  destruct (Z.leb_spec (0 + Z.of_nat (Z.to_nat n)) (zlen (cells x))); [|lia]. cbn [Z.leb andb].
  replace (Z.to_nat (0 + Z.of_nat (Z.to_nat n))) with (Z.to_nat n) by lia. exact HQ.
Qed.

Lemma regrow_done s s1 vs n force t p e tr :
  live s vs -> allocator (d_self s) <> 0 -> e_size ops <> 0 -> zlen vs <= t -> n <= t -> 8 <= t <= INT64_MAX ->
  t * e_size ops <= UINT64_MAX -> p <> 0 ->
  tr = d_trace s ++ [EvAlloc (allocator (d_self s)) (t * e_size ops) (elem_align_of ops) p] ->
  s1 = DState (d_self s)
    (<[d_next s := Block p ((Some <$> vs) ++ replicate (Z.to_nat (t - zlen vs)) None)]> (d_store s))
    (d_next s + 1) tr e ->
  wp (set_data (Some (d_next s)) t ;;; ret (Some (DynGrowUndo (data (d_self s)) (cap (d_self s)) true)))
    (regrow_post s vs n force) (fun _ s' => live s' vs) s1.
Proof.
  intros [Hl Hc Hlay Hids] Ha Hz Hvt Hnt Ht Hm Hp -> ->. apply wp_bind, wp_modify, wp_ret.
  split; [|split; [cbn; lia|done]]. split_and!; [done..| |].
  - split; cbn; [done|lia| |].
    + eapply layout_block with (p := p); cbn; [done|done|done|by rewrite lookup_insert_eq| |lia|done|done].
      rewrite length_replicate. lia.
    + intros b x [[<- _]|[_ Hx%Hids]]%lookup_insert_Some; lia.
  - right. split_and!; [done..|]. exists p. eexists. split_and!; done.
Qed.

Lemma regrow_fresh_spec s vs n force t :
  live s vs -> allocator (d_self s) <> 0 -> e_size ops <> 0 -> zlen vs <= t -> n <= t -> 8 <= t <= INT64_MAX ->
  t * e_size ops <= UINT64_MAX ->
  wp (regrow_fresh ops (d_self s) t (t * e_size ops)) (regrow_post s vs n force) (fun _ s' => live s' vs) s.
Proof.
  intros Hlive Ha Hz Hvt Hnt Ht Hm. pose proof Hlive as [Hl Hc Hlay Hids]. unfold regrow_fresh.
  apply wp_bind. eapply wp_conseq; [apply storage_alloc_spec| |].
  2: { intros h s' [e ->]. by apply (live_eq s). }
  intros [b|] s1; cbn beta iota; intros [e Hs1].
  2: { rewrite Hs1. apply wp_ret. split_and!; [done..| |]; cbn [d_trace d_self].
    - by rewrite ledger_app.
    - right. eexists. cbn [d_trace d_self]. by rewrite acts_snoc. }
  destruct Hs1 as (-> & p & Hp & ->). apply wp_bind.
  rewrite (checked_part s vs (len (d_self s)) Hlive) by lia.
  destruct (Z.eqb_spec (len (d_self s) * e_size ops) 0) as [He|Hne]; cbn [negb].
  - apply wp_ret. assert (vs = []) as -> by (destruct vs; [done|]; exfalso; rewrite Hl in He; cbn in He; nia).
    eapply (regrow_done s _ [] n force t p e); try done. cbn. by rewrite Z.sub_0_r.
  - destruct Hlay as [?|? ? Hc0|b p0 rest _ Hd Hp0 Hb Hr Hcap Hm' Ha'];
      [done|exfalso; apply Hne; rewrite Hl in *; replace (zlen vs) with 0 by lia; lia|].
    assert (b <> d_next s) as Hbn by (intros ->; apply Hids in Hb; lia). rewrite Hd.
    apply (wp_memcpy_into _ (d_next s) (Block p (replicate (Z.to_nat t) None)) b
      (Block p0 ((Some <$> vs) ++ rest))); cbn [d_store cells addr].
    + done.
    + by rewrite lookup_insert_eq.
    + by rewrite lookup_insert_ne.
    + done.
    + rewrite Hl in *. destruct vs; [cbn in Hne; lia|cbn; lia].
    + rewrite length_app, length_fmap. lia.
    + rewrite length_replicate. lia.
    + cbn [d_self d_next d_trace d_env]. rewrite Hl, Nat2Z.id, insert_insert_eq.
      rewrite take_app_length' by (by rewrite length_fmap). rewrite drop_replicate.
      replace (Z.to_nat t - length vs)%nat with (Z.to_nat (t - zlen vs)) by lia. rewrite <- Hd.
      eapply (regrow_done s _ vs n force t p e); reflexivity || done.
Qed.

Lemma regrow_spec s vs n force :
  live s vs -> allocator (d_self s) <> 0 -> zlen vs <= n <= INT64_MAX -> (force = true -> e_size ops <> 0) ->
  wp (dyn_regrow ops n force) (regrow_post s vs n force) (fun _ s' => live s' vs) s.
Proof.
  intros Hlive Ha Hn Hforce. pose proof Hlive as [Hl Hc Hlay Hids].
  pose proof (size_u64 (ops:=ops) (R:=R)) as Hu. unfold dyn_regrow. apply wp_bind, wp_gets.
  apply wp_if; intros Hfit.
  { apply andb_true_iff in Hfit as [Hfit%Z.leb_le ->%negb_true_iff].
    apply wp_ret. split; [|done]. split_and!; [done..|]. by left. }
  destruct (growth_target (cap (d_self s)) n) as (t & Ht & _); [ilia|lia|]. rewrite Ht.
  destruct (target_bounds (cap (d_self s)) n t) as [Htn Ht8]; [ilia|lia|done|].
  rewrite checked_bytes_eq by (done || ilia). destruct (Z.leb_spec 0 t); [|lia]; cbn [andb].
  destruct (Z.leb_spec (t * e_size ops) UINT64_MAX) as [Hbytes|Hbytes].
  2: { apply wp_ret. split_and!; [done..|]. left. split; [done|]. eapply too_many_bytes; [ilia|lia|done|lia]. }
  destruct (Z.eqb_spec (t * e_size ops) 0) as [Hz|Hnz].
  - assert (e_size ops = 0) as H0 by (unfold is_u64 in Hu; nia).
    apply wp_bind, wp_modify, wp_ret. split; [|split; [cbn; lia|intros Hf; by destruct (Hforce Hf)]].
    split_and!; [done..| |left; done].
    split; cbn; [done|lia| |done]. apply layout_zero_sized; [done|]. cbn. by destruct Hlay.
  - apply regrow_fresh_spec; [done..| |lia|lia|lia|done]. intros H0. rewrite H0 in Hnz. lia.
Qed.
End fill.
