(* ===== verification/DynamicOps.v ===== *)
(** Filling slots from a source, and the insertions as transactions: they put
    the whole source in, or leave the array and its block as they were. *)
From S2P Require Import Prelude Checked Interfaces MapTable MapSpec Dynamic DynamicSpec DynamicFill.

Lemma splice_lookup_lt {A} i (ws cs : list A) j :
  (j < Z.to_nat i)%nat -> (Z.to_nat i <= length cs)%nat -> splice i ws cs !! j = cs !! j.
Proof.
  intros Hj Hi. unfold splice. rewrite lookup_app_l by (rewrite length_take; lia). by apply lookup_take_lt.
Qed.

Lemma splice_lookup_in {A} i (ws cs : list A) j :
  (Z.to_nat i <= length cs)%nat -> (j < length ws)%nat -> splice i ws cs !! (Z.to_nat i + j)%nat = ws !! j.
Proof.
  intros Hi Hj. unfold splice. rewrite lookup_app_r by (rewrite length_take; lia).
  rewrite length_take, lookup_app_l by lia. f_equal. lia.
Qed.

Lemma splice_snoc {A} i (ws : list A) w cs :
  0 <= i -> i + zlen ws < zlen cs ->
  splice (i + zlen ws) [w] (splice i ws cs) = splice i (ws ++ [w]) cs.
Proof.
  intros Hi Hl.
  assert (exists pre us x rest, cs = pre ++ us ++ x :: rest /\ i = zlen pre /\ length us = length ws)
    as (pre & us & x & rest & -> & -> & Hus).
  { destruct (lookup_lt_is_Some_2 cs (Z.to_nat i + length ws)%nat ltac:(lia)) as [x Hx].
    exists (take (Z.to_nat i) cs), (take (length ws) (drop (Z.to_nat i) cs)), x,
      (drop (S (Z.to_nat i + length ws)) cs).
    rewrite <- (drop_S _ _ _ Hx), <- drop_drop, take_drop, take_drop, !length_take, length_drop.
    split; [done|lia]. }
  rewrite splice_app by done.
  pose proof (splice_app (pre ++ ws) [w] [x] rest eq_refl) as H1. rewrite <- !app_assoc in H1.
  rewrite length_app, Nat2Z.inj_add in H1. cbn [app] in H1. rewrite H1.
  pose proof (splice_app pre (ws ++ [w]) (us ++ [x]) rest) as H2. rewrite <- !app_assoc in H2.
  cbn [app] in H2. symmetry. apply H2. rewrite !length_app. cbn. lia.
Qed.

Section ops.
Context {V E : Type} {api : AllocApi E} {tot : AllocTotal E} {fr : FreeReturns E} (ops : elem_ops V E).
Context {R : V -> V -> Prop} {ok : ElemOk ops R}.
Abbreviation state := (dstate V E).
Abbreviation ev := (event (K:=Empty_set) (V:=V)).
Implicit Types (s : state) (cs : list (option V)) (vs ws : list V).

(** * The fill *)

(** Whether slot [i] takes its element over, rather than a clone of it. *)
Definition moves (owned : option (list bool)) (i : nat) : bool :=
  match e_clone ops with
  | None => true
  | Some _ => match owned with None => false | Some flags => default false (flags !! i) end
  end.

(** [ws'] is what a fill from [ws] puts in. *)
Definition filled owned ws ws' : Prop :=
  length ws' = length ws /\
  forall i v w, ws !! i = Some v -> ws' !! i = Some w -> if moves owned i then w = v else R v w.

(** The clones among the slots from [j] on. *)
Fixpoint clones_of owned (j : nat) ws : list V :=
  match ws with
  | [] => []
  | w :: ws => (if moves owned j then [] else [w]) ++ clones_of owned (S j) ws
  end.

(** The calls of the clone hook for the slots from [j] on that hold [ws'] made of
    [ws], and the calls of the drop hook that end [ws]. *)
Fixpoint clone_calls owned (j : nat) ws ws' : list ev :=
  match ws, ws' with
  | w :: ws, w' :: ws' => (if moves owned j then [] else [EvCloneValue w (Some w')]) ++ clone_calls owned (S j) ws ws'
  | _, _ => []
  end.
Definition drop_calls ws : list ev := if has_drop ops then EvDropValue <$> ws else [].

Lemma clone_calls_snoc owned ws w v : forall ws' j, ws !! length ws' = Some v ->
  clone_calls owned j ws (ws' ++ [w]) =
    clone_calls owned j ws ws' ++ if moves owned (j + length ws') then [] else [EvCloneValue v (Some w)].
Proof.
  induction ws as [|v0 ws IH]; intros [|w0 ws'] j Hv; try done; cbn [length] in *.
  - injection Hv as ->. cbn [app clone_calls]. rewrite Nat.add_0_r. by destruct ws; rewrite app_nil_r.
  - cbn [app clone_calls]. rewrite IH by done. rewrite <- app_assoc. by replace (S j + length ws')%nat with (j + S (length ws'))%nat by lia.
Qed.

Lemma clone_calls_made owned ws : forall ws' j, (length ws' <= length ws)%nat ->
  omap (fun e => match e with EvCloneValue _ r => r | _ => None end) (clone_calls owned j ws ws') = clones_of owned j ws'.
Proof.
  induction ws as [|v ws IH]; intros [|w ws'] j Hl; cbn [length] in *; try done; [lia|].
  cbn [clone_calls clones_of]. rewrite omap_app, IH by lia. by destruct (moves owned j).
Qed.

(** They are hook calls, none of them a drop or a refusal. *)
Lemma clone_calls_facts owned ws : forall ws' j,
  Forall is_hook (clone_calls owned j ws ws') /\ acts (clone_calls owned j ws ws') = clone_calls owned j ws ws' /\
  dropped (clone_calls owned j ws ws') = [] /\ refusals (clone_calls owned j ws ws') = 0.
Proof.
  induction ws as [|v ws IH]; intros [|w ws'] j; cbn [clone_calls]; try done.
  destruct (IH ws' (S j)) as (H1 & H2 & H3 & H4). rewrite acts_app, dropped_app, refusals_app, H2, H3, H4.
  destruct (moves owned j); (split_and!; [|done..]); [done|by constructor].
Qed.

Lemma drop_calls_acts ws : Forall is_hook (drop_calls ws) /\ acts (drop_calls ws) = drop_calls ws /\
  dropped (drop_calls ws) = (if has_drop ops then ws else []) /\ refusals (drop_calls ws) = 0.
Proof.
  unfold drop_calls. destruct (has_drop ops); [|done]. split_and!; [|apply acts_values|apply dropped_values|].
  - apply Forall_fmap. by induction ws; constructor.
  - unfold refusals. by induction ws.
Qed.

(** The calls of a fill that was refused the clone of [v]. *)
Definition refused_calls owned ws done_ v : list ev :=
  clone_calls owned 0 ws done_ ++ [EvCloneValue v None] ++ drop_calls (clones_of owned 0 done_).

Lemma refused_calls_acts owned ws done_ v :
  Forall is_hook (refused_calls owned ws done_ v) /\ acts (refused_calls owned ws done_ v) = refused_calls owned ws done_ v /\
  dropped (refused_calls owned ws done_ v) = (if has_drop ops then clones_of owned 0 done_ else []) /\
  refusals (refused_calls owned ws done_ v) = 1.
Proof.
  unfold refused_calls. destruct (clone_calls_facts owned ws done_ 0) as (H1 & H2 & H3 & H4).
  destruct (drop_calls_acts (clones_of owned 0 done_)) as (G1 & G2 & G3 & G4).
  rewrite !acts_app, !dropped_app, !refusals_app, H2, H3, H4, G2, G3, G4. split_and!; [|done..].
  repeat (apply Forall_app; split); [done|by repeat constructor|done].
Qed.

Lemma dropped_clones owned j ws ws' : dropped (clone_calls owned j ws ws') = [].
Proof. apply clone_calls_facts. Qed.
Lemma dropped_drops ws : dropped (drop_calls ws) = if has_drop ops then ws else [].
Proof. apply drop_calls_acts. Qed.
Lemma dropped_refused owned ws done_ v :
  dropped (refused_calls owned ws done_ v) = if has_drop ops then clones_of owned 0 done_ else [].
Proof. apply refused_calls_acts. Qed.

Definition flags_ok (owned : option (list bool)) ws : Prop :=
  match owned with None => True | Some flags => (length ws <= length flags)%nat end.

(** [src] reads [ws], and no slot from [at_] on is read. *)
Definition source_ok s (src : source V) ws (at_ : Z) : Prop :=
  match src with
  | Outside us => exists more, us = ws ++ more
  | Inside b k => 0 <= k /\ (e_size ops = 0 \/
      exists x, d_store s !! b = Some x /\
        (forall i v, ws !! i = Some v -> cells x !! (Z.to_nat k + i)%nat = Some (Some v)) /\
        (data (d_self s) <> Some b \/ k + zlen ws <= at_))
  end.

(** The state with other cells, trace and environment. *)
Definition upd cs tr e s : state := DState (d_self s) (d_store (put_cells cs s)) (d_next s) tr e.

Lemma upd_holds s cs c tr e : holds ops s cs -> holds ops (upd c tr e s) c.
Proof. intros Hh. pose proof (holds_put ops s cs c Hh). eapply holds_self; [done|by cbn; rewrite put_cells_self|done]. Qed.

Lemma upd_put s cs c1 c2 tr e : holds ops s cs -> put_cells c2 (upd c1 tr e s) = upd c2 tr e s.
Proof.
  intros [[H0 Hd]|(H0 & b & p & Hd & Hb)]; unfold upd, put_cells; cbn; rewrite Hd; [done|].
  rewrite Hb. cbn. rewrite lookup_insert_eq. cbn. by rewrite insert_insert_eq.
Qed.

Lemma upd_same s cs : holds ops s cs -> upd cs (d_trace s) (d_env s) s = s.
Proof. intros Hh. unfold upd. rewrite (put_same ops s cs Hh). by destruct s. Qed.

Lemma wp_source_at s cs src ws at_ done_ i v tr e (Q : V -> state -> Prop) P :
  holds ops s cs -> source_ok s src ws at_ -> 0 <= at_ <= zlen cs -> ws !! i = Some v ->
  Q v (upd (splice at_ done_ cs) tr e s) ->
  wp (source_at ops src (Z.of_nat i)) Q P (upd (splice at_ done_ cs) tr e s).
Proof.
  intros Hh Hsrc Hat Hv HQ. destruct src as [us|b k]; cbn in Hsrc |- *.
  - destruct Hsrc as [more ->]. apply (wp_need _ v); [|done]. unfold at_index.
    destruct (Z.leb_spec 0 (Z.of_nat i)); [|lia]. rewrite Nat2Z.id. by apply lookup_app_l_Some.
  - destruct Hsrc as [Hk [H0|(x & Hb & Hx & Hsep)]].
    + apply (wp_elem_in ops b (Block 0 []) _ v); [done|lia|done].
    + pose proof (lookup_lt_Some _ _ _ Hv) as Hlt. specialize (Hx i v Hv).
      destruct (decide (data (d_self s) = Some b)) as [Hd|Hd].
      * destruct Hsep as [?|Hsep]; [done|].
        destruct Hh as [[? ?]|(Hz & b' & p & Hd' & Hb')]; [congruence|].
        rewrite Hd in Hd'. injection Hd' as <-. rewrite Hb in Hb'. injection Hb' as ->. cbn in Hx.
        apply (wp_elem_in ops b (Block p (splice at_ done_ cs)) _ v); [|lia|done]. intros _. split.
        -- unfold upd, put_cells. cbn. rewrite Hd, Hb. cbn. by rewrite lookup_insert_eq.
        -- cbn. rewrite splice_lookup_lt by lia. rewrite <- Hx. f_equal. lia.
      * apply (wp_elem_in ops b x _ v); [|lia|done]. intros _. split.
        -- cbn. by rewrite put_cells_other.
        -- rewrite <- Hx. f_equal. lia.
Qed.

Lemma moves_None owned i : e_clone ops = None -> moves owned i = true.
Proof. unfold moves. by intros ->. Qed.

Lemma clone_calls_None owned ws ws' j : e_clone ops = None -> clone_calls owned j ws ws' = [].
Proof.
  intros Hc. revert ws' j. induction ws as [|v ws IH]; intros [|w ws'] j; try done. cbn [clone_calls].
  by rewrite (moves_None owned j Hc), IH.
Qed.

Lemma wp_is_owned owned ws i clone (Q : bool -> state -> Prop) P s :
  e_clone ops = Some clone -> flags_ok owned ws -> (i < length ws)%nat -> Q (moves owned i) s ->
  wp (is_owned owned (Z.of_nat i)) Q P s.
Proof.
  intros Hc Hf Hi HQ. unfold moves in HQ. rewrite Hc in HQ. destruct owned as [flags|]; [|by apply wp_ret].
  cbn in *. destruct (lookup_lt_is_Some_2 flags i ltac:(lia)) as [o Ho]. rewrite Ho in HQ.
  apply (wp_need _ o); [|done]. unfold at_index. destruct (Z.leb_spec 0 (Z.of_nat i)); [|lia]. by rewrite Nat2Z.id.
Qed.

(** Taking back the clones: each is destroyed once, first to last. *)
Lemma undo_fill_spec clone f owned at_ cs s : e_clone ops = Some clone -> e_drop ops = Some f ->
  forall rest done_ tr e,
  holds ops s cs -> flags_ok owned (done_ ++ rest) -> 0 <= at_ -> at_ + zlen (done_ ++ rest) <= zlen cs ->
  wp (undo_fill ops (length rest) at_ owned (zlen done_))
    (fun _ s' => exists e', s' = upd (splice at_ (Some <$> done_ ++ rest) cs)
       (tr ++ (EvDropValue <$> clones_of owned (length done_) rest)) e' s)
    (fun _ s' => exists tr' e', s' = upd (splice at_ (Some <$> done_ ++ rest) cs) tr' e' s)
    (upd (splice at_ (Some <$> done_ ++ rest) cs) tr e s).
Proof.
  intros Hc Hdr rest. induction rest as [|w rest IH]; intros done_ tr e Hh Hf Hat Hl.
  { apply wp_ret. exists e. cbn [clones_of fmap list_fmap]. by rewrite !app_nil_r. }
  cbn [length undo_fill]. apply wp_bind. apply (wp_is_owned owned (done_ ++ w :: rest) (length done_) clone); [done..|rewrite length_app; cbn; lia|].
  apply wp_bind.
  assert (forall tr1 e1, wp (undo_fill ops (length rest) at_ owned (zlen done_ + 1))
    (fun _ s' => exists e', s' = upd (splice at_ (Some <$> done_ ++ w :: rest) cs)
       (tr1 ++ (EvDropValue <$> clones_of owned (S (length done_)) rest)) e' s)
    (fun _ s' => exists tr' e', s' = upd (splice at_ (Some <$> done_ ++ w :: rest) cs) tr' e' s)
    (upd (splice at_ (Some <$> done_ ++ w :: rest) cs) tr1 e1 s)) as Hrest.
  { intros tr1 e1. specialize (IH (done_ ++ [w]) tr1 e1).
    assert (length (done_ ++ [w]) = S (length done_)) as Hlen by (rewrite length_app; cbn; lia).
    rewrite Hlen, <- app_assoc in IH. replace (Z.of_nat (S (length done_))) with (zlen done_ + 1) in IH by lia.
    by apply IH. }
  destruct (moves owned (length done_)) eqn:Hmv; cbn [negb].
  - apply wp_ret. cbn [clones_of]. rewrite Hmv. apply Hrest.
  - apply wp_bind, wp_gets, wp_bind.
    eapply (wp_elem_at ops _ (splice at_ (Some <$> done_ ++ w :: rest) cs) _ w); [by eapply upd_holds|lia| |].
    { replace (Z.to_nat (at_ + zlen done_)) with (Z.to_nat at_ + length done_)%nat by lia.
      rewrite splice_lookup_in; [|lia|rewrite length_fmap, length_app; cbn; lia].
      by rewrite list_lookup_fmap, lookup_app_r, Nat.sub_diag. }
    unfold call_drop. rewrite Hdr. apply wp_bind, wp_modify.
    pose proof (drop_behaves f w Hdr e) as Hw. unfold wp at 1. unfold wp in Hw. unfold outside. cbn.
    destruct (f w e) as [[] e1|h e1| |]; [|eexists _, e1; reflexivity|done..].
    cbn [clones_of]. rewrite Hmv. pose proof (Hrest (tr ++ [EvDropValue w]) e1) as Hr.
    rewrite <- app_assoc in Hr. exact Hr.
Qed.

(** A fill of [ws] ended at the clone of its element [v]. *)
Definition refused_at owned ws done_ v : Prop :=
  filled owned (take (length done_) ws) done_ /\ ws !! length done_ = Some v /\ moves owned (length done_) = false.

(** What a fill leaves: the source in its slots, or, after a clone that failed,
    slots nobody owns and each clone it had made destroyed. *)
Definition fill_post s cs at_ owned ws (r : bool) s' : Prop :=
  exists e done_,
    if r then filled owned ws done_ /\
      s' = upd (splice at_ (Some <$> done_) cs) (d_trace s ++ clone_calls owned 0 ws done_) e s
    else exists v, refused_at owned ws done_ v /\
      s' = upd (splice at_ (Some <$> done_) cs) (d_trace s ++ refused_calls owned ws done_ v) e s.

(** A hook ended the program during a fill: only the slots it was to fill
    changed. *)
Definition fill_stopped s cs at_ ws s' : Prop :=
  exists e tr done_, (length done_ <= length ws)%nat /\ s' = upd (splice at_ (Some <$> done_) cs) tr e s.

Lemma filled_snoc owned ws done_ v w :
  filled owned (take (length done_) ws) done_ -> ws !! length done_ = Some v ->
  (if moves owned (length done_) then w = v else R v w) ->
  filled owned (take (length (done_ ++ [w])) ws) (done_ ++ [w]).
Proof.
  intros [Hl Hf] Hv Hw. pose proof (lookup_lt_Some _ _ _ Hv).
  replace (length (done_ ++ [w])) with (S (length done_)) by (rewrite length_app; cbn; lia).
  rewrite (take_S_r _ _ _ Hv). split; [rewrite !length_app; cbn; lia|].
  intros i v' w' [Hi|[Hi1 Hi2]]%lookup_app_Some [Hj|[Hj1 Hj2]]%lookup_app_Some.
  - by eapply Hf.
  - apply lookup_lt_Some in Hi. rewrite length_take in Hi. lia.
  - apply lookup_lt_Some in Hj. rewrite length_take in Hi1. lia.
  - rewrite length_take in Hi1, Hi2.
    apply list_lookup_singleton_Some in Hi2 as [? <-]. apply list_lookup_singleton_Some in Hj2 as [? <-].
    by replace i with (length done_) by lia.
Qed.

(** The end of a fill that was refused. *)
Lemma undone_fill clone owned at_ cs s ws tr e done_ : e_clone ops = Some clone -> holds ops s cs ->
  flags_ok owned ws -> 0 <= at_ -> at_ + zlen ws <= zlen cs -> (length done_ <= length ws)%nat ->
  wp (if has_drop ops then undo_fill ops (Z.to_nat (zlen done_)) at_ owned 0 else ret tt)
    (fun _ s' => exists e', s' = upd (splice at_ (Some <$> done_) cs) (tr ++ drop_calls (clones_of owned 0 done_)) e' s)
    (fun _ s' => fill_stopped s cs at_ ws s') (upd (splice at_ (Some <$> done_) cs) tr e s).
Proof.
  intros Hc Hh Hf Hat Hl Hn. unfold drop_calls, has_drop. destruct (e_drop ops) as [f|] eqn:Hdr.
  - rewrite Nat2Z.id. eapply wp_conseq.
    + apply (undo_fill_spec clone f owned at_ cs s Hc Hdr done_ [] tr e); [done| |done|cbn; lia].
      destruct owned; cbn in *; [lia|done].
    + done.
    + intros _ s' (tr' & e2 & ->). exists e2, tr', done_. split; [lia|done].
  - apply wp_ret. exists e. by rewrite app_nil_r.
Qed.

Lemma fill_loop_spec clone owned at_ cs s src ws : e_clone ops = Some clone ->
  holds ops s cs -> source_ok s src ws at_ -> flags_ok owned ws -> 0 <= at_ -> at_ + zlen ws <= zlen cs ->
  forall n done_ e, (length done_ + n = length ws)%nat -> filled owned (take (length done_) ws) done_ ->
  wp (fill_loop ops clone n at_ src owned (zlen done_))
    (fill_post s cs at_ owned ws) (fun _ s' => fill_stopped s cs at_ ws s')
    (upd (splice at_ (Some <$> done_) cs) (d_trace s ++ clone_calls owned 0 ws done_) e s).
Proof.
  intros Hc Hh Hsrc Hf Hat Hl n. induction n as [|n IH]; intros done_ e Hn Hd.
  { apply wp_ret. exists e, done_. split; [|done]. by replace (length done_) with (length ws) in Hd by lia; rewrite firstn_all in Hd. }
  destruct (lookup_lt_is_Some_2 ws (length done_) ltac:(lia)) as [v Hv].
  cbn [fill_loop]. apply wp_bind, wp_gets, wp_bind.
  eapply wp_source_at; [done|done|lia|done|]. apply wp_bind.
  apply (wp_is_owned owned ws _ clone); [done..|lia|].
  set (tr := d_trace s ++ clone_calls owned 0 ws done_).
  set (si := upd (splice at_ (Some <$> done_) cs) tr e s).
  assert (forall w e1, (if moves owned (length done_) then w = v else R v w) ->
    wp (write_cells ops (data (d_self si)) (at_ + zlen done_) [Some w] ;;;
        fill_loop ops clone n at_ src owned (zlen done_ + 1))
      (fill_post s cs at_ owned ws) (fun _ s' => fill_stopped s cs at_ ws s')
      (upd (splice at_ (Some <$> done_) cs)
        (tr ++ if moves owned (length done_) then [] else [EvCloneValue v (Some w)]) e1 s)) as Hnext.
  { intros w e1 Hw. apply wp_bind.
    eapply (wp_write ops (upd (splice at_ (Some <$> done_) cs) _ e1 s) (splice at_ (Some <$> done_) cs));
      [by eapply upd_holds|lia|rewrite splice_length; rewrite ?length_fmap; cbn; lia|].
    rewrite (upd_put s cs) by done. rewrite <- (length_fmap Some done_), splice_snoc by (rewrite ?length_fmap; lia).
    rewrite length_fmap. specialize (IH (done_ ++ [w]) e1).
    rewrite fmap_app, length_app, (clone_calls_snoc owned ws w v), app_assoc in IH by done.
    replace (Z.of_nat (length done_ + length [w])) with (zlen done_ + 1) in IH by (cbn; lia).
    apply IH; [cbn; lia|]. rewrite <- length_app. by eapply filled_snoc. }
  destruct (moves owned (length done_)) eqn:Hmv.
  { specialize (Hnext v e eq_refl). by rewrite app_nil_r in Hnext. }
  apply wp_bind. unfold call_clone. apply wp_bind. pose proof (clone_relates clone v (allocator (d_self s)) e Hc) as Hw.
  unfold wp at 1. unfold wp in Hw. unfold outside. change (d_env si) with e.
  change (allocator (d_self si)) with (allocator (d_self s)).
  destruct (clone v (allocator (d_self s)) e) as [r e1|h e1| |]; [| |done..].
  2: { exists e1, tr, done_. split; [lia|done]. }
  apply wp_bind, wp_modify, wp_ret. destruct r as [w|].
  { apply Hnext. by apply Hw. }
  set (tr1 := tr ++ [EvCloneValue v None]). apply wp_bind.
  eapply wp_conseq; [apply (undone_fill clone owned at_ cs s ws tr1 e1 done_); (done || lia)| |done].
  intros _ s' [e2 ->]. apply wp_ret. exists e2, done_, v. split; [done|].
  unfold refused_calls, tr1, tr. by rewrite <- !app_assoc.
Qed.

Lemma dyn_fill_spec owned at_ cs s src ws count :
  holds ops s cs -> source_ok s src ws at_ -> flags_ok owned ws -> 0 <= at_ -> at_ + zlen ws <= zlen cs ->
  count = zlen ws -> checked_bytes count (e_size ops) = Some (count * e_size ops) ->
  wp (dyn_fill ops at_ src owned count) (fill_post s cs at_ owned ws)
    (fun _ s' => e_clone ops <> None /\ fill_stopped s cs at_ ws s') s.
Proof.
  intros Hh Hsrc Hf Hat Hl -> Hb. unfold dyn_fill. destruct (e_clone ops) as [clone|] eqn:Hc.
  { rewrite Nat2Z.id. pose proof (fill_loop_spec clone owned at_ cs s src ws Hc Hh Hsrc Hf Hat Hl (length ws) [] (d_env s)) as H.
    assert (clone_calls owned 0 ws [] = []) as Hnil by (by destruct ws).
    cbn [fmap list_fmap length] in H. rewrite Hnil, app_nil_r, splice_nil, (upd_same s cs Hh) in H.
    eapply wp_conseq; [apply H; [lia|]|done|done].
    split; [done|]. intros i v w Hi. by rewrite take_0 in Hi. }
  rewrite Hb. apply wp_bind, wp_gets, wp_bind.
  assert (filled owned ws ws) as Hfill.
  { split; [done|]. intros i v w Hv Hw. rewrite (moves_None owned i Hc). congruence. }
  pose proof (clone_calls_None owned ws ws 0 Hc) as Hnone.
  assert (fill_post s cs at_ owned ws true (put_cells (splice at_ (Some <$> ws) cs) s)) as Hpost.
  { exists (d_env s), ws. split; [done|]. rewrite Hnone, app_nil_r. unfold upd.
    rewrite <- (put_cells_trace (splice at_ (Some <$> ws) cs) s), <- (put_cells_env (splice at_ (Some <$> ws) cs) s),
      <- (put_cells_next (splice at_ (Some <$> ws) cs) s), <- (put_cells_self (splice at_ (Some <$> ws) cs) s).
    by destruct (put_cells _ _). }
  destruct (Z.eqb_spec (zlen ws * e_size ops) 0) as [Hz|Hz]; cbn [negb].
  { do 2 apply wp_ret. destruct ws as [|w ws].
    - cbn [fmap list_fmap] in Hpost. by rewrite splice_nil, (put_same ops s cs Hh) in Hpost.
    - assert (e_size ops = 0) as H0 by (cbn [length] in Hz; nia).
      destruct Hh as [[_ Hd]|[? _]]; [|done]. unfold put_cells in Hpost. by rewrite Hd in Hpost. }
  assert (e_size ops <> 0) as H0 by (intros H0; rewrite H0 in Hz; lia).
  destruct src as [us|b k]; cbn in Hsrc.
  - destruct Hsrc as [more ->]. destruct (Z.leb_spec (zlen ws) (zlen (ws ++ more))) as [_|Hlt]; [|rewrite length_app in Hlt; lia].
    rewrite Nat2Z.id, take_app_length. apply (wp_write ops s cs); [done|done|by rewrite length_fmap|]. by apply wp_ret.
  - destruct Hsrc as [Hk [?|(x & Hbx & Hx & Hsep)]]; [done|].
    assert (take (length ws) (drop (Z.to_nat k) (cells x)) = Some <$> ws) as Hcells.
    { apply list_eq. intros i. destruct (decide (i < length ws)%nat) as [Hi|Hi].
      - destruct (lookup_lt_is_Some_2 ws i Hi) as [v Hv].
        by rewrite lookup_take_lt, lookup_drop, (Hx i v Hv), list_lookup_fmap, Hv by done.
      - rewrite lookup_take_ge, list_lookup_fmap, lookup_ge_None_2 by lia. done. }
    assert (k + zlen ws <= zlen (cells x)) as Hfit.
    { apply (f_equal length) in Hcells. rewrite length_fmap, length_take, length_drop in Hcells.
      assert (0 < length ws)%nat by (destruct ws; [cbn in Hz; lia|cbn; lia]). lia. }
    unfold memcpy. replace (negb _ && _ && _) with false; [|symmetry; apply andb_false_iff].
    2: { destruct (bool_decide_reflect (data (d_self s) = Some b)) as [Hd|]; [|left; by rewrite andb_false_r].
      right. destruct Hsep; [done|]. apply negb_false_iff, orb_true_iff. right. by apply Z.leb_le. }
    apply wp_bind, (wp_read_cells ops b x); [done|done|lia|done|]. intros xs Hxs _. rewrite (Hxs H0), Nat2Z.id, Hcells.
    apply (wp_write ops s cs); [done|done|by rewrite length_fmap|]. by apply wp_ret.
Qed.
End ops.
