(* ===== verification/DynamicInsert.v ===== *)
(** Append and insert: the elements go in together, or the array, its block and
    the provider's books are as they were. *)
From S2P Require Import Prelude Checked Interfaces MapTable MapSpec Dynamic DynamicSpec DynamicFill DynamicOps.

Section insert.
Context {V E : Type} {api : AllocApi E} {tot : AllocTotal E} {fr : FreeReturns E} (ops : elem_ops V E).
Context {R : V -> V -> Prop} {ok : ElemOk ops R}.
Abbreviation state := (dstate V E).
Implicit Types (s : state) (cs : list (option V)) (vs ws : list V).

(** * Transactions *)

(** Between a growth and its end only the cells of the array's block, its
    length, destroyed values and foreign state change. *)
Record books s1 s2 : Prop := {
  bk_data : data (d_self s2) = data (d_self s1);
  bk_cap : cap (d_self s2) = cap (d_self s1);
  bk_allocator : allocator (d_self s2) = allocator (d_self s1);
  bk_next : d_next s2 = d_next s1;
  bk_other b : data (d_self s1) <> Some b -> d_store s2 !! b = d_store s1 !! b;
  bk_addr b x : data (d_self s1) = Some b -> d_store s1 !! b = Some x ->
    exists cs, d_store s2 !! b = Some (Block (addr x) cs);
  bk_ledger : ledger (d_trace s2) = ledger (d_trace s1);
}.

Lemma ledger_swap (evs : list (event (K:=Empty_set) (V:=V))) a sz al p a0 p0 sz0 al0 (mid : list (event (K:=Empty_set) (V:=V))) held :
  p <> 0 -> ledger evs = Some ((a0, p0, sz0, al0) :: held) ->
  ledger mid = ledger (evs ++ [EvAlloc a sz al p]) ->
  ledger (mid ++ [EvFree a0 p0 sz0 al0]) = Some ((a, p, sz, al) :: held).
Proof.
  intros Hp Hl Hm. rewrite ledger_app, Hm, ledger_app, Hl. unfold ledger_from.
  cbn [foldl ledger_step]. destruct (Z.eqb_spec p 0); [done|]. cbn [fmap option_fmap option_map mbind option_bind].
  cbn [release]. destruct (decide _) as [He|_]; [by rewrite He|]. by rewrite decide_True.
Qed.

Lemma wp_release s a b x n (Q : unit -> state -> Prop) :
  d_store s !! b = Some x -> checked_bytes n (e_size ops) = Some (n * e_size ops) -> n * e_size ops <> 0 ->
  (forall e, Q tt (DState (d_self s) (delete b (d_store s)) (d_next s)
     (d_trace s ++ [EvFree a (addr x) (n * e_size ops) (elem_align_of ops)]) e)) ->
  wp (release_bytes ops a (Some b) n) Q (fun _ _ => False) s.
Proof.
  intros Hb Hc Hn HQ. unfold release_bytes. rewrite Hc. destruct (Z.eqb_spec (n * e_size ops) 0); [done|].
  cbn [negb]. eapply wp_conseq; [by apply (storage_free_spec ops a b x)| |done]. intros [] s' [e ->]. apply HQ.
Qed.

Lemma store_block s vs b x : live ops s vs -> data (d_self s) = Some b -> d_store s !! b = Some x ->
  e_size ops <> 0 /\ 0 < cap (d_self s) /\ b < d_next s /\
  checked_bytes (cap (d_self s)) (e_size ops) = Some (cap (d_self s) * e_size ops).
Proof.
  intros Hlive Hd Hx. split_and!.
  - destruct (live_layout ops s vs Hlive); congruence.
  - destruct (live_layout ops s vs Hlive); congruence.
  - by eapply (live_ids ops s vs).
  - eapply (checked_cap ops); [done|congruence].
Qed.

(** The block of a live array, when it has one. *)
Lemma live_block s vs b : live ops s vs -> data (d_self s) = Some b -> exists x, d_store s !! b = Some x /\ addr x <> 0.
Proof.
  intros Hl Hd. destruct (live_layout ops s vs Hl) as [?|?|b' p rest ? Hd']; [congruence..|].
  rewrite Hd in Hd'. injection Hd' as ->. eauto.
Qed.

Lemma array_block_eq s b x : data (d_self s) = Some b -> d_store s !! b = Some x ->
  array_block ops s = [(allocator (d_self s), addr x, cap (d_self s) * e_size ops, elem_align_of ops)].
Proof. intros Hd Hx. unfold array_block. by rewrite Hd, Hx. Qed.

Lemma array_block_none s : data (d_self s) = None -> array_block ops s = [].
Proof. intros Hd. unfold array_block. by rewrite Hd. Qed.

(** Without a growth the books of [s1] are those of [s]. *)
Lemma owns_kept s s1 s2 vs vs1 held :
  live ops s vs -> owns ops s held -> live ops s1 vs1 -> data (d_self s1) = data (d_self s) -> d_store s1 = d_store s ->
  d_trace s1 = d_trace s -> (e_size ops <> 0 -> cap (d_self s1) = cap (d_self s)) ->
  allocator (d_self s1) = allocator (d_self s) -> books s1 s2 -> owns ops s2 held.
Proof.
  intros Hl [Ho Hg] Hl1 Hd Hst Ht Hc Ha [B1 B2 B3 B4 B5 B6 B7]. split.
  - intros b Hb. rewrite B1, Hd. apply Ho. destruct (decide (data (d_self s1) = Some b)) as [He|He].
    + destruct (live_block s vs b Hl) as (x & Hx & _); [congruence|eauto].
    + rewrite B5 in Hb by done. by rewrite <- Hst.
  - rewrite B7, Ht, Hg. do 2 f_equal. destruct (data (d_self s)) as [b|] eqn:Hdb.
    + destruct (live_block s vs b Hl Hdb) as (x & Hx & _). destruct (B6 b x) as [cs Hcs]; [congruence..|].
      rewrite (array_block_eq s b x), (array_block_eq s2 b _ ltac:(congruence) Hcs) by done. cbn [addr].
      rewrite B3, Ha, B2, Hc; [done|]. by destruct (store_block s vs b x Hl Hdb Hx).
    + rewrite !array_block_none; congruence.
Qed.

Lemma commit_spec s vs held u s1 s2 vs' :
  live ops s vs -> owns ops s held -> regrown ops s vs u s1 -> books s1 s2 -> live ops s2 vs' ->
  wp (dyn_regrow_commit ops u)
    (fun _ s' => is_array ops s' vs' held /\ acts (d_trace s') = acts (d_trace s2) /\ d_self s' = d_self s2)
    (fun _ _ => False) s2.
Proof.
  intros Hl Ho (Hod & Hoc & Hlen & Hal & Hl1 & Hcase) Hbk Hl2. unfold dyn_regrow_commit. apply wp_bind, wp_gets.
  destruct Hcase as [(-> & Hd & Hst & Ht & Hc)|(-> & Hz & Hd & p & rest & Hst & Hp & Ht)].
  { apply wp_ret. split; [|done]. split; [done|]. by apply (owns_kept s s1 s2 vs vs held). }
  destruct Ho as [Ho Hg]. destruct Hbk as [B1 B2 B3 B4 B5 B6 B7].
  destruct (B6 (d_next s) (Block p ((Some <$> vs) ++ rest))) as [cs2 Hs2]; [done|by rewrite Hst, lookup_insert_eq|].
  assert (array_block ops s2 = [(allocator (d_self s), p, cap (d_self s1) * e_size ops, elem_align_of ops)]) as Hblk.
  { rewrite (array_block_eq s2 (d_next s) _ ltac:(congruence) Hs2). by rewrite B3, Hal, B2. }
  assert (forall b, b <> d_next s -> d_store s2 !! b = d_store s !! b) as Hrest.
  { intros b Hb. rewrite B5, Hst by congruence. by apply lookup_insert_ne. }
  rewrite Hod, Hoc. destruct (data (d_self s)) as [b|] eqn:Hdb.
  - destruct (live_block s vs b Hl Hdb) as (x & Hx & _).
    destruct (store_block s vs b x Hl Hdb Hx) as (_ & Hc0 & Hbn & Hcb).
    assert (b <> d_next s) as Hne by lia.
    apply (wp_release _ _ b x); [by rewrite Hrest|done|nia|]. intros e. split; [split|].
    + apply (live_sub ops s2); cbn; [done|done|lia| |].
      * intros b' Hb'. apply lookup_delete_ne. congruence.
      * intros b' [_ ?]%lookup_delete_is_Some. done.
    + split; cbn.
      * intros b' [Hb' Hx']%lookup_delete_is_Some. rewrite B1, Hd. f_equal.
        destruct (decide (b' = d_next s)) as [?|Hn]; [done|]. rewrite Hrest in Hx' by done.
        apply Ho in Hx'. congruence.
      * unfold array_block. cbn. rewrite B1, Hd, lookup_delete_ne, Hs2 by done. rewrite B2, B3, Hal.
        eapply ledger_swap; [done| |by rewrite B7, Ht].
        rewrite Hg. by rewrite (array_block_eq s b x).
    + split; [|done]. cbn [d_trace]. by rewrite acts_snoc, app_nil_r.
  - cbn [release_bytes]. apply wp_ret. split; [split; [done|]|done]. split.
    + intros b Hb. rewrite B1, Hd. f_equal. destruct (decide (b = d_next s)); [done|].
      rewrite Hrest in Hb by done. apply Ho in Hb. congruence.
    + rewrite B7, Ht, ledger_app, Hg, Hblk, (array_block_none s Hdb). unfold ledger_from. cbn.
      by destruct (Z.eqb_spec p 0).
Qed.

(** What a failed insertion leaves of the header. *)
Definition unchanged s s' : Prop :=
  data (d_self s') = data (d_self s) /\ (e_size ops <> 0 -> cap (d_self s') = cap (d_self s)) /\
  allocator (d_self s') = allocator (d_self s).

Lemma rollback_spec s vs held u s1 s2 :
  live ops s vs -> owns ops s held -> regrown ops s vs u s1 -> books s1 s2 -> len (d_self s2) = zlen vs ->
  (grew u = false -> live ops s2 vs) ->
  wp (dyn_regrow_rollback ops u)
    (fun _ s' => is_array ops s' vs held /\ acts (d_trace s') = acts (d_trace s2) /\ unchanged s s')
    (fun _ _ => False) s2.
Proof.
  intros Hl Ho (Hod & Hoc & Hlen & Hal & Hl1 & Hcase) Hbk Hlen2 Hl2. unfold dyn_regrow_rollback.
  destruct Hcase as [(Hgr & Hd & Hst & Ht & Hc)|(Hgr & Hz & Hd & p & rest & Hst & Hp & Ht)]; rewrite Hgr; cbn [negb].
  { apply wp_ret. split; [|split; [done|]].
    - split; [by apply Hl2|]. by apply (owns_kept s s1 s2 vs vs held).
    - destruct Hbk. unfold unchanged. split_and!; [congruence| |congruence]. intros Hz. rewrite bk_cap0. by apply Hc. }
  destruct Ho as [Ho Hg]. destruct Hbk as [B1 B2 B3 B4 B5 B6 B7].
  assert (d_store s1 !! d_next s = Some (Block p ((Some <$> vs) ++ rest))) as Hs1 by (by rewrite Hst, lookup_insert_eq).
  destruct (B6 (d_next s) _ Hd Hs1) as [cs2 Hs2]. cbn [addr] in Hs2.
  destruct (store_block s1 vs _ _ Hl1 Hd Hs1) as (_ & Hc1 & Hn1 & Hcb).
  assert (forall b, b <> d_next s -> d_store s2 !! b = d_store s !! b) as Hrest.
  { intros b Hb. rewrite B5, Hst by congruence. by apply lookup_insert_ne. }
  assert (d_store s !! d_next s = None) as Hfree.
  { destruct (d_store s !! d_next s) eqn:Hx; [|done]. apply (live_ids ops s vs Hl) in Hx. lia. }
  assert (forall b, delete (d_next s) (d_store s2) !! b = d_store s !! b) as Hback.
  { intros b. destruct (decide (b = d_next s)) as [->|Hb]; [by rewrite lookup_delete_eq|].
    rewrite lookup_delete_ne by done. by apply Hrest. }
  apply wp_bind, wp_gets, wp_bind. rewrite B1, Hd, B2.
  eapply (wp_release _ _ _ _ _ _ Hs2 Hcb); [nia|]. intros e. apply wp_modify.
  cbn [d_self d_store d_next d_trace d_env addr].
  assert (RtDynamic (old_data u) (len (d_self s2)) (old_cap u) (allocator (d_self s2)) = d_self s) as ->.
  { rewrite Hod, Hoc, Hlen2, B3, Hal, <- (live_len ops s vs Hl). by destruct (d_self s). }
  split; [split|split; [|done]].
  - apply (live_sub ops s); cbn; [done|done|lia| |].
    + intros b _. apply Hback.
    + intros b. by rewrite Hback.
  - split; cbn [d_store d_self d_trace].
    + intros b. rewrite Hback. apply Ho.
    + match goal with |- _ = Some (?x ++ held) => assert (x = array_block ops s) as -> end.
      { unfold array_block. cbn. destruct (data (d_self s)); [by rewrite Hback|done]. }
      rewrite ledger_app, B7, Ht, ledger_app, Hg. unfold ledger_from. cbn [foldl ledger_step].
      destruct (Z.eqb_spec p 0); [done|]. cbn [fmap option_fmap option_map mbind option_bind].
      rewrite B3, Hal. by rewrite release_head.
  - cbn [d_trace]. by rewrite acts_snoc, app_nil_r.
Qed.

(** * After a fill *)

Definition header s n : rt_dynamic :=
  RtDynamic (data (d_self s)) n (cap (d_self s)) (allocator (d_self s)).

Lemma live_upd s1 s2 vs vs' cs rest' :
  live ops s1 vs -> holds ops s1 cs -> zlen cs = cap (d_self s1) ->
  zlen vs' + zlen rest' = zlen cs -> d_self s2 = header s1 (zlen vs') ->
  d_store s2 = d_store (put_cells ((Some <$> vs') ++ rest') s1) -> d_next s2 = d_next s1 -> live ops s2 vs'.
Proof.
  intros [Hl Hc Hlay Hi] Hh Hcap Hlen Hself Hst Hn. split; rewrite ?Hself; cbn; [done|lia| |].
  - destruct Hlay as [Hz Hd|Hz Hd H0|b p rest Hz Hd Hp Hb Hr H0 Hm Ha].
    + apply layout_zero_sized; [done|]. by rewrite Hself.
    + apply layout_empty; [done|by rewrite Hself..].
    + apply (layout_block _ _ _ b p rest'); rewrite ?Hself; cbn; try done; [|lia].
      rewrite Hst. unfold put_cells. rewrite Hd, Hb. cbn. by rewrite lookup_insert_eq.
  - intros b x Hx. rewrite Hn. rewrite Hst in Hx.
    assert (b ∈ dom (d_store s1)) as Hdom by (rewrite <- (put_cells_dom ops ((Some <$> vs') ++ rest')); by apply elem_of_dom_2 in Hx).
    apply elem_of_dom in Hdom as [y Hy]. by eapply Hi.
Qed.

Lemma upd_books s1 s2 cs cs' :
  holds ops s1 cs -> data (d_self s2) = data (d_self s1) -> cap (d_self s2) = cap (d_self s1) ->
  allocator (d_self s2) = allocator (d_self s1) -> d_store s2 = d_store (put_cells cs' s1) ->
  d_next s2 = d_next s1 -> ledger (d_trace s2) = ledger (d_trace s1) -> books s1 s2.
Proof.
  intros Hh Hd Hc Ha Hst Hn Hl. split; try done.
  - intros b Hb. rewrite Hst. by apply put_cells_other.
  - intros b x Hb Hx. rewrite Hst. unfold put_cells. rewrite Hb, Hx. cbn. rewrite lookup_insert_eq. eauto.
Qed.

(** [src] reads [ws]: elements elsewhere, or elements of the array itself. *)
Definition reads s vs (src : source V) ws : Prop :=
  match src with
  | Outside us => exists more, us = ws ++ more
  | Inside b k => 0 <= k /\ k + zlen ws <= zlen vs /\ ws = take (length ws) (drop (Z.to_nat k) vs) /\
      (e_size ops = 0 \/ data (d_self s) = Some b)
  end.

Lemma reads_source s s1 vs u src ws at_ :
  live ops s vs -> regrown ops s vs u s1 -> reads s vs src ws ->
  (match src with Outside _ => True | Inside _ k => grew u = true \/ k + zlen ws <= at_ end) ->
  source_ok ops s1 src ws at_.
Proof.
  intros Hl (_ & _ & _ & _ & Hl1 & Hcase) Hr Hsep. destruct src as [us|b k]; [done|]. cbn in Hr, Hsep |- *.
  destruct Hr as (Hk & Hlen & Hws & [Hz|Hd]); [by split; [|left]|]. split; [done|]. right.
  destruct (live_layout ops s vs Hl) as [?|?|b' p rest Hz Hd' Hp Hb]; [congruence..|].
  rewrite Hd in Hd'. injection Hd' as <-.
  exists (Block p ((Some <$> vs) ++ rest)). split; [|split].
  - destruct Hcase as [(_ & _ & -> & _)|(_ & _ & _ & p1 & r1 & -> & _)]; [done|].
    apply lookup_insert_Some. right. split; [|done]. apply (live_ids ops s vs Hl) in Hb. lia.
  - intros i v Hv. cbn [cells]. rewrite lookup_app_l.
    2: { rewrite length_fmap. apply lookup_lt_Some in Hv. lia. }
    rewrite list_lookup_fmap. rewrite Hws in Hv. apply lookup_take_Some in Hv as [Hv _].
    rewrite lookup_drop in Hv. by rewrite Hv.
  - destruct Hcase as [(Hg & Hd1 & _)|(_ & _ & Hd1 & _)].
    + right. destruct Hsep; [congruence|done].
    + left. rewrite Hd1. intros [= He]. apply (live_ids ops s vs Hl) in Hb. lia.
Qed.

(** * Append *)

(** Why an insertion failed, and that what it did is taken back: a growth was
    denied, and no hook called; or the clone of one of the elements was refused,
    and exactly the clones made before it are destroyed. *)
Definition taken_back (owned : option (list bool)) vs ws s s' : Prop :=
  denied ops s (zlen vs + zlen ws) s' \/
  exists done_ v, refused_at ops (R:=R) owned ws done_ v /\
    acts (d_trace s') = acts (d_trace s) ++ refused_calls ops owned ws done_ v.

(** The outcome of an insertion into [vs] that makes [put ws'] of it. *)
Definition insert_post s vs (put : list V -> list V) held owned ws (r : bool) s' : Prop :=
  allocator (d_self s') <> 0 /\
  if r then exists ws', filled ops (R:=R) owned ws ws' /\ is_array ops s' (put ws') held /\
      acts (d_trace s') = acts (d_trace s) ++ clone_calls ops owned 0 ws ws'
  else is_array ops s' vs held /\ data (d_self s') = data (d_self s) /\
    (e_size ops <> 0 -> cap (d_self s') = cap (d_self s)) /\ taken_back owned vs ws s s'.

Lemma ledger_more (tr l : list (event (K:=Empty_set) (V:=V))) : Forall is_hook l -> ledger (tr ++ l) = ledger tr.
Proof. intros Hl. by rewrite ledger_app, ledger_hooks. Qed.

Lemma acts_regrown s vs u s1 : regrown ops s vs u s1 -> acts (d_trace s1) = acts (d_trace s).
Proof.
  intros (_ & _ & _ & _ & _ & [(_ & _ & _ & -> & _)|(_ & _ & _ & p & r & _ & Hp & ->)]); [done|].
  rewrite acts_snoc. cbn [is_act]. destruct (Z.eqb_spec p 0); [done|]. by rewrite app_nil_r.
Qed.

Lemma append_splice vs (done_ : list V) (rest : list (option V)) :
  (length done_ <= length rest)%nat ->
  splice (zlen vs) (Some <$> done_) ((Some <$> vs) ++ rest) =
    (Some <$> vs) ++ (Some <$> done_) ++ drop (length done_) rest.
Proof.
  intros Hl. rewrite <- (take_drop (length done_) rest) at 1. rewrite <- (length_fmap Some vs).
  by rewrite splice_app by (rewrite length_fmap, length_take; lia).
Qed.

(** Whatever a fill wrote past the elements, the array is still [vs]. *)
Lemma live_past s1 vs rest done_ tr e :
  live ops s1 vs -> holds ops s1 ((Some <$> vs) ++ rest) -> zlen ((Some <$> vs) ++ rest) = cap (d_self s1) ->
  (length done_ <= length rest)%nat ->
  live ops (upd (splice (zlen vs) (Some <$> done_) ((Some <$> vs) ++ rest)) tr e s1) vs.
Proof.
  intros Hl1 Hh Hcs Hd. rewrite append_splice by done.
  eapply (live_upd s1 _ vs vs _ ((Some <$> done_) ++ drop (length done_) rest) Hl1 Hh Hcs); [|cbn|done|done].
  - rewrite !length_app, !length_fmap, length_drop. lia.
  - unfold header. rewrite <- (live_len ops s1 vs Hl1). by destruct (d_self s1).
Qed.

(** A growth that was refused, read as a failed insertion. *)
Lemma refused_insert s s1 vs put held owned ws :
  is_array ops s vs held -> allocator (d_self s) <> 0 -> grow_refused ops s (zlen vs + zlen ws) s1 ->
  insert_post s vs put held owned ws false s1.
Proof.
  intros [Hl [Ho Hg]] Ha (H1 & H2 & H3 & H4 & H5). split; [by rewrite H1|]. split; [split|].
  - by apply (live_eq ops s).
  - split; [by rewrite H1, H2|]. rewrite H4, Hg. unfold array_block. by rewrite H1, H2.
  - rewrite H1. split_and!; [done..|]. by left.
Qed.

(** The end of a failed insertion whose cells are back in place. *)
Lemma rolled_back s s1 s2 vs put held u owned ws done_ v :
  is_array ops s vs held -> allocator (d_self s) <> 0 -> regrown ops s vs u s1 -> books s1 s2 -> live ops s2 vs ->
  refused_at ops (R:=R) owned ws done_ v ->
  acts (d_trace s2) = acts (d_trace s1) ++ refused_calls ops owned ws done_ v ->
  wp (dyn_regrow_rollback ops u ;;; ret false) (insert_post s vs put held owned ws) (fun _ s' => live ops s' vs) s2.
Proof.
  intros [Hl Ho] Ha Hre Hbk Hl2 Hfill Hdr. apply wp_bind.
  eapply wp_conseq; [apply (rollback_spec s vs held u s1 s2 Hl Ho Hre Hbk); [apply (live_len ops s2 vs Hl2)|done]| |done].
  intros [] s3 (Harr & Hdr3 & Hd3 & Hc3 & Ha3). apply wp_ret. split; [by rewrite Ha3|].
  split_and!; [done..|]. right. exists done_, v. split; [done|]. rewrite Hdr3, Hdr. by rewrite (acts_regrown s vs u s1 Hre).
Qed.

(** The end of an insertion that made the array [us]. *)
Lemma committed s s1 s2 vs us held u owned ws ws' :
  is_array ops s vs held -> allocator (d_self s) <> 0 -> regrown ops s vs u s1 -> books s1 s2 -> live ops s2 us ->
  filled ops (R:=R) owned ws ws' -> acts (d_trace s2) = acts (d_trace s1) ++ clone_calls ops owned 0 ws ws' ->
  wp (dyn_regrow_commit ops u ;;; ret true)
    (fun r s' => r = true /\ allocator (d_self s') <> 0 /\ is_array ops s' us held /\
       acts (d_trace s') = acts (d_trace s) ++ clone_calls ops owned 0 ws ws')
    (fun _ _ => False) s2.
Proof.
  intros [Hl Ho] Ha Hre Hbk Hl2 Hfill Hdr. apply wp_bind.
  eapply wp_conseq; [apply (commit_spec s vs held u s1 s2 us Hl Ho Hre Hbk Hl2)| |done].
  intros [] s3 (Harr & Hdr3 & Hself). apply wp_ret. split; [done|]. split; [|split; [done|]].
  - rewrite Hself, (bk_allocator _ _ Hbk). destruct Hre as (_ & _ & _ & -> & _). done.
  - rewrite Hdr3, Hdr. by rewrite (acts_regrown s vs u s1 Hre).
Qed.

Lemma refused_length owned ws done_ v : refused_at ops (R:=R) owned ws done_ v -> (length done_ < length ws)%nat.
Proof. intros (_ & Hv & _). by apply lookup_lt_Some in Hv. Qed.

Lemma append_bound s vs held src owned ws :
  is_array ops s vs held -> allocator (d_self s) <> 0 -> reads s vs src ws -> flags_ok owned ws -> 0 < zlen ws ->
  zlen vs + zlen ws <= INT64_MAX ->
  wp (let! u := dyn_regrow ops (zlen vs + zlen ws) false in
      match u with
      | None => ret false
      | Some u =>
          let! r := dyn_fill ops (zlen vs) src owned (zlen ws) in
          if negb (r : bool) then dyn_regrow_rollback ops u ;;; ret false
          else set_len (zlen vs + zlen ws) ;;; dyn_regrow_commit ops u ;;; ret true
      end)
    (insert_post s vs (fun ws' => vs ++ ws') held owned ws) (fun _ s' => live ops s' vs) s.
Proof.
  intros [Hl Ho] Ha Hsrc Hf Hn Hmax. apply wp_bind.
  eapply wp_conseq; [by apply (regrow_spec ops s vs _ false Hl Ha); [lia|done]| |done].
  intros [u|] s1; cbn [regrow_post]; [|by intros ?; apply wp_ret, refused_insert].
  intros (Hre & Hcap & _). pose proof Hre as (_ & _ & Hlen1 & Hal1 & Hl1 & _).
  destruct (live_holds ops s1 vs Hl1) as (rest & Hh & Hrest); [lia|]. apply wp_bind.
  pose proof (live_cap ops s1 vs Hl1) as Hcap1.
  assert (zlen ((Some <$> vs) ++ rest) = cap (d_self s1)) as Hcs by (rewrite length_app, length_fmap; lia).
  eapply wp_conseq; [apply (dyn_fill_spec ops owned (zlen vs) _ s1 src ws (zlen ws) Hh); [|done|lia|lia|done|]| |].
  - apply (reads_source s s1 vs u src ws); [done..|]. destruct src; [done|]. right. apply Hsrc.
  - apply (checked_part ops s1 vs); [done|lia].
  - intros r s2 (e & done_ & Hres). cbn beta. destruct r; cbn [negb]; cbn beta iota in Hres.
    + destruct Hres as [Hfill ->]. pose proof (proj1 Hfill) as Hdn.
      assert (length done_ <= length rest)%nat as Hdr by lia. apply wp_bind, wp_modify.
      eapply wp_conseq; [apply (committed s s1 _ vs (vs ++ done_) held u owned ws done_ (conj Hl Ho) Ha Hre)| |done]; try done.
      * apply (upd_books _ _ _ (splice (zlen vs) (Some <$> done_) ((Some <$> vs) ++ rest)) Hh); try done.
        cbn [d_trace upd]. apply ledger_more, clone_calls_facts.
      * rewrite append_splice by done. rewrite app_assoc, <- fmap_app.
        eapply (live_upd s1 _ vs _ _ (drop (length done_) rest) Hl1 Hh Hcs); [|cbn|done|done].
        -- rewrite !length_app, length_fmap, length_drop. lia.
        -- unfold header. f_equal. rewrite length_app. lia.
      * cbn [d_trace upd]. rewrite acts_app. f_equal. apply clone_calls_facts.
      * intros r s3 (-> & Ha3 & Harr & Hdr3). split; [done|eauto].
    + destruct Hres as (v & Hfill & ->). pose proof (refused_length _ _ _ _ Hfill) as Hdl.
      eapply (rolled_back s s1 _ vs _ held u owned ws done_ v (conj Hl Ho) Ha Hre); [|apply live_past; [done..|lia]|done|].
      * apply (upd_books _ _ _ (splice (zlen vs) (Some <$> done_) ((Some <$> vs) ++ rest)) Hh); try done.
        cbn [d_trace upd]. apply ledger_more, refused_calls_acts.
      * cbn [d_trace upd]. rewrite acts_app. f_equal. apply refused_calls_acts.
  - intros h s2 (_ & e & tr & done_ & Hdl & ->). apply live_past; [done..|lia].
Qed.

(** * Insert *)

(** The cells after the shift, after the fill, and after the shift back. *)
Lemma insert_cells (pre suf : list V) (rest : list (option V)) n :
  (n <= length rest)%nat -> exists xs rest2, length xs = n /\ (length rest2 + n = length rest)%nat /\
    splice (zlen pre + Z.of_nat n) (Some <$> suf) ((Some <$> pre ++ suf) ++ rest) =
      (Some <$> pre) ++ xs ++ (Some <$> suf) ++ rest2.
Proof.
  intros Hn. rewrite fmap_app, <- app_assoc. set (ys := (Some <$> suf) ++ rest).
  assert (length ys = (length suf + length rest)%nat) as Hys by (unfold ys; by rewrite length_app, length_fmap).
  exists (take n ys), (drop (length suf) (drop n ys)). rewrite length_take, !length_drop.
  split; [lia|]. split; [lia|]. rewrite <- (take_drop n ys) at 1.
  rewrite <- (take_drop (length suf) (drop n ys)) at 1. rewrite app_assoc.
  replace (zlen pre + Z.of_nat n) with (zlen ((Some <$> pre) ++ take n ys)).
  - rewrite splice_app by (rewrite length_fmap, length_take, length_drop; lia). by rewrite <- app_assoc.
  - rewrite length_app, length_fmap, length_take. lia.
Qed.

Lemma fill_cells (pre suf : list V) (done_ : list V) (xs rest2 : list (option V)) :
  (length done_ <= length xs)%nat ->
  splice (zlen pre) (Some <$> done_) ((Some <$> pre) ++ xs ++ (Some <$> suf) ++ rest2) =
    (Some <$> pre) ++ ((Some <$> done_) ++ drop (length done_) xs) ++ (Some <$> suf) ++ rest2.
Proof.
  intros Hl. rewrite <- (take_drop (length done_) xs) at 1. rewrite <- (length_fmap Some pre), <- (app_assoc (take _ _)).
  rewrite splice_app by (rewrite length_fmap, length_take; lia). by rewrite <- app_assoc.
Qed.

Lemma unshift_cells (pre suf : list V) (xs rest2 : list (option V)) :
  let cs := (Some <$> pre) ++ xs ++ (Some <$> suf) ++ rest2 in
  exists rest3, splice (zlen pre) (take (length suf) (drop (length pre + length xs) cs)) cs =
    (Some <$> pre ++ suf) ++ rest3 /\ (length rest3 = length xs + length rest2)%nat.
Proof.
  intros cs. assert (take (length suf) (drop (length pre + length xs) cs) = Some <$> suf) as ->.
  { unfold cs. rewrite app_assoc, drop_app_length' by (by rewrite length_app, length_fmap).
    apply take_app_length'. by rewrite length_fmap. }
  unfold cs.
  set (ys := xs ++ (Some <$> suf) ++ rest2).
  assert (length ys = (length xs + length suf + length rest2)%nat) as Hys
    by (unfold ys; rewrite !length_app, length_fmap; lia).
  exists (drop (length suf) ys). split; [|rewrite length_drop; lia].
  rewrite <- (take_drop (length suf) ys) at 1. rewrite <- (length_fmap Some pre).
  rewrite splice_app by (rewrite length_fmap, length_take; lia). by rewrite fmap_app, <- app_assoc.
Qed.


Lemma wp_shift s cs dst src n (Q : unit -> state -> Prop) P :
  holds ops s cs -> 0 <= dst -> 0 <= src -> 0 <= n -> dst + n <= zlen cs -> src + n <= zlen cs ->
  Q tt (put_cells (splice dst (take (Z.to_nat n) (drop (Z.to_nat src) cs)) cs) s) ->
  wp (if negb (n * e_size ops =? 0) then memmove ops (data (d_self s)) dst src n else ret tt) Q P s.
Proof.
  intros Hh Hd Hs Hn Hdl Hsl HQ. destruct (Z.eqb_spec (n * e_size ops) 0) as [Hz|Hz]; cbn [negb].
  - apply wp_ret. destruct (Z.eq_mul_0 n (e_size ops)) as [[->|H0] _]; [done| |].
    + change (Z.to_nat 0) with 0%nat in HQ. by rewrite take_0, splice_nil, (put_same ops s cs Hh) in HQ.
    + destruct Hh as [[_ Hdt]|[? _]]; [|done]. unfold put_cells in HQ. by rewrite Hdt in HQ.
  - by apply (wp_memmove ops s cs).
Qed.

Lemma upd_put_cells s cs c1 c2 tr e : holds ops s cs -> upd c2 tr e (put_cells c1 s) = upd c2 tr e s.
Proof.
  intros Hh. unfold upd. rewrite (put_put ops s cs c1 c2 Hh), put_cells_self, put_cells_next. done.
Qed.

Lemma source_put s c src ws at_ :
  source_ok ops s src ws at_ ->
  (match src with Outside _ => True | Inside b _ => e_size ops = 0 \/ data (d_self s) <> Some b end) ->
  source_ok ops (put_cells c s) src ws at_.
Proof.
  destruct src as [us|b k]; [done|]. cbn. intros [Hk [?|(x & Hx & Hr & Hsep)]] [?|Hd]; [by split; [|left]..|].
  split; [done|]. right. exists x. rewrite put_cells_other, put_cells_self by done. split_and!; [done..|by left].
Qed.

(** The end of a fill that was refused: the shift and the growth are undone. *)
Lemma insert_undone s s1 pre suf rest rest2 xs held u ws done_ v e :
  is_array ops s (pre ++ suf) held -> allocator (d_self s) <> 0 -> regrown ops s (pre ++ suf) u s1 ->
  holds ops s1 ((Some <$> pre ++ suf) ++ rest) -> zlen ((Some <$> pre ++ suf) ++ rest) = cap (d_self s1) ->
  zlen ((Some <$> pre) ++ xs ++ (Some <$> suf) ++ rest2) = zlen ((Some <$> pre ++ suf) ++ rest) ->
  length xs = length ws -> refused_at ops (R:=R) None ws done_ v ->
  wp ((if negb (zlen suf * e_size ops =? 0) then memmove ops (data (d_self s1)) (zlen pre) (zlen pre + zlen ws) (zlen suf) else ret tt) ;;;
      dyn_regrow_rollback ops u ;;; ret false)
    (insert_post s (pre ++ suf) (fun ws' => pre ++ ws' ++ suf) held None ws)
    (fun _ s' => live ops s' (pre ++ suf) \/ e_clone ops <> None)
    (upd ((Some <$> pre) ++ ((Some <$> done_) ++ drop (length done_) xs) ++ (Some <$> suf) ++ rest2)
       (d_trace s1 ++ refused_calls ops None ws done_ v) e s1).
Proof.
  intros Harr Ha Hre Hh Hcs Hlen Hxs Hfill. pose proof Hre as (_ & _ & _ & _ & Hl1 & _).
  pose proof (refused_length _ _ _ _ Hfill) as Hdl.
  set (cs := (Some <$> pre ++ suf) ++ rest) in *. set (ys := (Some <$> done_) ++ drop (length done_) xs).
  assert (length ys = length xs) as Hys by (unfold ys; rewrite length_app, length_fmap, length_drop; lia).
  set (tr := d_trace s1 ++ _). set (c2 := (Some <$> pre) ++ ys ++ (Some <$> suf) ++ rest2).
  assert (zlen c2 = zlen cs) as Hc2 by (rewrite <- Hlen; unfold c2; rewrite !length_app, !length_fmap; lia).
  assert (zlen pre + zlen ys + zlen suf + zlen rest2 = zlen c2) by (unfold c2; rewrite !length_app, !length_fmap; lia).
  apply wp_bind, (wp_shift (upd c2 tr e s1) c2); [by eapply upd_holds|lia..|].
  rewrite (upd_put ops s1 cs) by done.
  destruct (unshift_cells pre suf ys rest2) as (rest3 & Hun & Hr3). fold c2 in Hun.
  replace (Z.to_nat (zlen suf)) with (length suf) by lia.
  replace (Z.to_nat (zlen pre + zlen ws)) with (length pre + length ys)%nat by lia. rewrite Hun.
  eapply wp_conseq; [eapply (rolled_back s s1 _ (pre ++ suf) _ held u None ws done_ v Harr Ha Hre)| |by intros; left].
  - apply (upd_books _ _ _ ((Some <$> pre ++ suf) ++ rest3) Hh); try done. cbn [d_trace upd]. apply ledger_more, refused_calls_acts.
  - eapply (live_upd s1 _ (pre ++ suf) _ _ rest3 Hl1 Hh Hcs); [|cbn|done|done].
    + rewrite length_app. lia.
    + unfold header. rewrite <- (live_len ops s1 _ Hl1). by destruct (d_self s1).
  - done.
  - cbn [d_trace upd]. unfold tr. rewrite acts_app. f_equal. apply refused_calls_acts.
  - done.
Qed.

(** From the shift on: [s1] is the grown array, [cs] its cells. *)
Lemma insert_grown s s1 pre suf rest held u src ws :
  is_array ops s (pre ++ suf) held -> allocator (d_self s) <> 0 -> regrown ops s (pre ++ suf) u s1 ->
  holds ops s1 ((Some <$> pre ++ suf) ++ rest) -> zlen (pre ++ suf) + zlen rest = cap (d_self s1) ->
  (length ws <= length rest)%nat -> 0 < zlen ws -> source_ok ops s1 src ws (zlen pre) ->
  (match src with Outside _ => True | Inside b _ => e_size ops = 0 \/ data (d_self s1) <> Some b end) ->
  wp ((if negb (zlen suf * e_size ops =? 0) then memmove ops (data (d_self s1)) (zlen pre + zlen ws) (zlen pre) (zlen suf) else ret tt) ;;;
      let! r := dyn_fill ops (zlen pre) src None (zlen ws) in
      if negb (r : bool) then
        (if negb (zlen suf * e_size ops =? 0) then memmove ops (data (d_self s1)) (zlen pre) (zlen pre + zlen ws) (zlen suf) else ret tt) ;;;
        dyn_regrow_rollback ops u ;;; ret false
      else set_len (zlen (pre ++ suf) + zlen ws) ;;; dyn_regrow_commit ops u ;;; ret true)
    (insert_post s (pre ++ suf) (fun ws' => pre ++ ws' ++ suf) held None ws)
    (fun _ s' => live ops s' (pre ++ suf) \/ e_clone ops <> None) s1.
Proof.
  intros Harr Ha Hre Hh Hcap Hn Hn0 Hsrc Hsep. pose proof Hre as (_ & _ & _ & _ & Hl1 & _).
  set (cs := (Some <$> pre ++ suf) ++ rest) in *.
  assert (zlen cs = cap (d_self s1)) as Hcs by (unfold cs; rewrite length_app, length_fmap; lia).
  assert (zlen pre + zlen suf + zlen rest = zlen cs) as Hsum by (rewrite Hcs; rewrite length_app in Hcap; lia).
  destruct (insert_cells pre suf rest (length ws) Hn) as (xs & rest2 & Hxs & Hr2 & Hins). fold cs in Hins.
  apply wp_bind, (wp_shift s1 cs); [done|lia|lia|lia|lia|lia|].
  assert (take (Z.to_nat (zlen suf)) (drop (Z.to_nat (zlen pre)) cs) = Some <$> suf) as ->.
  { unfold cs. rewrite !Nat2Z.id, fmap_app, <- app_assoc, drop_app_length' by (by rewrite length_fmap).
    apply take_app_length'. by rewrite length_fmap. }
  rewrite Hins. set (cs1 := (Some <$> pre) ++ xs ++ (Some <$> suf) ++ rest2).
  assert (zlen cs1 = zlen cs) as Hcs1 by (unfold cs1; rewrite !length_app, !length_fmap; lia).
  set (s1' := put_cells cs1 s1). assert (holds ops s1' cs1) as Hh1 by by eapply holds_put.
  apply wp_bind. eapply wp_conseq; [apply (dyn_fill_spec ops None (zlen pre) cs1 s1' src ws (zlen ws) Hh1)| |].
  { by apply source_put. } { done. } { lia. } { rewrite Hcs1. lia. } { done. }
  { apply (checked_part ops s1 (pre ++ suf) _ Hl1). lia. }
  2: { intros h s2 [Hc _]. by right. }
  intros r s2 (e & done_ & Hres). cbn beta. unfold s1' in Hres.
  rewrite put_cells_trace in Hres. destruct r; cbn [negb]; cbn beta iota in Hres.
  - destruct Hres as [Hfill ->]. rewrite !(upd_put_cells s1 cs) by done. pose proof (proj1 Hfill) as Hdn. unfold cs1. rewrite fill_cells by lia.
    rewrite drop_ge, app_nil_r by lia. apply wp_bind, wp_modify.
    eapply wp_conseq; [apply (committed s s1 _ (pre ++ suf) (pre ++ done_ ++ suf) held u None ws done_ Harr Ha Hre)| |done]; try done.
    + apply (upd_books _ _ _ ((Some <$> pre) ++ (Some <$> done_) ++ (Some <$> suf) ++ rest2) Hh); try done.
      cbn [d_trace upd]. apply ledger_more, clone_calls_facts.
    + rewrite !app_assoc, <- !fmap_app, <- !app_assoc.
      eapply (live_upd s1 _ (pre ++ suf) _ _ rest2 Hl1 Hh Hcs); [|cbn|done|done].
      * rewrite !length_app. lia.
      * unfold header. f_equal. rewrite !length_app. lia.
    + cbn [d_trace upd]. rewrite acts_app. f_equal. apply clone_calls_facts.
    + intros r s3 (-> & Ha3 & Harr3 & Hdr3). split; [done|eauto].
  - destruct Hres as (v & Hfill & ->). rewrite !(upd_put_cells s1 cs) by done.
    pose proof (refused_length _ _ _ _ Hfill) as Hdl. unfold cs1. rewrite fill_cells by lia.
    by apply (insert_undone s s1 pre suf rest rest2 xs held).
Qed.
End insert.
