(* ===== verification/DynamicArray.v ===== *)
(** Every operation of a dynamic array as a triple over the list it holds. *)
From S2P Require Import Prelude Checked Interfaces MapTable MapSpec Dynamic DynamicSpec DynamicFill DynamicOps DynamicInsert.

Section array.
Context {V E : Type} {api : AllocApi E} {tot : AllocTotal E} {fr : FreeReturns E} (ops : elem_ops V E).
Context {R : V -> V -> Prop} {ok : ElemOk ops R}.
Abbreviation state := (dstate V E).
Implicit Types (s : state) (cs : list (option V)) (vs ws : list V).

(** * Insertions *)

(** All of [ws] went in, as [put] says, those that do not move as what the clone
    hook made of them, and nothing was destroyed; or it failed for a cause and
    the elements, the header, the provider's books are as before, the clones made
    on the way, and only they, destroyed. *)
Definition outcome s vs (put : list V -> list V) held owned ws (r : bool) s' : Prop :=
  if r then exists ws', filled ops (R:=R) owned ws ws' /\ is_array ops s' (put ws') held /\
      acts (d_trace s') = acts (d_trace s) ++ clone_calls ops owned 0 ws ws'
  else is_array ops s' vs held /\ data (d_self s') = data (d_self s) /\
    (e_size ops <> 0 -> cap (d_self s') = cap (d_self s)) /\ taken_back ops (R:=R) owned vs ws s s'.

Lemma bound_is_array s vs held : is_array ops s vs held ->
  is_array ops (with_self (bound s) s) vs held /\ allocator (d_self (with_self (bound s) s)) <> 0.
Proof. intros H. split; [by apply bind_array|]. apply (bind_allocator s). Qed.

(** More elements than an [int64_t] counts. *)
Lemma taken_none owned vs ws s s' : acts (d_trace s') = acts (d_trace s) -> checked_add (zlen vs) (zlen ws) = None ->
  taken_back ops (R:=R) owned vs ws s s'.
Proof.
  intros H Hadd. left. left. split; [done|]. left. revert Hadd. unfold checked_add.
  destruct (Z.ltb_spec (zlen vs) 0), (Z.ltb_spec (zlen ws) 0), (Z.ltb_spec (INT64_MAX - zlen ws) (zlen vs)); cbn [orb]; try done; lia.
Qed.

Lemma nothing_in owned s s' vs held (put : list V -> list V) :
  put [] = vs -> is_array ops s' vs held -> acts (d_trace s') = acts (d_trace s) -> outcome s vs put held owned [] true s'.
Proof. intros <- Harr Ha. exists []. split; [by split|]. split; [done|]. by rewrite Ha, app_nil_r. Qed.

Lemma append_owned_spec s vs held src owned ws :
  is_array ops s vs held -> reads ops s vs src ws -> flags_ok owned ws -> zlen ws <= INT64_MAX ->
  wp (dyn_append_owned ops src owned (zlen ws)) (outcome s vs (fun ws' => vs ++ ws') held owned ws)
    (fun _ s' => live ops s' vs) s.
Proof.
  intros Harr Hsrc Hf Hw. unfold dyn_append_owned. destruct (Z.ltb_spec (zlen ws) 0); [lia|].
  destruct (Z.eqb_spec (zlen ws) 0) as [H0|H0].
  { apply wp_ret. destruct ws; [|cbn in H0; lia]. apply nothing_in; [apply app_nil_r|done..]. }
  destruct (bound_is_array s vs held Harr) as [Hb Ha]. set (s0 := with_self (bound s) s) in *.
  apply wp_bind, wp_bind_array. fold s0. apply wp_bind, wp_gets. pose proof Hb as [Hl _].
  rewrite (live_len ops s0 vs Hl). pose proof (live_cap ops s0 vs Hl) as Hcap.
  destruct (checked_add (zlen vs) (zlen ws)) as [n|] eqn:Hadd.
  - apply checked_add_Some in Hadd as (_ & _ & -> & Hmax); [|ilia..].
    eapply wp_conseq; [apply (append_bound ops s0 vs held src owned ws Hb Ha); [done|done|lia|done]| |done].
    intros r s' [_ Hr]. destruct r; exact Hr.
  - apply wp_ret. split_and!; [done..|]. by apply taken_none.
Qed.

Lemma aliases_split s vs src ws :
  live ops s vs -> reads ops s vs src ws -> 0 < zlen ws ->
  match src with
  | Outside _ => dyn_src_aliases ops (d_self s) src = false
  | Inside b k => if decide (e_size ops = 0) then dyn_src_aliases ops (d_self s) src = false
      else dyn_src_aliases ops (d_self s) src = true
  end.
Proof.
  intros Hl Hr Hw. destruct src as [us|b k]; [done|]. cbn in *. destruct Hr as (Hk & Hkl & _ & Hd).
  pose proof (live_cap ops s vs Hl) as Hcap. pose proof (size_u64 (ops:=ops) (R:=R)) as Hu. case_decide as Hz.
  - destruct (live_layout ops s vs Hl) as [_ ->|?|]; done.
  - destruct Hd as [?|Hd]; [done|]. rewrite Hd, (checked_cap ops s vs Hl) by congruence.
    rewrite Z.eqb_refl. destruct (Z.leb_spec 0 k); [|lia]. cbn [andb]. apply Z.ltb_lt. unfold is_u64 in Hu. nia.
Qed.

Lemma insert_spec s pre suf held src ws :
  is_array ops s (pre ++ suf) held -> reads ops s (pre ++ suf) src ws -> zlen ws <= INT64_MAX ->
  wp (dyn_insert ops (zlen pre) src (zlen ws))
    (outcome s (pre ++ suf) (fun ws' => pre ++ ws' ++ suf) held None ws)
    (fun _ s' => live ops s' (pre ++ suf) \/ e_clone ops <> None) s.
Proof.
  intros Harr Hsrc Hw. unfold dyn_insert. apply wp_bind, wp_gets. pose proof Harr as [Hl0 _].
  rewrite (live_len ops s _ Hl0). rewrite length_app.
  destruct (Z.ltb_spec (zlen pre) 0), (Z.ltb_spec (Z.of_nat (length pre + length suf)) (zlen pre)); try lia. cbn [orb].
  destruct (Z.ltb_spec (zlen ws) 0); [lia|]. destruct (Z.eqb_spec (zlen ws) 0) as [Hn0|Hn0].
  { apply wp_ret. destruct ws; [|cbn in Hn0; lia]. by apply nothing_in. }
  destruct (bound_is_array s _ held Harr) as [Hb Ha]. pose proof (aliases_split s _ src ws Hl0 Hsrc ltac:(lia)) as Hal.
  set (s0 := with_self (bound s) s) in *. apply wp_bind, wp_bind_array. fold s0. pose proof Hb as [Hl Hown].
  pose proof (live_cap ops s0 _ Hl) as Hcap. rewrite <- length_app.
  destruct (checked_add (zlen (pre ++ suf)) (zlen ws)) as [n|] eqn:Hadd.
  2: { apply wp_ret. split_and!; [done..|]. by apply taken_none. }
  apply checked_add_Some in Hadd as (_ & _ & -> & Hmax); [|ilia..].
  apply wp_bind. eapply wp_conseq; [apply (regrow_spec ops s0 _ _ _ Hl Ha)| |by intros; left].
  { lia. } { destruct src; [by rewrite Hal|]. case_decide; [by rewrite Hal|done]. }
  intros [u|] s1; cbn [regrow_post].
  2: { intros Hrf. apply wp_ret. by apply (refused_insert ops (R:=R) s0 s1 _ id held None ws Hb Ha) in Hrf as [_ ?]. }
  intros (Hre & Hcap1 & Hforce). pose proof Hre as (_ & _ & _ & _ & Hl1 & Hcase).
  destruct (live_holds ops s1 _ Hl1) as (rest & Hh & Hrest); [lia|]. apply wp_bind, wp_gets.
  replace (zlen (pre ++ suf) - zlen pre) with (zlen suf) by (rewrite length_app; lia).
  rewrite (checked_part ops s1 _ (zlen suf) Hl1) by (rewrite length_app in *; lia). cbn [default from_option id].
  assert (match src with Outside _ => True | Inside b _ => e_size ops = 0 \/ data (d_self s1) <> Some b end) as Hsep.
  { destruct src as [|b k]; [done|]. case_decide as Hz; [by left|]. right. specialize (Hforce Hal).
    destruct Hcase as [(Hg & _)|(_ & _ & Hd1 & _)]; [congruence|]. rewrite Hd1. intros [= He].
    cbn in Hsrc. destruct Hsrc as (_ & _ & _ & [?|Hd]); [done|].
    destruct (live_block ops s _ b Hl0 Hd) as (x & Hx & _). apply (live_ids ops s _ Hl0) in Hx. cbn in He. lia. }
  eapply wp_conseq; [apply (insert_grown ops s0 s1 pre suf rest held u src ws Hb Ha Hre Hh Hrest)| |done].
  - lia.
  - lia.
  - destruct src as [us|b k]; [done|]. case_decide as Hz.
    + cbn in Hsrc |- *. split; [tauto|by left].
    + apply (reads_source ops s0 s1 _ u (Inside b k) ws _ Hl Hre Hsrc). left. by apply Hforce.
  - done.
  - intros r s2 [_ Hr]. by destruct r.
Qed.
End array.
