(* ===== verification/DynamicLife.v ===== *)
(** The operations that keep, shorten or end a dynamic array: reserve and
    shrink, pop and remove, truncate, clear, resize and drop. *)
From S2P Require Import Prelude Checked Interfaces MapTable MapSpec Dynamic DynamicSpec DynamicFill DynamicOps DynamicInsert DynamicArray.

Section life.
Context {V E : Type} {api : AllocApi E} {tot : AllocTotal E} {fr : FreeReturns E} (ops : elem_ops V E).
Context {R : V -> V -> Prop} {ok : ElemOk ops R}.
Abbreviation state := (dstate V E).
Implicit Types (s : state) (cs : list (option V)) (vs ws : list V).
#[local] Arguments ledger : simpl never.

(** * Storage *)

(** [storage_resize] moved the block, or was refused. *)
Lemma storage_resize_spec a b x old n new s :
  d_store s !! b = Some x ->
  wp (storage_resize ops a (Some b) old n new)
    (fun r s' => exists e,
       match r with
       | None => s' = DState (d_self s) (d_store s) (d_next s) (d_trace s ++ [EvAlloc a new (elem_align_of ops) 0]) e
       | Some b' => b' = d_next s /\ exists q, q <> 0 /\
           s' = DState (d_self s) (<[b' := Block q (resized_cells (cells x) n)]> (delete b (d_store s))) (d_next s + 1)
             ((d_trace s ++ [EvFree a (addr x) old (elem_align_of ops)]) ++ [EvAlloc a new (elem_align_of ops) q]) e
       end)
    (fun _ s' => exists e, s' = DState (d_self s) (d_store s) (d_next s) (d_trace s) e) s.
Proof.
  intros Hx. pose proof (resize_total a (addr x) old new (elem_align_of ops) (d_env s)) as Ht.
  unfold storage_resize. apply wp_bind, wp_get, wp_bind, (wp_need _ x); [done|].
  unfold wp, bind, outside, d_note, drop_block, modify, new_block, ret in *.
  destruct (api_resize a (addr x) old new (elem_align_of ops) (d_env s)) as [q e|h e| |]; [|eauto|done..].
  cbn. destruct (Z.eqb_spec q 0) as [->|Hq]; exists e; [done|]. split; [done|]. eauto.
Qed.

Lemma storage_resize_null a old n new s :
  wp (storage_resize ops a None old n new)
    (fun r s' => exists e,
       match r with
       | None => s' = DState (d_self s) (d_store s) (d_next s) (d_trace s ++ [EvAlloc a new (elem_align_of ops) 0]) e
       | Some b' => b' = d_next s /\ exists q, q <> 0 /\
           s' = DState (d_self s) (<[b' := Block q (resized_cells [] n)]> (d_store s)) (d_next s + 1)
             (d_trace s ++ [EvAlloc a new (elem_align_of ops) q]) e
       end)
    (fun _ s' => exists e, s' = DState (d_self s) (d_store s) (d_next s) (d_trace s) e) s.
Proof.
  pose proof (resize_total a 0 old new (elem_align_of ops) (d_env s)) as Ht.
  unfold storage_resize, wp, bind, outside, d_note, modify, new_block, ret, get in *. cbn.
  destruct (api_resize a 0 old new (elem_align_of ops) (d_env s)) as [q e|h e| |]; [|eauto|done..].
  cbn. destruct (Z.eqb_spec q 0) as [->|Hq]; exists e; [done|]. split; [done|]. eauto.
Qed.

Lemma resized_cells_keep vs (rest : list (option V)) n :
  zlen vs <= n -> exists rest', resized_cells ((Some <$> vs) ++ rest) n = (Some <$> vs) ++ rest' /\ zlen vs + zlen rest' = n.
Proof.
  intros Hn. unfold resized_cells. rewrite take_app_ge by (rewrite length_fmap; lia).
  rewrite <- app_assoc. eexists. split; [done|].
  rewrite !length_app, length_take, length_replicate, length_fmap. lia.
Qed.

(** A request that was refused. *)
Definition refused_for (a : handle) s s' : Prop :=
  exists size, acts (d_trace s') = acts (d_trace s) ++ [EvAlloc a size (elem_align_of ops) 0].

(** The array in a block of [n] elements, or as it was. *)
Definition resized s vs held n (r : bool) s' : Prop :=
  is_array ops s' vs held /\ allocator (d_self s') = allocator (d_self s) /\
  if r then cap (d_self s') = n /\ acts (d_trace s') = acts (d_trace s)
  else d_self s' = d_self s /\ refused_for (allocator (d_self s)) s s'.

(** A provider ended the program: nothing had happened yet. *)
Definition stopped s vs (h : halt) s' : Prop :=
  live ops s' vs /\ dropped (d_trace s') = dropped (d_trace s).

Lemma stopped_same s vs h e :
  live ops s vs -> stopped s vs h (DState (d_self s) (d_store s) (d_next s) (d_trace s) e).
Proof. intros H. split; [by apply (live_eq ops s)|done]. Qed.

Lemma resized_refused s vs held n sz e :
  is_array ops s vs held ->
  resized s vs held n false (DState (d_self s) (d_store s) (d_next s)
    (d_trace s ++ [EvAlloc (allocator (d_self s)) sz (elem_align_of ops) 0]) e).
Proof.
  intros [Hl [Ho Hg]]. split; [split; [by apply (live_eq ops s)|split; [done|]]|split; [done|split; [done|]]].
  - cbn [d_trace]. rewrite ledger_app, Hg. done.
  - exists sz. cbn [d_trace]. by rewrite acts_snoc.
Qed.

Lemma resized_done s vs held n q rest' store tr e :
  is_array ops s vs held -> allocator (d_self s) <> 0 -> e_size ops <> 0 -> 0 < n <= INT64_MAX ->
  n * e_size ops <= UINT64_MAX -> q <> 0 -> zlen vs + zlen rest' = n ->
  (forall b, is_Some (store !! b) -> False) ->
  ledger tr = Some ((allocator (d_self s), q, n * e_size ops, elem_align_of ops) :: held) ->
  acts tr = acts (d_trace s) ->
  wp (set_data (Some (d_next s)) n ;;; ret true) (resized s vs held n) (stopped s vs)
    (DState (d_self s) (<[d_next s := Block q ((Some <$> vs) ++ rest')]> store) (d_next s + 1) tr e).
Proof.
  intros [Hl _] Ha Hz Hn Hm Hq Hr Hst Hg Hd. apply wp_bind, wp_modify, wp_ret. pose proof Hl as [Hlen Hcap Hlay Hids].
  split; [split|split; [done|done]].
  - split; cbn; [done|lia| |].
    + eapply (layout_block ops _ vs (d_next s) q rest'); cbn; try done; [by rewrite lookup_insert_eq|lia].
    + intros b y [[<- _]|[_ Hy]]%lookup_insert_Some; [lia|]. destruct (Hst b); eauto.
  - split; cbn.
    + intros b [y [[<- _]|[_ Hy]]%lookup_insert_Some]; [done|]. destruct (Hst b); eauto.
    + unfold array_block. cbn. rewrite lookup_insert_eq. exact Hg.
Qed.

Lemma no_block s vs held : is_array ops s vs held -> data (d_self s) = None -> forall b, is_Some (d_store s !! b) -> False.
Proof. intros [_ [Ho _]] Hd b Hb. apply Ho in Hb. congruence. Qed.

Lemma only_block s vs held b : is_array ops s vs held -> data (d_self s) = Some b ->
  forall b', is_Some (delete b (d_store s) !! b') -> False.
Proof. intros [_ [Ho _]] Hd b' [Hne Hx]%lookup_delete_is_Some. apply Ho in Hx. congruence. Qed.

Lemma resize_block s vs held n old :
  is_array ops s vs held -> allocator (d_self s) <> 0 -> e_size ops <> 0 -> zlen vs <= n -> 0 < n <= INT64_MAX ->
  n * e_size ops <= UINT64_MAX -> old = cap (d_self s) * e_size ops ->
  wp (let! r := storage_resize ops (allocator (d_self s)) (data (d_self s)) old n (n * e_size ops) in
      match r with None => ret false | Some b => set_data (Some b) n ;;; ret true end)
    (resized s vs held n) (stopped s vs) s.
Proof.
  intros Harr Ha Hz Hvn Hn Hm ->. pose proof Harr as [Hl Ho]. apply wp_bind.
  destruct (live_layout ops s vs Hl) as [?|_ Hd Hc|b p rest _ Hd Hp Hb Hr H0 Hm' _]; [done| |].
  - rewrite Hd. eapply wp_conseq; [apply storage_resize_null| |intros h s' [e ->]; by apply stopped_same].
    intros [b|] s'; cbn beta iota; intros [e He]; [|subst s'; apply wp_ret; by apply resized_refused].
    destruct He as (-> & q & Hq & ->). pose proof (live_cap ops s vs Hl).
    assert (vs = []) as -> by (destruct vs; [done|cbn in *; lia]).
    change (resized_cells [] n) with ((Some <$> @nil V) ++ (take (Z.to_nat n) [] ++ replicate (Z.to_nat n - 0) (@None V))).
    eapply resized_done; try done.
    + rewrite length_app, length_take, length_replicate. cbn. lia.
    + by apply (no_block s [] held).
    + rewrite ledger_app, (owns_ledger ops s held Ho), (array_block_none ops s Hd). unfold ledger_from. cbn.
      by destruct (Z.eqb_spec q 0).
    + rewrite acts_snoc. cbn [is_act]. destruct (Z.eqb_spec q 0); [done|]. by rewrite app_nil_r.
  - rewrite Hd. eapply wp_conseq; [by apply (storage_resize_spec _ b (Block p ((Some <$> vs) ++ rest)))| |intros h s' [e ->]; by apply stopped_same].
    intros [b'|] s'; cbn beta iota; intros [e He]; [|subst s'; apply wp_ret; by apply resized_refused].
    destruct He as (-> & q & Hq & ->). cbn [cells addr].
    destruct (resized_cells_keep vs rest n) as (rest' & -> & Hr'); [done|].
    eapply resized_done; try done.
    + by apply (only_block s vs held).
    + rewrite !ledger_app, (owns_ledger ops s held Ho), (array_block_eq ops s b _ Hd Hb). unfold ledger_from.
      cbn [foldl ledger_step fmap option_fmap option_map mbind option_bind addr app]. rewrite release_head.
      by destruct (Z.eqb_spec q 0).
    + rewrite !acts_snoc. cbn [is_act]. destruct (Z.eqb_spec q 0); [done|]. by rewrite !app_nil_r.
Qed.

(** With zero-sized elements the capacity is only a number. *)
Lemma zero_sized_cap s vs held n :
  is_array ops s vs held -> e_size ops = 0 -> zlen vs <= n <= INT64_MAX ->
  is_array ops (with_self (RtDynamic None (len (d_self s)) n (allocator (d_self s))) s) vs held.
Proof.
  intros [[Hl Hc Hlay Hi] [Ho Hg]] Hz Hn. assert (data (d_self s) = None) as Hd by (by destruct Hlay).
  split; [split; cbn; [done|lia|by apply layout_zero_sized|done]|split; cbn].
  - intros b Hb. apply Ho in Hb. congruence.
  - rewrite (array_block_none ops s Hd) in Hg. exact Hg.
Qed.

Lemma reserve_spec s vs held m :
  is_array ops s vs held -> 0 <= m <= INT64_MAX ->
  wp (dyn_reserve ops m)
    (fun r s' => is_array ops s' vs held /\ allocator (d_self s') = allocator (bound s) /\
       if r then m <= cap (d_self s') /\ acts (d_trace s') = acts (d_trace s)
       else data (d_self s') = data (d_self s) /\ cap (d_self s') = cap (d_self s) /\ denied ops s m s')
    (stopped s vs) s.
Proof.
  intros Harr Hm. unfold dyn_reserve. destruct (Z.ltb_spec m 0); [lia|].
  destruct (bound_is_array ops s vs held Harr) as [Hb Ha].
  apply wp_bind, wp_bind_array, wp_bind, wp_gets. pose proof Hb as [Hl _]. pose proof (live_cap ops _ vs Hl) as Hcap.
  cbn [with_self d_self] in Hcap, Ha |- *. set (s0 := with_self (bound s) s) in *.
  destruct (Z.leb_spec m (cap (bound s))); [by apply wp_ret|].
  destruct (growth_target (cap (bound s)) m) as (t & Ht & _); [ilia|lia|]. rewrite Ht.
  destruct (target_bounds (cap (bound s)) m t) as [Htn Ht8]; [ilia|lia|done|].
  pose proof (size_u64 (ops:=ops) (R:=R)) as Hu. rewrite checked_bytes_eq by (done || ilia).
  destruct (Z.leb_spec 0 t); [|lia]. cbn [andb]. destruct (Z.leb_spec (t * e_size ops) UINT64_MAX).
  2: { apply wp_ret. split_and!; [done..|]. left. split; [done|].
    apply (too_many_bytes ops (cap (bound s)) m t); [ilia|lia|done|lia]. }
  rewrite (checked_part ops s0 vs (cap (bound s)) Hl) by (split; [lia|apply Z.le_refl]).
  destruct (Z.eqb_spec (t * e_size ops) 0) as [Hb0|Hb0].
  { assert (e_size ops = 0) as Hz by (unfold is_u64 in Hu; nia).
    apply wp_bind, wp_modify, wp_ret.
    pose proof (zero_sized_cap s0 vs held t Hb Hz ltac:(lia)) as Hr.
    assert (data (d_self s0) = None) as Hd by (by destruct (live_layout ops s0 vs Hl)).
    cbn [with_self s0 d_self d_store d_next d_trace d_env] in *. rewrite Hd. split_and!; [exact Hr|done|cbn; lia|done]. }
  eapply wp_conseq; [eapply (resize_block s0 vs held t _ Hb Ha)| |done]; [intros He; rewrite He in Hb0; lia|lia|lia|done|done|].
  intros r s' (Harr' & Ha' & Hr). split_and!; [done|done|].
  destruct r; destruct Hr as [Hr Hacts]; [split; [lia|done]|]. rewrite Hr. split; [done|]. split; [done|]. right.
  rewrite Hr. exact Hacts.
Qed.

Lemma shrink_spec s vs held m :
  is_array ops s vs held -> 0 <= m <= INT64_MAX ->
  wp (dyn_shrink ops m)
    (fun r s' => is_array ops s' vs held /\
       cap (d_self s') = (if r then Z.min (cap (d_self s)) (Z.max m (zlen vs)) else cap (d_self s)) /\
       if r then acts (d_trace s') = acts (d_trace s) else refused_for (allocator (d_self s)) s s')
    (stopped s vs) s.
Proof.
  intros Harr Hm. pose proof Harr as [Hl Ho]. unfold dyn_shrink. apply wp_bind, wp_gets.
  rewrite (live_len ops s vs Hl). pose proof (live_cap ops s vs Hl) as Hcap.
  set (t := if zlen vs <? m then m else zlen vs).
  assert (t = Z.max m (zlen vs)) as Ht by (unfold t; destruct (Z.ltb_spec (zlen vs) m); lia).
  destruct (Z.ltb_spec m 0); [lia|]. destruct (Z.leb_spec (cap (d_self s)) t); [apply wp_ret; split_and!; (done || lia)|].
  rewrite (checked_part ops s vs (cap (d_self s)) Hl), (checked_part ops s vs t Hl) by lia.
  destruct (live_layout ops s vs Hl) as [Hz Hd|Hz Hd Hc|b p rest Hz Hd Hp Hb Hr Hc Hmax Ha]; [| |].
  - rewrite Hz, Z.mul_0_r, Hd. cbn [Z.eqb]. apply wp_bind, wp_ret, wp_bind, wp_modify, wp_ret.
    split_and!; [|cbn; lia|done]. apply (zero_sized_cap s vs held t Harr Hz). lia.
  - lia.
  - destruct (Z.eqb_spec (t * e_size ops) 0) as [Hb0|Hb0].
    + assert (vs = []) as -> by (destruct vs; [done|cbn in *; nia]). rewrite Hd. apply wp_bind.
      eapply wp_conseq; [by apply (storage_free_spec ops _ b (Block p ((Some <$> []) ++ rest)))| |done]. intros [] s' [e ->].
      apply wp_bind, wp_modify, wp_ret. cbn [addr d_trace d_self cap]. split_and!; [split|lia|].
      * split; cbn; [apply (live_len ops s _ Hl)|lia| |].
        -- apply layout_empty; cbn; [done|done|]. cbn in *. nia.
        -- intros b' x [_ Hx]%lookup_delete_Some. by apply (live_ids ops s _ Hl b' x).
      * split; cbn; [intros b' Hb'; destruct (only_block s [] held b Harr Hd b' Hb')|].
        rewrite ledger_app, (owns_ledger ops s held Ho), (array_block_eq ops s b _ Hd Hb). apply release_head.
      * by rewrite acts_snoc, app_nil_r.
    + eapply wp_conseq; [eapply (resize_block s vs held t _ Harr Ha Hz)| |done]; [lia|lia| |done|]; [pose proof (size_u64 (ops:=ops) (R:=R)) as Hu; unfold is_u64 in Hu; clearbody t; nia|].
      intros r s' (Harr' & Ha' & Hr'). destruct r; destruct Hr' as [Hr' ?]; (split_and!; [done| |done]); [lia|by rewrite Hr'].
Qed.

(** * Shortening *)

Lemma live_shorten s vs us : live ops s (vs ++ us) -> live ops (with_self (header s (zlen vs)) s) vs.
Proof.
  intros [Hl Hc Hlay Hi]. rewrite length_app in *.
  split; cbn; [done|lia| |done].
  destruct Hlay as [Hz Hd|Hz Hd H0|b p rest Hz Hd Hp Hb Hr H0 Hm Ha]; [by apply layout_zero_sized|by apply layout_empty|].
  apply (layout_block ops _ vs b p ((Some <$> us) ++ rest)); cbn; try done.
  - by rewrite app_assoc, <- fmap_app.
  - rewrite !length_app, length_fmap in *. lia.
Qed.

(** Only the length changed, and these values were destroyed, in this order. *)
Definition shortened s vs gone s' : Prop :=
  live ops s' vs /\ d_self s' = header s (zlen vs) /\ d_store s' = d_store s /\ d_next s' = d_next s /\
  d_trace s' = d_trace s ++ (EvDropValue <$> gone).

Lemma shortened_array s vs us gone s' held :
  is_array ops s vs held -> shortened s us gone s' ->
  is_array ops s' us held /\ acts (d_trace s') = acts (d_trace s) ++ (EvDropValue <$> gone).
Proof.
  intros [Hl [Ho Hg]] (Hl' & Hd & Hst & Hn & Ht). split; [split; [done|split]|].
  - rewrite Hd, Hst. apply Ho.
  - rewrite Ht, ledger_values, Hg. unfold array_block. by rewrite Hd, Hst.
  - by rewrite Ht, acts_app, acts_values.
Qed.

Lemma drop_down_spec f keep gone : e_drop ops = Some f -> forall s, live ops s (keep ++ gone) ->
  wp (drop_down ops (length gone) (zlen keep)) (fun _ s' => shortened s keep (reverse gone) s')
    (fun _ s' => exists pre v post, gone = pre ++ v :: post /\ shortened s (keep ++ pre) (reverse (v :: post)) s') s.
Proof.
  intros Hf. induction gone as [|v gone IH] using rev_ind; intros s Hl.
  - cbn [length drop_down]. apply wp_bind, wp_gets. rewrite app_nil_r in Hl. rewrite (live_len ops s keep Hl).
    destruct (Z.ltb_spec (zlen keep) (zlen keep)); [lia|]. apply wp_ret.
    split_and!; [done| |done|done|by rewrite app_nil_r]. unfold header. rewrite <- (live_len ops s keep Hl). by destruct (d_self s).
  - rewrite app_assoc in Hl. rewrite length_app, Nat.add_1_r. cbn [drop_down]. apply wp_bind, wp_gets.
    rewrite (live_len ops s _ Hl), length_app, Nat2Z.inj_add. cbn [length].
    destruct (Z.ltb_spec (zlen keep) (Z.of_nat (length (keep ++ gone)) + Z.of_nat 1)) as [_|H]; [|rewrite length_app in H; lia].
    pose proof (live_cap ops s _ Hl) as Hcap. rewrite length_app in Hcap. cbn [length] in Hcap.
    destruct (live_holds ops s _ Hl) as (rest & Hh & _); [lia|].
    replace (Z.of_nat (length (keep ++ gone)) + Z.of_nat 1 - 1) with (zlen (keep ++ gone)) by lia.
    apply wp_bind, wp_modify, wp_bind. set (s1 := DState _ _ _ _ _).
    assert (live ops s1 (keep ++ gone)) as Hl1 by (by apply (live_shorten s (keep ++ gone) [v])).
    eapply (wp_elem_at ops s1 _ _ v); [exact Hh|lia| |].
    { rewrite Nat2Z.id, lookup_app_l by (rewrite length_fmap, !length_app; cbn; lia).
      rewrite list_lookup_fmap, lookup_app_r by lia. by rewrite Nat.sub_diag. }
    unfold call_drop. rewrite Hf. apply wp_bind, wp_bind, wp_modify.
    set (s2 := fun e : E => DState (header s (zlen (keep ++ gone))) (d_store s) (d_next s) (d_trace s ++ [EvDropValue v]) e).
    assert (forall e, live ops (s2 e) (keep ++ gone)) as Hl2 by (intros e; by apply (live_eq ops s1)).
    pose proof (drop_behaves f v Hf (d_env s)) as Hw. unfold wp at 1. unfold wp in Hw. unfold outside. cbn -[reverse].
    destruct (f v (d_env s)) as [[] e|h e| |]; [| |done..].
    + eapply wp_conseq; [apply (IH (s2 e) (Hl2 e))| |].
      * intros _ s' (Ha & Hb & Hc & Hd & He). split_and!; [done..|]. rewrite He, reverse_snoc. cbn [s2 d_trace].
        by rewrite <- app_assoc.
      * intros h s' (pre & w & post & -> & Ha & Hb & Hc & Hd & He). exists pre, w, (post ++ [v]).
        split; [by rewrite <- app_assoc|].
        rewrite app_comm_cons, reverse_snoc. split_and!; [done..|]. rewrite He. cbn [s2 d_trace].
        by rewrite <- app_assoc.
    + exists gone, v, []. split; [done|]. split_and!; [apply (Hl2 e)|done..].
Qed.

Lemma truncate_spec s keep gone : live ops s (keep ++ gone) ->
  wp (dyn_truncate ops (zlen keep)) (fun _ s' => shortened s keep (if has_drop ops then reverse gone else []) s')
    (fun _ s' => exists pre v post, gone = pre ++ v :: post /\ shortened s (keep ++ pre) (reverse (v :: post)) s') s.
Proof.
  intros Hl. unfold dyn_truncate. apply wp_bind, wp_gets. rewrite (live_len ops s _ Hl), length_app.
  replace (Z.to_nat (Z.of_nat (length keep + length gone) - zlen keep)) with (length gone) by lia.
  unfold has_drop. destruct (e_drop ops) as [f|] eqn:Hf; cbn [negb].
  - by apply drop_down_spec with f.
  - apply wp_modify. split_and!; [by apply (live_shorten s keep gone)|done..|by rewrite app_nil_r].
Qed.

(** * The end *)

Definition dead s held : Prop := d_self s = zero_dynamic /\ d_store s = ∅ /\ ledger (d_trace s) = Some held.

Lemma release_array s held :
  (exists vs, is_array ops s vs held) ->
  wp (release_bytes ops (allocator (d_self s)) (data (d_self s)) (cap (d_self s)) ;;; set_self zero_dynamic)
    (fun _ s' => dead s' held /\ acts (d_trace s') = acts (d_trace s)) (fun _ _ => False) s.
Proof.
  intros [vs Harr].
  pose proof Harr as [Hl Ho]. apply wp_bind. destruct (data (d_self s)) as [b|] eqn:Hd.
  - destruct (live_block ops s vs b Hl Hd) as (x & Hx & _).
    destruct (store_block ops (R:=R) s vs b x Hl Hd Hx) as (Hz & Hc & Hb & Hcb).
    apply (wp_release ops s _ b x); [done|done|nia|]. intros e. apply wp_modify. cbn [d_trace]. split.
    + split_and!; [done| |].
      * cbn. apply map_empty. intros b'. apply eq_None_not_Some. intros Hb'. by destruct (only_block s vs held b Harr Hd b').
      * cbn. rewrite ledger_app, (owns_ledger ops s held Ho), (array_block_eq ops s b x Hd Hx). apply release_head.
    + by rewrite acts_snoc, app_nil_r.
  - cbn [release_bytes]. apply wp_ret, wp_modify. split; [split_and!|done]; [done| |].
    + cbn. apply map_empty. intros b'. apply eq_None_not_Some. intros Hb'. by destruct (no_block s vs held Harr Hd b').
    + cbn. by rewrite (owns_ledger ops s held Ho), (array_block_none ops s Hd).
Qed.

(** Every element is destroyed, last first, and the block returned; a hook that
    ended the program leaves an array of the elements still owed. *)
Lemma drop_spec s vs held : is_array ops s vs held ->
  wp (dyn_drop ops)
    (fun _ s' => dead s' held /\ acts (d_trace s') = acts (d_trace s) ++ drop_calls ops (reverse vs))
    (fun _ s' => exists pre v post, vs = pre ++ v :: post /\ is_array ops s' pre held /\
       acts (d_trace s') = acts (d_trace s) ++ (EvDropValue <$> reverse (v :: post))) s.
Proof.
  intros Harr. pose proof Harr as [Hl Ho]. unfold dyn_drop. apply wp_bind, wp_gets, wp_bind.
  rewrite (live_len ops s vs Hl), Nat2Z.id. unfold drop_calls, has_drop. destruct (e_drop ops) as [f|] eqn:Hf.
  - eapply wp_conseq; [apply (drop_down_spec f [] vs Hf s Hl)| |]; cbn beta.
    + intros _ s1 Hs. apply (shortened_array s vs) with (held := held) in Hs as [Harr1 Hd1]; [|done].
      apply wp_bind, wp_gets. eapply wp_conseq; [apply (release_array s1 held); by eauto| |done].
      cbn beta. intros _ s2 [Hdead Hd2]. split; [done|]. by rewrite Hd2.
    + intros h s1 (pre & v & post & -> & Hs). apply (shortened_array s (pre ++ v :: post)) with (held := held) in Hs as [Harr1 Hd1]; [|done].
      by exists pre, v, post.
  - apply wp_ret, wp_bind, wp_gets. eapply wp_conseq; [apply (release_array s held); by eauto| |done].
    cbn beta. intros _ s2 [Hdead Hd2]. split; [done|]. by rewrite Hd2, app_nil_r.
Qed.
End life.
