(* ===== verification/DynamicMoves.v ===== *)
(** Taking elements out of a dynamic array, giving it a length, and cloning
    it. *)
From S2P Require Import Prelude Checked Interfaces MapTable MapSpec Dynamic DynamicSpec DynamicFill DynamicOps DynamicInsert DynamicArray DynamicLife.

Section moves.
Context {V E : Type} {api : AllocApi E} {tot : AllocTotal E} {fr : FreeReturns E} (ops : elem_ops V E).
Context {R : V -> V -> Prop} {ok : ElemOk ops R}.
Abbreviation state := (dstate V E).
Implicit Types (s : state) (cs : list (option V)) (vs ws : list V).
#[local] Arguments ledger : simpl never.
#[local] Arguments reverse : simpl never.

(** Other elements in the same block. *)
Lemma rewritten s s' vs vs' cs rest' held :
  is_array ops s vs held -> holds ops s cs -> zlen cs = cap (d_self s) -> zlen vs' + zlen rest' = zlen cs ->
  d_self s' = header s (zlen vs') -> d_store s' = d_store (put_cells ((Some <$> vs') ++ rest') s) ->
  d_next s' = d_next s -> ledger (d_trace s') = ledger (d_trace s) -> is_array ops s' vs' held.
Proof.
  intros [Hl Ho] Hh Hc Hlen Hself Hst Hn Hg. split; [by apply (live_upd ops s s' vs vs' cs rest')|].
  apply (owns_kept ops s s s' vs vs); try done.
  by apply (upd_books ops s s' cs ((Some <$> vs') ++ rest') Hh); rewrite ?Hself.
Qed.

(** The cells of an array with an element. *)
Lemma array_cells s vs : live ops s vs -> vs <> [] ->
  exists rest, holds ops s ((Some <$> vs) ++ rest) /\ zlen ((Some <$> vs) ++ rest) = cap (d_self s).
Proof.
  intros Hl Hv. pose proof (live_cap ops s vs Hl) as Hc.
  destruct (live_holds ops s vs Hl) as (rest & Hh & Hr); [destruct vs; [done|cbn in *; lia]|].
  exists rest. split; [done|]. rewrite length_app, length_fmap. lia.
Qed.

Lemma shortened_to s vs us held : is_array ops s (vs ++ us) held ->
  is_array ops (with_self (header s (zlen vs)) s) vs held.
Proof. intros [Hl [Ho Hg]]. split; [by apply (live_shorten ops s vs us)|by split]. Qed.

Lemma pop_spec s vs held : is_array ops s vs held ->
  wp (dyn_pop ops)
    (fun r s' => d_trace s' = d_trace s /\
       match r with
       | None => vs = [] /\ s' = s
       | Some v => exists ws, vs = ws ++ [v] /\ is_array ops s' ws held
       end) (fun _ _ => False) s.
Proof.
  intros Harr. pose proof Harr as [Hl Ho]. unfold dyn_pop. apply wp_bind, wp_gets. rewrite (live_len ops s vs Hl).
  destruct vs as [|v ws _] using rev_ind; [by apply wp_ret|].
  destruct (Z.eqb_spec (zlen (ws ++ [v])) 0) as [H|_]; [rewrite length_app in H; cbn in H; lia|].
  destruct (array_cells s _ Hl) as (rest & Hh & _); [by destruct ws|].
  replace (zlen (ws ++ [v]) - 1) with (zlen ws) by (rewrite length_app; cbn; lia).
  apply wp_bind, wp_modify, wp_bind. set (s1 := DState _ _ _ _ _).
  eapply (wp_elem_at ops s1 _ _ v); [exact Hh|lia| |].
  { rewrite Nat2Z.id, lookup_app_l by (rewrite length_fmap, length_app; cbn; lia).
    rewrite list_lookup_fmap, lookup_app_r by lia. by rewrite Nat.sub_diag. }
  apply wp_ret. split; [done|]. exists ws. split; [done|]. by apply (shortened_to s ws [v]).
Qed.

(** * Removal *)

(** What is left of [pre ++ v :: suf] without [v]. *)
Definition removed (unordered : bool) (pre suf : list V) : list V :=
  if unordered then match last suf with None => pre | Some w => pre ++ w :: removelast suf end else pre ++ suf.

Lemma wp_memcpy_same s cs dst src n (Q : unit -> state -> Prop) P :
  holds ops s cs -> 0 <= dst -> 0 <= src -> 0 <= n -> dst + n <= zlen cs -> src + n <= zlen cs ->
  dst + n <= src \/ src + n <= dst ->
  Q tt (put_cells (splice dst (take (Z.to_nat n) (drop (Z.to_nat src) cs)) cs) s) ->
  wp (memcpy ops (data (d_self s)) dst (data (d_self s)) src n) Q P s.
Proof.
  intros Hh Hd Hs Hn Hdl Hsl Hsep HQ. unfold memcpy.
  assert (negb ((dst + n <=? src) || (src + n <=? dst)) = false) as ->.
  { apply negb_false_iff, orb_true_iff. destruct Hsep; [left|right]; lia. }
  rewrite andb_false_r. by apply (wp_memmove ops s cs).
Qed.

Lemma remove_cells (pre : list V) v suf (rest : list (option V)) :
  let cs := (Some <$> pre ++ v :: suf) ++ rest in
  exists rest', splice (zlen pre) (take (length suf) (drop (S (length pre)) cs)) cs = (Some <$> pre ++ suf) ++ rest' /\
    zlen (pre ++ suf) + zlen rest' = zlen cs.
Proof.
  intros cs. assert (cs = (Some <$> pre) ++ (Some v :: (Some <$> suf) ++ rest)) as Hcs by (unfold cs; by rewrite fmap_app, <- app_assoc).
  assert (take (length suf) (drop (S (length pre)) cs) = Some <$> suf) as ->.
  { rewrite Hcs, <- Nat.add_1_r, <- drop_drop, drop_app_length' by (by rewrite length_fmap). cbn [drop].
    apply take_app_length'. by rewrite length_fmap. }
  set (ys := Some v :: (Some <$> suf) ++ rest) in *.
  assert (length ys = S (length suf + length rest)) as Hys by (unfold ys; cbn; by rewrite length_app, length_fmap).
  assert (length cs = length pre + length ys)%nat as Hlen by (by rewrite Hcs, length_app, length_fmap).
  exists (drop (length suf) ys). rewrite Hcs, <- (take_drop (length suf) ys) at 1. rewrite <- (length_fmap Some pre).
  rewrite splice_app by (rewrite length_fmap, length_take; lia). rewrite fmap_app, <- app_assoc. split; [done|].
  rewrite ?length_app, ?length_drop, ?length_fmap, ?length_app. lia.
Qed.

Lemma remove_last_cells (pre : list V) v mid w (rest : list (option V)) :
  let cs := (Some <$> pre ++ v :: mid ++ [w]) ++ rest in
  splice (zlen pre) (take 1 (drop (length pre + S (length mid)) cs)) cs = (Some <$> pre ++ w :: mid) ++ Some w :: rest.
Proof.
  intros cs. assert (cs = (Some <$> pre) ++ [Some v] ++ (Some <$> mid) ++ Some w :: rest) as ->.
  { unfold cs. rewrite !fmap_app, <- !app_assoc. cbn. by rewrite fmap_app, <- app_assoc. }
  assert (drop (length pre + S (length mid)) ((Some <$> pre) ++ [Some v] ++ (Some <$> mid) ++ Some w :: rest) = Some w :: rest) as ->.
  { rewrite <- drop_drop, drop_app_length' by (by rewrite length_fmap). cbn [app drop].
    by rewrite drop_app_length' by (by rewrite length_fmap). }
  cbn [take]. rewrite <- (length_fmap Some pre), splice_app by done. by rewrite fmap_app, <- app_assoc.
Qed.

Lemma remove_spec s pre v suf held unordered : is_array ops s (pre ++ v :: suf) held ->
  wp (dyn_remove ops (zlen pre) unordered)
    (fun r s' => r = v /\ is_array ops s' (removed unordered pre suf) held /\ d_trace s' = d_trace s)
    (fun _ _ => False) s.
Proof.
  intros Harr. pose proof Harr as [Hl Ho]. unfold dyn_remove. apply wp_bind, wp_gets. rewrite (live_len ops s _ Hl).
  destruct (Z.ltb_spec (zlen pre) 0); [lia|].
  destruct (Z.leb_spec (zlen (pre ++ v :: suf)) (zlen pre)) as [H1|_]; [rewrite length_app in H1; cbn in H1; lia|]. cbn [orb].
  destruct (array_cells s _ Hl) as (rest & Hh & Hc); [by destruct pre|].
  set (cs := (Some <$> pre ++ v :: suf) ++ rest) in *.
  apply wp_bind. eapply (wp_elem_at ops s cs _ v); [done|lia| |].
  { unfold cs. rewrite Nat2Z.id, fmap_app, <- app_assoc, lookup_app_r by (by rewrite length_fmap).
    by rewrite length_fmap, Nat.sub_diag. }
  replace (zlen (pre ++ v :: suf) - 1) with (zlen (pre ++ suf)) by (rewrite !length_app; cbn; lia).
  apply wp_bind, wp_modify, wp_bind. set (s1 := DState _ _ _ _ _).
  assert (holds ops s1 cs) as Hh1 by exact Hh.
  assert (forall us rest', zlen us + zlen rest' = zlen cs -> zlen us = zlen (pre ++ suf) ->
    is_array ops (put_cells ((Some <$> us) ++ rest') s1) us held) as Hdone.
  { intros us rest' Hlen Hus. apply (rewritten s _ (pre ++ v :: suf) us cs rest' held Harr Hh Hc Hlen).
    - rewrite put_cells_self. unfold header. by rewrite Hus.
    - unfold put_cells. cbn. destruct (data (d_self s)); [by destruct (d_store s !! _)|done].
    - by rewrite put_cells_next.
    - by rewrite put_cells_trace. }
  assert (zlen cs = zlen pre + 1 + zlen suf + zlen rest) as Hcs
    by (unfold cs; rewrite length_app, length_fmap, length_app; cbn; lia).
  destruct (Z.eqb_spec (zlen pre) (zlen (pre ++ suf))) as [He|He].
  { assert (suf = []) as -> by (destruct suf; [done|]; rewrite length_app in He; cbn in He; lia).
    apply wp_ret, wp_ret. split_and!; [done| |done]. unfold removed. cbn. rewrite app_nil_r.
    replace (if unordered then pre else pre) with pre by (by destruct unordered).
    unfold s1. rewrite app_nil_r. by apply (shortened_to s pre [v]). }
  destruct unordered.
  - destruct suf as [|w mid _] using rev_ind; [by rewrite app_nil_r in He|].
    rewrite (length_app pre), (length_app mid) in *. cbn [length] in *.
    apply (wp_memcpy_same s1 cs); [done|lia..|].
    replace (Z.to_nat (Z.of_nat (length pre + (length mid + 1)))) with (length pre + S (length mid))%nat by lia.
    change (Z.to_nat 1) with 1%nat. unfold cs. rewrite (remove_last_cells pre v mid w rest). apply wp_ret. split_and!; [done| |by rewrite put_cells_trace].
    unfold removed. rewrite last_snoc, removelast_last. apply Hdone.
    + rewrite Hcs, length_app. cbn. lia.
    + rewrite !length_app. cbn. lia.
  - replace (zlen (pre ++ suf) - zlen pre) with (zlen suf) by (rewrite length_app; lia).
    pose proof (live_cap ops s _ Hl). rewrite (checked_part ops s _ (zlen suf) Hl) by lia.
    apply (wp_shift ops s1 cs); [done|lia..|].
    destruct (remove_cells pre v suf rest) as (rest' & Hr & Hlen). fold cs in Hr, Hlen. rewrite Nat2Z.id.
    replace (Z.to_nat (zlen pre + 1)) with (S (length pre)) by lia. rewrite Hr.
    apply wp_ret. split_and!; [done|by apply Hdone|by rewrite put_cells_trace].
Qed.

(** * Length *)

(** The list an array given [n] elements holds. *)
Definition at_length vs n : list V := take (Z.to_nat n) vs ++ replicate (Z.to_nat n - length vs) (e_zero ops).

(** A hook, or the provider, ended the program: the array is a prefix of what it
    was, and the rest was destroyed, last first. *)
Definition cut_short s vs (h : halt) s' : Prop :=
  exists pre post, vs = pre ++ post /\ live ops s' pre /\ dropped (d_trace s') = dropped (d_trace s) ++ reverse post.

Lemma truncated s keep gone held : is_array ops s (keep ++ gone) held ->
  wp (dyn_truncate ops (zlen keep))
    (fun _ s' => is_array ops s' keep held /\ acts (d_trace s') = acts (d_trace s) ++ drop_calls ops (reverse gone))
    (cut_short s (keep ++ gone)) s.
Proof.
  intros Harr. eapply wp_conseq; [apply (truncate_spec ops s keep gone), Harr| |]; cbn beta.
  - intros _ s' Hs. apply (shortened_array ops s (keep ++ gone)) with (held := held) in Hs as [? Hs]; [|done].
    split; [done|]. rewrite Hs. unfold drop_calls. by destruct (has_drop ops).
  - intros h s' (pre & v & post & -> & Hs). exists (keep ++ pre), (v :: post). split; [by rewrite <- app_assoc|].
    apply (shortened_array ops s (keep ++ pre ++ v :: post)) with (held := held) in Hs as [[Hl _] Hd]; [|done].
    split; [done|]. rewrite (acts_dropped _ _ _ Hd), dropped_values. done.
Qed.

Lemma grown s vs held k rest : is_array ops s vs held -> holds ops s ((Some <$> vs) ++ rest) ->
  zlen vs + zlen rest = cap (d_self s) -> 0 <= k -> zlen vs + k <= cap (d_self s) ->
  wp ((match checked_bytes k (e_size ops) with
       | Some bytes =>
           if negb (bytes =? 0)
           then write_cells ops (data (d_self s)) (zlen vs) (replicate (Z.to_nat k) (Some (e_zero ops)))
           else ret tt
       | None => ret tt
       end) ;;;
      set_len (zlen vs + k) ;;; ret true)
    (fun r s' => r = true /\ is_array ops s' (vs ++ replicate (Z.to_nat k) (e_zero ops)) held /\
       acts (d_trace s') = acts (d_trace s)) (fun _ _ => False) s.
Proof.
  intros Harr Hh Hr Hk Hkc. pose proof Harr as [Hl Ho]. set (us := replicate (Z.to_nat k) (e_zero ops)).
  rewrite (checked_part ops s vs k Hl) by (pose proof (live_cap ops s vs Hl); lia).
  set (cs := (Some <$> vs) ++ rest) in *.
  assert (zlen cs = cap (d_self s)) as Hc by (unfold cs; rewrite length_app, length_fmap; lia).
  assert (length us = Z.to_nat k) as Hus by apply length_replicate.
  assert (forall s1, s1 = put_cells (splice (zlen vs) (Some <$> us) cs) s -> wp (set_len (zlen vs + k) ;;; ret true)
    (fun r s' => r = true /\ is_array ops s' (vs ++ us) held /\ acts (d_trace s') = acts (d_trace s)) (fun _ _ => False) s1) as Hend.
  { intros s1 ->. apply wp_bind, wp_modify, wp_ret. split_and!; [done| |cbn; by rewrite put_cells_trace].
    assert (splice (zlen vs) (Some <$> us) cs = (Some <$> vs ++ us) ++ drop (length us) rest) as Hsp.
    { unfold cs. rewrite append_splice by lia. by rewrite app_assoc, <- fmap_app. }
    apply (rewritten s _ vs (vs ++ us) cs (drop (length us) rest) held Harr Hh Hc); cbn.
    - rewrite !length_app, length_drop. lia.
    - rewrite !put_cells_self. unfold header. f_equal. rewrite length_app. lia.
    - by rewrite Hsp.
    - by rewrite put_cells_next.
    - by rewrite put_cells_trace. }
  assert (replicate (Z.to_nat k) (Some (e_zero ops)) = Some <$> us) as -> by (unfold us; by rewrite fmap_replicate).
  apply wp_bind. destruct (Z.eqb_spec (k * e_size ops) 0) as [H0|H0]; cbn [negb].
  - apply wp_ret, Hend. destruct (Z.eq_mul_0 k (e_size ops)) as [[->|Hz] _]; [done| |].
    + change us with (@nil V). cbn. by rewrite splice_nil, (put_same ops s cs Hh).
    + destruct Hh as [[_ Hd]|[? _]]; [|done]. unfold put_cells. by rewrite Hd.
  - apply (wp_write ops s cs); [done|lia|rewrite length_fmap; lia|]. by apply Hend.
Qed.

Lemma resize_spec s vs held n : is_array ops s vs held -> 0 <= n <= INT64_MAX ->
  wp (dyn_resize ops n)
    (fun r s' => if r
       then is_array ops s' (at_length vs n) held /\
         acts (d_trace s') = acts (d_trace s) ++ drop_calls ops (reverse (drop (Z.to_nat n) vs))
       else is_array ops s' vs held /\ data (d_self s') = data (d_self s) /\ cap (d_self s') = cap (d_self s) /\
         denied ops s n s')
    (cut_short s vs) s.
Proof.
  intros Harr Hn. unfold dyn_resize. apply wp_bind, wp_gets. pose proof Harr as [Hl Ho]. rewrite (live_len ops s vs Hl).
  destruct (Z.ltb_spec n 0); [lia|]. destruct (Z.ltb_spec n (zlen vs)) as [Hlt|Hge].
  { assert (vs = take (Z.to_nat n) vs ++ drop (Z.to_nat n) vs) as Hvs by (by rewrite take_drop).
    assert (n = zlen (take (Z.to_nat n) vs)) as Hn' by (rewrite length_take; lia).
    apply wp_bind. rewrite Hn' at 1. rewrite Hvs in Harr. eapply wp_conseq; [apply truncated, Harr| |]; cbn beta.
    - intros _ s' Hs. apply wp_ret. unfold at_length.
      replace (Z.to_nat n - length vs)%nat with 0%nat by lia. by rewrite app_nil_r.
    - rewrite <- Hvs. done. }
  assert (forall s', is_array ops s' (at_length vs n) held -> acts (d_trace s') = acts (d_trace s) ->
    is_array ops s' (at_length vs n) held /\
    acts (d_trace s') = acts (d_trace s) ++ drop_calls ops (reverse (drop (Z.to_nat n) vs))) as Hok.
  { intros s' ? ->. rewrite drop_ge by lia. unfold drop_calls. destruct (has_drop ops); by rewrite app_nil_r. }
  assert (at_length vs n = vs ++ replicate (Z.to_nat (n - zlen vs)) (e_zero ops)) as Hat.
  { unfold at_length. rewrite take_ge by lia. do 2 f_equal. lia. }
  destruct (Z.eqb_spec n (zlen vs)) as [->|Hne].
  { apply wp_ret, Hok; [|done]. rewrite Hat, Z.sub_diag. by rewrite app_nil_r. }
  destruct (bound_is_array ops s vs held Harr) as [Hb _]. apply wp_bind, wp_bind_array, wp_bind.
  eapply wp_conseq; [apply (reserve_spec ops _ vs held n Hb Hn)| |].
  2: { intros h s' [Hl' Hd']. exists vs, []. split_and!; [by rewrite app_nil_r|done|]. by rewrite Hd', app_nil_r. }
  intros r s1 (Harr1 & _ & Hr). destruct r; cbn [negb]; [|by apply wp_ret]. destruct Hr as [Hr Hd1].
  apply wp_bind, wp_gets. pose proof Harr1 as [Hl1 _]. rewrite (live_len ops s1 vs Hl1).
  destruct (live_holds ops s1 vs Hl1) as (rest & Hh & Hrest); [lia|].
  pose proof (grown s1 vs held (n - zlen vs) rest Harr1 Hh Hrest ltac:(lia) ltac:(lia)) as Hg.
  replace (zlen vs + (n - zlen vs)) with n in Hg by lia. eapply wp_conseq; [apply Hg| |done].
  intros r s2 (-> & Harr2 & Hd2). apply Hok; [by rewrite Hat|]. by rewrite Hd2, Hd1.
Qed.
End moves.
