(* ===== verification/DynamicClone.v ===== *)
(** [dyn_clone]: the clone holds a clone of every element and a block of its
    own, or nothing is left of it. *)
From S2P Require Import Prelude Checked Interfaces MapTable MapSpec Dynamic DynamicSpec DynamicFill DynamicOps DynamicInsert DynamicArray DynamicLife DynamicMoves.

Section clone.
Context {V E : Type} {api : AllocApi E} {tot : AllocTotal E} {fr : FreeReturns E} (ops : elem_ops V E).
Context {R : V -> V -> Prop} {ok : ElemOk ops R}.
Abbreviation state := (dstate V E).
Abbreviation ev := (event (K:=Empty_set) (V:=V)).
Implicit Types (s : state) (cs : list (option V)) (vs ws : list V).
#[local] Arguments ledger : simpl never.
#[local] Arguments reverse : simpl never.

(** Nothing held: what a clone starts from and what a failed one leaves. *)
Definition nothing s held : Prop := d_store s = ∅ /\ ledger (d_trace s) = Some held.

Lemma fresh_array s held a : nothing s held ->
  is_array ops (with_self (RtDynamic None 0 0 a) s) [] held.
Proof.
  intros [Hst Hg]. split; split; cbn; [done|ilia| | | |exact Hg].
  - destruct (decide (e_size ops = 0)); [by apply layout_zero_sized|by apply layout_empty].
  - intros b x. by rewrite Hst, lookup_empty.
  - intros b. rewrite Hst, lookup_empty. by intros [? ?].
Qed.

(** The calls of a clone that was refused the clone of [v]: those that made the
    elements before it, and the drops of these, last first. *)
Definition undone_calls vs done_ v : list ev :=
  clone_calls ops None 0 vs done_ ++ [EvCloneValue v None] ++ drop_calls ops (reverse done_).

(** The clone [ws] of [vs], or nothing, for a cause. *)
Definition clone_post s vs held a (r : bool) s' : Prop :=
  allocator (d_self s') = a /\
  if r then exists ws, filled ops (R:=R) None vs ws /\ is_array ops s' ws held /\
    acts (d_trace s') = acts (d_trace s) ++ clone_calls ops None 0 vs ws
  else d_self s' = RtDynamic None 0 0 a /\ nothing s' held /\
    ((acts (d_trace s') = acts (d_trace s) /\ too_big ops 0 (zlen vs)) \/
     (exists size, acts (d_trace s') = acts (d_trace s) ++ [EvAlloc a size (elem_align_of ops) 0]) \/
     exists done_ v, refused_at ops (R:=R) None vs done_ v /\
       acts (d_trace s') = acts (d_trace s) ++ undone_calls vs done_ v).

(** The end of a failed clone: the prefix is destroyed and the block returned. *)
Lemma clone_undo s vs held a s1 done_ v :
  is_array ops s1 done_ held -> refused_at ops (R:=R) None vs done_ v ->
  acts (d_trace s1) = acts (d_trace s) ++ clone_calls ops None 0 vs done_ ++ [EvCloneValue v None] ->
  wp (dyn_drop ops ;;; set_self (RtDynamic None 0 0 a) ;;; ret false) (fun r s' => r = false /\ clone_post s vs held a false s')
    (fun _ s' => exists ws, live ops s' ws) s1.
Proof.
  intros Harr Hf Hd. apply wp_bind. eapply wp_conseq; [apply (drop_spec ops s1 done_ held Harr)| |].
  - intros _ s2 [(H1 & H2 & H3) H4]. apply wp_bind, wp_modify, wp_ret. split; [done|].
    split; [done|]. split; [done|]. split; [done|]. right. right. exists done_, v. split; [done|].
    cbn [d_trace]. unfold undone_calls. by rewrite H4, Hd, <- !app_assoc.
  - intros h s2 (pre & w & post & -> & [Hl2 _] & _). by exists pre.
Qed.

Lemma clone_loop_spec clone s s1 vs cs held a : e_clone ops = Some clone ->
  is_array ops s1 [] held -> holds ops s1 cs -> zlen cs = cap (d_self s1) -> zlen vs <= zlen cs ->
  acts (d_trace s1) = acts (d_trace s) ->
  forall rest pre done_ e, vs = pre ++ rest -> length done_ = length pre ->
  filled ops (R:=R) None (take (length done_) vs) done_ ->
  wp (clone_loop ops clone rest a (zlen done_))
    (fun r s' => if r
       then exists done_ e, length done_ = length vs /\ filled ops (R:=R) None vs done_ /\
         s' = upd (splice 0 (Some <$> done_) cs) (d_trace s1 ++ clone_calls ops None 0 vs done_) e s1
       else clone_post s vs held a false s')
    (fun _ s' => exists ws, live ops s' ws)
    (upd (splice 0 (Some <$> done_) cs) (d_trace s1 ++ clone_calls ops None 0 vs done_) e s1).
Proof.
  intros Hc Harr Hh Hcs Hvs Hd rest. induction rest as [|v rest IH]; intros pre done_ e Hpre Hlen Hf.
  { apply wp_ret. rewrite app_nil_r in Hpre. subst pre. exists done_, e.
    rewrite Hlen, firstn_all in Hf. done. }
  assert (vs !! length done_ = Some v) as Hv by (subst vs; by rewrite Hlen, lookup_app_r, Nat.sub_diag).
  assert (zlen done_ < zlen cs) as Hlt by (apply lookup_lt_Some in Hv; lia).
  assert (forall ws, (length ws <= length cs)%nat -> splice 0 (Some <$> ws) cs = (Some <$> ws) ++ drop (length ws) cs) as Hsp.
  { intros ws _. unfold splice. by rewrite take_0, length_fmap. }
  assert (forall tr e1, ledger tr = ledger (d_trace s1) ->
    is_array ops (DState (header s1 (zlen done_)) (d_store (put_cells (splice 0 (Some <$> done_) cs) s1)) (d_next s1) tr e1) done_ held) as Hpart.
  { intros tr e1 Htr. apply (rewritten ops s1 _ [] done_ cs (drop (length done_) cs) held Harr Hh Hcs); cbn; try done.
    - rewrite length_drop. lia.
    - by rewrite Hsp by lia. }
  assert (moves ops None (length done_) = false) as Hmv by (unfold moves; by rewrite Hc).
  destruct (clone_calls_facts ops None vs done_ 0) as (Hq1 & Hq2 & _ & _).
  cbn [clone_loop]. apply wp_bind. unfold call_clone. apply wp_bind. pose proof (clone_relates clone v a e Hc) as Hw.
  unfold wp at 1. unfold wp in Hw. unfold outside. set (si := upd _ _ e s1).
  change (d_env si) with e. destruct (clone v a e) as [r e1|h e1| |]; [| |done..].
  2: { exists []. apply (live_past ops s1 [] cs done_ (d_trace si) e1); [apply Harr|done|done|lia]. }
  apply wp_bind, wp_modify, wp_ret. destruct r as [w|].
  - apply wp_bind, wp_gets, wp_bind.
    set (tr := (d_trace s1 ++ clone_calls ops None 0 vs done_) ++ [EvCloneValue v (Some w)]).
    match goal with |- wp _ _ _ ?sj => change sj with (upd (splice 0 (Some <$> done_) cs) tr e1 s1) end.
    eapply (wp_write ops (upd _ _ e1 s1) (splice 0 (Some <$> done_) cs));
      [by eapply (upd_holds ops)|lia|rewrite splice_length; rewrite ?length_fmap; cbn; lia|].
    rewrite (upd_put ops s1 cs) by done.
    replace (zlen done_) with (0 + zlen (Some <$> done_)) at 2 by (rewrite length_fmap; lia).
    rewrite splice_snoc by (rewrite ?length_fmap; lia).
    specialize (IH (pre ++ [v]) (done_ ++ [w]) e1). rewrite fmap_app, (clone_calls_snoc ops None vs w v), app_assoc in IH by done.
    rewrite Nat.add_0_l, Hmv in IH. replace (zlen done_ + 1) with (zlen (done_ ++ [w])) by (rewrite length_app; cbn; lia).
    apply IH; [by rewrite <- app_assoc|rewrite !length_app; cbn; lia|].
    apply (filled_snoc ops None vs done_ v w Hf Hv). rewrite Hmv. by apply Hw.
  - apply wp_bind, wp_modify. set (tr := d_trace si ++ [EvCloneValue v None]).
    eapply wp_conseq; [eapply (clone_undo s vs held a _ done_ v); [apply (Hpart tr e1)|done|]| |done].
    + unfold tr. cbn [si upd d_trace]. rewrite <- app_assoc. apply ledger_more, Forall_app. split; [done|by repeat constructor].
    + cbn [d_trace]. unfold tr. cbn [si upd d_trace]. by rewrite acts_snoc, acts_app, Hq2, Hd, <- app_assoc.
    + by intros r s2 [-> ?].
Qed.

Lemma clone_spec s vs held a :
  nothing s held -> a <> 0 -> zlen vs <= INT64_MAX ->
  wp (dyn_clone ops vs a) (clone_post s vs held a) (fun _ s' => exists ws, live ops s' ws) s.
Proof.
  intros Hno Ha Hvs. unfold dyn_clone. apply wp_bind, wp_modify.
  pose proof (fresh_array s held a Hno) as H0. set (s0 := DState _ _ _ _ _).
  destruct (Z.eqb_spec (zlen vs) 0) as [Hz|Hz].
  { apply wp_ret. destruct vs; [|cbn in Hz; lia]. split; [done|]. exists []. split_and!; [done..|]. by rewrite app_nil_r. }
  apply wp_bind. eapply wp_conseq; [apply (reserve_spec ops s0 [] held (zlen vs) H0); lia| |intros h s' [? _]; by exists []].
  intros r s1 (Harr1 & Ha1 & Hr). cbn [s0 bound d_self d_env allocator] in Ha1.
  destruct (Z.eqb_spec a 0) as [|_]; [done|]. destruct r; cbn [negb].
  2: { apply wp_bind, wp_modify, wp_ret. destruct Harr1 as [Hl1 Ho1]. destruct Hr as (Hdt & _ & Hden). cbn in Hdt.
    split_and!; [done..| |].
    - split; cbn [d_store d_trace].
      + apply map_empty. intros b. apply eq_None_not_Some. intros Hb. apply (owns_store ops s1 held Ho1) in Hb. congruence.
      + by rewrite (owns_ledger ops s1 held Ho1), (array_block_none ops s1 Hdt).
    - unfold denied in Hden. rewrite Ha1 in Hden. destruct Hden as [?|?]; [by left|right; by left]. }
  destruct Hr as [Hr Hd1]. pose proof Harr1 as [Hl1 Ho1].
  destruct (live_holds ops s1 [] Hl1) as (cs & Hh & Hcs); [lia|]. cbn in Hh, Hcs. rewrite Z.add_0_l in Hcs.
  destruct (e_clone ops) as [clone|] eqn:Hcl.
  - apply wp_bind. pose proof (clone_loop_spec clone s s1 vs cs held a Hcl Harr1 Hh Hcs ltac:(lia) Hd1 vs [] [] (d_env s1) eq_refl eq_refl) as Hloop.
    assert (clone_calls ops None 0 vs [] = []) as Hnil by (by destruct vs).
    cbn [fmap list_fmap length] in Hloop. rewrite Hnil, app_nil_r, splice_nil, (upd_same ops s1 cs Hh) in Hloop.
    eapply wp_conseq; [apply Hloop; by split| |done]. intros r s2. destruct r; cbn [negb].
    + intros (done_ & e & Hlen & Hf & ->). destruct (clone_calls_facts ops None vs done_ 0) as (Hq1 & Hq2 & _).
      apply wp_bind, wp_modify, wp_ret. split; [done|]. exists done_. split; [done|].
      split; [|cbn [d_trace upd]; rewrite acts_app, Hq2, Hd1; done].
      apply (rewritten ops s1 _ [] done_ cs (drop (length done_) cs) held Harr1 Hh Hcs); cbn; try done.
      * rewrite length_drop. lia.
      * unfold header. by rewrite Hlen.
      * unfold splice. by rewrite take_0, length_fmap.
      * by apply ledger_more.
    + intros Hp. by apply wp_ret.
  - rewrite (checked_part ops s1 [] (zlen vs) Hl1) by lia. apply wp_bind, wp_gets, wp_bind.
    apply (wp_write ops s1 cs); [done|lia|rewrite length_fmap; lia|]. apply wp_bind, wp_modify, wp_ret.
    split; [cbn; by rewrite put_cells_self|]. exists vs. split_and!.
    + split; [done|]. intros i v w Hv Hw. rewrite (moves_None ops None i Hcl). congruence.
    + apply (rewritten ops s1 _ [] vs cs (drop (length vs) cs) held Harr1 Hh Hcs); cbn.
      * rewrite length_drop. lia.
      * by rewrite !put_cells_self.
      * unfold splice. by rewrite take_0, length_fmap.
      * by rewrite put_cells_next.
      * by rewrite put_cells_trace.
    + cbn [d_trace]. by rewrite put_cells_trace, Hd1, (clone_calls_None ops None vs vs 0 Hcl), app_nil_r.
Qed.
End clone.
