(* ===== verification/DynamicRunes.v ===== *)
(** [string_to_runes] ([runtime/container.c]): a text as a dynamic array of its
    runes. *)
From S2P Require Import Prelude Checked Interfaces MapTable MapSpec Utf8 Utf8Codec Dynamic DynamicSpec DynamicFill DynamicOps DynamicInsert DynamicArray DynamicLife DynamicMoves DynamicClone.

Section runes.
Context {E : Type} {api : AllocApi E}.
Abbreviation state := (dstate Z E).

(** The table of a trivial 4-byte element, which the C code reads as
    [int32_t]. *)
Definition rune_ops : elem_ops Z E := ElemOps 4 4 None None 0.

Fixpoint runes_loop (fuel : nat) (text : option bytes) (n offset written count : Z) : M state Z :=
  if (offset <? n) && (written <? count) then
    match fuel with
    | O => no_fuel
    | S fuel =>
        let! (used, value) := need (rune_at text n offset) in
        if used <=? 0 then ret written
        else
          let! d := gets d_self in
          write_cells rune_ops (data d) written [Some value] ;;;
          runes_loop fuel text n (offset + used) (written + 1) count
    end
  else ret written.

Definition string_to_runes (text : option bytes) (n : Z) (a : handle) : M state bool :=
  set_self (RtDynamic None 0 0 a) ;;;
  let! count := need (rune_count text n) in
  if count =? 0 then ret true
  else
    let! ok := dyn_reserve rune_ops count in
    if negb (ok : bool) then dyn_drop rune_ops ;;; ret false
    else
      let! written := runes_loop (Z.to_nat n) text n 0 0 count in
      set_len written ;;; ret true.
End runes.

#[export] Instance rune_ops_ok {E} : ElemOk (rune_ops (E:=E)) eq.
Proof. split; [done|by unfold is_u64; cbn; ilia|done|done]. Qed.

Section spec.
Context {E : Type} {api : AllocApi E} {tot : AllocTotal E} {fr : FreeReturns E}.
Abbreviation state := (dstate Z E).
Implicit Types (s : state) (cs : list (option Z)).
#[local] Arguments ledger : simpl never.

Lemma runes_loop_spec bs n s1 cs : Forall is_byte bs -> n <= zlen bs -> n + 4 <= INT64_MAX ->
  holds rune_ops s1 cs ->
  forall fuel rs offset done_, 0 <= offset -> n - offset <= Z.of_nat fuel -> scalars rs ->
  tail_at bs n offset = encode_all rs -> zlen done_ + zlen rs <= zlen cs ->
  wp (runes_loop fuel (Some bs) n offset (zlen done_) (zlen done_ + zlen rs))
    (fun r s' => r = zlen (done_ ++ rs) /\ s' = upd (splice 0 (Some <$> done_ ++ rs) cs) (d_trace s1) (d_env s1) s1)
    (fun _ _ => False)
    (upd (splice 0 (Some <$> done_) cs) (d_trace s1) (d_env s1) s1).
Proof.
  intros Hb Hn Hmax Hh fuel. induction fuel as [|fuel IH]; intros rs offset done_ Hoff Hf Hrs Ht Hroom; cbn [runes_loop];
    destruct (Z.ltb_spec offset n) as [Hlt|Hge]; try lia; cbn [andb].
  1,3: rewrite (tail_end bs n offset Hge) in Ht; pose proof (encode_all_length rs Hrs) as Hl; rewrite <- Ht in Hl;
    destruct rs; [|cbn in Hl; lia]; apply wp_ret; by rewrite app_nil_r.
  destruct (tail_step bs n Hb Hn Hmax offset ltac:(lia)) as [(rep & Hr & Hno)|(v & Hv & Hr & Hl & _ & Hstep)];
    [by apply Hno in Ht|].
  rewrite Ht in Hstep. symmetry in Hstep. apply encode_all_inv in Hstep as (rs' & -> & Hrs' & Htail); [|done..].
  destruct (Z.ltb_spec (zlen done_) (zlen done_ + zlen (v :: rs'))) as [_|?]; [|cbn in *; lia].
  apply wp_bind, (wp_need _ _ _ _ _ Hr). cbn beta iota.
  destruct (Z.leb_spec (zlen (encode_rune v)) 0); [lia|]. apply wp_bind, wp_gets, wp_bind. cbn [length] in *.
  eapply (wp_write rune_ops (upd _ _ _ s1) (splice 0 (Some <$> done_) cs));
    [by eapply (upd_holds rune_ops)|lia|rewrite splice_length; rewrite ?length_fmap; cbn; lia|].
  rewrite (upd_put rune_ops s1 cs) by done.
  pose proof (splice_snoc 0 (Some <$> done_) (Some v) cs) as Hs. rewrite length_fmap, Z.add_0_l in Hs. rewrite Hs by lia.
  change [Some v] with (Some <$> [v]). rewrite <- fmap_app.
  specialize (IH rs' (offset + zlen (encode_rune v)) (done_ ++ [v])). rewrite <- app_assoc in IH.
  replace (zlen (done_ ++ [v])) with (zlen done_ + 1) in IH by (rewrite length_app; cbn; lia).
  replace (zlen done_ + 1 + zlen rs') with (zlen done_ + Z.of_nat (S (length rs'))) in IH by lia.
  apply IH; [lia|lia|done|done|lia].
Qed.

Lemma string_to_runes_spec rs s held a :
  nothing s held -> a <> 0 -> scalars rs -> zlen (encode_all rs) + 4 <= INT64_MAX ->
  wp (string_to_runes (Some (encode_all rs)) (zlen (encode_all rs)) a)
    (fun r s' => dropped (d_trace s') = dropped (d_trace s) /\
       if r then is_array rune_ops s' rs held /\ allocator (d_self s') = a else dead s' held)
    (fun _ s' => live rune_ops s' []) s.
Proof.
  intros Hno Ha Hrs Hmax. unfold string_to_runes. apply wp_bind, wp_modify.
  pose proof (fresh_array rune_ops s held a Hno) as H0. set (s0 := DState _ _ _ _ _). set (bs := encode_all rs) in *.
  assert (tail_at bs (zlen bs) 0 = bs) as Htail.
  { unfold tail_at. rewrite Z.sub_0_r, Nat2Z.id, drop_0. apply firstn_all. }
  pose proof (encode_all_bytes rs Hrs) as Hb. pose proof (encode_all_length rs Hrs) as Hlen. fold bs in Hb, Hlen.
  apply wp_bind. eapply wp_need.
  { unfold rune_count. apply (rune_count_loop_spec bs (zlen bs) Hb) with (rs := rs); try done; lia. }
  rewrite Z.add_0_l. destruct (Z.eqb_spec (zlen rs) 0) as [Hz|Hz].
  { apply wp_ret. destruct rs; [|cbn in Hz; lia]. done. }
  apply wp_bind. eapply wp_conseq; [apply (reserve_spec rune_ops s0 [] held (zlen rs) H0); lia| |by intros h s' [? _]].
  intros r s1 (Harr1 & Ha1 & Hr). cbn [s0 bound d_self d_env allocator] in Ha1.
  destruct (Z.eqb_spec a 0) as [|_]; [done|]. destruct r; cbn [negb].
  2: { apply wp_bind. eapply wp_conseq; [apply (drop_spec rune_ops s1 [] held Harr1)| |].
    - intros _ s2 [Hdead Hd2]. apply wp_ret. split; [|done]. change (dropped (d_trace s)) with (dropped (d_trace s0)).
      destruct Hr as (_ & _ & [[Hd1 _]|[size Hd1]]);
        by rewrite (acts_dropped _ _ _ Hd2), <- (dropped_acts (d_trace s1)), Hd1, ?dropped_app, dropped_acts, ?app_nil_r.
    - by intros h s2 ([|] & v & post & ? & _). }
  destruct Hr as [Hr Hd1]. pose proof Harr1 as [Hl1 Ho1]. destruct (live_holds rune_ops s1 [] Hl1) as (cs & Hh & Hcs); [lia|].
  cbn in Hh, Hcs. rewrite Z.add_0_l in Hcs. apply wp_bind.
  pose proof (runes_loop_spec bs (zlen bs) s1 cs Hb ltac:(lia) Hmax Hh (Z.to_nat (zlen bs)) rs 0 [] ltac:(lia) ltac:(lia) Hrs Htail) as Hloop.
  cbn [fmap list_fmap length app] in Hloop. rewrite splice_nil, (upd_same rune_ops s1 cs Hh), Z.add_0_l in Hloop.
  eapply wp_conseq; [apply Hloop; lia| |done]. intros r s2 [-> ->]. apply wp_bind, wp_modify, wp_ret.
  split; [change (dropped (d_trace s1) = dropped (d_trace s0)); by rewrite <- dropped_acts, Hd1, dropped_acts|].
  split; [|done]. apply (rewritten rune_ops s1 _ [] rs cs (drop (length rs) cs) held Harr1 Hh Hcs); cbn; try done.
  - rewrite length_drop. lia.
  - unfold splice. by rewrite take_0, length_fmap.
Qed.
End spec.
