(* ===== verification/DynamicProgram.v ===== *)
(** Programs over one dynamic array against an abstract list: what each
    operation may do to the list, and the values it makes, hands out and
    destroys. *)
From S2P Require Import Prelude Checked Interfaces MapTable MapSpec Dynamic DynamicSpec DynamicFill DynamicOps DynamicInsert DynamicArray DynamicLife DynamicMoves DynamicClone.

(** A request of a client; [InsertSelf index from count] inserts what the array
    has of its own elements [from .. from + count). *)
Inductive dyn_op (V : Type) :=
| Append (vs : list V) (owned : option (list bool))
| Insert (index : Z) (vs : list V)
| InsertSelf (index from count : Z)
| Pop
| Remove (index : Z) (unordered : bool)
| Resize (n : Z)
| Reserve (n : Z)
| Shrink (n : Z)
| Clear.
Arguments Append {V} vs owned.
Arguments Insert {V} index vs.
Arguments InsertSelf {V} index from count.
Arguments Pop {V}.
Arguments Remove {V} index unordered.
Arguments Resize {V} n.
Arguments Reserve {V} n.
Arguments Shrink {V} n.
Arguments Clear {V}.

Section program.
Context {V E : Type} {api : AllocApi E} (ops : elem_ops V E).
Abbreviation state := (dstate V E).

(** A slice of the array as a source. Without storage there are no elements, or
    zero-sized ones, which carry nothing. *)
Definition self_slice (d : rt_dynamic) (k n : Z) : source V :=
  match data d with
  | Some b => Inside b k
  | None => Outside (replicate (Z.to_nat n) (e_zero ops))
  end.

(** What the client has of a request: the answer of the call, the capacity it
    read before and after it, and the values moved out to it. *)
Record reply := Reply { answer : bool; room : Z; room_after : Z; moved_out : list V }.

Definition request (op : dyn_op V) : M state (bool * list V) :=
  let done_ (m : M state bool) := let! ok := m in ret (ok, []) in
  match op with
  | Append vs owned => done_ (dyn_append_owned ops (Outside vs) owned (zlen vs))
  | Insert i vs => done_ (dyn_insert ops i (Outside vs) (zlen vs))
  | InsertSelf i k n =>
      let! d := gets d_self in
      let k := Z.max 0 (Z.min k (len d)) in
      let n := Z.max 0 (Z.min n (len d - k)) in
      done_ (dyn_insert ops i (self_slice d k n) n)
  | Pop => let! r := dyn_pop ops in ret (match r with Some _ => true | None => false end, option_list r)
  | Remove i unordered => let! v := dyn_remove ops i unordered in ret (true, [v])
  | Resize n => done_ (dyn_resize ops n)
  | Reserve n => done_ (dyn_reserve ops n)
  | Shrink n => done_ (dyn_shrink ops n)
  | Clear => dyn_clear ops ;;; ret (true, [])
  end.

Definition run_op (op : dyn_op V) : M state reply :=
  let! d := gets d_self in
  let! (ok, out) := request op in
  let! d' := gets d_self in
  ret (Reply ok (cap d) (cap d') out).

Fixpoint run_ops (prog : list (dyn_op V)) : M state (list reply) :=
  match prog with
  | [] => ret []
  | op :: prog => let! r := run_op op in let! rs := run_ops prog in ret (r :: rs)
  end.

(** From the zero value to the drop. *)
Definition dyn_life (prog : list (dyn_op V)) : M state (list reply) :=
  let! rs := run_ops prog in dyn_drop ops ;;; ret rs.
End program.
Arguments reply : clear implicits.
Arguments Reply {V} answer room room_after moved_out.

Section abstract.
Context {V E : Type} (ops : elem_ops V E) (R : V -> V -> Prop).
Abbreviation ev := (event (K:=Empty_set) (V:=V)).
Implicit Types (vs ws made : list V) (calls : list ev).

(** The elements of [vs] from [k] on, [n] of them where there are. *)
Definition slice_of vs (k n : Z) : list V := take (Z.to_nat n) (drop (Z.to_nat k) vs).

(** What an insertion into [vs] brings in, and the length or capacity a request
    asks for. *)
Definition elements (op : dyn_op V) vs : option (list V * option (list bool)) :=
  match op with
  | Append ws owned => Some (ws, owned)
  | Insert _ ws => Some (ws, None)
  | InsertSelf _ k n => Some (slice_of vs k n, None)
  | _ => None
  end.
Definition asked_for (op : dyn_op V) vs : option Z :=
  match op with
  | Resize n | Reserve n => Some n
  | _ => '(ws, _) ← elements op vs; Some (zlen vs + zlen ws)
  end.

(** [list_op op vs vs' r made calls]: with the reply [r] the list [vs] becomes
    [vs'], the values [made] come into being for it (clones, moved elements, zero
    values), and [calls] are the hook calls and refused requests on the way, in
    order. A request is refused only for a cause: by a provider, by a clone
    hook, or because it is too big for the room there was. *)
Inductive list_op : dyn_op V -> list V -> list V -> reply V -> list V -> list ev -> Prop :=
| list_append vs ws ws' owned c c' : filled ops (R:=R) owned ws ws' ->
    list_op (Append ws owned) vs (vs ++ ws') (Reply true c c' []) ws' (clone_calls ops owned 0 ws ws')
| list_insert pre suf ws ws' c c' : filled ops (R:=R) None ws ws' ->
    list_op (Insert (zlen pre) ws) (pre ++ suf) (pre ++ ws' ++ suf) (Reply true c c' []) ws' (clone_calls ops None 0 ws ws')
| list_insert_self pre suf k n ws' c c' : filled ops (R:=R) None (slice_of (pre ++ suf) k n) ws' ->
    list_op (InsertSelf (zlen pre) k n) (pre ++ suf) (pre ++ ws' ++ suf) (Reply true c c' []) ws'
      (clone_calls ops None 0 (slice_of (pre ++ suf) k n) ws')
| list_pop_none c c' : list_op Pop [] [] (Reply false c c' []) [] []
| list_pop vs v c c' : list_op Pop (vs ++ [v]) vs (Reply true c c' [v]) [] []
| list_remove pre v suf unordered c c' :
    list_op (Remove (zlen pre) unordered) (pre ++ v :: suf) (removed unordered pre suf) (Reply true c c' [v]) [] []
| list_resize vs n c c' : 0 <= n ->
    list_op (Resize n) vs (at_length ops vs n) (Reply true c c' []) (replicate (Z.to_nat n - length vs) (e_zero ops))
      (drop_calls ops (reverse (drop (Z.to_nat n) vs)))
| list_reserve vs n c c' : n <= c' -> list_op (Reserve n) vs vs (Reply true c c' []) [] []
| list_shrink vs n c : list_op (Shrink n) vs vs (Reply true c (Z.min c (Z.max n (zlen vs))) []) [] []
| list_clear vs c c' : list_op Clear vs [] (Reply true c c' []) [] (drop_calls ops (reverse vs))
| list_too_big op vs c c' n : asked_for op vs = Some n -> too_big ops c n -> list_op op vs vs (Reply false c c' []) [] []
| list_no_storage op vs c c' a size : is_Some (asked_for op vs) \/ (exists n, op = Shrink n) ->
    list_op op vs vs (Reply false c c' []) [] [EvAlloc a size (elem_align_of ops) 0]
| list_no_clone op vs c c' ws owned done_ v : elements op vs = Some (ws, owned) -> refused_at ops (R:=R) owned ws done_ v ->
    list_op op vs vs (Reply false c c' []) (clones_of ops owned 0 done_) (refused_calls ops owned ws done_ v).

Inductive list_ops : list (dyn_op V) -> list V -> list V -> list (reply V) -> list V -> list ev -> Prop :=
| list_done vs : list_ops [] vs vs [] [] []
| list_step op prog vs vs1 vs2 r rs made made' calls calls' :
    list_op op vs vs1 r made calls -> list_ops prog vs1 vs2 rs made' calls' ->
    list_ops (op :: prog) vs vs2 (r :: rs) (made ++ made') (calls ++ calls').

(** Nothing is lost and nothing is doubled: what came in is still in, went out,
    or was destroyed, once. *)
Lemma list_op_conserves op vs vs' r made calls : has_drop ops = true ->
  list_op op vs vs' r made calls -> vs ++ made ≡ₚ vs' ++ moved_out r ++ dropped calls.
Proof.
  intros Hd Hop. destruct Hop; cbn [moved_out app].
  all: rewrite ?dropped_clones, ?dropped_drops, ?dropped_refused, ?Hd, ?app_nil_r; try done.
  - rewrite <- !app_assoc. apply Permutation_app_head. apply Permutation_app_comm.
  - rewrite <- !app_assoc. apply Permutation_app_head. apply Permutation_app_comm.
  - unfold removed. destruct unordered.
    + destruct suf as [|w suf _] using rev_ind; [done|].
      rewrite last_snoc, removelast_last, <- app_assoc. apply Permutation_app_head. cbn [app].
      rewrite <- !Permutation_cons_append. apply perm_swap.
    + rewrite <- app_assoc. apply Permutation_app_head. by rewrite <- Permutation_cons_append.
  - unfold at_length. rewrite <- (take_drop (Z.to_nat n) vs) at 1.
    rewrite reverse_Permutation, <- !app_assoc. apply Permutation_app_head. apply Permutation_app_comm.
  - by rewrite reverse_Permutation.
Qed.

Lemma list_ops_conserve prog vs vs' rs made calls : has_drop ops = true ->
  list_ops prog vs vs' rs made calls -> vs ++ made ≡ₚ vs' ++ (rs ≫= moved_out) ++ dropped calls.
Proof.
  intros Hd Hp. induction Hp as [vs|op prog vs vs1 vs2 r rs made made' calls calls' Hop Hp IH].
  { done. }
  apply (list_op_conserves _ _ _ _ _ _ Hd) in Hop. rewrite dropped_app. cbn [mbind list_bind].
  rewrite app_assoc, Hop. trans ((vs1 ++ made') ++ moved_out r ++ dropped calls); [solve_Permutation|].
  rewrite IH. solve_Permutation.
Qed.
End abstract.

Section refinement.
Context {V E : Type} {api : AllocApi E} {tot : AllocTotal E} {fr : FreeReturns E} (ops : elem_ops V E).
Context {R : V -> V -> Prop} {ok : ElemOk ops R}.
Abbreviation state := (dstate V E).
Implicit Types (s : state) (vs ws : list V).

(** Arguments a C caller can pass. *)
Definition op_ok (op : dyn_op V) : Prop :=
  match op with
  | Append ws owned => zlen ws <= INT64_MAX /\ flags_ok owned ws
  | Insert _ ws => zlen ws <= INT64_MAX
  | Resize n | Reserve n | Shrink n => n <= INT64_MAX
  | _ => True
  end.

(** Where the program ended early, a drop still works; only a clone hook that
    panics inside an insertion can break that. *)
Definition droppable s : Prop := (exists vs, live ops s vs) \/ e_clone ops <> None.

Definition op_post op s vs held (r : bool * list V) s' : Prop :=
  exists vs' made calls, list_op ops R op vs vs' (Reply r.1 (cap (d_self s)) (cap (d_self s')) r.2) made calls /\
    is_array ops s' vs' held /\ acts (d_trace s') = acts (d_trace s) ++ calls.

(** An out of range index, or a negative count, before anything happened. *)
Lemma wp_fault {A} msg (Q : A -> state -> Prop) s vs : live ops s vs -> wp (panic msg) Q (fun _ s' => droppable s') s.
Proof. intros Hl. left. by exists vs. Qed.

(** A refusal for its cause. *)
Lemma op_denied op n s s' vs held : asked_for op vs = Some n ->
  is_array ops s' vs held -> denied ops s n s' -> op_post op s vs held (false, []) s'.
Proof.
  intros Hn Harr [[Ha Hbig]|[size Ha]].
  - exists vs, [], []. split_and!; [by eapply list_too_big|done|by rewrite app_nil_r].
  - do 3 eexists. split; [by apply list_no_storage; left|by split].
Qed.

(** An insertion's outcome, as a step of the list. *)
Lemma outcome_post op put owned s vs held ws r s' :
  (forall ws' c c', filled ops (R:=R) owned ws ws' -> list_op ops R op vs (put ws') (Reply true c c' []) ws' (clone_calls ops owned 0 ws ws')) ->
  elements op vs = Some (ws, owned) -> asked_for op vs = Some (zlen vs + zlen ws) ->
  outcome ops (R:=R) s vs put held owned ws r s' -> op_post op s vs held (r, []) s'.
Proof.
  intros Hput Hel Hn Hr. destruct r.
  - destruct Hr as (ws' & Hf & Harr & Hd). exists (put ws'), ws', (clone_calls ops owned 0 ws ws'). split; [by apply Hput|done].
  - destruct Hr as (Harr & _ & _ & [Hden|(done_ & v & Hf & Hd)]); [by eapply op_denied|].
    do 3 eexists. split; [by eapply list_no_clone|done].
Qed.

Lemma insert_op op i src s vs held ws :
  (forall pre suf ws' c c', vs = pre ++ suf -> i = zlen pre -> filled ops (R:=R) None ws ws' ->
     list_op ops R op vs (pre ++ ws' ++ suf) (Reply true c c' []) ws' (clone_calls ops None 0 ws ws')) ->
  elements op vs = Some (ws, None) -> asked_for op vs = Some (zlen vs + zlen ws) ->
  is_array ops s vs held -> reads ops s vs src ws -> zlen ws <= INT64_MAX ->
  wp (let! ok := dyn_insert ops i src (zlen ws) in ret (ok, []))
    (op_post op s vs held) (fun _ s' => droppable s') s.
Proof.
  intros Hput Hel Hn Harr Hsrc Hw. apply wp_bind. pose proof Harr as [Hl _].
  destruct (decide (0 <= i <= zlen vs)) as [Hi|Hi].
  - assert (vs = take (Z.to_nat i) vs ++ drop (Z.to_nat i) vs) as Hvs by (by rewrite take_drop).
    assert (i = zlen (take (Z.to_nat i) vs)) as Hi' by (rewrite length_take; lia).
    set (pre := take _ _) in *. set (suf := drop _ _) in *. clearbody pre suf. subst i vs.
    eapply wp_conseq; [apply (insert_spec ops s pre suf held src ws Harr Hsrc Hw)| |].
    + intros r s' Hr. apply wp_ret.
      eapply (outcome_post op (fun ws' => pre ++ ws' ++ suf) None); [|done..]. intros ws' c c' Hf. by apply Hput.
    + intros h s' [Hl'|Hc]; [left; by eexists|by right].
  - unfold dyn_insert. apply wp_bind, wp_gets. rewrite (live_len ops s vs Hl).
    destruct (Z.ltb_spec i 0), (Z.ltb_spec (zlen vs) i); cbn [orb]; try lia; by apply wp_fault with vs.
Qed.

Lemma insert_self_op s vs held i k n : is_array ops s vs held ->
  wp (request ops (InsertSelf i k n)) (op_post (InsertSelf i k n) s vs held) (fun _ s' => droppable s') s.
Proof.
  intros Harr. pose proof Harr as [Hl _]. cbn [request]. apply wp_bind, wp_gets. rewrite (live_len ops s vs Hl). cbv zeta.
  set (k' := Z.max 0 (Z.min k (zlen vs))). set (n' := Z.max 0 (Z.min n (zlen vs - k'))).
  assert (take (Z.to_nat n') (drop (Z.to_nat k') vs) = slice_of vs k n) as Hslice.
  { unfold slice_of. apply list_eq. intros j. rewrite !lookup_take, !lookup_drop.
    destruct (decide (Z.to_nat k' + j < length vs)%nat) as [Hj|Hj].
    - replace (Z.to_nat k') with (Z.to_nat k) in * by lia. do 2 case_decide; (done || lia).
    - rewrite (lookup_ge_None_2 vs (Z.to_nat k' + j)), (lookup_ge_None_2 vs (Z.to_nat k + j)) by lia. by do 2 case_decide. }
  set (ws := slice_of vs k n) in *.
  assert (zlen ws = n') as Hws by (rewrite <- Hslice, length_take, length_drop; lia).
  pose proof (live_cap ops s vs Hl). rewrite <- Hws at 2. apply (insert_op _ _ _ s vs held ws); [|done|done|done| |lia].
  + intros pre suf ws' c c' -> -> Hf. by apply list_insert_self.
  + unfold self_slice. destruct (data (d_self s)) as [b|] eqn:Hd.
    * cbn. split_and!; [lia|lia| |by right]. rewrite <- Hslice at 1. by replace (length ws) with (Z.to_nat n') by lia.
    * exists []. rewrite app_nil_r. replace (Z.to_nat n') with (length ws) by lia.
      apply list_eq. intros j. destruct (ws !! j) as [v|] eqn:Hv.
      -- apply lookup_replicate. split; [|by apply lookup_lt_Some in Hv].
         destruct (live_layout ops s vs Hl) as [Hz _|_ _ Hc|]; [by apply (zero_sized (R:=R))| |congruence].
         apply lookup_lt_Some in Hv. lia.
      -- apply lookup_replicate_None. by apply lookup_ge_None in Hv.
Qed.

Lemma remove_op s vs held i unordered : is_array ops s vs held ->
  wp (request ops (Remove i unordered)) (op_post (Remove i unordered) s vs held) (fun _ s' => droppable s') s.
Proof.
  intros Harr. pose proof Harr as [Hl _]. cbn [request].
  apply wp_bind. destruct (decide (0 <= i < zlen vs)) as [Hi|Hi].
  + destruct (lookup_lt_is_Some_2 vs (Z.to_nat i) ltac:(lia)) as [v Hv].
    pose proof (take_drop_middle vs (Z.to_nat i) v Hv) as Hvs.
    assert (i = zlen (take (Z.to_nat i) vs)) as Hi' by (rewrite length_take; lia).
    set (pre := take _ _) in *. set (suf := drop _ _) in *. clearbody pre suf. subst i vs.
    eapply wp_conseq; [by apply (remove_spec ops s pre v suf held unordered)| |done].
    intros r s' (-> & Harr' & Ht). apply wp_ret. exists (removed unordered pre suf), [], [].
    rewrite Ht, app_nil_r. by split_and!; [constructor|..].
  + unfold dyn_remove. apply wp_bind, wp_gets. rewrite (live_len ops s vs Hl).
    destruct (Z.ltb_spec i 0), (Z.leb_spec (zlen vs) i); cbn [orb]; try lia; by apply wp_fault with vs.
Qed.

(** Every request is a step of the list. *)
Lemma request_spec op s vs held : is_array ops s vs held -> op_ok op ->
  wp (request ops op) (op_post op s vs held) (fun _ s' => droppable s') s.
Proof.
  intros Harr Hok. pose proof Harr as [Hl _].
  destruct op as [ws owned|i ws|i k n| |i unordered|n|n|n|]; cbn [request op_ok] in *; cbv zeta.
  - destruct Hok as [Hw Hf]. apply wp_bind.
    eapply wp_conseq; [apply (append_owned_spec ops s vs held (Outside ws) owned ws Harr); [by exists []; rewrite app_nil_r|done|done]| |].
    + intros r s' Hr. apply wp_ret. eapply outcome_post; [|done|done|exact Hr]. intros. by apply list_append.
    + intros h s' Hl'. left. by exists vs.
  - apply (insert_op _ _ (Outside ws)); [|done|done|done| |done].
    + intros pre suf ws' c c' -> -> Hf. by apply list_insert.
    + exists []. by rewrite app_nil_r.
  - by apply insert_self_op.
  - apply wp_bind. eapply wp_conseq; [by apply (pop_spec ops s vs held)| |done].
    intros [v|] s' [Ht Hr]; apply wp_ret; cbn [option_list].
    + destruct Hr as (ws & -> & Harr'). exists ws, [], []. rewrite Ht, app_nil_r. by split_and!; [constructor|..].
    + destruct Hr as [-> ->]. exists [], [], []. rewrite app_nil_r. by split_and!; [constructor|..].
  - by apply remove_op.
  - apply wp_bind. destruct (Z.ltb_spec n 0) as [Hn|Hn].
    { unfold dyn_resize. apply wp_bind, wp_gets. destruct (Z.ltb_spec n 0); [|lia]. by apply wp_fault with vs. }
    eapply wp_conseq; [by apply (resize_spec ops s vs held n)| |].
    + intros [|] s' Hr; apply wp_ret.
      * destruct Hr as [Harr' Hd]. do 3 eexists. split; [by apply list_resize|done].
      * destruct Hr as (Harr' & _ & _ & Hden). by eapply op_denied.
    + intros h s' (pre & post & -> & Hl' & _). left. by exists pre.
  - apply wp_bind. destruct (Z.ltb_spec n 0) as [Hn|Hn].
    { unfold dyn_reserve. destruct (Z.ltb_spec n 0); [|lia]. by apply wp_fault with vs. }
    eapply wp_conseq; [by apply (reserve_spec ops s vs held n)| |].
    + intros [|] s' (Harr' & _ & Hr); apply wp_ret.
      * destruct Hr as [Hm Hd]. exists vs, [], []. rewrite app_nil_r. split_and!; [by apply list_reserve|done..].
      * destruct Hr as (_ & _ & Hden). by eapply op_denied.
    + intros h s' [Hl' _]. left. by exists vs.
  - apply wp_bind. destruct (Z.ltb_spec n 0) as [Hn|Hn].
    { unfold dyn_shrink. apply wp_bind, wp_gets. destruct (Z.ltb_spec n 0); [|lia]. by apply wp_fault with vs. }
    eapply wp_conseq; [by apply (shrink_spec ops s vs held n)| |].
    + intros [|] s' (Harr' & Hc & Hr); apply wp_ret.
      * exists vs, [], []. cbn [fst snd]. rewrite Hc, app_nil_r. split_and!; [apply list_shrink|done..].
      * destruct Hr as [size Hd]. do 3 eexists. split; [apply list_no_storage; eauto|by split].
    + intros h s' [Hl' _]. left. by exists vs.
  - apply wp_bind. eapply wp_conseq; [apply (truncated ops s [] vs held Harr)| |].
    + intros _ s' [Harr' Hd]. apply wp_ret. do 3 eexists. split; [apply list_clear|done].
    + intros h s' (pre & post & _ & Hl' & _). left. by exists pre.
Qed.

Lemma run_op_spec op s vs held : is_array ops s vs held -> op_ok op ->
  wp (run_op ops op)
    (fun r s' => exists vs' made calls, list_op ops R op vs vs' r made calls /\
       is_array ops s' vs' held /\ acts (d_trace s') = acts (d_trace s) ++ calls)
    (fun _ s' => droppable s') s.
Proof.
  intros Harr Hok. unfold run_op. apply wp_bind, wp_gets, wp_bind.
  eapply wp_conseq; [by apply request_spec| |done]. intros [ok' out] s' Hpost. apply wp_bind, wp_gets. by apply wp_ret.
Qed.

Lemma run_ops_spec prog s vs held : is_array ops s vs held -> Forall op_ok prog ->
  wp (run_ops ops prog)
    (fun rs s' => exists vs' made calls, list_ops ops R prog vs vs' rs made calls /\
       is_array ops s' vs' held /\ acts (d_trace s') = acts (d_trace s) ++ calls)
    (fun _ s' => droppable s') s.
Proof.
  intros Harr Hok. revert s vs Harr. induction Hok as [|op prog Hop _ IH]; intros s vs Harr.
  { apply wp_ret. exists vs, [], []. split_and!; [constructor|done|by rewrite app_nil_r]. }
  apply wp_bind. eapply wp_conseq; [by apply run_op_spec| |done].
  intros r s1 (vs1 & made & calls & Hstep & Harr1 & Hd1).
  apply wp_bind. eapply wp_conseq; [by apply IH| |done].
  intros rs s2 (vs2 & made' & calls' & Hsteps & Harr2 & Hd2). apply wp_ret.
  exists vs2, (made ++ made'), (calls ++ calls'). split_and!; [by eapply list_step|done|].
  by rewrite Hd2, Hd1, app_assoc.
Qed.
End refinement.
