(* ===== verification/DynamicCost.v ===== *)
(** What the growth of a dynamic array costs its provider: the bytes it takes
    over a program, which doubling keeps linear in the elements that came in, the
    blocks, of which it makes logarithmically many, and for each refusal at most
    one growth that is given back. *)
From S2P Require Import Prelude Runs Checked Interfaces MapTable MapSpec Dynamic DynamicSpec DynamicFill DynamicOps DynamicInsert DynamicArray DynamicMoves DynamicProgram.

(** * The bill of a trace *)

Section bill.
Context {V : Type}.
Abbreviation ev := (event (K:=Empty_set) (V:=V)).

(** The bytes and the number of the blocks a provider gave out; a request it
    refused costs nothing. *)
Definition bytes_of (e : ev) : Z := match e with EvAlloc _ size _ p => if p =? 0 then 0 else size | _ => 0 end.
Definition block_of_event (e : ev) : Z := match e with EvAlloc _ _ _ p => if p =? 0 then 0 else 1 | _ => 0 end.
Definition taken (evs : list ev) : Z := foldr (fun e n => bytes_of e + n) 0 evs.
Definition blocks (evs : list ev) : Z := foldr (fun e n => block_of_event e + n) 0 evs.

Lemma taken_app evs1 evs2 : taken (evs1 ++ evs2) = taken evs1 + taken evs2.
Proof. unfold taken. induction evs1 as [|e evs1 IH]; cbn; [done|]. rewrite IH. lia. Qed.
Lemma blocks_app evs1 evs2 : blocks (evs1 ++ evs2) = blocks evs1 + blocks evs2.
Proof. unfold blocks. induction evs1 as [|e evs1 IH]; cbn; [done|]. rewrite IH. lia. Qed.

Lemma taken_snoc evs e : taken (evs ++ [e]) = taken evs + bytes_of e.
Proof. rewrite taken_app. unfold taken. cbn [foldr]. lia. Qed.
Lemma blocks_snoc evs e : blocks (evs ++ [e]) = blocks evs + block_of_event e.
Proof. rewrite blocks_app. unfold blocks. cbn [foldr]. lia. Qed.
End bill.
#[local] Arguments taken : simpl never.
#[local] Arguments blocks : simpl never.

(** * Steps that cost nothing *)

Section cost.
Context {V E : Type} {api : AllocApi E} (ops : elem_ops V E).
Abbreviation state := (dstate V E).
Implicit Types (s : state) (vs ws : list V).

(** The capacity and the bill are as before; there may be refusals. *)
Definition same s s' : Prop :=
  cap (d_self s') = cap (d_self s) /\ taken (d_trace s') = taken (d_trace s) /\ blocks (d_trace s') = blocks (d_trace s) /\
  refusals (d_trace s) <= refusals (d_trace s').
Abbreviation quiet := (keeps same).

#[export] Instance same_preorder : PreOrder same.
Proof.
  split; [intros s; split_and!; (done || lia)|]. intros s1 s2 s3 (? & ? & ? & ?) (? & ? & ? & ?). unfold same. split_and!; (by etrans || lia).
Qed.

Lemma refusals_snoc (evs : list (event (K:=Empty_set) (V:=V))) e :
  refusals (evs ++ [e]) = refusals evs + if is_refusal e then 1 else 0.
Proof. rewrite refusals_app. unfold refusals at 2. cbn [filter list_filter]. by destruct (is_refusal e). Qed.

Lemma quiet_outside {A} (m : M E A) : quiet (outside m).
Proof. intros s. unfold runs, outside, same. destruct (m (d_env s)); try done; cbn [d_self d_trace]; split_and!; (done || lia). Qed.
Lemma quiet_note e : bytes_of e = 0 -> block_of_event e = 0 -> quiet (d_note e : M state unit).
Proof.
  intros Ht Hb s. unfold runs, d_note, modify, same. cbn [d_self d_trace].
  rewrite taken_snoc, blocks_snoc, refusals_snoc, Ht, Hb, !Z.add_0_r. split_and!; try done. destruct (is_refusal e); lia.
Qed.
End cost.
#[export] Hint Resolve quiet_outside : keeps.

(** [keep], and a note of an event that costs nothing. *)
Ltac quieten := repeat (keep; try (apply quiet_note; done)).

Section growth.
Context {V E : Type} {api : AllocApi E} (ops : elem_ops V E).
Abbreviation state := (dstate V E).
Abbreviation quiet := (keeps (same (V:=V) (E:=E))).
Implicit Types (s : state) (vs ws : list V).

Lemma quiet_block_at b : quiet (block_at b : M state (Z * block V)).
Proof. unfold block_at. quieten. Qed.
Lemma quiet_read_cells b i n : quiet (read_cells ops b i n).
Proof. unfold read_cells. quieten. Qed.
Lemma quiet_write_cells b i (cs : list (option V)) : quiet (write_cells ops b i cs).
Proof. unfold write_cells, set_block. quieten. Qed.
#[local] Hint Resolve quiet_block_at quiet_read_cells quiet_write_cells : keeps.

Lemma quiet_memmove b dst src n : quiet (memmove ops b dst src n).
Proof. unfold memmove. quieten. Qed.
Lemma quiet_memcpy b dst from src n : quiet (memcpy ops b dst from src n).
Proof. unfold memcpy. quieten. Qed.
Lemma quiet_elem_at b i : quiet (elem_at ops b i).
Proof. unfold elem_at. quieten. Qed.
#[local] Hint Resolve quiet_memmove quiet_memcpy quiet_elem_at : keeps.

Lemma quiet_source_at src i : quiet (source_at ops src i).
Proof. unfold source_at. quieten. Qed.
Lemma quiet_call_drop v : quiet (call_drop ops v).
Proof. unfold call_drop. quieten. Qed.
Lemma quiet_call_clone hook v a : quiet (call_clone hook v a : M state (option V)).
Proof. unfold call_clone. quieten. Qed.
Lemma quiet_release a b n : quiet (release_bytes ops a b n).
Proof. unfold release_bytes, storage_free, drop_block. quieten. Qed.
Lemma quiet_is_owned owned i : quiet (is_owned owned i : M state bool).
Proof. unfold is_owned. quieten. Qed.
Lemma quiet_set_len n : quiet (set_len n : M state unit).
Proof. unfold set_len. quieten. Qed.
Lemma quiet_dyn_bind : quiet (dyn_bind : M state unit).
Proof. unfold dyn_bind. quieten. Qed.
#[local] Hint Resolve quiet_source_at quiet_call_drop quiet_call_clone quiet_release quiet_is_owned quiet_set_len quiet_dyn_bind : keeps.

Lemma quiet_undo_fill n at_ owned j : quiet (undo_fill ops n at_ owned j).
Proof. revert j. induction n as [|n IH]; intros j; cbn [undo_fill]; quieten. Qed.
#[local] Hint Resolve quiet_undo_fill : keeps.

Lemma quiet_fill_loop clone n at_ src owned i : quiet (fill_loop ops clone n at_ src owned i).
Proof. revert i. induction n as [|n IH]; intros i; cbn [fill_loop]; quieten. Qed.
#[local] Hint Resolve quiet_fill_loop : keeps.

Lemma quiet_fill at_ src owned count : quiet (dyn_fill ops at_ src owned count).
Proof. unfold dyn_fill. quieten. Qed.
Lemma quiet_commit u : quiet (dyn_regrow_commit ops u).
Proof. unfold dyn_regrow_commit. quieten. Qed.
Lemma quiet_drop_down n k : quiet (drop_down ops n k).
Proof. revert k. induction n as [|n IH]; intros k; cbn [drop_down]; quieten. Qed.
#[local] Hint Resolve quiet_fill quiet_commit quiet_drop_down : keeps.

Lemma quiet_truncate n : quiet (dyn_truncate ops n).
Proof. unfold dyn_truncate. quieten. Qed.
Lemma quiet_pop : quiet (dyn_pop ops).
Proof. unfold dyn_pop. quieten. Qed.
Lemma quiet_remove i u : quiet (dyn_remove ops i u).
Proof. unfold dyn_remove. quieten. Qed.
#[local] Hint Resolve quiet_truncate quiet_pop quiet_remove : keeps.

(** * Steps that take storage *)

Definition added bytes s s' : Prop :=
  cap (d_self s') = cap (d_self s) /\ taken (d_trace s') = taken (d_trace s) + bytes /\
  blocks (d_trace s') = blocks (d_trace s) + 1 /\ refusals (d_trace s) <= refusals (d_trace s').

(** The bill of a growth to [t] elements, for a length of [n]. *)
Definition grown_to n t s s' : Prop :=
  cap (d_self s) < n /\ dyn_growth_target (cap (d_self s)) n = Some t /\
  taken (d_trace s') <= taken (d_trace s) + t * e_size ops /\ blocks (d_trace s') <= blocks (d_trace s) + 1.

(** Growth to [c] elements, or none, or one that was given back when a clone was
    refused. *)
Definition billed n c s s' : Prop :=
  refusals (d_trace s) <= refusals (d_trace s') /\
  (c = cap (d_self s) /\ taken (d_trace s') = taken (d_trace s) /\ blocks (d_trace s') = blocks (d_trace s) \/
   grown_to n c s s' \/
   c = cap (d_self s) /\ refusals (d_trace s) < refusals (d_trace s') /\ exists t, grown_to n t s s').

Lemma billed_same_r n c s s1 s2 : billed n c s s1 -> same s1 s2 -> billed n c s s2.
Proof.
  unfold billed, grown_to, same. intros [Hr H] (_ & -> & -> & Hr2). split; [lia|].
  destruct H as [?|[?|(? & ? & ?)]]; [by left|by right; left|right; right]. split_and!; [done|lia|done].
Qed.
Lemma billed_same_l n c s s1 s2 : same s s1 -> billed n c s1 s2 -> billed n c s s2.
Proof.
  unfold billed, grown_to, same. intros (-> & -> & -> & Hr2) [Hr H]. split; [lia|].
  destruct H as [?|[?|(? & ? & ?)]]; [by left|by right; left|right; right]. split_and!; [done|lia|done].
Qed.
Lemma same_billed n s s' : same s s' -> billed n (cap (d_self s')) s s'.
Proof. intros (? & ? & ? & ?). split; [done|]. by left. Qed.
Lemma billed_refl n s : billed n (cap (d_self s)) s s.
Proof. by apply same_billed. Qed.
Lemma billed_kept n s s1 s2 : billed n (cap (d_self s1)) s s1 -> same s1 s2 -> billed n (cap (d_self s2)) s s2.
Proof. intros Hb Hs. rewrite (proj1 Hs). by eapply billed_same_r. Qed.

Lemma storage_alloc_run a n bytes s :
  runs (storage_alloc ops a n bytes)
    (fun r s' => match r with None => same s s' | Some _ => added bytes s s' end) (same s) s.
Proof.
  unfold storage_alloc. apply (runs_keeps same); [quieten| |done]. intros p s1 (Hc & Ht & Hb & Hr).
  unfold runs, bind, d_note, modify, same, added. cbn [d_trace d_self].
  destruct (p =? 0) eqn:Hp; cbn -[refusals]; rewrite taken_snoc, blocks_snoc, refusals_snoc; cbn -[refusals]; rewrite Hp; split_and!; lia.
Qed.

Lemma storage_resize_run a old old_bytes n bytes s :
  runs (storage_resize ops a old old_bytes n bytes)
    (fun r s' => match r with None => same s s' | Some _ => added bytes s s' end) (same s) s.
Proof.
  unfold storage_resize. apply (runs_keeps same); [quieten| |done]. intros st s1 H1.
  apply (runs_keeps same); [quieten| |intros s2 H2; by trans s1]. intros x s2 H2.
  apply (runs_keeps same); [quieten| |intros s3 H3; by trans s2; [trans s1|]]. intros q s3 H3.
  assert (same s s3) as H by (trans s2; [by trans s1|done]). destruct (q =? 0) eqn:Hq.
  { apply (runs_keeps same); [apply quiet_note; done| |by intros s4 H4; trans s3]. intros [] s4 H4. cbn. by trans s3. }
  apply (runs_keeps same); [unfold drop_block; quieten| |intros s4 H4; by trans s3]. intros [] s4 H4.
  destruct H as (Hc & Ht & Hb & Hr), H4 as (Hc4 & Ht4 & Hb4 & Hr4).
  unfold runs, bind, d_note, modify, new_block, added. cbn -[refusals].
  rewrite taken_snoc, blocks_snoc, refusals_snoc. cbn -[refusals]. rewrite Hq. split_and!; lia.
Qed.

Lemma checked_bytes_size t bytes : 0 <= t -> 0 <= e_size ops ->
  checked_bytes t (e_size ops) = Some bytes -> bytes <= t * e_size ops.
Proof.
  intros Ht Hs. unfold checked_bytes. destruct (t <? 0); [done|]. destruct (_ && _); [done|]. intros [= <-].
  apply Z.mod_le; [nia|done].
Qed.

Lemma checked_bytes_less m n : 0 <= m <= n -> checked_bytes n (e_size ops) <> None -> checked_bytes m (e_size ops) <> None.
Proof.
  unfold checked_bytes. intros Hm. destruct (Z.ltb_spec n 0), (Z.ltb_spec m 0); try lia.
  destruct (e_size ops =? 0); cbn [negb andb]; [done|].
  destruct (Z.ltb_spec (UINT64_MAX `div` e_size ops) n), (Z.ltb_spec (UINT64_MAX `div` e_size ops) m); lia || done.
Qed.

Lemma growth_exact c n t : 0 <= c < n -> 2 * c <= INT64_MAX -> dyn_growth_target c n = Some t ->
  t = Z.max 8 (Z.max (2 * c) n).
Proof.
  intros Hc Hmax. unfold dyn_growth_target, checked_add.
  destruct (Z.ltb_spec c 0), (Z.ltb_spec (INT64_MAX - c) c); try lia. cbn [orb].
  set (w := if 0 <? c then _ else _). assert (w = Z.max (2 * c) n) as ->.
  { unfold w. destruct (Z.ltb_spec 0 c); [destruct (Z.ltb_spec n (c + c))|]; lia. }
  cbn zeta. set (u := if _ <? 8 then _ else _).
  assert (u = Z.max 8 (Z.max (2 * c) n)) as -> by (unfold u; destruct (Z.ltb_spec (Z.max (2 * c) n) 8); lia).
  destruct (Z.ltb_spec (Z.max 8 (Z.max (2 * c) n)) n); intros [= <-]; lia.
Qed.

Lemma growth_reaches c n t : dyn_growth_target c n = Some t -> n <= t /\ 8 <= t.
Proof.
  unfold dyn_growth_target. set (w := if 0 <? c then _ else _). cbn zeta. destruct (Z.ltb_spec w 8).
  - destruct (Z.ltb_spec 8 n); [done|]. intros [= <-]. lia.
  - destruct (Z.ltb_spec w n); [done|]. intros [= <-]. lia.
Qed.

(** * Operations *)

Context (size_pos : 0 <= e_size ops).

Lemma added_billed c n t bytes s s1 s2 : cap (d_self s) = c -> c < n -> dyn_growth_target c n = Some t ->
  checked_bytes t (e_size ops) = Some bytes -> added bytes s s1 -> same s1 s2 -> billed n t s s2.
Proof.
  intros <- Hn Ht Hb (_ & Ht1 & Hb1 & Hr1) (_ & Ht2 & Hb2 & Hr2). split; [lia|]. right; left. destruct (growth_reaches _ _ _ Ht) as [Hreach H8].
  pose proof (checked_bytes_size t bytes ltac:(lia) size_pos Hb). split_and!; [done..| |]; lia.
Qed.

Lemma set_data_run b c s : runs (set_data b c : M state unit) (fun _ s' => cap (d_self s') = c /\ d_trace s' = d_trace s) (fun _ => False) s.
Proof. done. Qed.

(** [dyn_regrow] without a force. *)
Lemma regrow_run n s :
  runs (dyn_regrow ops n false)
    (fun r s' => billed n (cap (d_self s')) s s' /\
       match r with
       | None => True
       | Some u => old_cap u = cap (d_self s) /\
           (grew u = false \/ n <= cap (d_self s') /\ checked_bytes (cap (d_self s')) (e_size ops) <> None)
       end)
    (fun s' => exists c, billed n c s s') s.
Proof.
  unfold dyn_regrow. apply runs_bind. unfold runs at 1, gets. cbn beta.
  destruct (Z.leb_spec n (cap (d_self s))) as [|Hn]; cbn [andb negb].
  { split; [apply billed_refl|]. cbn. auto. }
  destruct (dyn_growth_target _ n) as [t|] eqn:Ht; [|split; [apply billed_refl|done]].
  destruct (checked_bytes t _) as [bytes|] eqn:Hb; [|split; [apply billed_refl|done]].
  destruct (growth_reaches _ _ _ Ht) as [Hreach H8]. destruct (bytes =? 0) eqn:Hz.
  { split; [|by cbn; auto]. split; [cbn; lia|]. right; left. unfold grown_to. cbn. pose proof (Z.mul_nonneg_nonneg t (e_size ops) ltac:(lia) size_pos). split_and!; [done|done|lia|lia]. }
  unfold regrow_fresh. apply runs_bind. eapply runs_conseq; [apply storage_alloc_run| |].
  2: { intros s1 (_ & ? & ? & ?). exists (cap (d_self s)). split; [done|]. by left. }
  intros [fresh|] s1 H1; [|split; [by apply same_billed|done]].
  assert (forall s2, same s1 s2 -> billed n t s s2) as Hbill by (intros s2 H2; by eapply added_billed).
  apply (runs_keeps same); [quieten| |intros s2 H2; exists t; by apply Hbill].
  intros [] s2 H2. apply runs_bind. unfold runs, set_data, modify, ret. cbn.
  split; [exact (Hbill s2 H2)|]. split; [done|]. right. by rewrite Hb.
Qed.

(** A fill fails where a clone is refused, or where its bytes cannot be
    counted. *)
Lemma fill_loop_false clone n at_ src owned i s :
  runs (fill_loop ops clone n at_ src owned i) (fun r s' => r = false -> refusals (d_trace s) < refusals (d_trace s'))
    (fun _ => True) s.
Proof.
  revert i s. induction n as [|n IH]; intros i s; cbn [fill_loop]; [done|].
  assert (forall i s1, same s s1 -> runs (fill_loop ops clone n at_ src owned i)
    (fun r s' => r = false -> refusals (d_trace s) < refusals (d_trace s')) (fun _ => True) s1) as Hnext.
  { intros j s1 (_ & _ & _ & H1). eapply runs_conseq; [apply IH| |done]. intros r s2 H Hr. specialize (H Hr). lia. }
  apply (runs_keeps same); [quieten| |done]. intros d s1 H1. apply (runs_keeps same); [quieten| |done]. intros v s2 H2.
  apply (runs_keeps same); [quieten| |done]. intros o s3 H3.
  assert (same s s3) as Hs3 by (trans s1; [done|by trans s2]). destruct o.
  { apply (runs_keeps same); [quieten| |done]. intros [] s4 H4. apply Hnext. by trans s3. }
  unfold call_clone. apply runs_bind, (runs_keeps same); [apply quiet_outside| |done]. intros r s4 H4.
  apply runs_modify. set (s5 := DState _ _ _ _ _). assert (same s s4) as Hs4 by (by trans s3).
  assert (refusals (d_trace s5) = refusals (d_trace s4) + if is_refusal (EvCloneValue v r) then 1 else 0) as Hs5
    by (apply refusals_snoc). destruct r as [w|]; cbn [is_refusal] in Hs5.
  - assert (same s4 s5) as H5.
    { split_and!; [done|unfold s5; cbn [d_trace]; rewrite taken_snoc|unfold s5; cbn [d_trace]; rewrite blocks_snoc|lia]; cbn; lia. }
    clearbody s5. cbn. apply (runs_keeps same); [quieten| |done]. intros [] s6 H6. apply Hnext. trans s4; [done|]. by trans s5.
  - clearbody s5. cbn. apply (runs_keeps same); [quieten| |done]. intros [] s6 (_ & _ & _ & H6) _.
    destruct Hs4 as (_ & _ & _ & Hs4). lia.
Qed.

Lemma fill_true at_ src owned count s :
  runs (dyn_fill ops at_ src owned count)
    (fun r s' => same s s' /\
       (r = false -> checked_bytes count (e_size ops) = None \/ refusals (d_trace s) < refusals (d_trace s'))) (same s) s.
Proof.
  assert (runs (dyn_fill ops at_ src owned count) (fun r s' => r = false ->
    checked_bytes count (e_size ops) = None \/ refusals (d_trace s) < refusals (d_trace s')) (fun _ => True) s) as H.
  { pose proof fill_loop_false as Hf. unfold dyn_fill. destruct (e_clone ops) as [clone|].
    - eapply runs_conseq; [by apply Hf| |done]. auto.
    - destruct (checked_bytes count _) as [bytes|]; [|by left]. apply (runs_keeps same); [quieten| |done].
      intros d s1 _. apply (runs_keeps same); [quieten|done|done]. }
  pose proof (quiet_fill at_ src owned count s) as Hq. unfold runs in *. by destruct (dyn_fill _ _ _ _ _ _).
Qed.

(** The end of a failed insertion: the capacity is the old one again. *)
Lemma rollback_run u s :
  runs (dyn_regrow_rollback ops u)
    (fun _ s' => taken (d_trace s') = taken (d_trace s) /\ blocks (d_trace s') = blocks (d_trace s) /\
       refusals (d_trace s) <= refusals (d_trace s') /\
       cap (d_self s') = if grew u then old_cap u else cap (d_self s)) (same s) s.
Proof.
  unfold dyn_regrow_rollback. destruct (grew u); cbn [negb]; [|cbn; split_and!; (done || lia)].
  apply (runs_keeps same); [quieten| |done]. intros d s1 H1. apply (runs_keeps same); [quieten| |intros; by trans s1].
  intros [] s2 H2. assert (same s s2) as (? & ? & ? & ?) by (by trans s1). cbn. split_and!; (done || lia).
Qed.

(** After the growth of an insertion: the fill, and its end either way. *)
Lemma fill_or_back n u (back : M state unit) at_ src owned count s s1 :
  0 <= count <= n -> billed n (cap (d_self s1)) s s1 -> old_cap u = cap (d_self s) ->
  grew u = false \/ n <= cap (d_self s1) /\ checked_bytes (cap (d_self s1)) (e_size ops) <> None -> quiet back ->
  runs (let! ok := dyn_fill ops at_ src owned count in
       if negb (ok : bool) then back ;;; dyn_regrow_rollback ops u ;;; ret false
       else set_len n ;;; dyn_regrow_commit ops u ;;; ret true)
    (fun _ s' => billed n (cap (d_self s')) s s') (fun s' => exists c, billed n c s s') s1.
Proof.
  intros Hn Hb Hold Hu Hback.
  assert (forall s2, same s1 s2 -> exists c, billed n c s s2) as Hstop.
  { intros s2 H2. exists (cap (d_self s2)). by eapply billed_kept. }
  apply runs_bind. eapply runs_conseq; [apply fill_true| |exact Hstop]. intros r s2 [H2 Hr]. destruct r; cbn [negb].
  { assert (quiet (set_len n ;;; dyn_regrow_commit ops u ;;; ret true)) as Hend by quieten.
    eapply runs_conseq; [apply Hend| |].
    - intros b s3 H3. eapply billed_kept; [done|]. by trans s2.
    - intros s3 H3. apply Hstop. by trans s2. }
  apply (runs_keeps same); [done| |intros s3 H3; apply Hstop; by trans s2]. intros [] s3 H3.
  assert (same s1 s3) as H13 by (by trans s2). apply runs_bind. eapply runs_conseq; [apply (rollback_run u s3)| |].
  - intros [] s4 (Ht4 & Hb4 & Hr4 & Hc4). cbn. rewrite Hc4. destruct (grew u) eqn:Hg.
    + destruct Hu as [?|[Hc Hb2]]; [done|]. destruct (Hr eq_refl) as [Hno|Hmore].
      { exfalso. exact (checked_bytes_less count (cap (d_self s1)) ltac:(lia) Hb2 Hno). }
      rewrite Hold. destruct H13 as (_ & Ht3 & Hb3 & Hr3), Hb as [Hrb Hb], H3 as (_ & _ & _ & Hr3').
      split; [lia|]. destruct Hb as [(_ & ? & ?)|[Hg1|(_ & _ & t & Hg1)]].
      * left. split_and!; [done|lia|lia].
      * right; right. split_and!; [done|lia|]. exists (cap (d_self s1)). unfold grown_to in *. rewrite Ht4, Ht3, Hb4, Hb3. done.
      * right; right. split_and!; [done|lia|]. exists t. unfold grown_to in *. rewrite Ht4, Ht3, Hb4, Hb3. done.
    + eapply (billed_same_r _ _ _ s3); [by eapply billed_kept|]. split_and!; [by rewrite Hc4|done..].
  - intros s4 H4. apply Hstop. by trans s3.
Qed.

(** The array may grow to [len + w] elements. *)
Definition op_bill w c s s' : Prop := exists n, n <= len (d_self s) + w /\ billed n c s s'.
Abbreviation op_run w m s := (runs m (fun _ s' => op_bill w (cap (d_self s')) s s') (fun s' => exists c, op_bill w c s s') s).

Lemma op_quiet_from {A} w (m : M state A) s s1 : same s s1 -> quiet m ->
  runs m (fun _ s' => op_bill w (cap (d_self s')) s s') (fun s' => exists c, op_bill w c s s') s1.
Proof.
  intros H1 Hm. assert (forall s', same s1 s' -> op_bill w (cap (d_self s')) s s') as H.
  { intros s' Hs. exists (len (d_self s) + w). split; [lia|]. apply same_billed. by trans s1. }
  eapply runs_conseq; [apply Hm| |]; intros; [by apply H|eexists; by apply H].
Qed.

Lemma op_quiet {A} w (m : M state A) s : quiet m -> op_run w m s.
Proof. by apply op_quiet_from. Qed.

Lemma op_then {A B} w (m : M state A) (k : A -> M state B) s :
  op_run w m s -> (forall a, quiet (k a)) -> op_run w (bind m k) s.
Proof.
  intros Hm Hk. apply runs_bind. eapply runs_conseq; [exact Hm| |done]. intros a s1 (n & Hn & Hb).
  eapply runs_conseq; [apply Hk| |]; intros; [exists n|eexists; exists n]; (split; [done|]); by eapply billed_kept.
Qed.

Lemma append_run src owned count s : 0 <= len (d_self s) -> op_run (Z.max 0 count) (dyn_append_owned ops src owned count) s.
Proof.
  intros Hl. unfold dyn_append_owned. destruct (Z.ltb_spec count 0); [apply op_quiet; quieten|].
  destruct (count =? 0); [apply op_quiet; quieten|]. apply runs_bind. unfold runs at 1, dyn_bind, modify.
  apply runs_bind. unfold runs at 1, gets. cbn beta. set (s1 := DState _ _ _ _ _). assert (same s s1) as H1 by done.
  change (len (d_self s1)) with (len (d_self s)).
  destruct (checked_add _ count) as [n|] eqn:Hn; [|apply (op_quiet_from _ _ s s1); [done|quieten]].
  assert (n = len (d_self s) + count) as ->.
  { unfold checked_add in Hn. destruct (_ || _); [done|]. by injection Hn. }
  rewrite Z.max_r by lia. set (n := len (d_self s) + count) in *.
  eapply (runs_conseq _ (fun _ s' => billed n (cap (d_self s')) s s') _ (fun s' => exists c, billed n c s s')).
  - apply runs_bind. eapply runs_conseq; [apply regrow_run| |intros s2 [c Hc]; exists c; by eapply billed_same_l].
    intros [u|] s2 [Hb Hu]; [|by eapply billed_same_l].
    apply (fill_or_back n u (ret tt)); [lia|by eapply billed_same_l|apply Hu|apply Hu|quieten].
  - intros r s' Hb. by exists n.
  - intros s' [c Hb]. exists c, n. done.
Qed.

Lemma insert_run i vs s : 0 <= len (d_self s) -> op_run (zlen vs) (dyn_insert ops i (Outside vs) (zlen vs)) s.
Proof.
  intros Hl. unfold dyn_insert. apply runs_bind. unfold runs at 1, gets. cbn beta.
  destruct (_ || _); [apply op_quiet; quieten|]. destruct (zlen vs <? 0); [apply op_quiet; quieten|].
  destruct (zlen vs =? 0); [apply op_quiet; quieten|]. apply runs_bind. unfold runs at 1, dyn_bind, modify.
  set (s1 := DState _ _ _ _ _). assert (same s s1) as H1 by done.
  destruct (checked_add _ _) as [n|] eqn:Hn; [|apply (op_quiet_from _ _ s s1); [done|quieten]].
  assert (n = len (d_self s) + zlen vs) as ->.
  { unfold checked_add in Hn. destruct (_ || _); [done|]. by injection Hn. }
  set (n := len (d_self s) + zlen vs) in *. cbn [dyn_src_aliases].
  eapply (runs_conseq _ (fun _ s' => billed n (cap (d_self s')) s s') _ (fun s' => exists c, billed n c s s')).
  - apply runs_bind. eapply runs_conseq; [apply regrow_run| |intros s2 [c Hc]; exists c; by eapply billed_same_l].
    intros [u|] s2 [Hb Hu]; [|by eapply billed_same_l]. apply runs_bind. unfold runs at 1. cbn beta.
    apply (runs_keeps same); [quieten| |].
    2: { intros s3 H3. eexists. eapply billed_kept; [by eapply billed_same_l|done]. }
    intros [] s3 H3. apply (fill_or_back n u); [lia| |apply Hu| |quieten].
    + eapply billed_kept; [by eapply billed_same_l|done].
    + destruct H3 as [-> _]. apply Hu.
  - intros r s' Hb. by exists n.
  - intros s' [c Hb]. exists c, n. done.
Qed.

Lemma reserve_run m s : op_run (m - len (d_self s)) (dyn_reserve ops m) s.
Proof.
  unfold dyn_reserve. destruct (m <? 0); [apply op_quiet; quieten|].
  apply runs_bind. unfold runs at 1, dyn_bind, modify. apply runs_bind. unfold runs at 1, gets. cbn beta.
  set (s1 := DState _ _ _ _ _). assert (same s s1) as H1 by done.
  destruct (Z.leb_spec m (cap (d_self s1))) as [|Hm]; [apply (op_quiet_from _ _ s s1); [done|quieten]|].
  destruct (dyn_growth_target _ m) as [t|] eqn:Ht; [|apply (op_quiet_from _ _ s s1); [done|quieten]].
  destruct (checked_bytes t _) as [bytes|] eqn:Hb; [|apply (op_quiet_from _ _ s s1); [done|quieten]].
  destruct (checked_bytes (cap _) _) as [old|] eqn:Ho; [|apply (op_quiet_from _ _ s s1); [done|quieten]].
  destruct (growth_reaches _ _ _ Ht) as [Hreach H8]. pose proof (Z.mul_nonneg_nonneg t (e_size ops) ltac:(lia) size_pos).
  destruct (bytes =? 0) eqn:Hz.
  { exists m. split; [lia|]. split; [cbn; lia|]. right; left. unfold grown_to. cbn. split_and!; [done|done|lia|lia]. }
  apply runs_bind. eapply runs_conseq; [apply storage_resize_run| |].
  - intros [b|] s2 H2; [|exists m; split; [lia|]; by apply same_billed].
    exists m. split; [lia|]. apply (billed_same_l _ _ _ s1); [done|]. change (billed m t s1 s2). by eapply added_billed.
  - intros s2 H2. eexists. exists m. split; [lia|]. by apply same_billed.
Qed.

Lemma op_bill_weaken w w' c s s' : w <= w' -> op_bill w c s s' -> op_bill w' c s s'.
Proof. intros Hw (n & Hn & Hb). exists n. split; [lia|done]. Qed.

Lemma op_run_weaken {A} w w' (m : M state A) s : w <= w' -> op_run w m s -> op_run w' m s.
Proof.
  intros Hw Hm. eapply runs_conseq; [exact Hm| |]; [intros ? ? H|intros ? [c H]; exists c]; by eapply op_bill_weaken.
Qed.

Lemma resize_run n s : op_run (n - len (d_self s)) (dyn_resize ops n) s.
Proof.
  unfold dyn_resize. apply runs_bind. unfold runs at 1, gets. cbn beta.
  destruct (n <? 0); [apply op_quiet; quieten|]. destruct (n <? len _); [apply op_quiet; quieten; apply quiet_truncate|].
  destruct (n =? len _); [apply op_quiet; quieten|]. apply runs_bind. unfold runs at 1, dyn_bind, modify.
  set (s1 := DState _ _ _ _ _). change (op_run (n - len (d_self s1)) (let! ok := dyn_reserve ops n in
    if negb ok then ret false else let! d := gets d_self in
      (match checked_bytes (n - len d) (e_size ops) with
       | Some bytes => if negb (bytes =? 0)
         then write_cells ops (data d) (len d) (replicate (Z.to_nat (n - len d)) (Some (e_zero ops))) else ret tt
       | None => ret tt
       end) ;;; set_len n ;;; ret true) s1).
  apply op_then; [apply reserve_run|]. intros r. quieten.
Qed.

(** The elements an operation may bring in, or asks for room for. *)
Definition weight (op : dyn_op V) : Z :=
  match op with
  | Append vs _ | Insert _ vs => zlen vs
  | Resize n | Reserve n => Z.max 0 n
  | _ => 0
  end.
Definition total (prog : list (dyn_op V)) : Z := foldr (fun op n => weight op + n) 0 prog.

(** An insertion of the array's own elements takes a fresh block each time, and
    a shrink gives the room back that the next append takes again. *)
Definition steady (op : dyn_op V) : Prop := match op with InsertSelf _ _ _ | Shrink _ => False | _ => True end.

Lemma request_run op s : steady op -> 0 <= len (d_self s) -> op_run (weight op) (request ops op) s.
Proof.
  intros Hst Hl. destruct op as [ws owned|i ws|i k n| |i unordered|n|n|n|]; try done; cbn [request weight]; cbv zeta.
  - apply op_then; [|intros; apply keeps_ret; typeclasses eauto]. eapply op_run_weaken, append_run; lia.
  - apply op_then; [|intros; apply keeps_ret; typeclasses eauto]. by apply insert_run.
  - apply op_quiet. quieten.
  - apply op_quiet. quieten.
  - apply op_then; [|intros; apply keeps_ret; typeclasses eauto]. eapply op_run_weaken, resize_run; lia.
  - apply op_then; [|intros; apply keeps_ret; typeclasses eauto]. eapply op_run_weaken, reserve_run; lia.
  - apply op_quiet. unfold dyn_clear. quieten.
Qed.

Lemma run_op_run op s : steady op -> 0 <= len (d_self s) -> op_run (weight op) (run_op ops op) s.
Proof.
  intros Hst Hl. unfold run_op. apply runs_gets, op_then; [by apply request_run|]. intros [ok out]. quieten.
Qed.

(** * Insertion of the array's own elements *)

(** The forced growth doubles the capacity, however much of it is free. *)
Lemma forced_run n s : 2 * cap (d_self s) <= INT64_MAX -> 0 < cap (d_self s) ->
  runs (dyn_regrow ops n true)
    (fun r s' => match r with Some _ => 2 * cap (d_self s) <= cap (d_self s') | None => True end) (fun _ => True) s.
Proof.
  intros Hmax Hc. unfold dyn_regrow. apply runs_bind. unfold runs at 1, gets. cbn beta. rewrite andb_false_r.
  destruct (dyn_growth_target _ n) as [t|] eqn:Ht; [|done].
  assert (2 * cap (d_self s) <= t) as Hd.
  { revert Ht. unfold dyn_growth_target, checked_add.
    destruct (Z.ltb_spec 0 (cap (d_self s))); [|lia].
    destruct (Z.ltb_spec (cap (d_self s)) 0), (Z.ltb_spec (INT64_MAX - cap (d_self s)) (cap (d_self s))); try lia. cbn [orb].
    set (w := if n <? _ then _ else _). assert (2 * cap (d_self s) <= w) by (unfold w; destruct (Z.ltb_spec n (cap (d_self s) + cap (d_self s))); lia).
    cbn zeta. destruct (Z.ltb_spec w 8); [destruct (Z.ltb_spec 8 n)|destruct (Z.ltb_spec w n)]; intros [= <-]; lia. }
  destruct (checked_bytes t _) as [bytes|]; [|done]. destruct (bytes =? 0); [done|].
  unfold regrow_fresh. apply runs_bind. eapply runs_conseq; [apply storage_alloc_run| |done].
  intros [fresh|] s1 _; [|done]. apply (runs_keeps same); [quieten|by intros|done].
Qed.

(** So [n] such insertions ask for [2^n] times the room. *)
Lemma self_insert_doubles i b k count s : 2 * cap (d_self s) <= INT64_MAX -> 0 < cap (d_self s) -> 0 < count ->
  dyn_src_aliases ops (d_self s) (Inside b k) = true ->
  runs (dyn_insert ops i (Inside b k) count) (fun r s' => r = true -> 2 * cap (d_self s) <= cap (d_self s')) (fun _ => True) s.
Proof.
  intros Hmax Hc Hn Ha. unfold dyn_insert. apply runs_bind. unfold runs at 1, gets. cbn beta.
  destruct (_ || _); [done|]. destruct (count <? 0); [done|]. destruct (Z.eqb_spec count 0); [lia|].
  apply runs_bind. unfold runs at 1, dyn_bind, modify. set (s1 := DState _ _ _ _ _).
  destruct (checked_add _ _) as [m|]; [|done]. rewrite Ha. apply runs_bind.
  eapply runs_conseq; [by apply (forced_run m s1)| |done]. intros [u|] s2 H2; [|done].
  apply (runs_keeps same); [apply keeps_gets; typeclasses eauto| |done]. intros d s3 H3. apply (runs_keeps same); [quieten| |done]. intros [] s4 H4.
  apply (runs_keeps same); [apply quiet_fill| |done]. intros [] s5 H5; cbn [negb].
  2: { apply (runs_keeps same); [quieten| |done]. intros [] s6 _. apply runs_bind.
    eapply (runs_conseq _ (fun _ _ => True) _ (fun _ => True)); [by unfold runs; destruct (dyn_regrow_rollback _ _ _)|done|done]. }
  apply (runs_keeps same); [apply quiet_set_len| |done]. intros [] s6 H6.
  apply (runs_keeps same); [apply quiet_commit| |done]. intros [] s7 H7 _.
  assert (same s2 s7) as [-> _] by (trans s3; [done|]; trans s4; [done|]; trans s5; [done|]; by trans s6). exact H2.
Qed.

(** * The budget *)

(** What a refusal may cost: a growth to at most [max 8 (2 * t)] elements that is
    given back. *)
Definition spare t : Z := Z.max 8 (2 * t).

(** After [t] elements, from a bill of [t0] bytes, [b0] blocks and [r0] refusals:
    the capacity [c] and the bill of [evs]. *)
Definition budget (t0 b0 r0 t c : Z) (evs : list (event (K:=Empty_set) (V:=V))) : Prop :=
  let r := refusals evs - r0 in
  0 <= c <= spare t /\ 0 <= r /\ taken evs - t0 <= (2 * c + r * spare t) * e_size ops /\
  (blocks evs - b0 - r <= 0 \/ 2 ^ (blocks evs - b0 - r + 2) <= c).

Lemma budget_grows t0 b0 r0 t t' c evs : t <= t' -> budget t0 b0 r0 t c evs -> budget t0 b0 r0 t' c evs.
Proof.
  unfold budget, spare. cbv zeta. intros Ht (Hc & Hr & Htk & Hb). split_and!; [lia|lia|lia| |done].
  etrans; [exact Htk|]. apply Z.mul_le_mono_nonneg_r; [done|]. apply Z.add_le_mono_l, Z.mul_le_mono_nonneg_l; lia.
Qed.

(** More blocks by [k], [k] of them for refusals. *)
Lemma blocks_paid b b' r r' c : b' - b <= r' - r -> b - r <= 0 \/ 2 ^ (b - r + 2) <= c -> b' - r' <= 0 \/ 2 ^ (b' - r' + 2) <= c.
Proof.
  intros Hk [H|H]; [left; lia|]. right. etrans; [|exact H]. apply Z.pow_le_mono_r; lia.
Qed.

Lemma budget_step t0 b0 r0 t w c s s' :
  0 <= w -> 2 * (t + w) <= INT64_MAX -> 0 <= len (d_self s) <= t ->
  budget t0 b0 r0 t (cap (d_self s)) (d_trace s) -> op_bill w c s s' -> budget t0 b0 r0 (t + w) c (d_trace s').
Proof.
  intros Hw Hmax Hl Hb0 (n & Hn & Hr & Hcase). apply (budget_grows _ _ _ t (t + w)) in Hb0; [|lia].
  destruct Hb0 as (Hc & Hr0 & Ht & Hb). set (c0 := cap (d_self s)) in *. unfold budget. cbv zeta.
  set (r := refusals (d_trace s)) in *. set (r' := refusals (d_trace s')) in *.
  pose proof (Z.mul_le_mono_nonneg_r ((r - r0) * spare (t + w)) ((r' - r0) * spare (t + w)) (e_size ops) size_pos
    ltac:(apply Z.mul_le_mono_nonneg_r; unfold spare; lia)) as Hmore.
  destruct Hcase as [(-> & Ht' & Hb')|[(Hlt & Hg & Ht' & Hb')|(-> & Hrlt & t1 & Hlt & Hg & Ht' & Hb')]].
  - split_and!; [lia..|]. rewrite Hb'. apply (blocks_paid (blocks (d_trace s) - b0) _ (r - r0)); [lia|done].
  - apply growth_exact in Hg; [|unfold spare in Hc; lia..].
    pose proof (Z.mul_le_mono_nonneg_r (2 * c0) c (e_size ops) size_pos ltac:(lia)).
    split_and!; [lia|unfold spare; lia|lia|lia|]. destruct Hb as [Hb|Hb].
    + destruct (decide (blocks (d_trace s') - b0 - (r' - r0) <= 0)); [by left|right].
      replace (blocks (d_trace s') - b0 - (r' - r0) + 2) with 3 by lia. lia.
    + right. transitivity (2 ^ (Z.succ (blocks (d_trace s) - b0 - (r - r0) + 2))); [apply Z.pow_le_mono_r; lia|].
      set (k := blocks (d_trace s) - b0 - (r - r0) + 2) in *. destruct (Z.le_gt_cases 0 k) as [Hpos|Hneg].
      * rewrite Z.pow_succ_r by done. lia.
      * destruct (decide (k = -1)) as [->|]; [cbn; lia|]. rewrite (Z.pow_neg_r _ (Z.succ k)) by lia. lia.
  - apply growth_exact in Hg; [|unfold spare in Hc; lia..].
    pose proof (Z.mul_le_mono_nonneg_r ((r - r0 + 1) * spare (t + w)) ((r' - r0) * spare (t + w)) (e_size ops) size_pos
      ltac:(apply Z.mul_le_mono_nonneg_r; unfold spare; lia)).
    pose proof (Z.mul_le_mono_nonneg_r t1 (spare (t + w)) (e_size ops) size_pos ltac:(unfold spare; lia)).
    split_and!; [lia..|]. apply (blocks_paid (blocks (d_trace s) - b0) _ (r - r0)); [lia|done].
Qed.

(** What is left of a budget: the bytes are linear in the elements and the
    blocks logarithmically many, but for the growths that a refusal undid. *)
Definition cheap n s s' : Prop :=
  let r := refusals (d_trace s') - refusals (d_trace s) in
  taken (d_trace s') - taken (d_trace s) <= e_size ops * (Z.max 16 (4 * n) + r * Z.max 8 (2 * n)) /\
  blocks (d_trace s') - blocks (d_trace s) <= 1 + Z.log2 (Z.max 1 n) + r.

Lemma budget_cheap t c s s' : 0 <= t ->
  budget (taken (d_trace s)) (blocks (d_trace s)) (refusals (d_trace s)) t c (d_trace s') -> cheap t s s'.
Proof.
  unfold budget, cheap, spare. cbv zeta. set (r := refusals (d_trace s') - refusals (d_trace s)).
  intros Hn (Hc & Hr & Ht & Hb). split; [nia|]. set (b := blocks (d_trace s') - blocks (d_trace s) - r) in *.
  enough (b <= 1 + Z.log2 (Z.max 1 t)) by lia.
  pose proof (Z.log2_nonneg (Z.max 1 t)). destruct Hb as [Hb|Hb]; [lia|].
  destruct (Z.le_gt_cases b 1) as [|Hb1]; [lia|].
  assert (2 ^ (b + 1) <= t).
  { replace (b + 2) with (Z.succ (b + 1)) in Hb by lia. rewrite Z.pow_succ_r in Hb by lia.
    destruct (Z.le_gt_cases t 4); [|lia]. exfalso.
    pose proof (Z.pow_le_mono_r 2 3 (b + 1) ltac:(lia) ltac:(lia)). lia. }
  rewrite Z.max_r by lia. enough (b + 1 <= Z.log2 t) by lia.
  rewrite <- (Z.log2_pow2 (b + 1)) by lia. by apply Z.log2_le_mono.
Qed.
End growth.

(** * Programs *)

Section program.
Context {V E : Type} {api : AllocApi E} {tot : AllocTotal E} {fr : FreeReturns E} (ops : elem_ops V E).
Context {R : V -> V -> Prop} {ok : ElemOk ops R}.
Implicit Types (s : dstate V E) (vs ws : list V).

Lemma weight_pos (op : dyn_op V) : 0 <= weight op.
Proof. destruct op; cbn; lia. Qed.

Lemma total_pos (prog : list (dyn_op V)) : 0 <= total prog.
Proof. induction prog as [|op prog IH]; cbn; [done|]. pose proof (weight_pos op). unfold total in IH. lia. Qed.

Lemma list_op_weight op vs vs' r made calls : steady op ->
  list_op ops R op vs vs' r made calls -> zlen vs' <= zlen vs + weight op.
Proof.
  intros Hst Hop. pose proof (weight_pos op). destruct Hop as [vs ws ws' ? ? ? [Hf _]|pre suf ws ws' ? ? [Hf _]|
    | |vs v|pre v suf unordered|vs n ? ? Hn| | |vs| | | ];
    cbn [steady weight] in *; rewrite ?length_app; cbn [length]; try done; try lia.
  - unfold removed. destruct unordered; [|rewrite length_app; lia].
    destruct suf as [|w suf _] using rev_ind; [cbn; lia|].
    rewrite last_snoc, removelast_last, !length_app. cbn. lia.
  - unfold at_length. rewrite length_app, length_take, length_replicate. lia.
Qed.

Lemma run_ops_budget prog s vs held t0 b0 r0 t :
  is_array ops s vs held -> Forall op_ok prog -> Forall steady prog ->
  zlen vs <= t -> 2 * (t + total prog) <= INT64_MAX -> budget ops t0 b0 r0 t (cap (d_self s)) (d_trace s) ->
  wp (run_ops ops prog) (fun _ s' => exists c, budget ops t0 b0 r0 (t + total prog) c (d_trace s'))
    (fun _ s' => exists c, budget ops t0 b0 r0 (t + total prog) c (d_trace s')) s.
Proof.
  pose proof (proj1 (size_u64 (ops:=ops))) as Hsize. revert s vs t.
  induction prog as [|op prog IH]; intros s vs t Harr Hok Hst Hlen Hmax Hb.
  { apply wp_ret. exists (cap (d_self s)). eapply (budget_grows ops Hsize), Hb. cbn. lia. }
  apply Forall_cons in Hok as [Ho Hok]. apply Forall_cons in Hst as [Hs Hst].
  pose proof (weight_pos op). pose proof (total_pos prog). change (total (op :: prog)) with (weight op + total prog) in *.
  pose proof (live_len ops s vs (proj1 Harr)) as Hl.
  assert (forall c s', op_bill ops (weight op) c s s' -> budget ops t0 b0 r0 (t + weight op) c (d_trace s')) as Hstep.
  { intros c s' Hbill. eapply (budget_step ops Hsize); [..|exact Hbill]; [lia|lia|lia|done]. }
  apply wp_bind. eapply wp_conseq.
  - eapply wp_runs; [by apply run_op_spec|]. apply (run_op_run ops Hsize); [done|lia].
  - intros out s1 [(vs1 & made & calls & Hlist & Harr1 & _) Hbill].
    apply (list_op_weight op) in Hlist; [|done]. apply wp_bind.
    eapply wp_conseq; [apply (IH s1 vs1 (t + weight op)); try done; [lia|lia|by apply Hstep]| |].
    + intros out' s2 [c Hc]. apply wp_ret. exists c. by replace (t + (weight op + total prog)) with (t + weight op + total prog) by lia.
    + intros h s2 [c Hc]. exists c. by replace (t + (weight op + total prog)) with (t + weight op + total prog) by lia.
  - intros h s1 [_ [c Hbill]]. exists c. eapply (budget_grows ops Hsize), Hstep, Hbill. lia.
Qed.
End program.
