(* ===== verification/DynamicClaims.v ===== *)
(** The properties of dynamic arrays, each with a concrete instance over the
    bump provider of [Concrete]. *)
From S2P Require Import Prelude Checked Interfaces MapTable MapSpec Concrete Utf8 Utf8Codec Dynamic DynamicSpec DynamicFill DynamicOps DynamicInsert DynamicArray DynamicLife DynamicMoves DynamicClone DynamicRunes DynamicProgram DynamicCost.

Section claims.
Context {V E : Type} {api : AllocApi E} {tot : AllocTotal E} {fr : FreeReturns E} (ops : elem_ops V E).
Context {R : V -> V -> Prop} {ok : ElemOk ops R}.
Implicit Types (s : dstate V E) (vs ws : list V).

(** C4: a program over a dynamic array, from the zero value to its drop, is a
    run of the abstract list: every request that answers true does to the list
    what the abstract step says, one that answers false has a cause and leaves
    the list; the calls of the hooks are exactly those of the steps and of the
    drop, in order; each value made for the array is handed out or destroyed
    exactly once; the provider has every block back. *)
Theorem dyn_refines_list prog s held :
  d_self s = zero_dynamic -> nothing s held -> Forall op_ok prog ->
  wp (dyn_life ops prog)
    (fun rs s' => dead s' held /\ exists vs made calls, list_ops ops R prog [] vs rs made calls /\
       acts (d_trace s') = acts (d_trace s) ++ calls ++ drop_calls ops (reverse vs) /\
       (has_drop ops = true -> made ≡ₚ (rs ≫= moved_out) ++ dropped calls ++ reverse vs))
    (fun _ s' => droppable ops s') s.
Proof.
  intros Hz Hno Hok. pose proof (fresh_array ops s held 0 Hno) as Harr.
  assert (with_self (RtDynamic None 0 0 0) s = s) as Hs by (unfold with_self; destruct s; cbn in *; by subst).
  rewrite Hs in Harr. apply wp_bind. eapply wp_conseq; [by apply (run_ops_spec (R:=R) ops prog s [] held)| |done].
  intros rs s1 (vs & made & calls & Hrun & Harr1 & Hd1). apply wp_bind.
  eapply wp_conseq; [by apply (drop_spec ops s1 vs held)| |].
  - intros _ s2 [Hdead Hd2]. apply wp_ret. split; [done|]. exists vs, made, calls. split; [done|].
    split; [by rewrite Hd2, Hd1, app_assoc|]. intros Hdr.
    rewrite reverse_Permutation, app_assoc, <- (Permutation_app_comm vs).
    by apply (list_ops_conserve ops R prog [] vs rs made calls).
  - intros h s2 (pre & v & post & _ & [Hl _] & _). left. by exists pre.
Qed.

(** C9: an append puts all its elements behind the array, those marked owned
    moved and the others cloned, also from a slice of the array itself and also
    when it grows; where it fails, there is a cause, the elements, the block and
    the provider's books are as before, and the hooks were called for exactly
    this: the clones made before the refused one, each destroyed once. *)
Theorem dyn_append_correct s vs held src owned ws :
  is_array ops s vs held -> reads ops s vs src ws -> flags_ok owned ws -> zlen ws <= INT64_MAX ->
  wp (dyn_append_owned ops src owned (zlen ws)) (outcome (R:=R) ops s vs (fun ws' => vs ++ ws') held owned ws)
    (fun _ s' => live ops s' vs) s.
Proof. intros. by apply append_owned_spec. Qed.

(** C8: an insert puts clones of all its elements in at the index, also of
    elements of the array that the shift would overwrite, or fails and leaves
    the array as it was; an index outside the array is a panic that changes
    nothing. *)
Theorem dyn_insert_correct i s vs held src ws :
  is_array ops s vs held -> reads ops s vs src ws -> zlen ws <= INT64_MAX ->
  if decide (0 <= i <= zlen vs) then
    wp (dyn_insert ops i src (zlen ws))
      (outcome (R:=R) ops s vs (fun ws' => take (Z.to_nat i) vs ++ ws' ++ drop (Z.to_nat i) vs) held None ws)
      (fun _ s' => live ops s' vs \/ e_clone ops <> None) s
  else dyn_insert ops i src (zlen ws) s = Stop (Panicked "this insert index is out of range") s.
Proof.
  intros Harr Hsrc Hw. destruct (decide _) as [Hi|Hi].
  - pose proof (insert_spec (R:=R) ops s (take (Z.to_nat i) vs) (drop (Z.to_nat i) vs) held src ws) as H.
    rewrite length_take in H. replace (Z.of_nat (Z.to_nat i `min` length vs)) with i in H by lia.
    rewrite take_drop in H. by apply H.
  - destruct Harr as [Hl _]. unfold dyn_insert, bind, gets. cbn beta. rewrite (live_len ops s vs Hl).
    by destruct (Z.ltb_spec i 0), (Z.ltb_spec (zlen vs) i); cbn [orb]; try lia.
Qed.

(** C7: a drop destroys the elements last first, each once, and returns the
    block; when a hook panics, a second drop destroys exactly the rest. *)
Theorem dyn_drop_exactly_once s vs held : is_array ops s vs held -> has_drop ops = true ->
  match dyn_drop ops s with
  | Ok _ s' => dead s' held /\ dropped (d_trace s') = dropped (d_trace s) ++ reverse vs
  | Stop _ s1 => exists pre post, vs = pre ++ post /\ post <> [] /\
      dropped (d_trace s1) = dropped (d_trace s) ++ reverse post /\
      match dyn_drop ops s1 with
      | Ok _ s2 => dead s2 held /\ dropped (d_trace s2) = dropped (d_trace s) ++ reverse vs
      | Stop _ s2 => exists us, is_array ops s2 us held /\ us `prefix_of` pre
      | Undefined | NoFuel => False
      end
  | Undefined | NoFuel => False
  end.
Proof.
  intros Harr Hd. pose proof (drop_spec ops s vs held Harr) as H. unfold wp, drop_calls in H. rewrite Hd in H.
  destruct (dyn_drop ops s) as [[] s'|h s1| |]; [| |done..].
  { destruct H as [Hdead H]. split; [done|]. by rewrite (acts_dropped _ _ _ H), dropped_values. }
  destruct H as (pre & v & post & -> & Harr1 & Hd1). apply acts_dropped in Hd1. rewrite dropped_values in Hd1.
  exists pre, (v :: post). split_and!; [done..|].
  pose proof (drop_spec ops s1 pre held Harr1) as H. unfold wp, drop_calls in H. rewrite Hd in H.
  destruct (dyn_drop ops s1) as [[] s2|h2 s2| |]; [| |done..].
  - destruct H as [Hdead H2]. split; [done|].
    by rewrite (acts_dropped _ _ _ H2), dropped_values, Hd1, reverse_app, app_assoc.
  - destruct H as (pre2 & w & post2 & -> & Harr2 & _). exists pre2. split; [done|by exists (w :: post2)].
Qed.

(** C13: what appends, inserts of outside elements, resizes and reserves take from
    the provider is linear in the elements they bring in or ask room for, at
    whatever grain, however they are mixed with removals: over a program of these
    for [n] elements in all at most [4 n] elements' worth of bytes (or 16, the
    least growth and its successor), in at most [1 + log2 n] blocks. Each refused
    request or refused clone may cost one block of [2 n] elements (or 8) more:
    the growth that it undid. The bound holds also where the program ends in a
    panic. Inserts of the array's own elements and shrinks are not in it. *)
Theorem growth_amortized prog s held :
  d_self s = zero_dynamic -> nothing s held -> Forall op_ok prog -> Forall steady prog -> 2 * total prog <= INT64_MAX ->
  wp (run_ops ops prog) (fun _ s' => cheap ops (total prog) s s') (fun _ s' => cheap ops (total prog) s s') s.
Proof.
  intros Hz Hno Hok Hst Hmax. pose proof (fresh_array ops s held 0 Hno) as Harr.
  assert (with_self (RtDynamic None 0 0 0) s = s) as Hs by (unfold with_self; destruct s; cbn in *; by subst).
  rewrite Hs in Harr. pose proof (total_pos prog).
  assert (budget ops (taken (d_trace s)) (blocks (d_trace s)) (refusals (d_trace s)) 0 (cap (d_self s)) (d_trace s)) as H0.
  { rewrite Hz. unfold budget, spare. rewrite !Z.sub_diag. cbn. split_and!; (done || lia). }
  eapply wp_conseq; [by apply (run_ops_budget ops prog s [] held _ _ _ 0 Harr Hok Hst ltac:(done) Hmax H0)| |].
  - intros out s' [c Hc]. by eapply (budget_cheap ops (proj1 (size_u64 (ops:=ops)))), Hc.
  - intros h s' [c Hc]. by eapply (budget_cheap ops (proj1 (size_u64 (ops:=ops)))), Hc.
Qed.

(** C31: a clone holds a clone of every element, in order, in a block of its own
    from the provider it is given; a clone that fails has a cause and leaves an
    empty array bound to that provider, with the books as they were; where a
    clone was refused, exactly the clones made before it are destroyed, once
    each, last first. *)
Theorem dyn_clone_correct s vs held a :
  nothing s held -> a <> 0 -> zlen vs <= INT64_MAX ->
  wp (dyn_clone ops vs a) (clone_post ops (R:=R) s vs held a) (fun _ s' => exists ws, live ops s' ws) s.
Proof. intros. by apply clone_spec. Qed.
End claims.

(** C32: converting a text to its runes decodes exactly the runes it encodes, in
    a buffer counted by the first pass, or fails with nothing held. *)
Theorem string_to_runes_correct {E} {api : AllocApi E} {tot : AllocTotal E} {fr : FreeReturns E} rs (s : dstate Z E) held a :
  nothing s held -> a <> 0 -> scalars rs -> zlen (encode_all rs) + 4 <= INT64_MAX ->
  wp (string_to_runes (Some (encode_all rs)) (zlen (encode_all rs)) a)
    (fun r s' => dropped (d_trace s') = dropped (d_trace s) /\
       if r then is_array rune_ops s' rs held /\ allocator (d_self s') = a else dead s' held)
    (fun _ s' => live rune_ops s' []) s.
Proof. intros. by apply string_to_runes_spec. Qed.

(** * Concrete arrays *)

#[export] Instance heap_free_returns : FreeReturns heap.
Proof. intros a p size align e. by exists e. Qed.

(** An element of 8 bytes: the drop hook panics on 13, the clone hook fails on
    99 and panics on 66. *)
Definition cell_ops : elem_ops Z heap := ElemOps 8 8
  (Some (fun v => if v =? 13 then panic "drop" else ret tt))
  (Some (fun v _ => if v =? 66 then panic "clone" else ret (if v =? 99 then None else Some v))) 0.

#[export] Instance cell_ops_ok : ElemOk cell_ops eq.
Proof.
  split; [done|by unfold is_u64; cbn; ilia| |].
  - intros f v [= <-] e. by destruct (v =? 13).
  - intros f v a e [= <-]. unfold wp. destruct (v =? 66); [done|]. cbn. by destruct (v =? 99); intros w [= ->].
Qed.

Definition empty_cells (n : nat) : dstate Z heap := DState zero_dynamic ∅ 0 [] (Heap 4096 n).

Lemma empty_cells_nothing n : nothing (empty_cells n) [].
Proof. done. Qed.

(** Growth in the middle, a self insert, a clone that fails, a removal. *)
Definition cell_program : list (dyn_op Z) :=
  [Append [1; 2; 3; 4; 5; 6] None; InsertSelf 1 0 3; Append [7; 99] None; Remove 2 true; Pop; Resize 5].

Lemma cell_program_ok : Forall op_ok cell_program.
Proof. unfold cell_program, op_ok, flags_ok, INT64_MAX. repeat constructor; cbn; lia. Qed.

Lemma dyn_refines_list_witness :
  (match dyn_life cell_ops cell_program (empty_cells 9) with
   | Ok rs s' => ((fun r => (answer r, moved_out r)) <$> rs, dropped (d_trace s')) =
       ([(true, []); (true, []); (false, []); (true, [2]); (true, [5]); (true, [])], [7; 4; 3; 2; 3; 6; 1; 1])
   | _ => False
   end) /\
  wp (dyn_life cell_ops cell_program)
    (fun rs s' => dead s' [] /\ exists vs made calls, list_ops cell_ops eq cell_program [] vs rs made calls /\
       acts (d_trace s') = acts (d_trace (empty_cells 9)) ++ calls ++ drop_calls cell_ops (reverse vs) /\
       (has_drop cell_ops = true -> made ≡ₚ (rs ≫= moved_out) ++ dropped calls ++ reverse vs))
    (fun _ s' => droppable cell_ops s') (empty_cells 9).
Proof.
  split; [vm_compute; reflexivity|].
  apply (dyn_refines_list cell_ops cell_program (empty_cells 9) []); [done|apply empty_cells_nothing|apply cell_program_ok].
Defined.

(** Elements of 8 bytes that are cloned as they are. *)
Definition word_ops : elem_ops Z heap := ElemOps 8 8 None (Some (fun v _ => ret (Some v))) 0.

#[export] Instance word_ops_ok : ElemOk word_ops eq.
Proof. split; [done|by unfold is_u64; cbn; ilia|done|]. intros f v a e [= <-]. unfold wp. cbn. by intros w [= ->]. Qed.

Definition one_by_one (n : nat) : list (dyn_op Z) := concat (replicate n [Append [7] None; Insert 0 [5]; Pop]).

Lemma one_by_one_ok n : Forall op_ok (one_by_one n) /\ Forall steady (one_by_one n).
Proof.
  unfold one_by_one. induction n as [|n IH]; [done|]. destruct IH as [H1 H2]. cbn.
  split; repeat (apply Forall_cons; split; [unfold op_ok, flags_ok, INT64_MAX; cbn; by (lia || done)|]); done.
Qed.

(** A hundred and twenty single insertions, half of them popped again. *)
Lemma growth_amortized_witness :
  (let s' := final (run_ops word_ops (one_by_one 60)) (empty_cells 20) in
   (len (d_self s'), taken (d_trace s'), blocks (d_trace s'), total (one_by_one 60)) = (60, 8 * (8 + 16 + 32 + 64), 4, 120)) /\
  wp (run_ops word_ops (one_by_one 60)) (fun _ s' => cheap word_ops (total (one_by_one 60)) (empty_cells 20) s')
    (fun _ s' => cheap word_ops (total (one_by_one 60)) (empty_cells 20) s') (empty_cells 20).
Proof.
  split; [vm_compute; reflexivity|].
  apply (growth_amortized word_ops (one_by_one 60) (empty_cells 20) []); [done|apply empty_cells_nothing|apply one_by_one_ok..|].
  vm_compute. discriminate.
Defined.

(** What refusals cost: with the block full, each of fifty appends of an element
    that cannot be cloned takes a block of 16 elements and gives it back. *)
Example refused_growth :
  let s' := final (run_ops cell_ops (Append [1; 2; 3; 4; 5; 6; 7; 8] None :: replicate 50 (Append [99] None))) (empty_cells 60) in
  (len (d_self s'), taken (d_trace s'), blocks (d_trace s'), refusals (d_trace s')) = (8, 8 * (8 + 50 * 16), 51, 50).
Proof. vm_compute. reflexivity. Qed.

(** What the bound leaves out: inserting an element of the array before itself
    doubles the block each time; after seven, 8 elements have room for 1024. *)
Example self_insert_growth :
  let s' := final (run_ops word_ops (Append [7] None :: replicate 7 (InsertSelf 0 0 1))) (empty_cells 20) in
  (len (d_self s'), cap (d_self s')) = (8, 1024).
Proof. vm_compute. reflexivity. Qed.

(** The array [vs] in a block of 8 elements. *)
Definition cells_of (vs : list Z) : dstate Z heap :=
  DState (RtDynamic (Some 0) (zlen vs) 8 7) {[ 0 := Block 4096 ((Some <$> vs) ++ replicate (8 - length vs) None) ]} 1
    [EvAlloc 7 64 8 4096] (Heap 8192 9).

Lemma cells_of_array vs : (length vs <= 8)%nat -> is_array cell_ops (cells_of vs) vs [].
Proof.
  intros Hv. split; split; cbn.
  - done.
  - ilia.
  - apply (layout_block _ _ _ 0 4096 (replicate (8 - length vs) None)); cbn; try done.
    + rewrite length_replicate. lia.
  - intros b x [<- _]%lookup_singleton_Some. lia.
  - intros b [x [<- _]%lookup_singleton_Some]. done.
  - done.
Qed.

(** Elements of the array are appended to itself, one more than there is room
    for in a block of 8. *)
Lemma dyn_append_correct_witness :
  let s := cells_of [1; 2; 3; 4; 5] in
  is_array cell_ops s [1; 2; 3; 4; 5] [] /\
  wp (dyn_append_owned cell_ops (Inside 0 1) None (zlen [2; 3; 4; 5]))
    (outcome (R:=eq) cell_ops s [1; 2; 3; 4; 5] (fun ws' => [1; 2; 3; 4; 5] ++ ws') [] None [2; 3; 4; 5])
    (fun _ s' => live cell_ops s' [1; 2; 3; 4; 5]) s.
Proof.
  cbn zeta. pose proof (cells_of_array [1; 2; 3; 4; 5] ltac:(cbn; lia)) as Harr. split; [exact Harr|].
  apply (dyn_append_correct cell_ops); [exact Harr| |done|cbn; ilia].
  cbn. split_and!; [lia|lia|done|by right].
Defined.

Lemma dyn_insert_correct_witness :
  let s := cells_of [1; 2] in
  (match dyn_insert cell_ops 1 (Inside 0 0) 2 s with
   | Ok true s' => (fun b => take 4 (cells b)) <$> d_store s' !! 1 = Some [Some 1; Some 1; Some 2; Some 2]
   | _ => False
   end) /\
  (if decide (0 <= 1 <= zlen [1; 2]) then
    wp (dyn_insert cell_ops 1 (Inside 0 0) (zlen [1; 2]))
      (outcome (R:=eq) cell_ops s [1; 2] (fun ws' => take (Z.to_nat 1) [1; 2] ++ ws' ++ drop (Z.to_nat 1) [1; 2]) [] None [1; 2])
      (fun _ s' => live cell_ops s' [1; 2] \/ e_clone cell_ops <> None) s
  else dyn_insert cell_ops 1 (Inside 0 0) (zlen [1; 2]) s = Stop (Panicked "this insert index is out of range") s).
Proof.
  cbn zeta. split; [vm_compute; reflexivity|]. apply (dyn_insert_correct cell_ops).
  - apply cells_of_array. cbn. lia.
  - cbn. split_and!; [lia|lia|done|by right].
  - cbn. ilia.
Defined.

(** The hook panics on 13: the second drop does the rest. *)
Lemma dyn_drop_exactly_once_witness :
  (match dyn_drop cell_ops (cells_of [1; 2; 13; 4]) with
   | Stop _ s1 => dropped (d_trace s1) = [4; 13] /\ dropped (d_trace (final (dyn_drop cell_ops) s1)) = [4; 13; 2; 1]
   | _ => False
   end) /\
  match dyn_drop cell_ops (cells_of [1; 2; 13; 4]) with
  | Ok _ s' => dead s' [] /\ dropped (d_trace s') = [] ++ reverse [1; 2; 13; 4]
  | Stop _ s1 => exists pre post, [1; 2; 13; 4] = pre ++ post /\ post <> [] /\
      dropped (d_trace s1) = [] ++ reverse post /\
      match dyn_drop cell_ops s1 with
      | Ok _ s2 => dead s2 [] /\ dropped (d_trace s2) = [] ++ reverse [1; 2; 13; 4]
      | Stop _ s2 => exists us, is_array cell_ops s2 us [] /\ us `prefix_of` pre
      | Undefined | NoFuel => False
      end
  | Undefined | NoFuel => False
  end.
Proof.
  split; [vm_compute; by split|].
  apply (dyn_drop_exactly_once cell_ops (cells_of [1; 2; 13; 4])); [|done]. apply cells_of_array. cbn. lia.
Defined.

Lemma dyn_clone_correct_witness :
  (match dyn_clone cell_ops [1; 2; 99] 7 (empty_cells 3) with
   | Ok false s' => dropped (d_trace s') = [2; 1] /\ ledger (d_trace s') = Some []
   | _ => False
   end) /\
  wp (dyn_clone cell_ops [1; 2; 99] 7) (clone_post cell_ops (R:=eq) (empty_cells 3) [1; 2; 99] [] 7)
    (fun _ s' => exists ws, live cell_ops s' ws) (empty_cells 3).
Proof.
  split; [vm_compute; by split|].
  apply (dyn_clone_correct cell_ops); [apply empty_cells_nothing|lia|cbn; ilia].
Defined.

(** "aé€😀" *)
Lemma string_to_runes_correct_witness :
  (match string_to_runes (Some [97; 195; 169; 226; 130; 172; 240; 159; 152; 128]) 10 7 (empty_cells 3) with
   | Ok true s' => (fun b => take 4 (cells b)) <$> d_store s' !! 0 = Some [Some 97; Some 233; Some 8364; Some 128512]
   | _ => False
   end) /\
  wp (string_to_runes (Some (encode_all [97; 233; 8364; 128512])) (zlen (encode_all [97; 233; 8364; 128512])) 7)
    (fun r s' => dropped (d_trace s') = dropped (d_trace (empty_cells 3)) /\
       if r then is_array rune_ops s' [97; 233; 8364; 128512] [] /\ allocator (d_self s') = 7 else dead s' [])
    (fun _ s' => live rune_ops s' []) (empty_cells 3).
Proof.
  split; [vm_compute; reflexivity|].
  apply string_to_runes_correct; [apply empty_cells_nothing|lia| |vm_compute; by intros].
  repeat constructor; unfold is_scalar; lia.
Defined.

(** A clone hook that panics inside an insertion leaves the shifted tail behind
    the length: the drop that the unwind runs destroys one element twice and
    another never. *)
Example insert_panic_destroys_twice :
  match dyn_insert cell_ops 0 (Outside [66]) 1 (cells_of [1; 2]) with
  | Stop (Panicked _) s' => dropped (d_trace (final (dyn_drop cell_ops) s')) = [1; 1]
  | _ => False
  end.
Proof. vm_compute. reflexivity. Qed.
