(* ===== verification/Format.v ===== *)
(** The byte sink behind [core:fmt] and the spellings of integers, runes,
    booleans, pointers and quoted texts ([runtime/format.c]). *)
From S2P Require Import Prelude Utf8.
From Stdlib Require Import Ascii.

(** [loke_rt_options_v1]. *)
Record options_v1 := OptionsV1 { base : Z; uppercase : Z }.

(** [loke_rt_writer_v1]: the sink's address and its witness table. *)
Record writer_v1 := WriterV1 { w_data : Z; w_witness : Z }.

Definition base_of (o : option options_v1) : Z :=
  match o with
  | None => 10
  | Some o => if (base o <? 2) || (36 <? base o) then 10 else base o
  end.
Definition upper_of (o : option options_v1) : bool :=
  match o with None => false | Some o => negb (uppercase o =? 0) end.

(** * The standard streams *)

Definition LOKE_RT_STDERR : Z := 2.

(** The C library buffers [stdout] and not [stderr]. *)
Record stdio := Stdio { stdout_pending : bytes; stdout_written : bytes; stderr_written : bytes }.

Definition write_std (state : Z) (bs : bytes) (count : Z) : M stdio unit :=
  if 0 <? count then
    if count <=? zlen bs then
      let bs := take (Z.to_nat count) bs in
      modify (fun s =>
        if state =? LOKE_RT_STDERR then Stdio (stdout_pending s) (stdout_written s) (stderr_written s ++ bs)
        else Stdio (stdout_pending s ++ bs) (stdout_written s) (stderr_written s))
    else undefined
  else ret tt.

Definition flush_stdout : M stdio unit := modify (fun s =>
  Stdio [] (stdout_written s ++ stdout_pending s) (stderr_written s)).

(** * Spelling integers *)

Definition digits_of (upper : bool) : bytes :=
  if upper then lit "0123456789ABCDEFGHIJKLMNOPQRSTUVWXYZ" else lit "0123456789abcdefghijklmnopqrstuvwxyz".

(** The loop of [spell_unsigned128] over a scratch of [room] bytes; [None] past
    its end. *)
Fixpoint spell_loop (room : nat) (digits : bytes) (b value : Z) (scratch : bytes) : option bytes :=
  match room with
  | O => None
  | S room =>
      d ← at_index digits (value `mod` b);
      let scratch := scratch ++ [d] in
      let value := value / b in
      if value =? 0 then Some scratch else spell_loop room digits b value scratch
  end.

(** [spell_unsigned128] into a buffer with room for [room] bytes. *)
Definition spell_unsigned128 (room value b : Z) (upper : bool) : option bytes :=
  scratch ← spell_loop 128 (digits_of upper) b value [];
  if zlen scratch <=? room then Some (reverse scratch) else None.

Definition spell_unsigned (room value b : Z) (upper : bool) : option bytes := spell_unsigned128 room value b upper.

Definition wrap128 (x : Z) : Z := x mod 2 ^ 128.

(** [((unsigned __int128)high << 64) | low] *)
Definition wide (low high : Z) : Z := Z.lor (wrap128 (Z.shiftl high 64)) low.

Section Format.
Context {E : Type}.

(** [loke_rt_v1_sink_write]: the witness of a [fmt.Sink], which is a program's
    own code. *)
Context (sink_write : writer_v1 -> bytes -> M E unit).

(** What the sink was given, call by call. *)
Record fstate := FState { chunks : list bytes; f_env : E }.

Definition sink (w : writer_v1) (bs : bytes) : M fstate unit := fun s =>
  match sink_write w bs (f_env s) with
  | Ok a e => Ok a (FState (chunks s ++ [bs]) e)
  | Stop h e => Stop h (FState (chunks s ++ [bs]) e)
  | Undefined => Undefined
  | NoFuel => NoFuel
  end.

(** [count] bytes at a pointer into [bs]. *)
Definition fmt_bytes (w : writer_v1) (bs : bytes) (count : Z) : M fstate unit :=
  if w_witness w =? 0 then panic "call through a nil dyn view"
  else if 0 <? count then
    if count <=? zlen bs then sink w (take (Z.to_nat count) bs) else undefined
  else ret tt.

Definition fmt_u64 (w : writer_v1) (value : Z) (o : option options_v1) : M fstate unit :=
  let! text := need (spell_unsigned 64 value (base_of o) (upper_of o)) in
  fmt_bytes w text (zlen text).

Definition fmt_i64 (w : writer_v1) (value : Z) (o : option options_v1) : M fstate unit :=
  let '(sign, magnitude) :=
    if value <? 0 then (lit "-", wrap64 (wrap64 (- (value + 1)) + 1)) else ([], wrap64 value) in
  let! text := need (spell_unsigned (66 - zlen sign) magnitude (base_of o) (upper_of o)) in
  fmt_bytes w (sign ++ text) (zlen sign + zlen text).

Definition fmt_u128 (w : writer_v1) (low high : Z) (o : option options_v1) : M fstate unit :=
  let! text := need (spell_unsigned128 128 (wide low high) (base_of o) (upper_of o)) in
  fmt_bytes w text (zlen text).

Definition fmt_i128 (w : writer_v1) (low high : Z) (o : option options_v1) : M fstate unit :=
  let bits := wide low high in
  let '(sign, magnitude) :=
    if negb (Z.shiftr high 63 =? 0) then (lit "-", wrap128 (wrap128 (Z.lnot bits) + 1)) else ([], bits) in
  let! text := need (spell_unsigned128 (129 - zlen sign) magnitude (base_of o) (upper_of o)) in
  fmt_bytes w (sign ++ text) (zlen sign + zlen text).

(** * Other scalars *)

Definition fmt_bool (w : writer_v1) (value : Z) : M fstate unit :=
  if negb (value =? 0) then fmt_bytes w (lit "true") 4 else fmt_bytes w (lit "false") 5.

(** U+FFFD. *)
Definition replacement_bytes : bytes := [0xEF; 0xBF; 0xBD].

Definition fmt_rune (w : writer_v1) (value : Z) : M fstate unit :=
  let buffer := encode_rune value in
  if zlen buffer =? 0 then fmt_bytes w replacement_bytes 3 else fmt_bytes w buffer (zlen buffer).

Definition fmt_ptr (w : writer_v1) (value : Z) : M fstate unit :=
  if value =? 0 then fmt_bytes w (lit "<nil>") 5
  else
    let! text := need (spell_unsigned (18 - 2) value 16 true) in
    fmt_bytes w (lit "0x" ++ text) (2 + zlen text).

(** * Quoted texts *)

Definition hex_digits : bytes := lit "0123456789ABCDEF".

(** The escape of one byte; [None] where it is written as it is. *)
Definition escape_of (b quote : Z) : option bytes :=
  if (b =? 92) || (b =? quote) then Some [92; b]
  else if b =? 10 then Some [92; 110]
  else if b =? 13 then Some [92; 114]
  else if b =? 9 then Some [92; 116]
  else if (b <? 0x20) || (b =? 0x7F) then
    h ← at_index hex_digits (Z.shiftr b 4);
    l ← at_index hex_digits (Z.land b 15);
    Some [92; 120; h; l]
  else None.

Fixpoint quoted_loop (n : nat) (w : writer_v1) (bs : bytes) (quote i start : Z) : M fstate Z :=
  match n with
  | O => ret start
  | S n =>
      let! b := need (at_index bs i) in
      match escape_of b quote with
      | None => quoted_loop n w bs quote (i + 1) start
      | Some escape =>
          fmt_bytes w (drop (Z.to_nat start) bs) (i - start) ;;;
          fmt_bytes w escape (zlen escape) ;;;
          quoted_loop n w bs quote (i + 1) (i + 1)
      end
  end.

Definition quoted (w : writer_v1) (bs : bytes) (count quote : Z) : M fstate unit :=
  fmt_bytes w [quote] 1 ;;;
  let! start := quoted_loop (Z.to_nat count) w bs quote 0 0 in
  fmt_bytes w (drop (Z.to_nat start) bs) (count - start) ;;;
  fmt_bytes w [quote] 1.

Definition fmt_quoted (w : writer_v1) (bs : bytes) (count : Z) : M fstate unit := quoted w bs count 34.

Definition fmt_quoted_rune (w : writer_v1) (value : Z) : M fstate unit :=
  let buffer := encode_rune value in
  if zlen buffer =? 0 then quoted w replacement_bytes 3 39 else quoted w buffer (zlen buffer) 39.
End Format.
Arguments fstate : clear implicits.
