(* ===== verification/FormatSpec.v ===== *)
(** Reading back what [Format] spells: digits in any base, and quoted
    literals. *)
From S2P Require Import Prelude Interfaces Utf8 Utf8Codec Format.

(** * Readers *)

Definition digit_value (c : Z) : option Z :=
  if (48 <=? c) && (c <=? 57) then Some (c - 48)
  else if (65 <=? c) && (c <=? 90) then Some (c - 55)
  else if (97 <=? c) && (c <=? 122) then Some (c - 87)
  else None.

Fixpoint read_from (b acc : Z) (text : bytes) : option Z :=
  match text with
  | [] => Some acc
  | c :: text => d ← digit_value c; if d <? b then read_from b (acc * b + d) text else None
  end.

Definition read_digits (b : Z) (text : bytes) : option Z :=
  match text with [] => None | _ => read_from b 0 text end.

(** A number with an optional minus sign. *)
Definition read_int (b : Z) (text : bytes) : option Z :=
  match text with
  | [] => None
  | c :: rest => if c =? 45 then Z.opp <$> read_digits b rest else read_digits b text
  end.

(** No leading zeros, and no sign on zero. *)
Definition canonical_digits (text : bytes) : Prop := text = [48] \/ exists c rest, text = c :: rest /\ c <> 48 /\ c <> 45.

(** * Digits *)

Definition digit_ok (upper : bool) (d : nat) : bool :=
  match digits_of upper !! d with
  | Some c => bool_decide (digit_value c = Some (Z.of_nat d)) && (bool_decide (c = 48) || negb (d =? 0)%nat) &&
      (negb (c =? 48) || (d =? 0)%nat) && negb (c =? 45) && (32 <=? c) && (c <? 127)
  | None => false
  end.

Lemma digit_spec upper d : 0 <= d < 36 ->
  exists c, at_index (digits_of upper) d = Some c /\ digit_value c = Some d /\ (c = 48 <-> d = 0) /\ c <> 45.
Proof.
  intros Hd. assert (forallb (digit_ok upper) (seq 0 36) = true) as H by (destruct upper; vm_compute; reflexivity).
  rewrite forallb_forall in H. specialize (H (Z.to_nat d)).
  assert (digit_ok upper (Z.to_nat d) = true) as Hok by (apply H, in_seq; lia). unfold digit_ok in Hok.
  unfold at_index. destruct (Z.leb_spec 0 d); [|lia].
  destruct (digits_of upper !! Z.to_nat d) as [c|]; [|done]. exists c. split; [done|].
  apply andb_true_iff in Hok as [[[[[H1%bool_decide_eq_true H2]%andb_true_iff H3]%andb_true_iff H4]%andb_true_iff _]%andb_true_iff _].
  split; [rewrite H1; f_equal; lia|].
  apply orb_true_iff in H2, H3. rewrite negb_true_iff, Nat.eqb_neq in H2. rewrite bool_decide_eq_true in H2.
  rewrite negb_true_iff, Z.eqb_neq, Nat.eqb_eq in H3. apply negb_true_iff, Z.eqb_neq in H4. split; [|done]. lia.
Qed.

Lemma read_from_app b acc t u v : read_from b acc t = Some v -> read_from b acc (t ++ u) = read_from b v u.
Proof.
  revert acc. induction t as [|c t IH]; intros acc; [by intros [= ->]|]. cbn.
  destruct (digit_value c) as [d|]; [|done]. cbn. destruct (d <? b); [apply IH|done].
Qed.

(** [ds] are the digits of [v], least significant first. *)
Lemma spell_loop_spec upper b room v scratch : 2 <= b <= 36 -> (0 < room)%nat -> 0 <= v < b ^ Z.of_nat room ->
  exists ds, spell_loop room (digits_of upper) b v scratch = Some (scratch ++ ds) /\
    (forall acc, read_from b acc (reverse ds) = Some (acc * b ^ zlen ds + v)) /\
    (forall k : nat, (0 < k)%nat -> v < b ^ Z.of_nat k -> (length ds <= k)%nat) /\ canonical_digits (reverse ds).
Proof.
  intros Hb. revert v scratch. induction room as [|room IH]; intros v scratch Hr Hv; [lia|]. cbn [spell_loop].
  pose proof (Z.mod_pos_bound v b ltac:(lia)) as Hm. pose proof (Z.div_mod v b ltac:(lia)) as Hdm.
  destruct (digit_spec upper (v `mod` b) ltac:(lia)) as (c & Hc & Hval & H48 & H45). rewrite Hc. cbn [mbind option_bind].
  destruct (Z.eqb_spec (v / b) 0) as [H0|H0].
  - exists [c]. split; [done|]. split; [|split].
    + intros acc. cbn. rewrite Hval. cbn. destruct (Z.ltb_spec (v `mod` b) b); [|lia]. f_equal. lia.
    + intros k Hk _. cbn. lia.
    + destruct (decide (c = 48)) as [->|Hne]; [by left|]. right. exists c, []. done.
  - assert (0 <= v / b) as Hp by (apply Z.div_pos; lia).
    assert (v / b < b ^ Z.of_nat room) as Hlt.
    { apply Z.div_lt_upper_bound; [lia|]. rewrite <- Z.pow_succ_r by lia.
      replace (Z.succ (Z.of_nat room)) with (Z.of_nat (S room)) by lia. lia. }
    assert (0 < room)%nat as Hr' by (destruct room; [cbn in Hlt; lia|lia]).
    destruct (IH (v / b) (scratch ++ [c]) Hr' ltac:(lia)) as (ds & -> & Hread & Hlen & Hcan).
    exists (c :: ds). rewrite <- app_assoc. split; [done|]. rewrite reverse_cons. split; [|split].
    + intros acc. rewrite (read_from_app _ _ _ _ _ (Hread acc)). cbn. rewrite Hval. cbn.
      destruct (Z.ltb_spec (v `mod` b) b); [|lia]. f_equal.
      replace (Z.of_nat (S (length ds))) with (Z.succ (zlen ds)) by lia. rewrite Z.pow_succ_r by lia. lia.
    + intros k Hk Hvk. cbn [length]. destruct k as [|k]; [lia|].
      assert (v / b < b ^ Z.of_nat k) as Hlt'.
      { apply Z.div_lt_upper_bound; [lia|]. rewrite <- Z.pow_succ_r by lia.
        replace (Z.succ (Z.of_nat k)) with (Z.of_nat (S k)) by lia. lia. }
      assert (0 < k)%nat by (destruct k; [cbn in Hlt'; lia|lia]). specialize (Hlen k ltac:(lia) Hlt'). lia.
    + right. destruct Hcan as [He|(c' & rest & -> & ? & ?)]; [|by exists c', (rest ++ [c])].
      exfalso. specialize (Hread 0). rewrite He in Hread. cbn in Hread. destruct (Z.ltb_spec (48 - 48) b); [|lia].
      injection Hread. lia.
Qed.

(** A number of at most 128 binary digits is spelled, and fits where the
    digits of its largest value do. *)
Lemma spell_unsigned128_spec upper b room v (k : nat) : 2 <= b <= 36 -> 0 <= v < 2 ^ 128 -> (0 < k)%nat -> v < b ^ Z.of_nat k ->
  Z.of_nat k <= room ->
  exists text, spell_unsigned128 room v b upper = Some text /\ read_digits b text = Some v /\ canonical_digits text /\
    1 <= zlen text <= Z.of_nat k.
Proof.
  intros Hb Hv Hk Hvk Hroom. unfold spell_unsigned128.
  assert (2 ^ Z.of_nat 128 <= b ^ Z.of_nat 128) as Hpow by (apply Z.pow_le_mono_l; lia).
  destruct (spell_loop_spec upper b 128 v [] Hb ltac:(lia)) as (ds & -> & Hread & Hlen & Hcan).
  { change (Z.of_nat 128) with 128 in *. lia. }
  cbn [mbind option_bind app]. specialize (Hlen k Hk Hvk).
  destruct (Z.leb_spec (zlen ds) room); [|lia]. exists (reverse ds). split; [done|].
  rewrite length_reverse. specialize (Hread 0).
  assert (reverse ds <> []) as Hne by (by destruct Hcan as [->|(c & rest & -> & _)]).
  split; [|split; [done|]].
  - unfold read_digits. by destruct (reverse ds).
  - split; [|lia]. destruct ds; [done|cbn; lia].
Qed.

Lemma read_int_digits b text v : read_digits b text = Some v -> canonical_digits text -> read_int b text = Some v.
Proof.
  intros Hr Hc. destruct Hc as [->|(c & rest & -> & _ & H45)]; [done|]. unfold read_int.
  destruct (Z.eqb_spec c 45); [done|exact Hr].
Qed.

Lemma read_int_minus b text v : read_digits b text = Some v -> read_int b (lit "-" ++ text) = Some (- v).
Proof. intros Hr. cbn. by rewrite Hr. Qed.

Lemma base_of_range o : 2 <= base_of o <= 36.
Proof. destruct o as [o|]; cbn; [|lia]. destruct (Z.ltb_spec (base o) 2), (Z.ltb_spec 36 (base o)); cbn; lia. Qed.

Lemma pow_fits b (k : nat) v : 2 <= b <= 36 -> v < 2 ^ Z.of_nat k -> v < b ^ Z.of_nat k.
Proof. intros Hb Hv. assert (2 ^ Z.of_nat k <= b ^ Z.of_nat k) by (apply Z.pow_le_mono_l; lia). lia. Qed.

(** * Integers *)

Definition is_u128 (v : Z) : Prop := 0 <= v < 2 ^ 128.

Lemma wide_value low high : is_u64 low -> is_u64 high -> wide low high = high * 2 ^ 64 + low /\ is_u128 (wide low high).
Proof.
  intros Hl Hh. unfold wide, wrap128, is_u128. rewrite Z.shiftl_mul_pow2 by lia.
  rewrite Z.mod_small by (unfold is_u64, UINT64_MAX in Hh; lia).
  rewrite lor_add by (unfold is_u64, UINT64_MAX in Hl; lia). split; [done|]. unfold is_u64, UINT64_MAX in *. lia.
Qed.

(** The two's complement value of a pair of halves. *)
Definition wide_signed (low high : Z) : Z :=
  if high <? 2 ^ 63 then high * 2 ^ 64 + low else high * 2 ^ 64 + low - 2 ^ 128.

Lemma i128_magnitude low high : is_u64 low -> is_u64 high ->
  if negb (Z.shiftr high 63 =? 0) then
    wide_signed low high < 0 /\ wrap128 (wrap128 (Z.lnot (wide low high)) + 1) = - wide_signed low high /\
    is_u128 (- wide_signed low high)
  else wide low high = wide_signed low high /\ 0 <= wide_signed low high.
Proof.
  intros Hl Hh. destruct (wide_value low high Hl Hh) as [Hw Hr]. unfold is_u64, UINT64_MAX in *.
  rewrite Z.shiftr_div_pow2 by lia. unfold wide_signed.
  pose proof (Z.div_mod high (2 ^ 63) ltac:(lia)) as Hd. pose proof (Z.mod_pos_bound high (2 ^ 63) ltac:(lia)).
  destruct (Z.eqb_spec (high / 2 ^ 63) 0) as [H0|H0]; cbn [negb].
  - destruct (Z.ltb_spec high (2 ^ 63)); [|lia]. rewrite Hw. lia.
  - destruct (Z.ltb_spec high (2 ^ 63)) as [Hs|Hs]; [rewrite Z.div_small in H0 by lia; lia|].
    assert (wrap128 (Z.lnot (wide low high)) = 2 ^ 128 - 1 - wide low high) as ->.
    { unfold wrap128, Z.lnot. rewrite Hw. symmetry. apply (Z.mod_unique _ _ (-1)); [|lia]. unfold is_u128 in Hr. left. lia. }
    unfold is_u128, wrap128 in *. split; [lia|]. split; [|lia]. rewrite Z.mod_small by lia. lia.
Qed.

Section writers.
Context {E : Type} (sink_write : writer_v1 -> bytes -> M E unit).
Context (sink_behaves : forall w bs, well_behaved (sink_write w bs)).
Implicit Types (s : fstate E) (w : writer_v1).

(** The bytes a formatter wrote: it called the sink with [new], none of them
    empty. *)
Definition wrote s (new : list bytes) s' : Prop :=
  chunks s' = chunks s ++ new /\ Forall (fun c => c <> []) new.

(** The sink ended the program during a call. *)
Definition cut s (h : halt) s' : Prop := chunks s `prefix_of` chunks s'.

Lemma fmt_bytes_spec w (bs : bytes) count s : w_witness w <> 0 -> count <= zlen bs ->
  wp (fmt_bytes sink_write w bs count)
    (fun _ s' => chunks s' = chunks s ++ (if 0 <? count then [take (Z.to_nat count) bs] else [])) (cut s) s.
Proof.
  intros Hw Hc. unfold fmt_bytes. destruct (Z.eqb_spec (w_witness w) 0); [done|].
  destruct (Z.ltb_spec 0 count) as [H0|H0]; [|apply wp_ret; by rewrite app_nil_r].
  destruct (Z.leb_spec count (zlen bs)); [|lia].
  pose proof (sink_behaves w (take (Z.to_nat count) bs) (f_env s)) as Hs. unfold wp, sink in *.
  destruct (sink_write w _ (f_env s)); [done| |done..]. by eexists.
Qed.

(** A text handed over in one call. *)
Lemma fmt_text_spec w (text : bytes) count s : w_witness w <> 0 -> count = zlen text -> text <> [] ->
  wp (fmt_bytes sink_write w text count) (fun _ s' => wrote s [text] s') (cut s) s.
Proof.
  intros Hw -> Ht. eapply wp_conseq; [apply fmt_bytes_spec; [done|lia]| |done]. cbn beta. intros _ s' Hs.
  destruct (Z.ltb_spec 0 (zlen text)); [|destruct text; [done|cbn in *; lia]].
  rewrite Nat2Z.id, firstn_all in Hs. split; [done|]. by constructor.
Qed.

(** A spelling of [v]: one text, which reads back, without leading zeros. *)
Definition spells b v (text : bytes) : Prop :=
  read_int b text = Some v /\
  (canonical_digits text \/ exists t, text = 45 :: t /\ canonical_digits t /\ t <> [48]).

Lemma fmt_magnitude w b upper room (k : nat) top (neg : bool) m s : w_witness w <> 0 -> 2 <= b <= 36 ->
  2 ^ Z.of_nat k = top -> 0 <= m < top -> (0 < k <= 128)%nat -> (neg = true -> m <> 0) ->
  let sign := if neg then lit "-" else [] in zlen sign + Z.of_nat k <= room ->
  wp (let! text := need (spell_unsigned128 (room - zlen sign) m b upper) in
      fmt_bytes sink_write w (sign ++ text) (zlen sign + zlen text))
    (fun _ s' => exists text, wrote s [text] s' /\ spells b (if neg then - m else m) text /\ zlen text <= room)
    (cut s) s.
Proof.
  intros Hw Hb <- Hm Hk Hneg sign Hroom.
  assert (2 ^ Z.of_nat k <= 2 ^ 128) as Hpow by (apply Z.pow_le_mono_r; lia).
  destruct (spell_unsigned128_spec upper b (room - zlen sign) m k Hb) as (text & Ht & Hread & Hcan & Hlen);
    [lia|lia|apply pow_fits; [done|lia]|lia|].
  apply wp_bind, (wp_need _ text); [done|]. eapply wp_conseq; [apply fmt_text_spec| |done].
  - done.
  - by rewrite length_app, Nat2Z.inj_add.
  - destruct text; [cbn in Hlen; lia|by destruct sign].
  - cbn beta. intros _ s' Hs. exists (sign ++ text). split; [done|]. split; [|rewrite length_app; lia]. unfold sign. destruct neg.
    + split; [by apply read_int_minus|]. right. exists text. split; [done|]. split; [done|]. intros ->.
      cbn in Hread. destruct (Z.ltb_spec (48 - 48) b); [|lia]. injection Hread as Hread. by apply Hneg.
    + split; [by apply read_int_digits|by left].
Qed.

(** The four integer formatters. *)
Inductive int_call :=
| U64 (value : Z)
| I64 (value : Z)
| U128 (low high : Z)
| I128 (low high : Z).

Definition call_ok (c : int_call) : Prop :=
  match c with
  | U64 v => is_u64 v
  | I64 v => is_i64 v
  | U128 low high | I128 low high => is_u64 low /\ is_u64 high
  end.
Definition call_value (c : int_call) : Z :=
  match c with
  | U64 v | I64 v => v
  | U128 low high => high * 2 ^ 64 + low
  | I128 low high => wide_signed low high
  end.
(** The size of the C code's buffer. *)
Definition call_buffer (c : int_call) : Z :=
  match c with U64 _ => 64 | I64 _ => 66 | U128 _ _ => 128 | I128 _ _ => 129 end.
Definition run_call w (c : int_call) (o : option options_v1) : M (fstate E) unit :=
  match c with
  | U64 v => fmt_u64 sink_write w v o
  | I64 v => fmt_i64 sink_write w v o
  | U128 low high => fmt_u128 sink_write w low high o
  | I128 low high => fmt_i128 sink_write w low high o
  end.

Lemma run_call_spec w c o s : w_witness w <> 0 -> call_ok c ->
  wp (run_call w c o)
    (fun _ s' => exists text, wrote s [text] s' /\ spells (base_of o) (call_value c) text /\ zlen text <= call_buffer c)
    (cut s) s.
Proof.
  intros Hw Hc. pose proof (base_of_range o) as Hb. destruct c as [v|v|low high|low high]; cbn [call_ok call_value run_call call_buffer] in *.
  - unfold is_u64, UINT64_MAX in Hc.
    apply (fmt_magnitude w (base_of o) (upper_of o) 64 64 (2 ^ 64) false v s Hw Hb); try done; cbn; lia.
  - unfold fmt_i64. unfold is_i64, INT64_MIN, INT64_MAX in Hc. destruct (Z.ltb_spec v 0) as [Hneg|Hneg].
    + assert (wrap64 (wrap64 (- (v + 1)) + 1) = - v) as -> by (unfold wrap64; rewrite (Z.mod_small (- (v + 1))), Z.mod_small; lia).
      eapply wp_conseq; [apply (fmt_magnitude w (base_of o) (upper_of o) 66 65 (2 ^ 65) true (- v) s Hw Hb)| |done]; try done; try lia.
      intros _ s' (text & ? & ? & ?). exists text. rewrite Z.opp_involutive in *. done.
    + unfold wrap64. rewrite Z.mod_small by lia. eapply wp_conseq;
        [apply (fmt_magnitude w (base_of o) (upper_of o) 66 66 (2 ^ 66) false v s Hw Hb)| |done]; try done; lia.
  - destruct Hc as [Hl Hh]. destruct (wide_value low high Hl Hh) as [<- Hr]. unfold is_u128 in Hr.
    by apply (fmt_magnitude w (base_of o) (upper_of o) 128 128 (2 ^ 128) false _ s Hw Hb); try done; lia.
  - destruct Hc as [Hl Hh]. unfold fmt_i128. pose proof (i128_magnitude low high Hl Hh) as Hm.
    destruct (negb (Z.shiftr high 63 =? 0)).
    + destruct Hm as (Hneg & -> & Hr). unfold is_u128 in Hr.
      eapply wp_conseq; [apply (fmt_magnitude w (base_of o) (upper_of o) 129 128 (2 ^ 128) true (- wide_signed low high) s Hw Hb)| |done]; try done; try lia.
      intros _ s' (text & ? & ? & ?). exists text. rewrite Z.opp_involutive in *. done.
    + destruct Hm as [Hm ?]. destruct (wide_value low high Hl Hh) as [_ Hr]. unfold is_u128 in Hr. rewrite Hm in *.
      eapply wp_conseq; [apply (fmt_magnitude w (base_of o) (upper_of o) 129 128 (2 ^ 128) false _ s Hw Hb)| |done]; try done; lia.
Qed.

(** * Quoted texts *)

Lemma wrote_trans s s1 s2 new1 new2 : wrote s new1 s1 -> wrote s1 new2 s2 -> wrote s (new1 ++ new2) s2.
Proof. intros [H1 F1] [H2 F2]. split; [by rewrite H2, H1, app_assoc|by apply Forall_app]. Qed.

Lemma wrote_nothing s : wrote s [] s.
Proof. split; [by rewrite app_nil_r|constructor]. Qed.

Lemma wrote_cut s s1 s2 new h : wrote s new s1 -> cut s1 h s2 -> cut s h s2.
Proof. intros [H1 _] Hc. unfold cut in *. etrans; [|exact Hc]. rewrite H1. by apply prefix_app_r. Qed.

Definition some_chunk (bs : bytes) : list bytes := match bs with [] => [] | _ => [bs] end.

Lemma concat_some_chunk (bs : bytes) : concat (some_chunk bs) = bs.
Proof. destruct bs; cbn; [done|]. by rewrite app_nil_r. Qed.

(** A slice of a text, of which nothing may be left. *)
Lemma fmt_slice_spec w (bs : bytes) count s : w_witness w <> 0 -> 0 <= count <= zlen bs ->
  wp (fmt_bytes sink_write w bs count)
    (fun _ s' => wrote s (some_chunk (take (Z.to_nat count) bs)) s') (cut s) s.
Proof.
  intros Hw Hc. eapply wp_conseq; [apply fmt_bytes_spec; [done|lia]| |done]. cbn beta. intros _ s' Hs.
  destruct (Z.ltb_spec 0 count).
  - destruct (take (Z.to_nat count) bs) as [|c cs] eqn:Ht.
    + apply (f_equal length) in Ht. rewrite length_take in Ht. cbn in Ht. lia.
    + split; [done|]. by constructor.
  - replace (Z.to_nat count) with 0%nat by lia. rewrite take_0. split; [done|constructor].
Qed.

Definition esc (quote b : Z) : bytes := default [b] (escape_of b quote).
Definition escaped quote (bs : bytes) : bytes := bs ≫= esc quote.
Definition slice (bs : bytes) (i j : Z) : bytes := take (Z.to_nat (j - i)) (drop (Z.to_nat i) bs).

Lemma escape_not_empty b quote e : escape_of b quote = Some e -> e <> [].
Proof.
  unfold escape_of. destruct ((b =? 92) || (b =? quote)); [by intros [= <-]|].
  destruct (b =? 10); [by intros [= <-]|]. destruct (b =? 13); [by intros [= <-]|]. destruct (b =? 9); [by intros [= <-]|].
  destruct ((b <? 32) || (b =? 127)); [|done].
  destruct (at_index hex_digits (Z.shiftr b 4)) as [h|]; [|done]. destruct (at_index hex_digits (Z.land b 15)); [|done].
  by intros [= <-].
Qed.

Lemma slice_snoc (bs : bytes) i j b : 0 <= i <= j -> at_index bs j = Some b -> slice bs i (j + 1) = slice bs i j ++ [b].
Proof.
  intros Hi Hb. rewrite at_index_lookup in Hb by lia. unfold slice.
  replace (Z.to_nat (j + 1 - i)) with (S (Z.to_nat (j - i))) by lia. apply take_S_r.
  rewrite lookup_drop. rewrite <- Hb. f_equal. lia.
Qed.

Lemma quoted_loop_spec w (bs : bytes) quote : w_witness w <> 0 ->
  forall n i start s, 0 <= start <= i -> i + Z.of_nat n = zlen bs ->
  wp (quoted_loop sink_write n w bs quote i start)
    (fun start' s' => 0 <= start' <= zlen bs /\ exists new, wrote s new s' /\
       concat new ++ drop (Z.to_nat start') bs = slice bs start i ++ escaped quote (drop (Z.to_nat i) bs))
    (cut s) s.
Proof.
  intros Hw n. induction n as [|n IH]; intros i start s Hs Hn; cbn [quoted_loop].
  { apply wp_ret. split; [lia|]. exists []. split; [apply wrote_nothing|]. cbn [concat app].
    rewrite (drop_ge bs (Z.to_nat i)) by lia. cbn. rewrite app_nil_r. unfold slice.
    rewrite take_ge; [done|]. rewrite length_drop. lia. }
  destruct (at_index_Some bs i ltac:(lia)) as [b Hb]. apply wp_bind, (wp_need _ b); [done|].
  assert (drop (Z.to_nat i) bs = b :: drop (Z.to_nat (i + 1)) bs) as Hdrop.
  { rewrite at_index_lookup in Hb by lia. rewrite (drop_S _ _ _ Hb). do 2 f_equal. lia. }
  assert (forall e, escape_of b quote = e -> escaped quote (drop (Z.to_nat i) bs) =
    default [b] e ++ escaped quote (drop (Z.to_nat (i + 1)) bs)) as Hesc by (intros e <-; by rewrite Hdrop).
  destruct (escape_of b quote) as [e|] eqn:He; rewrite (Hesc _ eq_refl); cbn [default from_option id].
  - apply wp_bind. eapply wp_conseq; [apply fmt_slice_spec; [done|rewrite length_drop; lia]| |done].
    cbn beta. intros _ s1 H1. fold (slice bs start i) in H1.
    apply wp_bind. eapply wp_conseq; [apply fmt_text_spec; [done|done|by eapply escape_not_empty]| |by intros; eapply wrote_cut].
    cbn beta. intros _ s2 H2. eapply wp_conseq; [apply IH; lia| |].
    + intros start' s' (Hst & new & Hnew & Hcat). split; [done|].
      exists (some_chunk (slice bs start i) ++ [e] ++ new). split; [by eapply wrote_trans, wrote_trans|].
      rewrite concat_app, concat_some_chunk, <- app_assoc. f_equal. cbn [app concat]. rewrite <- app_assoc, Hcat.
      unfold slice. by rewrite Z.sub_diag.
    + intros h s' Hc. eapply wrote_cut; [|exact Hc]. by eapply wrote_trans.
  - eapply wp_conseq; [apply (IH (i + 1) start s); lia| |done].
    intros start' s' (Hst & new & Hnew & Hcat). split; [done|]. exists new. split; [done|].
    rewrite Hcat, (slice_snoc bs start i b) by done. by rewrite <- app_assoc.
Qed.

Lemma quoted_spec w (bs : bytes) quote s : w_witness w <> 0 ->
  wp (quoted sink_write w bs (zlen bs) quote)
    (fun _ s' => exists new, wrote s new s' /\ concat new = quote :: escaped quote bs ++ [quote]) (cut s) s.
Proof.
  intros Hw. unfold quoted. apply wp_bind. eapply wp_conseq; [apply fmt_text_spec; done| |done].
  cbn beta. intros _ s1 H1. apply wp_bind. rewrite Nat2Z.id.
  eapply wp_conseq; [apply (quoted_loop_spec w bs quote Hw (length bs) 0 0); lia| |by intros; eapply wrote_cut].
  cbn beta. intros start s2 (Hst & new & H2 & Hcat). unfold slice in Hcat. cbn in Hcat.
  assert (wrote s ([quote] :: new) s2) as H12 by (by eapply (wrote_trans s s1 s2 [[quote]])).
  apply wp_bind. eapply wp_conseq; [apply fmt_slice_spec; [done|rewrite length_drop; lia]| |by intros; eapply wrote_cut].
  cbn beta. intros _ s3 H3. rewrite take_ge in H3 by (rewrite length_drop; lia).
  assert (wrote s (([quote] :: new) ++ some_chunk (drop (Z.to_nat start) bs)) s3) as H13 by (by eapply wrote_trans).
  eapply wp_conseq; [apply fmt_text_spec; done| |by intros; eapply wrote_cut].
  cbn beta. intros _ s4 H4. eexists. split; [by eapply wrote_trans|].
  cbn [app concat]. rewrite !concat_app, concat_some_chunk, Hcat. done.
Qed.
End writers.

(** ** The reader of a literal *)

Definition hex_value (c : Z) : option Z := d ← digit_value c; if d <? 16 then Some d else None.

(** What a literal's bytes stand for, up to its closing quote, which ends it. *)
Fixpoint unescape (quote : Z) (text : bytes) : option bytes :=
  match text with
  | [] => None
  | c :: rest =>
      if c =? quote then match rest with [] => Some [] | _ => None end
      else if c =? 92 then
        match rest with
        | [] => None
        | e :: rest =>
            if e =? 120 then
              match rest with
              | h :: l :: rest => h ← hex_value h; l ← hex_value l; cons (h * 16 + l) <$> unescape quote rest
              | _ => None
              end
            else if e =? 110 then cons 10 <$> unescape quote rest
            else if e =? 114 then cons 13 <$> unescape quote rest
            else if e =? 116 then cons 9 <$> unescape quote rest
            else if (e =? 92) || (e =? quote) then cons e <$> unescape quote rest
            else None
        end
      else if (c <? 0x20) || (c =? 0x7F) then None
      else cons c <$> unescape quote rest
  end.

Definition unquote (quote : Z) (text : bytes) : option bytes :=
  match text with
  | [] => None
  | c :: rest => if c =? quote then unescape quote rest else None
  end.

Definition quote_ok (q : Z) : Prop := q = 34 \/ q = 39.

Definition hex_ok (b : Z) : bool :=
  match at_index hex_digits (Z.shiftr b 4), at_index hex_digits (Z.land b 15) with
  | Some h, Some l => bool_decide (hex_value h = Some (b / 16)) && bool_decide (hex_value l = Some (b mod 16))
  | _, _ => false
  end.

Lemma hex_escape b : is_byte b -> exists h l, at_index hex_digits (Z.shiftr b 4) = Some h /\
  at_index hex_digits (Z.land b 15) = Some l /\ hex_value h = Some (b / 16) /\ hex_value l = Some (b mod 16).
Proof.
  intros Hb. assert (hex_ok b = true) as H by (apply (byte_cases hex_ok); [vm_compute; reflexivity|done]).
  unfold hex_ok in H. destruct (at_index _ _) as [h|], (at_index _ _) as [l|]; try done.
  apply andb_true_iff in H as [?%bool_decide_eq_true ?%bool_decide_eq_true]. by exists h, l.
Qed.

Lemma unescape_esc quote b rest : quote_ok quote -> is_byte b ->
  unescape quote (esc quote b ++ rest) = cons b <$> unescape quote rest.
Proof.
  intros Hq Hb. unfold esc, escape_of.
  destruct (Z.eqb_spec b 92) as [->|H1]; [by destruct Hq as [->| ->]|].
  destruct (Z.eqb_spec b quote) as [->|H2]; [by destruct Hq as [->| ->]|]. cbn [orb].
  destruct (Z.eqb_spec b 10) as [->|]; [by destruct Hq as [->| ->]|].
  destruct (Z.eqb_spec b 13) as [->|]; [by destruct Hq as [->| ->]|].
  destruct (Z.eqb_spec b 9) as [->|]; [by destruct Hq as [->| ->]|].
  destruct ((b <? 32) || (b =? 127)) eqn:H3.
  - destruct (hex_escape b Hb) as (h & l & -> & -> & Hh & Hl).
    pose proof (Z.div_mod b 16 ltac:(lia)) as Hdm. assert (b / 16 * 16 + b mod 16 = b) as He by lia.
    destruct Hq as [->| ->]; cbn -[Z.div Z.modulo]; rewrite Hh, Hl; cbn -[Z.div Z.modulo]; by rewrite He.
  - cbn [default from_option id app unescape].
    destruct (Z.eqb_spec b quote); [done|]. destruct (Z.eqb_spec b 92); [done|]. by rewrite H3.
Qed.

Lemma unquote_escaped quote (bs : bytes) : quote_ok quote -> Forall is_byte bs ->
  unquote quote (quote :: escaped quote bs ++ [quote]) = Some bs.
Proof.
  intros Hq Hb. unfold unquote. rewrite Z.eqb_refl. induction Hb as [|b bs Hb _ IH].
  - cbn. by rewrite Z.eqb_refl.
  - unfold escaped in *. cbn [mbind list_bind]. rewrite <- app_assoc, unescape_esc by done. by rewrite IH.
Qed.
