(* ===== verification/FormatFloat.v ===== *)
(** The spelling of floats ([runtime/format.c]) over the C library: [double],
    [%.*e], [strtod] and the numeric locale are parameters; the choice of the
    shortest spelling, its layout and the shared locale are the code's. *)
From S2P Require Import Prelude Utf8 Format.

(** * The C library on small texts *)

(** [%d] and [%+03d]. *)
Definition print_nat (n : Z) : bytes := default [] (spell_unsigned128 128 n 10 false).
Definition print_int (n : Z) : bytes := if n <? 0 then 45 :: print_nat (- n) else print_nat n.
Definition print_exp (n : Z) : bytes :=
  let digits := print_nat (Z.abs n) in
  (if n <? 0 then 45 else 43) :: (if zlen digits <? 2 then 48 :: digits else digits).

(** [snprintf] of a text into 8 bytes, its terminator included. *)
Definition snprintf8 (text : bytes) : bytes := take 7 text.

Fixpoint digits_prefix (text : bytes) (acc : Z) : Z :=
  match text with
  | c :: text => if (48 <=? c) && (c <=? 57) then digits_prefix text (acc * 10 + (c - 48)) else acc
  | [] => acc
  end.
Definition atoi (text : bytes) : Z :=
  match text with
  | c :: rest => if c =? 45 then - digits_prefix rest 0 else if c =? 43 then digits_prefix rest 0 else digits_prefix text 0
  | [] => 0
  end.

(** [strchr(sci, 'e')]: what stands before and after it. *)
Fixpoint split_e (text : bytes) : option (bytes * bytes) :=
  match text with
  | [] => None
  | c :: rest => if c =? 101 then Some ([], rest) else '(before, after) ← split_e rest; Some (c :: before, after)
  end.

(** * [spell_up] *)

(** The walk to the left: [before] are the bytes up to [*digit], nearest first;
    the answer is the mantissa and whether it carried out of the leading
    digit. *)
Fixpoint spell_up_loop (before after : bytes) : option (bytes * bool) :=
  match before with
  | [] => None
  | c :: before =>
      if c =? 46 then spell_up_loop before (c :: after)
      else if negb (c =? 57) then Some (reverse before ++ c + 1 :: after, false)
      else
        match before with
        | [] => Some (49 :: after, true)
        | p :: _ =>
            if p =? 45 then Some (reverse before ++ 49 :: after, true)
            else spell_up_loop before (48 :: after)
        end
  end.

Definition spell_up (sci : bytes) : option bytes :=
  '(mantissa, exponent) ← split_e sci;
  '(mantissa, carried) ← spell_up_loop (reverse mantissa) [];
  Some (mantissa ++ 101 :: (if (carried : bool) then snprintf8 (print_exp (atoi exponent + 1)) else exponent)).

(** * [spell_general] *)

(** [while (count > 1 && digits[count - 1] == '0')] *)
Fixpoint trim_count (digits : bytes) (count : nat) : nat :=
  match count with
  | S (S _ as n) => if bool_decide (digits !! n = Some 48) then trim_count digits n else count
  | _ => count
  end.

Fixpoint fixed_loop (fuel : nat) (digits : bytes) (count exponent i : Z) (out : bytes) : option bytes :=
  if (i <=? exponent) || (i <? count) then
    match fuel with
    | O => None
    | S fuel =>
        let out := if i =? exponent + 1 then out ++ [46] else out in
        d ← (if i <? count then at_index digits i else Some 48);
        fixed_loop fuel digits count exponent (i + 1) (out ++ [d])
    end
  else Some out.

Definition LOKE_RT_FLOAT_SPELLING_MAX : Z := 32.

(** [None] where the C code would read or write outside a buffer. *)
Definition spell_general (sci : bytes) : option bytes :=
  let '(sign, p) := match sci with c :: rest => if c =? 45 then ([45], rest) else ([], sci) | [] => ([], []) end in
  '(mantissa, exp_text) ← split_e p;
  let digits := filter (fun c => c <> 46) mantissa in
  if (24 <? zlen digits) || (zlen digits =? 0) then None
  else
    let exponent := atoi exp_text in
    let count := trim_count digits (length digits) in
    out ← (if (exponent <? -4) || (17 <=? exponent) then
        Some (sign ++ take 1 digits ++ (if (1 <? count)%nat then 46 :: take (count - 1) (drop 1 digits) else []) ++
          snprintf8 (101 :: print_int exponent))
      else if exponent <? 0 then
        Some (sign ++ [48; 46] ++ replicate (Z.to_nat (- exponent - 1)) 48 ++ take count digits)
      else
        body ← fixed_loop 41 digits (Z.of_nat count) exponent 0 sign;
        Some (body ++ if Z.of_nat count <=? exponent + 1 then [46; 48] else []));
    if zlen out <? LOKE_RT_FLOAT_SPELLING_MAX then Some out else None.

(** * [spell_float] *)

(** [frexp]'s exponent, [ldexp], [nearbyint], the conversion to [float] and [==]
    of [double]. *)
Record double_ops (F : Type) := DoubleOps {
  frexp : F -> Z;
  ldexp : F -> Z -> F;
  nearbyint : F -> F;
  to_float : F -> F;
  equal : F -> F -> bool;
}.
Arguments frexp {F}.
Arguments ldexp {F}.
Arguments nearbyint {F}.
Arguments to_float {F}.
Arguments equal {F}.

Definition nearest_f16 {F} (ops : double_ops F) (x : F) : F :=
  let exponent := frexp ops x in
  let unit := if exponent - 11 <? -24 then -24 else exponent - 11 in
  ldexp ops (nearbyint ops (ldexp ops x (- unit))) unit.

(** The switch of [reads_back]. *)
Definition same_at {F} (ops : double_ops F) (bits : Z) (back value : F) : bool :=
  if bits =? 16 then equal ops (nearest_f16 ops back) value
  else if bits =? 32 then equal ops (to_float ops back) (to_float ops value)
  else equal ops back value.

Section float.
Context {F : Type} (isnan isinf negative : F -> bool).
(** [%.*e] in the C locale, at a number of fractional digits; [_strtod_l]; and
    arithmetic. *)
Context (printf_e : F -> Z -> bytes) (strtod : bytes -> F) (ops : double_ops F).

Definition reads_back (sci : bytes) (value : F) (bits : Z) : bool := same_at ops bits (strtod sci) value.

Definition widest (bits : Z) : Z := if bits =? 16 then 5 else if bits =? 32 then 9 else 17.

Fixpoint float_loop (fuel : nat) (value : F) (bits precision : Z) : option bytes :=
  match fuel with
  | O => None
  | S fuel =>
      let sci := take 31 (printf_e value (precision - 1)) in
      if (precision =? widest bits) || reads_back sci value bits then Some sci
      else
        sci ← spell_up sci;
        if reads_back sci value bits then Some sci else float_loop fuel value bits (precision + 1)
  end.

Definition spell_float (value : F) (bits : Z) : option bytes :=
  if isnan value then Some (lit "nan")
  else if isinf value then Some (if negative value then lit "-inf" else lit "inf")
  else sci ← float_loop 17 value bits 1; spell_general sci.
End float.

(** * The shared locale, and the sinks of floats *)

Definition LOKE_RT_NUMERIC_REJECTED : Z := 1.
Definition LOKE_RT_NUMERIC_OUT_OF_MEMORY : Z := 2.
Definition LOKE_RT_NUMERIC_UNAVAILABLE : Z := 3.
Definition ENOMEM : Z := 12.

Section locale.
Context {F E : Type} (isnan isinf negative : F -> bool).
Context (printf_e : Z -> F -> Z -> bytes) (printf_f : Z -> F -> Z -> bytes) (strtod : Z -> bytes -> F * bytes)
  (ops : double_ops F).
Context (sink_write : writer_v1 -> bytes -> M E unit).
(** [_create_locale], with the [errno] it leaves; [_free_locale]; and what
    another thread has put into [cached] by the time of the exchange, 0 for
    nothing. *)
Context (create_locale : M E (Z * Z)) (free_locale : Z -> M E unit) (published : E -> Z).

Record lstate := LState { cached : Z; l_out : fstate E }.

Definition with_env {A} (m : M E A) : M lstate A := fun s =>
  let back e := LState (cached s) (FState (chunks (l_out s)) e) in
  match m (f_env (l_out s)) with
  | Ok a e => Ok a (back e)
  | Stop h e => Stop h (back e)
  | Undefined => Undefined
  | NoFuel => NoFuel
  end.
Definition with_out {A} (m : M (fstate E) A) : M lstate A := fun s =>
  match m (l_out s) with
  | Ok a o => Ok a (LState (cached s) o)
  | Stop h o => Stop h (LState (cached s) o)
  | Undefined => Undefined
  | NoFuel => NoFuel
  end.
Definition set_cached (l : Z) : M lstate unit := modify (fun s => LState l (l_out s)).

(** [try_c_numeric]: the locale, or 0 and the failure. *)
Definition try_c_numeric : M lstate (Z * Z) :=
  let! found := gets cached in
  if negb (found =? 0) then ret (found, 0)
  else
    let! (made, errno) := with_env create_locale in
    if made =? 0 then
      ret (0, if errno =? ENOMEM then LOKE_RT_NUMERIC_OUT_OF_MEMORY else LOKE_RT_NUMERIC_UNAVAILABLE)
    else
      let! s := get in
      let expected := published (f_env (l_out s)) in
      if expected =? 0 then set_cached made ;;; ret (made, 0)
      else set_cached expected ;;; with_env (free_locale made) ;;; ret (expected, 0).

Definition dquote : string := String (Ascii.ascii_of_nat 34) EmptyString.

Definition c_numeric : M lstate Z :=
  let! (made, _) := try_c_numeric in
  if made =? 0 then panic ("cannot create the " +:+ dquote +:+ "C" +:+ dquote +:+ " numeric locale for float text")
  else ret made.

Definition try_parse_f64 (text : bytes) : M lstate (Z * option F) :=
  let! (locale, failure) := try_c_numeric in
  if locale =? 0 then ret (failure, None)
  else
    let '(value, end_) := strtod locale text in
    ret (if zlen end_ =? 0 then 0 else LOKE_RT_NUMERIC_REJECTED, Some value).

Definition spell_in (locale : Z) (value : F) (bits : Z) : option bytes :=
  spell_float isnan isinf negative (printf_e locale) (fun t => fst (strtod locale t)) ops value bits.

Definition fmt_float (w : writer_v1) (value : F) (bits : Z) : M lstate unit :=
  let! locale := (if isnan value || isinf value then ret 0 else c_numeric) in
  let! out := need (spell_in locale value bits) in
  with_out (fmt_bytes sink_write w out (zlen out)).

(** The bytes of [out] and their count, or the negated failure. *)
Definition try_spell_f64 (value : F) : M lstate (bytes * Z) :=
  if negb (isnan value) && negb (isinf value) then
    let! (locale, failure) := try_c_numeric in
    if locale =? 0 then ret ([], - failure)
    else let! out := need (spell_in locale value 64) in ret (out, zlen out)
  else let! out := need (spell_in 0 value 64) in ret (out, zlen out).

Definition fmt_f64 (w : writer_v1) (value : F) : M lstate unit := fmt_float w value 64.
Definition fmt_f32 (w : writer_v1) (value : F) : M lstate unit := fmt_float w value 32.
Definition fmt_f16 (w : writer_v1) (value : F) : M lstate unit := fmt_float w value 16.

(** [_snprintf_s_l] answers -1 where the text and its terminator do not fit
    the 352 bytes. *)
Definition fmt_fixed (w : writer_v1) (value : F) (digits : Z) : M lstate unit :=
  if isnan value || isinf value then fmt_float w value 64
  else
    let digits := if digits <? 0 then 0 else if 40 <? digits then 40 else digits in
    let! locale := c_numeric in
    let text := printf_f locale value digits in
    if 351 <? zlen text then ret tt else
    with_out (fmt_bytes sink_write w text (zlen text)).
End locale.
Arguments lstate : clear implicits.
