(* ===== verification/NumericLocale.v ===== *)
(** The race for the shared numeric locale ([try_c_numeric] of
    [runtime/format.c]): its atomic steps as code, threads whose steps
    interleave, and that one locale stays and every other one is freed. *)
From S2P Require Import Prelude Utf8 Format FormatFloat.

(** * The steps *)

(** What a thread does next to the cache and to the C library, and how it goes
    on with the answer. *)
Inductive call :=
| Return (r : Z * Z)
| LoadCached (k : Z -> call)
| CreateLocale (k : Z * Z -> call)
| CompareExchange (expected made : Z) (k : bool * Z -> call)
| FreeLocale (l : Z) (k : call).

Definition after_exchange (made : Z) (r : bool * Z) : call :=
  let '(won, expected) := r in if won then Return (made, 0) else FreeLocale made (Return (expected, 0)).
Definition after_create (r : Z * Z) : call :=
  let '(made, errno) := r in
  if made =? 0 then
    Return (0, if errno =? ENOMEM then LOKE_RT_NUMERIC_OUT_OF_MEMORY else LOKE_RT_NUMERIC_UNAVAILABLE)
  else CompareExchange 0 made (after_exchange made).
Definition after_load (found : Z) : call :=
  if negb (found =? 0) then Return (found, 0) else CreateLocale after_create.

(** [try_c_numeric]: the locale, or 0 and the failure. *)
Definition c_numeric_call : call := LoadCached after_load.

(** One thread's run, the others seen as what [published] says of them, is
    [try_c_numeric] of [FormatFloat]. *)
Section alone.
Context {E : Type} (create_locale : M E (Z * Z)) (free_locale : Z -> M E unit) (published : E -> Z).

Fixpoint run_alone (c : call) : M (lstate E) (Z * Z) :=
  match c with
  | Return r => ret r
  | LoadCached k => let! found := gets cached in run_alone (k found)
  | CreateLocale k => let! r := with_env create_locale in run_alone (k r)
  | CompareExchange expected made k =>
      let! s := get in
      let now := published (f_env (l_out s)) in
      if now =? expected then set_cached made ;;; run_alone (k (true, expected))
      else set_cached now ;;; run_alone (k (false, now))
  | FreeLocale l k => with_env (free_locale l) ;;; run_alone k
  end.

Lemma run_alone_spec s : run_alone c_numeric_call s = try_c_numeric create_locale free_locale published s.
Proof.
  unfold c_numeric_call, try_c_numeric. cbn [run_alone]. unfold bind at 1 2, gets, after_load.
  destruct (negb (cached s =? 0)); [reflexivity|]. cbn [run_alone]. unfold bind. destruct (with_env create_locale s) as [[made errno] s1| | |]; [|done..].
  unfold after_create. destruct (made =? 0); [done|]. cbn [run_alone]. unfold bind, get. destruct (published _ =? 0); done.
Qed.
End alone.

(** * Threads *)

(** The cache, the locales that exist, and the calls under way. *)
Record race := Race { shared : Z; live_locales : list Z; callers : list call }.

(** The library answers a new locale or none. *)
Inductive race_step : race -> race -> Prop :=
| race_load i k s ls cs : cs !! i = Some (LoadCached k) -> race_step (Race s ls cs) (Race s ls (<[i := k s]> cs))
| race_create i k l errno s ls cs : cs !! i = Some (CreateLocale k) -> l <> 0 -> l ∉ ls ->
    race_step (Race s ls cs) (Race s (l :: ls) (<[i := k (l, errno)]> cs))
| race_refused i k errno s ls cs : cs !! i = Some (CreateLocale k) ->
    race_step (Race s ls cs) (Race s ls (<[i := k (0, errno)]> cs))
| race_exchange i expected made k s ls cs : cs !! i = Some (CompareExchange expected made k) ->
    race_step (Race s ls cs)
      (if s =? expected then Race made ls (<[i := k (true, expected)]> cs) else Race s ls (<[i := k (false, s)]> cs))
| race_free i l k s ls rest cs : cs !! i = Some (FreeLocale l k) -> ls ≡ₚ l :: rest ->
    race_step (Race s ls cs) (Race s rest (<[i := k]> cs)).

(** [n] threads that ask for the locale, none of which exists. *)
Definition race_start (n : nat) : race := Race 0 [] (replicate n c_numeric_call).

(** The locale a call has made and not yet published or freed. *)
Definition owned (c : call) : list Z :=
  match c with CompareExchange _ l _ | FreeLocale l _ => [l] | _ => [] end.
Definition published_locale (s : Z) : list Z := if s =? 0 then [] else [s].

(** Where a call can be, given the cache. *)
Inductive at_phase (s : Z) : call -> Prop :=
| phase_load : at_phase s c_numeric_call
| phase_create : at_phase s (CreateLocale after_create)
| phase_exchange l : l <> 0 -> at_phase s (CompareExchange 0 l (after_exchange l))
| phase_free l : s <> 0 -> at_phase s (FreeLocale l (Return (s, 0)))
| phase_done : s <> 0 -> at_phase s (Return (s, 0))
| phase_failed f : at_phase s (Return (0, f)).

Record race_ok (t : race) : Prop := {
  race_phases : Forall (at_phase (shared t)) (callers t);
  race_live : live_locales t ≡ₚ concat (owned <$> callers t) ++ published_locale (shared t);
  race_once : NoDup (live_locales t);
  race_real : 0 ∉ live_locales t;
}.

Lemma owned_insert i c c' cs : cs !! i = Some c ->
  owned c ++ concat (owned <$> <[i := c']> cs) ≡ₚ owned c' ++ concat (owned <$> cs).
Proof.
  revert i. induction cs as [|x cs IH]; intros [|i] H; [done|done| |].
  - injection H as ->. cbn. by rewrite !app_assoc, (Permutation_app_comm (owned c)).
  - cbn. specialize (IH i H). rewrite app_assoc, (Permutation_app_comm _ (owned x)), <- app_assoc, IH.
    by rewrite app_assoc, (Permutation_app_comm (owned x)), <- app_assoc.
Qed.

(** The owner of a locale moves on. *)
Lemma owned_moves i c c' cs : cs !! i = Some c -> owned c = owned c' -> concat (owned <$> <[i := c']> cs) ≡ₚ concat (owned <$> cs).
Proof. intros Hi Ho. pose proof (owned_insert i c c' cs Hi) as H. rewrite Ho in H. by apply Permutation_app_inv_l in H. Qed.

Lemma phases_insert s i c cs : Forall (at_phase s) cs -> at_phase s c -> Forall (at_phase s) (<[i := c]> cs).
Proof. intros. by apply Forall_insert. Qed.

(** Before a locale is published no call waits to free one or has one. *)
Lemma phase_publish s c : s <> 0 -> at_phase 0 c -> at_phase s c.
Proof. intros Hs Hc. inversion Hc; subst; try done; by constructor. Qed.

Lemma race_step_ok t t' : race_step t t' -> race_ok t -> race_ok t'.
Proof.
  intros Hstep [P L N Z0]. destruct Hstep as [i k s ls cs Hi|i k l errno s ls cs Hi Hl Hn|i k errno s ls cs Hi|i expected made k s ls cs Hi|
    i l k s ls rest cs Hi Hp]; cbn [shared live_locales callers] in *; pose proof (Forall_lookup_1 _ _ _ _ P Hi) as Hph; inversion Hph; subst.
  - split; cbn [shared live_locales callers]; [|rewrite owned_moves; [done|done|]|done|done].
    + apply phases_insert; [done|]. unfold after_load. destruct (Z.eqb_spec s 0); by constructor.
    + unfold after_load. by destruct (Z.eqb_spec s 0).
  - split; cbn [shared live_locales callers]; [| |by constructor|set_solver].
    + apply phases_insert; [done|]. unfold after_create. destruct (Z.eqb_spec l 0); [done|]. by constructor.
    + pose proof (owned_insert i _ (after_create (l, errno)) cs Hi) as Ho. unfold after_create in Ho |- *.
      destruct (Z.eqb_spec l 0); [done|]. cbn [owned app] in Ho. rewrite Ho, L. done.
  - split; cbn [shared live_locales callers]; [|rewrite owned_moves; [done|done|done]|done|done].
    apply phases_insert; [done|]. constructor.
  - pose proof (owned_insert i _ (after_exchange made (true, 0)) cs Hi) as Hwon. cbn [owned after_exchange app] in Hwon.
    destruct (Z.eqb_spec s 0) as [->|Hs]; split; cbn [shared live_locales callers]; try done.
    + apply phases_insert; [|by constructor]. eapply Forall_impl; [exact P|]. intros c. by apply phase_publish.
    + rewrite L. unfold published_locale. cbn [Z.eqb]. destruct (Z.eqb_spec made 0); [done|]. rewrite app_nil_r, <- Hwon.
      by rewrite Permutation_app_comm.
    + apply phases_insert; [done|]. by constructor.
    + by rewrite (owned_moves i _ _ cs Hi).
  - rewrite Hp in L, N, Z0. apply NoDup_cons in N as [Hnl N]. split; cbn [shared live_locales callers]; [|  |done|set_solver].
    + apply phases_insert; [done|]. by constructor.
    + pose proof (owned_insert i _ (Return (s, 0)) cs Hi) as Ho. cbn [owned app] in Ho. rewrite <- Ho in L. cbn in L.
      by apply Permutation_cons_inv in L.
Qed.

Lemma race_start_ok n : race_ok (race_start n).
Proof.
  split; cbn.
  - apply Forall_replicate. constructor.
  - induction n as [|n IH]; [done|exact IH].
  - constructor.
  - set_solver.
Qed.

Lemma race_run_ok t t' : rtc race_step t t' -> race_ok t -> race_ok t'.
Proof. induction 1; eauto using race_step_ok. Qed.

(** ** Every call ends *)

Definition steps_left (c : call) : nat :=
  match c with Return _ => 0 | LoadCached _ => 4 | CreateLocale _ => 3 | CompareExchange _ _ _ => 2 | FreeLocale _ _ => 1 end.
Fixpoint calls_left (cs : list call) : nat :=
  match cs with [] => 0 | c :: cs => steps_left c + calls_left cs end.
Definition race_left (t : race) : nat := calls_left (callers t).

Lemma left_insert i c c' cs : cs !! i = Some c ->
  (calls_left (<[i := c']> cs) + steps_left c = calls_left cs + steps_left c')%nat.
Proof.
  revert i. induction cs as [|x cs IH]; intros [|i] H; [done|done| |].
  - injection H as ->. cbn. lia.
  - specialize (IH i H). change (<[S i:=c']> (x :: cs)) with (x :: <[i:=c']> cs). cbn [calls_left]. lia.
Qed.

Lemma race_step_left t t' : race_step t t' -> race_ok t -> (race_left t' < race_left t)%nat.
Proof.
  intros Hstep [P _ _ _]. assert (forall i c c', callers t !! i = Some c -> (steps_left c' < steps_left c)%nat ->
    (calls_left (<[i := c']> (callers t)) < race_left t)%nat) as Hless.
  { intros i c c' Hi Hc. pose proof (left_insert i c c' (callers t) Hi). unfold race_left. lia. }
  destruct Hstep as [i k s ls cs Hi|i k l errno s ls cs Hi Hl Hn|i k errno s ls cs Hi|i expected made k s ls cs Hi|
    i l k s ls rest cs Hi Hp]; cbn [shared callers] in *; pose proof (Forall_lookup_1 _ _ _ _ P Hi) as Hph; inversion Hph; subst;
    unfold race_left at 1.
  - apply (Hless _ _ _ Hi). unfold after_load. destruct (negb _); cbn; lia.
  - apply (Hless _ _ _ Hi). unfold after_create. destruct (l =? 0); cbn; lia.
  - apply (Hless _ _ _ Hi). cbn. lia.
  - destruct (s =? 0); apply (Hless _ _ _ Hi); cbn; lia.
  - apply (Hless _ _ _ Hi). cbn. lia.
Qed.

Lemma race_bound n t t' : nsteps race_step n t t' -> race_ok t -> (n + race_left t' <= race_left t)%nat.
Proof.
  induction 1 as [|n t1 t2 t3 Hstep _ IH]; intros Ht; [done|]. pose proof (race_step_left _ _ Hstep Ht).
  specialize (IH (race_step_ok _ _ Hstep Ht)). lia.
Qed.

Lemma race_start_left n : race_left (race_start n) = (4 * n)%nat.
Proof. unfold race_left, race_start. cbn [callers]. induction n as [|n IH]; [done|]. cbn [replicate calls_left]. rewrite IH. cbn. lia. Qed.

(** A call that has not returned can take its next step. *)
Lemma race_moves t i c : race_ok t -> callers t !! i = Some c -> (forall r, c <> Return r) -> exists t', race_step t t'.
Proof.
  destruct t as [s ls cs]. intros [P L N Z0] Hi Hc. cbn [shared live_locales callers] in *.
  destruct c as [r|k|k|expected made k|l k]; [by destruct (Hc r)| | | |].
  - eexists. by apply (race_load i).
  - eexists. by apply (race_refused i k 0).
  - eexists. by apply (race_exchange i expected made k).
  - assert (l ∈ ls) as Hl.
    { rewrite L. apply elem_of_app. left. apply list_elem_of_In, in_concat. exists [l]. rewrite <- !list_elem_of_In. split; [|by left].
      apply list_elem_of_fmap. exists (FreeLocale l k). split; [done|]. by eapply list_elem_of_lookup_2. }
    apply elem_of_Permutation in Hl as [rest Hp]. eexists. by apply (race_free i l k s ls rest).
Qed.

(** Where no call is under way, only the cached locale is left. *)
Lemma race_settled t : race_ok t -> Forall (fun c => exists r, c = Return r) (callers t) -> live_locales t = published_locale (shared t).
Proof.
  intros [_ L _ _] Hr. assert (concat (owned <$> callers t) = []) as Ho.
  { clear L. induction Hr as [|c cs [r ->] _ IH]; [done|exact IH]. }
  rewrite Ho in L. cbn in L. unfold published_locale in *. destruct (shared t =? 0); [by apply Permutation_nil_r in L|by apply Permutation_singleton_r in L].
Qed.

Lemma race_answers t i r : race_ok t -> callers t !! i = Some (Return r) -> r.1 <> 0 -> r.1 = shared t /\ r.1 ∈ live_locales t.
Proof.
  intros [P L _ _] Hi Hr. pose proof (Forall_lookup_1 _ _ _ _ P Hi) as Hph. inversion Hph as [| | | |Hs|f]; subst; cbn [fst] in *; [|done].
  split; [done|]. rewrite L. apply elem_of_app. right. unfold published_locale. destruct (Z.eqb_spec (shared t) 0); [done|by left].
Qed.

(** What a call is about to free exists, and is not the cached locale. *)
Lemma race_frees t i l k : race_ok t -> callers t !! i = Some (FreeLocale l k) -> l ∈ live_locales t /\ l <> shared t.
Proof.
  intros [P L N _] Hi. pose proof (Forall_lookup_1 _ _ _ _ P Hi) as Hph. inversion Hph as [| | |l' Hs| |]; subst.
  assert (l ∈ concat (owned <$> callers t)) as Hl.
  { apply list_elem_of_In, in_concat. exists [l]. rewrite <- !list_elem_of_In. split; [|by left].
    apply list_elem_of_fmap. eexists. split; [|by eapply list_elem_of_lookup_2]. done. }
  split; [rewrite L; apply elem_of_app; by left|]. intros ->. rewrite L in N. apply NoDup_app in N as (_ & N & _).
  apply (N _ Hl). unfold published_locale. destruct (Z.eqb_spec (shared t) 0); [done|by left].
Qed.
