(* ===== verification/Rounding.v ===== *)
(** Rounding of exact fractions: the nearest integer with ties to even, the
    scale of a fraction in a base, and its rounding to a binary format. *)
From S2P Require Import Prelude.

Definition round_even (m d : Z) : Z :=
  let q := m / d in
  let r := m mod d in
  if 2 * r <? d then q else if d <? 2 * r then q + 1 else if Z.even q then q else q + 1.

(** [floor (log_b (n / d))]. The fuel is the binary length of what is divided or
    multiplied down to the other. *)
Fixpoint log_up (fuel : nat) (base n d : Z) : Z :=
  match fuel with
  | O => 0
  | S fuel => if base * d <=? n then 1 + log_up fuel base n (base * d) else 0
  end.
Fixpoint log_down (fuel : nat) (base n d : Z) : Z :=
  match fuel with
  | O => 0
  | S fuel => if n <? d then 1 + log_down fuel base (base * n) d else 0
  end.
Definition floor_log (base n d : Z) : Z :=
  if d <=? n then log_up (S (Z.to_nat (Z.log2 n))) base n d
  else - log_down (S (S (Z.to_nat (Z.log2 d)))) base n d.

(** [(n / d) / base ^ u], as a fraction. *)
Definition scaled (base n d u : Z) : Z * Z :=
  if 0 <=? u then (n, d * base ^ u) else (n * base ^ (- u), d).

(** [n / d] to [p] binary digits, but none below [2 ^ emin]: the answer [(q, u)]
    stands for [q * 2 ^ u]. *)
Definition unit_of (p emin n d : Z) : Z := Z.max (floor_log 2 n d - p + 1) emin.
Definition round_frac (p emin n d : Z) : Z * Z :=
  let u := unit_of p emin n d in
  let '(a, c) := scaled 2 n d u in
  (round_even a c, u).

(** * The nearest integer *)

Lemma round_even_nearest m d j : 0 < d -> let n := round_even m d in
  Z.abs (m - n * d) <= Z.abs (m - j * d) /\ (Z.abs (m - n * d) = Z.abs (m - j * d) -> j = n \/ Z.even n = true).
Proof.
  intros Hd n. pose proof (Z.div_mod m d ltac:(lia)) as Hm. pose proof (Z.mod_pos_bound m d Hd) as Hr.
  unfold n, round_even. set (q := m / d) in *. set (r := m mod d) in *.
  assert (m - q * d = r) as Hq by lia. assert (m - (q + 1) * d = r - d) as Hq1 by lia.
  assert (j = q \/ j = q + 1 \/ (j <= q - 1 /\ m - j * d >= r + d) \/ (q + 2 <= j /\ m - j * d <= r - 2 * d)) as Hj.
  { destruct (Z_lt_le_dec j q); [right; right; left; nia|]. destruct (Z_lt_le_dec (q + 1) j); [right; right; right; nia|lia]. }
  destruct (Z.ltb_spec (2 * r) d); [|destruct (Z.ltb_spec d (2 * r)); [|destruct (Z.even q) eqn:He]].
  - rewrite Hq. destruct Hj as [->|[->|[[? ?]|[? ?]]]]; split; lia || (intros; left; lia).
  - rewrite Hq1. destruct Hj as [->|[->|[[? ?]|[? ?]]]]; split; lia || (intros; left; lia).
  - rewrite Hq. destruct Hj as [->|[->|[[? ?]|[? ?]]]]; split; lia || auto.
  - rewrite Hq1. assert (Z.even (q + 1) = true) as He1 by (rewrite Z.even_add, He; done).
    destruct Hj as [->|[->|[[? ?]|[? ?]]]]; split; lia || auto.
Qed.

Lemma round_even_half m d : 0 < d -> 2 * Z.abs (m - round_even m d * d) <= d.
Proof.
  intros Hd. pose proof (Z.div_mod m d ltac:(lia)) as Hm. pose proof (Z.mod_pos_bound m d Hd) as Hr.
  unfold round_even. destruct (Z.ltb_spec (2 * (m mod d)) d); [|destruct (Z.ltb_spec d (2 * (m mod d))); [|destruct (Z.even _)]]; lia.
Qed.

(** The only integer less than half away. *)
Lemma round_even_unique m d j : 0 < d -> 2 * Z.abs (m - j * d) < d -> round_even m d = j.
Proof.
  intros Hd Hj. pose proof (round_even_half m d Hd) as Hh. set (n := round_even m d) in *.
  destruct (Z_lt_le_dec n j); [nia|]. destruct (Z_lt_le_dec j n); [nia|lia].
Qed.

Lemma round_even_range m d lo hi : 0 < d -> lo * d <= m <= hi * d -> lo <= round_even m d <= hi.
Proof.
  intros Hd Hm. pose proof (round_even_half m d Hd) as Hh. set (n := round_even m d) in *. split.
  - destruct (Z_lt_le_dec n lo); [nia|done].
  - destruct (Z_lt_le_dec hi n); [nia|done].
Qed.

(** * Powers *)

Lemma pow_split base a b : 0 <= a -> 0 <= b -> base ^ (a + b) = base ^ a * base ^ b.
Proof. intros. by apply Z.pow_add_r. Qed.

Lemma pow_pos base a : 2 <= base -> 0 <= a -> 0 < base ^ a.
Proof. intros. apply Z.pow_pos_nonneg; lia. Qed.

Lemma pow_step base a : 0 <= a -> base ^ (a + 1) = base * base ^ a.
Proof. intros. rewrite pow_split by lia. rewrite Z.pow_1_r. lia. Qed.

Lemma pow_mono base a b : 2 <= base -> 0 <= a <= b -> base ^ a <= base ^ b.
Proof. intros. apply Z.pow_le_mono_r; lia. Qed.

Lemma pow_lt_inv base a b : 2 <= base -> 0 <= b -> base ^ a < base ^ b -> a < b.
Proof. intros. apply (Z.pow_lt_mono_r_iff base); lia. Qed.

(** * The scale of a fraction *)

(** [base ^ k <= n / d < base ^ (k + 1)], counted in units of [base ^ b / d]. *)
Definition scale_of (base n d k : Z) : Prop := forall b, b <= k -> b <= 0 ->
  base ^ (k - b) * d <= n * base ^ (- b) < base ^ (k + 1 - b) * d.

Lemma log_up_spec fuel base n d : 2 <= base -> 0 < d <= n -> n < 2 ^ Z.of_nat fuel ->
  let j := log_up fuel base n d in 0 <= j /\ base ^ j * d <= n < base ^ (j + 1) * d.
Proof.
  intros Hb Hd Hn. assert (n < 2 ^ Z.of_nat fuel * d) as Hn' by nia. clear Hn. revert d Hd Hn'.
  induction fuel as [|fuel IH]; intros d Hd Hn; [cbn in Hn; lia|]. cbn [log_up].
  destruct (Z.leb_spec (base * d) n) as [H|H].
  - destruct (IH (base * d)) as (H0 & H1 & H2); [nia| |].
    { rewrite Nat2Z.inj_succ, Z.pow_succ_r in Hn by lia. pose proof (pow_pos 2 (Z.of_nat fuel)). nia. }
    split; [lia|]. rewrite (Z.add_comm 1), !pow_step by lia. rewrite !pow_step in H2 by lia. split; lia.
  - cbn. split; [lia|]. rewrite Z.pow_1_r. lia.
Qed.

Lemma log_down_spec fuel base n d : 2 <= base -> 0 < n < d -> d <= 2 ^ Z.of_nat fuel * n ->
  let j := log_down (S fuel) base n d in 1 <= j /\ n * base ^ (j - 1) < d <= n * base ^ j.
Proof.
  intros Hb. revert n. induction fuel as [|fuel IH]; intros n Hn Hd; [cbn in Hd; lia|].
  remember (S fuel) as k eqn:Hk. cbn [log_down]. subst k. destruct (Z.ltb_spec n d); [|lia].
  destruct (Z_lt_le_dec (base * n) d) as [Hlt|Hge].
  - destruct (IH (base * n)) as (H0 & H1 & H2); [nia| |].
    { rewrite Nat2Z.inj_succ, Z.pow_succ_r in Hd by lia. pose proof (pow_pos 2 (Z.of_nat fuel)). nia. }
    set (j := log_down (S fuel) base (base * n) d) in *. split; [lia|]. replace (1 + j - 1) with (j - 1 + 1) by lia.
    rewrite (Z.add_comm 1 j), !pow_step by lia. split; lia.
  - assert (log_down (S fuel) base (base * n) d = 0) as ->.
    { cbn [log_down]. destruct (Z.ltb_spec (base * n) d); [lia|done]. }
    change (1 + 0 - 1) with 0. change (1 + 0) with 1. rewrite Z.pow_0_r, Z.pow_1_r. lia.
Qed.

Lemma floor_log_spec base n d : 2 <= base -> 0 < n -> 0 < d -> scale_of base n d (floor_log base n d).
Proof.
  intros Hb Hn Hd b Hk H0. unfold floor_log in *. destruct (Z.leb_spec d n) as [Hle|Hlt].
  - destruct (log_up_spec (S (Z.to_nat (Z.log2 n))) base n d) as (H1 & H2 & H3); [done|lia| |].
    { pose proof (Z.log2_nonneg n). rewrite Nat2Z.inj_succ, Z2Nat.id by lia. apply Z.log2_spec. done. }
    set (j := log_up _ _ _ _) in *. replace (j - b) with (j + - b) by lia. replace (j + 1 - b) with (j + 1 + - b) by lia.
    rewrite !(pow_split base _ (- b)) by lia. pose proof (pow_pos base (- b) Hb ltac:(lia)). nia.
  - destruct (log_down_spec (S (Z.to_nat (Z.log2 d))) base n d) as (H1 & H2 & H3); [done|lia| |].
    { pose proof (Z.log2_nonneg d). rewrite Nat2Z.inj_succ, Z2Nat.id by lia. destruct (Z.log2_spec d Hd). nia. }
    set (j := log_down _ _ _ _) in *.
    assert (base ^ (- b) = base ^ j * base ^ (- j - b)) as -> by (rewrite <- pow_split by lia; f_equal; lia).
    assert (base ^ (- j + 1 - b) = base * base ^ (- j - b)) as -> by (rewrite <- pow_step by lia; f_equal; lia).
    assert (base ^ j = base * base ^ (j - 1)) as Hj by (rewrite <- pow_step by lia; f_equal; lia). rewrite Hj in *.
    pose proof (pow_pos base (- j - b) Hb ltac:(lia)). set (P := base ^ (- j - b)) in *. set (B := base ^ (j - 1)) in *.
    split; [nia|]. assert (n * B * (base * P) < d * (base * P)) by (apply Z.mul_lt_mono_pos_r; nia). lia.
Qed.

Lemma scale_unique base n d k n' d' k' : 2 <= base -> 0 < d -> 0 < d' -> n * d' = n' * d ->
  scale_of base n d k -> scale_of base n' d' k' -> k = k'.
Proof.
  intros Hb Hd Hd' He H H'. set (b := Z.min 0 (Z.min k k')).
  specialize (H b ltac:(lia) ltac:(lia)). specialize (H' b ltac:(lia) ltac:(lia)).
  assert (n * base ^ (- b) * d' = n' * base ^ (- b) * d) as He' by (rewrite <- !Z.mul_assoc, !(Z.mul_comm (base ^ _)), !Z.mul_assoc, He; done).
  assert (base ^ (k - b) < base ^ (k' + 1 - b)) as H1.
  { apply (Z.mul_lt_mono_pos_r (d * d')); [nia|]. nia. }
  assert (base ^ (k' - b) < base ^ (k + 1 - b)) as H2.
  { apply (Z.mul_lt_mono_pos_r (d * d')); [nia|]. nia. }
  apply pow_lt_inv in H1, H2; lia.
Qed.

Lemma scaled_units base n d u b : 2 <= base -> 0 < d -> b <= 0 -> b <= u ->
  let '(a, c) := scaled base n d u in 0 < c /\ exists f, 0 < f /\ n * base ^ (- b) = a * f /\ d * base ^ (u - b) = c * f.
Proof.
  intros Hb Hd H0 Hu. unfold scaled. destruct (Z.leb_spec 0 u).
  - pose proof (pow_pos base u Hb ltac:(lia)). pose proof (pow_pos base (- b) Hb ltac:(lia)). split; [nia|].
    exists (base ^ (- b)). split_and!; [done|done|]. replace (u - b) with (u + - b) by lia. rewrite pow_split by lia. lia.
  - pose proof (pow_pos base (u - b) Hb ltac:(lia)). split; [done|]. exists (base ^ (u - b)). split_and!; [done| |done].
    replace (- b) with (- u + (u - b)) by lia. rewrite pow_split by lia. lia.
Qed.
