(* ===== verification/Nearest.v ===== *)
(** When rounding a fraction to a binary format gives a number back: the
    fraction is near it by the number's own precision. *)
From S2P Require Import Prelude Rounding.

(** [n / d] is less than [2 ^ - (p + 1)] of [m * 2 ^ e] away from it. *)
Definition close (p n d m e : Z) : Prop := forall b, b <= 0 -> b <= e ->
  2 ^ (p + 1) * Z.abs (n * 2 ^ (- b) - m * 2 ^ (e - b) * d) < m * 2 ^ (e - b) * d.

(** In units of [2 ^ b / d] for a low [b]. *)
Definition tick (d b j : Z) : Z := d * 2 ^ (j - b).

Lemma tick_add d b j i : b <= j -> 0 <= i -> tick d b (j + i) = tick d b j * 2 ^ i.
Proof. intros. unfold tick. replace (j + i - b) with (j - b + i) by lia. rewrite pow_split by lia. lia. Qed.

Lemma tick_pos d b j : 0 < d -> b <= j -> 0 < tick d b j.
Proof. intros. unfold tick. pose proof (pow_pos 2 (j - b)). nia. Qed.

Lemma tick_mono d b i j : 0 < d -> b <= i -> i <= j -> tick d b i <= tick d b j.
Proof. intros. unfold tick. pose proof (pow_mono 2 (i - b) (j - b)). nia. Qed.

Lemma tick_lt_inv d b i j : 0 < d -> b <= j -> tick d b i < tick d b j -> i < j.
Proof. intros Hd Hj H. unfold tick in H. assert (i - b < j - b); [|lia]. apply (pow_lt_inv 2); [lia|lia|nia]. Qed.

Lemma close_numerator p n d m e : 0 < d -> 0 <= p -> 0 < m -> close p n d m e -> 0 < n.
Proof.
  intros Hd Hp Hm Hc. specialize (Hc (Z.min 0 e) ltac:(lia) ltac:(lia)). set (b := Z.min 0 e) in *.
  pose proof (pow_pos 2 (- b) ltac:(lia) ltac:(lia)). pose proof (pow_pos 2 (e - b) ltac:(lia) ltac:(lia)).
  pose proof (pow_pos 2 (p + 1) ltac:(lia) ltac:(lia)). assert (0 < m * 2 ^ (e - b) * d) by nia.
  destruct (Z_lt_le_dec 0 n); [done|]. exfalso. assert (n * 2 ^ (- b) <= 0) by nia.
  assert (Z.abs (n * 2 ^ (- b) - m * 2 ^ (e - b) * d) >= m * 2 ^ (e - b) * d) by lia. nia.
Qed.

(** The distance is below half the unit the fraction is rounded to. *)
Lemma close_unit p n d m e k b : 0 < d -> 1 <= p -> 0 < m < 2 ^ p -> close p n d m e -> scale_of 2 n d k ->
  b <= 0 -> b <= e -> b <= k - p -> Z.abs (n * 2 ^ (- b) - m * tick d b e) < tick d b (k - p).
Proof.
  intros Hd Hp Hm Hc Hk H0 He Hkp. specialize (Hc b H0 He). destruct (Hk b ltac:(lia) H0) as [H1 H2].
  replace (m * 2 ^ (e - b) * d) with (m * tick d b e) in Hc by (unfold tick; lia).
  replace (2 ^ (k - b) * d) with (tick d b k) in H1 by (unfold tick; lia).
  replace (2 ^ (k + 1 - b) * d) with (tick d b (k + 1)) in H2 by (unfold tick; lia).
  set (X := n * 2 ^ (- b)) in *. pose proof (tick_pos d b e Hd He) as HTe. set (V := m * tick d b e) in *.
  assert (tick d b (k + 1) = 2 ^ (p + 1) * tick d b (k - p)) as HT.
  { replace (k + 1) with (k - p + (p + 1)) by lia. rewrite tick_add by lia. lia. }
  pose proof (pow_pos 2 (p + 1) ltac:(lia) ltac:(lia)) as Hpp.
  destruct (Z_lt_le_dec V (tick d b (k + 1))) as [HV|HV]; [apply (Z.mul_lt_mono_pos_l (2 ^ (p + 1))); [done|]; lia|].
  assert (V < tick d b (e + p)) as HVe by (rewrite tick_add by lia; unfold V; nia).
  assert (k + 1 < e + p) as Hke by (apply (tick_lt_inv d b); lia).
  assert (4 <= 2 ^ (p + 1)) as H4 by (change 4 with (2 ^ 2); apply pow_mono; lia).
  destruct (Z_lt_le_dec (k + 1) e) as [Hlt|Hle].
  - exfalso. pose proof (tick_mono d b (k + 1 + 1) e Hd ltac:(lia) ltac:(lia)) as Hm2. rewrite tick_add in Hm2 by lia.
    change (2 ^ 1) with 2 in Hm2. assert (tick d b (k + 1) * 2 <= V) by (unfold V; nia).
    assert (4 * Z.abs (X - V) <= 2 ^ (p + 1) * Z.abs (X - V)) by (apply Z.mul_le_mono_nonneg_r; lia). lia.
  - assert (tick d b (k + 1) = 2 ^ (k + 1 - e) * tick d b e) as Hc1.
    { replace (k + 1) with (e + (k + 1 - e)) at 1 by lia. rewrite tick_add by lia. lia. }
    set (c := 2 ^ (k + 1 - e)) in *. destruct (decide (m = c)) as [Heq|Hne].
    + apply (Z.mul_lt_mono_pos_l (2 ^ (p + 1))); [done|]. assert (V = tick d b (k + 1)) by (rewrite Hc1; unfold V; lia). lia.
    + exfalso. assert (c + 1 <= m) by (unfold V in HV; nia).
      assert (tick d b e <= V - tick d b (k + 1)) by (rewrite Hc1; unfold V; nia).
      assert (2 ^ p * tick d b e > V) by (unfold V; nia).
      assert (2 ^ (p + 1) = 2 * 2 ^ p) as Hpp1 by (apply pow_step; lia). pose proof (pow_pos 2 p ltac:(lia) ltac:(lia)).
      assert (2 ^ (p + 1) * tick d b e <= 2 ^ (p + 1) * Z.abs (X - V)) by (apply Z.mul_le_mono_nonneg_l; lia). lia.
Qed.

(** Rounding to [p] digits, none below [2 ^ emin], gives a number of that format
    back from any fraction close to it. *)
Lemma round_frac_close p emin n d m e : 0 < d -> 1 <= p -> 0 < m < 2 ^ p -> emin <= e -> close p n d m e ->
  let '(q, u) := round_frac p emin n d in 0 < q /\ emin <= u /\ forall b, b <= u -> b <= e -> q * 2 ^ (u - b) = m * 2 ^ (e - b).
Proof.
  intros Hd Hp Hm He Hc. pose proof (close_numerator p n d m e Hd ltac:(lia) ltac:(lia) Hc) as Hn.
  unfold round_frac, unit_of. set (k := floor_log 2 n d). set (u := Z.max (k - p + 1) emin).
  pose proof (floor_log_spec 2 n d ltac:(lia) Hn Hd) as Hk. fold k in Hk.
  set (b := Z.min 0 (Z.min e (k - p))). assert (b <= u) as Hbu by lia.
  pose proof (close_unit p n d m e k b Hd Hp Hm Hc Hk ltac:(lia) ltac:(lia) ltac:(lia)) as Hcl.
  pose proof (scaled_units 2 n d u b ltac:(lia) Hd ltac:(lia) Hbu) as Hs. destruct (scaled 2 n d u) as [a c].
  destruct Hs as (Hc0 & f & Hf & Ha & Hcf). fold (tick d b u) in Hcf. rewrite Ha in Hcl.
  assert (exists j, m * tick d b e = j * tick d b u /\ m * 2 ^ (e - b) = j * 2 ^ (u - b)) as (j & Hj & Hjb).
  { destruct (Z_le_gt_dec u e) as [Hue|Hue].
    - exists (m * 2 ^ (e - u)). assert (2 ^ (e - b) = 2 ^ (e - u) * 2 ^ (u - b)) as Hp2 by (rewrite <- pow_split by lia; f_equal; lia).
      unfold tick. rewrite Hp2. lia.
    - exfalso. assert (u = k - p + 1) as Hu by lia. destruct (Hk b ltac:(lia) ltac:(lia)) as [H1 _].
      replace (2 ^ (k - b) * d) with (tick d b k) in H1 by (unfold tick; lia). rewrite Ha in H1.
      replace k with (k - p + p) in H1 by lia. rewrite tick_add in H1 by lia.
      pose proof (tick_mono d b e (k - p) Hd ltac:(lia) ltac:(lia)). pose proof (tick_pos d b e Hd ltac:(lia)). nia. }
  assert (tick d b (k - p) * 2 <= tick d b u) as Hhalf.
  { change 2 with (2 ^ 1). rewrite <- tick_add by lia. apply tick_mono; lia. }
  assert (round_even a c = j) as ->.
  { apply round_even_unique; [done|]. rewrite Hj, Hcf in Hcl. rewrite Hcf in Hhalf.
    replace (a * f - j * (c * f)) with ((a - j * c) * f) in Hcl by lia. rewrite Z.abs_mul, (Z.abs_eq f) in Hcl by lia. nia. }
  pose proof (pow_pos 2 (u - b) ltac:(lia) ltac:(lia)). pose proof (pow_pos 2 (e - b) ltac:(lia) ltac:(lia)). split_and!; [nia|lia|].
  intros b' Hb1 Hb2. set (b2 := Z.min b b'). 
  assert (j * 2 ^ (u - b) * 2 ^ (b - b2) = m * 2 ^ (e - b) * 2 ^ (b - b2)) as H2 by (by rewrite Hjb).
  rewrite <- !Z.mul_assoc, <- !pow_split in H2 by lia.
  replace (u - b + (b - b2)) with (u - b' + (b' - b2)) in H2 by lia. replace (e - b + (b - b2)) with (e - b' + (b' - b2)) in H2 by lia.
  rewrite !pow_split, !Z.mul_assoc in H2 by lia. apply Z.mul_reg_r in H2; [done|]. pose proof (pow_pos 2 (b' - b2) ltac:(lia) ltac:(lia)). lia.
Qed.

(** * Fractions of numbers in a base *)

(** [m * base ^ e]. *)
Definition frac (base m e : Z) : Z * Z := scaled base m 1 (- e).

Lemma frac_units base m e b : 2 <= base -> b <= 0 -> b <= e ->
  let '(n, d) := frac base m e in 0 < d /\ n * base ^ (- b) = m * base ^ (e - b) * d.
Proof.
  intros Hb H0 He. unfold frac, scaled. destruct (Z.leb_spec 0 (- e)).
  - rewrite Z.mul_1_l. split; [by apply pow_pos|]. rewrite <- Z.mul_assoc, <- pow_split by lia. do 2 f_equal. lia.
  - split; [lia|]. rewrite Z.mul_1_r, <- Z.mul_assoc, <- pow_split by lia. do 2 f_equal. lia.
Qed.

Lemma frac_denominator base m e : 2 <= base -> 0 < (frac base m e).2.
Proof. intros Hb. pose proof (frac_units base m e (Z.min 0 e) Hb ltac:(lia) ltac:(lia)). destruct (frac base m e). tauto. Qed.

Lemma frac_numerator base m e : 2 <= base -> 0 < m -> 0 < (frac base m e).1.
Proof. intros Hb Hm. unfold frac, scaled. destruct (Z.leb_spec 0 (- e)); cbn; [done|]. pose proof (pow_pos base (- - e)). nia. Qed.

(** Rounding depends on the value of the fraction only. *)
Lemma round_even_scale a c f : 0 < c -> 0 < f -> round_even (a * f) (c * f) = round_even a c.
Proof.
  intros Hc Hf. unfold round_even. rewrite Z.div_mul_cancel_r, Zmult_mod_distr_r by lia.
  assert (forall x y, (x * f <? y * f) = (x <? y)) as Hlt.
  { intros x y. destruct (Z.ltb_spec x y), (Z.ltb_spec (x * f) (y * f)); (done || nia). }
  rewrite !Z.mul_assoc, !Hlt. done.
Qed.

Lemma round_even_respects a c a' c' : 0 < c -> 0 < c' -> a * c' = a' * c -> round_even a c = round_even a' c'.
Proof.
  intros Hc Hc' He. rewrite <- (round_even_scale a c c'), <- (round_even_scale a' c' c) by done. by rewrite He, (Z.mul_comm c c').
Qed.

Lemma scaled_respects base n d n' d' u : 2 <= base -> 0 < d -> 0 < d' -> n * d' = n' * d ->
  let '(a, c) := scaled base n d u in let '(a', c') := scaled base n' d' u in 0 < c /\ 0 < c' /\ a * c' = a' * c.
Proof.
  intros Hb Hd Hd' He. unfold scaled. destruct (Z.leb_spec 0 u).
  - pose proof (pow_pos base u Hb ltac:(lia)). split_and!; nia.
  - pose proof (pow_pos base (- u) Hb ltac:(lia)). split_and!; nia.
Qed.

Lemma round_frac_respects p emin n d n' d' : 0 < n -> 0 < d -> 0 < n' -> 0 < d' -> n * d' = n' * d ->
  round_frac p emin n d = round_frac p emin n' d'.
Proof.
  intros Hn Hd Hn' Hd' He. unfold round_frac, unit_of.
  rewrite (scale_unique 2 n d _ n' d' _ ltac:(lia) Hd Hd' He (floor_log_spec 2 n d ltac:(lia) Hn Hd) (floor_log_spec 2 n' d' ltac:(lia) Hn' Hd')).
  set (u := Z.max _ emin). pose proof (scaled_respects 2 n d n' d' u ltac:(lia) Hd Hd' He) as Hs.
  destruct (scaled 2 n d u), (scaled 2 n' d' u), Hs as (? & ? & ?). f_equal. by apply round_even_respects.
Qed.

(** * Fractions close to a number *)

Lemma close_weaken p p' n d m e : 0 <= p' <= p -> close p n d m e -> close p' n d m e.
Proof.
  intros Hp Hc b H0 He. specialize (Hc b H0 He). eapply Z.le_lt_trans; [|exact Hc].
  apply Z.mul_le_mono_nonneg_r; [lia|]. apply pow_mono; lia.
Qed.

Lemma close_exact p n d m e m' e' : 0 < m -> 0 < d -> (forall b, b <= 0 -> b <= e -> b <= e' -> n * 2 ^ (- b) = m' * 2 ^ (e' - b) * d) ->
  (forall b, b <= e -> b <= e' -> m' * 2 ^ (e' - b) = m * 2 ^ (e - b)) -> close p n d m e.
Proof.
  intros Hm Hd Hn He b H0 Hb. set (b2 := Z.min b e').
  pose proof (Hn b2 ltac:(lia) ltac:(lia) ltac:(lia)) as H1. rewrite He in H1 by lia.
  assert (n * 2 ^ (- b) = m * 2 ^ (e - b) * d) as ->.
  { apply (Z.mul_reg_r _ _ (2 ^ (b - b2))); [pose proof (pow_pos 2 (b - b2)); lia|].
    rewrite <- Z.mul_assoc, <- pow_split by lia. replace (- b + (b - b2)) with (- b2) by lia. rewrite H1.
    replace (e - b2) with (e - b + (b - b2)) by lia. rewrite pow_split by lia. lia. }
  rewrite Z.sub_diag. cbn [Z.abs]. rewrite Z.mul_0_r. pose proof (pow_pos 2 (e - b) ltac:(lia) ltac:(lia)). nia.
Qed.

(** Closeness, stated without units: of [n' / d'] to [n / d], which is the
    number. *)
Lemma close_cross p n d m e n' d' : 0 < d -> 0 < d' -> (forall b, b <= 0 -> b <= e -> n * 2 ^ (- b) = m * 2 ^ (e - b) * d) ->
  2 ^ (p + 1) * Z.abs (n' * d - n * d') < n * d' -> close p n' d' m e.
Proof.
  intros Hd Hd' Hn Hc b H0 He. pose proof (pow_pos 2 (- b) ltac:(lia) ltac:(lia)) as Hp. specialize (Hn b H0 He).
  set (V := m * 2 ^ (e - b)) in *. apply (Z.mul_lt_mono_pos_r d); [done|].
  replace (2 ^ (p + 1) * Z.abs (n' * 2 ^ (- b) - V * d') * d) with (2 ^ (p + 1) * Z.abs (n' * d - n * d') * 2 ^ (- b)).
  - replace (V * d' * d) with (n * d' * 2 ^ (- b)); [by apply Z.mul_lt_mono_pos_r|]. rewrite <- Z.mul_assoc, (Z.mul_comm d'), Z.mul_assoc, Hn. lia.
  - rewrite <- !Z.mul_assoc. f_equal. rewrite <- (Z.abs_eq (2 ^ (- b))) at 1 by lia. rewrite <- (Z.abs_eq d) at 2 by lia.
    rewrite <- !Z.abs_mul. f_equal. rewrite !Z.mul_sub_distr_r. replace (n * d' * 2 ^ (- b)) with (n * 2 ^ (- b) * d') by lia. rewrite Hn. lia.
Qed.

(** Rounded to a double first, a fraction stays close to a number of few
    digits. *)
Lemma round_double_close p n d m e : 0 < d -> 1 <= p <= 24 -> 0 < m < 2 ^ p -> -1000 <= e -> close (p + 2) n d m e ->
  let '(q, u) := round_frac 53 (-1074) n d in let '(n', d') := frac 2 q u in close p n' d' m e.
Proof.
  intros Hd Hp Hm He Hc. pose proof (close_numerator (p + 2) n d m e Hd ltac:(lia) ltac:(lia) Hc) as Hn.
  unfold round_frac, unit_of. set (k := floor_log 2 n d). set (u := Z.max (k - 53 + 1) (-1074)).
  pose proof (floor_log_spec 2 n d ltac:(lia) Hn Hd) as Hk. fold k in Hk. destruct (scaled 2 n d u) as [a c] eqn:Hs.
  set (q := round_even a c). destruct (frac 2 q u) as [n' d'] eqn:Hf. intros b' H0' He'.
  set (b := Z.min b' (Z.min (-1074) (k - 53))).
  enough (2 ^ (p + 1) * Z.abs (q * tick d b u - m * tick d b e) < m * tick d b e) as Hmain.
  { pose proof (frac_units 2 q u b ltac:(lia) ltac:(lia) ltac:(lia)) as Hu. rewrite Hf in Hu. destruct Hu as [Hd' Hu].
    apply (Z.mul_lt_mono_pos_r (d * 2 ^ (b' - b))); [pose proof (pow_pos 2 (b' - b)); nia|].
    assert (2 ^ (- b) = 2 ^ (- b') * 2 ^ (b' - b)) as E1 by (rewrite <- pow_split by lia; f_equal; lia).
    assert (2 ^ (e - b) = 2 ^ (e - b') * 2 ^ (b' - b)) as E2 by (rewrite <- pow_split by lia; f_equal; lia).
    unfold tick in Hmain. rewrite E2 in Hmain. rewrite E1 in Hu. pose proof (pow_pos 2 (b' - b) ltac:(lia) ltac:(lia)) as Hpb.
    set (P := 2 ^ (b' - b)) in *. set (V := m * 2 ^ (e - b')) in *. set (N := n' * 2 ^ (- b')) in *.
    apply (Z.mul_lt_mono_pos_r d') in Hmain; [|done].
    replace (m * (d * (2 ^ (e - b') * P)) * d') with (V * d' * (d * P)) in Hmain by (unfold V; lia).
    eapply Z.le_lt_trans; [|exact Hmain]. rewrite <- !Z.mul_assoc. apply Z.mul_le_mono_nonneg_l; [apply Z.pow_nonneg; lia|].
    rewrite <- (Z.abs_eq (d * P)) by nia. rewrite <- (Z.abs_eq d') at 2 by lia. rewrite <- !Z.abs_mul.
    apply Z.eq_le_incl. f_equal. rewrite !Z.mul_sub_distr_r. f_equal; [|unfold V; lia].
    replace (N * (d * P)) with (n' * (2 ^ (- b') * P) * d) by (unfold N; lia). rewrite Hu. lia. }
  specialize (Hc b ltac:(lia) ltac:(lia)). destruct (Hk b ltac:(lia) ltac:(lia)) as [H1 _].
  replace (m * 2 ^ (e - b) * d) with (m * tick d b e) in Hc by (unfold tick; lia).
  replace (2 ^ (k - b) * d) with (tick d b k) in H1 by (unfold tick; lia).
  pose proof (scaled_units 2 n d u b ltac:(lia) Hd ltac:(lia) ltac:(lia)) as Hsu. rewrite Hs in Hsu.
  destruct Hsu as (Hc0 & f & Hf0 & Ha & Hcf). fold (tick d b u) in Hcf.
  assert (2 * Z.abs (n * 2 ^ (- b) - q * tick d b u) <= tick d b u) as Hq.
  { pose proof (round_even_half a c Hc0) as Hh. fold q in Hh. rewrite Ha, Hcf. rewrite Z.mul_assoc, <- Z.mul_sub_distr_r, Z.abs_mul, (Z.abs_eq f) by lia. nia. }
  set (X := n * 2 ^ (- b)) in *. set (V := m * tick d b e) in *.
  assert (0 < V) as HV by (pose proof (tick_pos d b e Hd ltac:(lia)); unfold V; nia).
  assert (2 ^ (p + 2 + 1) = 4 * 2 ^ (p + 1)) as Hp4 by (change 4 with (2 ^ 2); rewrite <- pow_split by lia; f_equal; lia).
  pose proof (pow_pos 2 (p + 1) ltac:(lia) ltac:(lia)) as Hpp. rewrite Hp4 in Hc.
  assert (X < 2 * V) as HX2.
  { assert (Z.abs (X - V) <= 2 ^ (p + 1) * Z.abs (X - V)) by nia. lia. }
  assert (2 ^ (p + 1) * tick d b u <= V) as HU.
  { pose proof (pow_mono 2 (p + 1) 25 ltac:(lia) ltac:(lia)) as Hp25. pose proof (tick_pos d b u Hd ltac:(lia)) as Htu.
    destruct (Z_le_gt_dec (k - 53 + 1) (-1074)) as [Hsub|Hnorm].
    - assert (u = -1074) as Hu by lia. rewrite Hu in *. pose proof (tick_mono d b (-1074 + 25) e Hd ltac:(lia) ltac:(lia)) as Ht.
      rewrite tick_add in Ht by lia. unfold V. pose proof (tick_pos d b e Hd ltac:(lia)). nia.
    - assert (u = k - 52) as Hu by lia. rewrite Hu in *. replace k with (k - 52 + 52) in H1 by lia. rewrite tick_add in H1 by lia.
      change (2 ^ 52) with (2 ^ 25 * 2 ^ 27) in H1. change (2 ^ 27) with 134217728 in H1. nia. }
  assert (Z.abs (q * tick d b u - V) <= Z.abs (X - q * tick d b u) + Z.abs (X - V)) as Htri by lia.
  assert (2 ^ (p + 1) * Z.abs (q * tick d b u - V) <= 2 ^ (p + 1) * (Z.abs (X - q * tick d b u) + Z.abs (X - V))) by (apply Z.mul_le_mono_nonneg_l; lia).
  assert (2 ^ (p + 1) * (2 * Z.abs (X - q * tick d b u)) <= 2 ^ (p + 1) * tick d b u) by (apply Z.mul_le_mono_nonneg_l; lia). lia.
Qed.

(** * Numbers by their value *)

(** [m * 2 ^ e = m' * 2 ^ e']. *)
Definition same_value (m e m' e' : Z) : Prop := forall b, b <= e -> b <= e' -> m * 2 ^ (e - b) = m' * 2 ^ (e' - b).

Lemma same_value_at b m e m' e' : b <= e -> b <= e' -> m * 2 ^ (e - b) = m' * 2 ^ (e' - b) -> same_value m e m' e'.
Proof.
  intros H1 H2 He b' H1' H2'. set (b2 := Z.min b b').
  assert (m * 2 ^ (e - b2) = m' * 2 ^ (e' - b2)) as H.
  { replace (e - b2) with (e - b + (b - b2)) by lia. replace (e' - b2) with (e' - b + (b - b2)) by lia.
    rewrite !pow_split by lia. rewrite !Z.mul_assoc. by rewrite He. }
  replace (e - b2) with (e - b' + (b' - b2)) in H by lia. replace (e' - b2) with (e' - b' + (b' - b2)) in H by lia.
  rewrite !pow_split, !Z.mul_assoc in H by lia. apply Z.mul_reg_r in H; [done|]. pose proof (pow_pos 2 (b' - b2)). lia.
Qed.

Lemma same_value_refl m e : same_value m e m e.
Proof. done. Qed.
Lemma same_value_sym m e m' e' : same_value m e m' e' -> same_value m' e' m e.
Proof. intros H b H1 H2. by rewrite H. Qed.
Lemma same_value_trans m e m' e' m'' e'' : same_value m e m' e' -> same_value m' e' m'' e'' -> same_value m e m'' e''.
Proof.
  intros H H'. set (b := Z.min e (Z.min e' e'')). apply (same_value_at b); [lia|lia|].
  rewrite (H b), (H' b); [done|lia..].
Qed.
Lemma same_value_shift m e k : 0 <= k -> same_value (m * 2 ^ k) e m (e + k).
Proof.
  intros Hk. apply (same_value_at e); [lia|lia|]. rewrite Z.sub_diag, Z.mul_1_r. f_equal. f_equal. lia.
Qed.
Lemma same_value_scale m e m' e' k : same_value m e m' e' -> same_value m (e + k) m' (e' + k).
Proof.
  intros H b H1 H2. replace (e + k - b) with (e - (b - k)) by lia. replace (e' + k - b) with (e' - (b - k)) by lia. apply H; lia.
Qed.

(** [n / d = m * 2 ^ e]. *)
Definition has_value (n d m e : Z) : Prop := forall b, b <= 0 -> b <= e -> n * 2 ^ (- b) = m * 2 ^ (e - b) * d.

Lemma frac_value m e : let '(n, d) := frac 2 m e in 0 < d /\ has_value n d m e.
Proof.
  pose proof (frac_denominator 2 m e ltac:(lia)) as Hd. destruct (frac 2 m e) as [n d] eqn:Hf. split; [done|]. intros b H0 He.
  pose proof (frac_units 2 m e b ltac:(lia) H0 He) as H. rewrite Hf in H. tauto.
Qed.

Lemma has_value_same n d m e m' e' : 0 < d -> has_value n d m e -> same_value m e m' e' -> has_value n d m' e'.
Proof.
  intros Hd Hv Hs b H0 He. set (b2 := Z.min b e). pose proof (Hv b2 ltac:(lia) ltac:(lia)) as H. rewrite (Hs b2) in H by lia.
  apply (Z.mul_reg_r _ _ (2 ^ (b - b2))); [pose proof (pow_pos 2 (b - b2)); lia|].
  rewrite <- Z.mul_assoc, <- pow_split by lia. replace (- b + (b - b2)) with (- b2) by lia. rewrite H.
  replace (e' - b2) with (e' - b + (b - b2)) by lia. rewrite pow_split by lia. lia.
Qed.

Lemma has_value_cross n d n' d' m e m' e' : 0 < d -> 0 < d' -> has_value n d m e -> has_value n' d' m' e' -> same_value m e m' e' -> n * d' = n' * d.
Proof.
  intros Hd Hd' H H' Hs. pose proof (has_value_same n d m e m' e' Hd H Hs) as H2. set (b := Z.min 0 e').
  specialize (H' b ltac:(lia) ltac:(lia)). specialize (H2 b ltac:(lia) ltac:(lia)). pose proof (pow_pos 2 (- b) ltac:(lia) ltac:(lia)).
  apply (Z.mul_reg_r _ _ (2 ^ (- b))); [lia|]. replace (n * d' * 2 ^ (- b)) with (n * 2 ^ (- b) * d') by lia.
  replace (n' * d * 2 ^ (- b)) with (n' * 2 ^ (- b) * d) by lia. rewrite H2, H'. lia.
Qed.

Lemma value_close p n d m e : 0 < m -> 0 < d -> has_value n d m e -> close p n d m e.
Proof.
  intros Hm Hd Hv b H0 He. rewrite (Hv b H0 He), Z.sub_diag. cbn [Z.abs]. rewrite Z.mul_0_r. pose proof (pow_pos 2 (e - b)). nia.
Qed.

Lemma close_respects p n d n' d' m e : 0 < d -> 0 < d' -> n * d' = n' * d -> close p n d m e -> close p n' d' m e.
Proof.
  intros Hd Hd' He Hc b H0 Hb. specialize (Hc b H0 Hb). set (V := m * 2 ^ (e - b)) in *. set (P := 2 ^ (- b)) in *.
  apply (Z.mul_lt_mono_pos_r d); [done|]. apply (Z.mul_lt_mono_pos_r d') in Hc; [|done].
  replace (V * d' * d) with (V * d * d') by lia. eapply Z.le_lt_trans; [|exact Hc]. rewrite <- !Z.mul_assoc.
  apply Z.eq_le_incl. f_equal. rewrite <- (Z.abs_eq d) at 1 by lia. rewrite <- (Z.abs_eq d') at 2 by lia. rewrite <- !Z.abs_mul. f_equal.
  rewrite !Z.mul_sub_distr_r. replace (n' * P * d) with (n' * d * P) by lia. rewrite <- He. lia.
Qed.

(** How far a rounded fraction reaches. *)
Lemma round_frac_bounds p emin n d : 1 <= p -> 0 < n -> 0 < d ->
  let '(q, u) := round_frac p emin n d in emin <= u /\ 0 <= q <= 2 ^ p /\ (2 ^ (p - 1) <= q \/ u = emin).
Proof.
  intros Hp Hn Hd. unfold round_frac, unit_of. set (k := floor_log 2 n d). set (u := Z.max (k - p + 1) emin).
  pose proof (floor_log_spec 2 n d ltac:(lia) Hn Hd) as Hk. fold k in Hk. set (b := Z.min 0 (Z.min k (k - p + 1))).
  destruct (Hk b ltac:(lia) ltac:(lia)) as [H1 H2].
  pose proof (scaled_units 2 n d u b ltac:(lia) Hd ltac:(lia) ltac:(lia)) as Hs. destruct (scaled 2 n d u) as [a c].
  destruct Hs as (Hc & f & Hf & Ha & Hcf). rewrite Ha in *. split; [lia|]. split.
  - apply round_even_range; [done|]. split; [pose proof (pow_pos 2 (- b)); nia|].
    assert (2 ^ (k + 1 - b) * d <= 2 ^ p * (c * f)) as H3; [|nia].
    rewrite <- Hcf. replace (2 ^ p * (d * 2 ^ (u - b))) with (2 ^ p * 2 ^ (u - b) * d) by lia. rewrite <- pow_split by lia.
    apply Z.mul_le_mono_nonneg_r; [lia|]. apply pow_mono; lia.
  - destruct (Z_le_gt_dec (k - p + 1) emin) as [|Hgt]; [right; lia|]. left.
    assert (u = k - p + 1) as Hu by lia. enough (2 ^ (p - 1) <= round_even a c <= a) by lia. 
    assert (2 ^ (k - b) * d = 2 ^ (p - 1) * (c * f)) as H3.
    { rewrite <- Hcf, Hu. replace (2 ^ (p - 1) * (d * 2 ^ (k - p + 1 - b))) with (2 ^ (p - 1) * 2 ^ (k - p + 1 - b) * d) by lia.
      rewrite <- pow_split by lia. do 2 f_equal. lia. }
    assert (2 ^ (p - 1) * c <= a) by nia. pose proof (pow_pos 2 (p - 1) ltac:(lia) ltac:(lia)).
    apply round_even_range; [done|]. nia.
Qed.
