(* ===== verification/F16.v ===== *)
(** The rounding of a double to [f16] by which a spelled [f16] is read back
    ([nearest_f16] of [runtime/format.c]), over exact binary floats. *)
From S2P Require Import Prelude Rounding FormatFloat.

(** * Doubles as what they stand for *)

(** [mant * 2 ^ expo]: every finite double is one, in many ways. *)
Record dyadic := Dyadic { mant : Z; expo : Z }.

(** [x] counted in units of [2 ^ e], for an [e] no larger than its exponent. *)
Definition units (x : dyadic) (e : Z) : Z := mant x * 2 ^ (expo x - e).

(** The C library on them: scaling by a power of two is exact here, as it is in
    [nearest_f16], where every value scaled has at most 53 digits and stays in
    the exponents of a double until it is past those of an [f16]. *)
Definition dyadic_frexp (x : dyadic) : Z := if mant x =? 0 then 0 else Z.log2 (Z.abs (mant x)) + 1 + expo x.
Definition dyadic_ldexp (x : dyadic) (n : Z) : dyadic := Dyadic (mant x) (expo x + n).
Definition dyadic_nearbyint (x : dyadic) : dyadic :=
  if 0 <=? expo x then x else Dyadic (round_even (mant x) (2 ^ (- expo x))) 0.
Definition dyadic_equal (x y : dyadic) : bool :=
  let e := Z.min (expo x) (expo y) in units x e =? units y e.
Definition dyadic_ops : double_ops dyadic := DoubleOps dyadic dyadic_frexp dyadic_ldexp dyadic_nearbyint id dyadic_equal.

(** * Units *)

Lemma units_ldexp x n e : units (dyadic_ldexp x n) e = units x (e - n).
Proof. unfold units. cbn. do 2 f_equal. lia. Qed.

Lemma pow2_split a b : 0 <= a -> 0 <= b -> 2 ^ (a + b) = 2 ^ a * 2 ^ b.
Proof. apply pow_split. Qed.

Lemma pow2_pos a : 0 <= a -> 0 < 2 ^ a.
Proof. by apply pow_pos. Qed.

Lemma units_finer x e e' : e' <= e -> e <= expo x -> units x e' = units x e * 2 ^ (e - e').
Proof. intros H1 H2. unfold units. rewrite <- Z.mul_assoc, <- pow2_split by lia. do 2 f_equal. lia. Qed.

Lemma dyadic_equal_units x y e : e <= expo x -> e <= expo y -> dyadic_equal x y = true <-> units x e = units y e.
Proof.
  intros Hx Hy. unfold dyadic_equal. rewrite Z.eqb_eq. set (m := Z.min (expo x) (expo y)).
  rewrite (units_finer x m e), (units_finer y m e) by lia. pose proof (pow2_pos (m - e) ltac:(lia)). split; [congruence|].
  intros H1. by apply Z.mul_reg_r in H1; [|lia].
Qed.

(** * The unit of an [f16] *)

Definition f16_unit (x : dyadic) : Z := Z.max (dyadic_frexp x - 11) (-24).

(** The magnitude of [x] lies in the binade its exponent names. *)
Lemma frexp_bounds x e : e <= expo x -> mant x <> 0 ->
  2 ^ (dyadic_frexp x - 1 - e) <= Z.abs (units x e) < 2 ^ (dyadic_frexp x - e).
Proof.
  intros He Hx. unfold dyadic_frexp, units. destruct (Z.eqb_spec (mant x) 0); [done|]. rewrite Z.abs_mul, (Z.abs_eq (2 ^ _)) by (pose proof (pow2_pos (expo x - e)); lia).
  destruct (Z.log2_spec (Z.abs (mant x)) ltac:(lia)) as [H1 H2]. pose proof (Z.log2_nonneg (Z.abs (mant x))).
  pose proof (pow2_pos (expo x - e) ltac:(lia)).
  replace (Z.log2 (Z.abs (mant x)) + 1 + expo x - 1 - e) with (Z.log2 (Z.abs (mant x)) + (expo x - e)) by lia.
  replace (Z.log2 (Z.abs (mant x)) + 1 + expo x - e) with (Z.succ (Z.log2 (Z.abs (mant x))) + (expo x - e)) by lia.
  rewrite !pow2_split by lia. split; [by apply Z.mul_le_mono_nonneg_r; lia|by apply Z.mul_lt_mono_pos_r].
Qed.

(** [nearest_f16] is the nearest multiple of the unit, ties to the even one. *)
Lemma nearest_multiple x e : e <= expo x -> e <= -24 ->
  exists n, units (nearest_f16 dyadic_ops x) e = n * 2 ^ (f16_unit x - e) /\ e <= expo (nearest_f16 dyadic_ops x) /\
    forall j,
      Z.abs (units x e - n * 2 ^ (f16_unit x - e)) <= Z.abs (units x e - j * 2 ^ (f16_unit x - e)) /\
      (Z.abs (units x e - n * 2 ^ (f16_unit x - e)) = Z.abs (units x e - j * 2 ^ (f16_unit x - e)) -> j = n \/ Z.even n = true).
Proof.
  intros He H24. unfold nearest_f16. cbn [frexp ldexp nearbyint dyadic_ops].
  assert ((if dyadic_frexp x - 11 <? -24 then -24 else dyadic_frexp x - 11) = f16_unit x) as ->
    by (unfold f16_unit; destruct (Z.ltb_spec (dyadic_frexp x - 11) (-24)); lia).
  set (u := f16_unit x). assert (-24 <= u) as Hu by (unfold u, f16_unit; lia). rewrite units_ldexp.
  unfold dyadic_nearbyint. cbn [expo mant dyadic_ldexp]. destruct (Z.leb_spec 0 (expo x + - u)) as [Hs|Hs].
  - exists (mant x * 2 ^ (expo x - u)). rewrite units_ldexp. cbn [expo dyadic_ldexp].
    replace (e - u - - u) with e by lia. assert (units x e = mant x * 2 ^ (expo x - u) * 2 ^ (u - e)) as ->.
    { unfold units. rewrite <- Z.mul_assoc, <- pow2_split by lia. do 2 f_equal. lia. }
    split_and!; [done|lia|]. intros j. set (U := 2 ^ (u - e)). rewrite Z.sub_diag. split; [cbn; lia|]. intros H. left.
    pose proof (pow2_pos (u - e) ltac:(lia)) as HU. fold U in HU. nia.
  - set (d := 2 ^ (- (expo x + - u))). pose proof (pow2_pos (- (expo x + - u)) ltac:(lia)) as Hd. fold d in Hd.
    exists (round_even (mant x) d). unfold units at 1. cbn [mant expo dyadic_ldexp]. replace (0 - (e - u)) with (u - e) by lia.
    split_and!; [done|lia|]. intros j. set (U := 2 ^ (u - e)). unfold units.
    assert (U = d * 2 ^ (expo x - e)) as -> by (unfold U, d; rewrite <- pow2_split by lia; f_equal; lia).
    pose proof (pow2_pos (expo x - e) ltac:(lia)) as Hp. set (p := 2 ^ (expo x - e)) in *.
    rewrite !Z.mul_assoc, <- !Z.mul_sub_distr_r, !Z.abs_mul, (Z.abs_eq p) by lia.
    destruct (round_even_nearest (mant x) d j Hd) as [H1 H2]. split; [by apply Z.mul_le_mono_nonneg_r; lia|].
    intros H. apply H2. by apply Z.mul_reg_r in H; [|lia].
Qed.

(** The multiple has 11 digits, or is the least one with 12. *)
Lemma nearest_digits x e n : e <= expo x -> e <= -24 -> 
  (forall j, Z.abs (units x e - n * 2 ^ (f16_unit x - e)) <= Z.abs (units x e - j * 2 ^ (f16_unit x - e))) ->
  Z.abs n <= 2 ^ 11 /\ (Z.abs n = 2 ^ 11 -> Z.abs (units x e) * 2 >= 4095 * 2 ^ (f16_unit x - e)).
Proof.
  intros He H24 Hn. set (U := 2 ^ (f16_unit x - e)) in *.
  assert (0 < U) as HU by (apply pow2_pos; unfold f16_unit; lia).
  assert (Z.abs (units x e) < 2 ^ 11 * U) as HX.
  { destruct (decide (mant x = 0)) as [H0|H0]; [unfold units; rewrite H0; cbn; lia|].
    destruct (frexp_bounds x e He H0) as [H1 H2]. eapply Z.lt_le_trans; [exact H2|].
    assert (0 <= dyadic_frexp x - e) as Hf.
    { unfold dyadic_frexp. destruct (Z.eqb_spec (mant x) 0); [done|]. pose proof (Z.log2_nonneg (Z.abs (mant x))). lia. }
    unfold U. rewrite <- pow2_split by (unfold f16_unit; lia). apply Z.pow_le_mono_r; [lia|]. unfold f16_unit; lia. }
  change (2 ^ 11) with 2048 in *. set (X := units x e) in *. split.
  - pose proof (Hn 2048). pose proof (Hn (-2048)). destruct (Z_lt_le_dec 2048 n); [nia|]. destruct (Z_lt_le_dec n (-2048)); [nia|lia].
  - intros Ha. pose proof (Hn 2047). pose proof (Hn (-2047)). assert (n = 2048 \/ n = -2048) as [Hn2|Hn2] by lia; subst n; lia.
Qed.

(** A number of 11 digits finer than the unit is further from [x] than a
    multiple of the unit is. *)
Lemma finer_is_further x e n k u : e <= expo x -> e <= -24 -> Z.abs k < 2 ^ 11 -> -24 <= u -> u < f16_unit x ->
  (forall j, Z.abs (units x e - n * 2 ^ (f16_unit x - e)) <= Z.abs (units x e - j * 2 ^ (f16_unit x - e))) ->
  mant x <> 0 -> Z.abs (units x e - n * 2 ^ (f16_unit x - e)) < Z.abs (units x e - k * 2 ^ (u - e)).
Proof.
  intros He H24 Hk Hu Hlt Hn H0. assert (f16_unit x = dyadic_frexp x - 11) as Hf by (unfold f16_unit in *; lia).
  destruct (frexp_bounds x e He H0) as [H1 _]. set (W := 2 ^ (u - e)).
  assert (0 < W) as HW by (apply pow2_pos; lia).
  assert (2 ^ (f16_unit x - e) = 2 ^ (f16_unit x - u - 1) * 2 * W) as HU.
  { unfold W. change 2 with (2 ^ 1) at 3. rewrite <- !pow2_split by lia. f_equal. lia. }
  assert (2 ^ (dyadic_frexp x - 1 - e) = 1024 * 2 ^ (f16_unit x - e)) as H2.
  { change 1024 with (2 ^ 10). rewrite <- pow2_split by lia. f_equal. lia. }
  rewrite H2 in H1. rewrite HU in *. pose proof (pow2_pos (f16_unit x - u - 1) ltac:(lia)) as Hp. set (p := 2 ^ (f16_unit x - u - 1)) in *.
  change (2 ^ 11) with 2048 in Hk. set (X := units x e) in *.
  assert (Z.abs (k * W) < 1024 * (p * 2 * W)) as Hv by (rewrite Z.abs_mul; nia).
  destruct (Z_lt_le_dec 0 X).
  - eapply Z.le_lt_trans; [apply (Hn 1024)|]. lia.
  - eapply Z.le_lt_trans; [apply (Hn (-1024))|]. lia.
Qed.
