(* ===== verification/F16Claims.v ===== *)
(** [nearest_f16] rounds to [f16]. *)
From S2P Require Import Prelude Rounding FormatFloat F16.

(** The finite values of an [f16]: 11 binary digits, exponents from -24 to 5. *)
Definition f16_value (v : dyadic) : Prop := Z.abs (mant v) < 2 ^ 11 /\ -24 <= expo v <= 5.

(** A number below the threshold rounds to an [f16]. *)
Lemma rounded_in_range x e n : e <= expo x -> e <= -24 -> Z.abs (units x e) < 65520 * 2 ^ (- e) ->
  (forall j, Z.abs (units x e - n * 2 ^ (f16_unit x - e)) <= Z.abs (units x e - j * 2 ^ (f16_unit x - e))) ->
  exists v, f16_value v /\ units v e = n * 2 ^ (f16_unit x - e).
Proof.
  intros He H24 Hx Hn. destruct (nearest_digits x e n He H24 Hn) as [Hd H12]. pose proof (pow2_pos (- e) ltac:(lia)) as Hp.
  assert (-24 <= f16_unit x <= 5) as Hu.
  { split; [unfold f16_unit; lia|]. destruct (decide (mant x = 0)) as [H0|H0]; [unfold f16_unit, dyadic_frexp; rewrite H0; cbn; lia|].
    destruct (frexp_bounds x e He H0) as [H1 _]. destruct (Z_le_gt_dec (dyadic_frexp x) 16); [unfold f16_unit; lia|].
    assert (2 ^ 16 * 2 ^ (- e) <= 2 ^ (dyadic_frexp x - 1 - e)) as H2 by (rewrite <- pow2_split by lia; apply Z.pow_le_mono_r; lia).
    change (2 ^ 16) with 65536 in H2. lia. }
  change (2 ^ 11) with 2048 in *. destruct (decide (Z.abs n = 2048)) as [Ha|Ha].
  - specialize (H12 Ha). destruct (decide (f16_unit x = 5)) as [H5|H5].
    + exfalso. rewrite H5 in H12. replace (5 - e) with (5 + - e) in H12 by lia. rewrite pow2_split in H12 by lia.
      change (2 ^ 5) with 32 in H12. lia.
    + exists (Dyadic (n / 2) (f16_unit x + 1)). unfold f16_value, units. cbn [mant expo]. change (2 ^ 11) with 2048.
      replace (f16_unit x + 1 - e) with (f16_unit x - e + 1) by lia. rewrite pow2_split by lia. change (2 ^ 1) with 2.
      assert (n = 2048 \/ n = -2048) as [Hn2|Hn2] by lia; subst n; [change (2048 / 2) with 1024|change (-2048 / 2) with (-1024)]; split_and!; lia.
  - exists (Dyadic n (f16_unit x)). split; [|done]. unfold f16_value. cbn. lia.
Qed.

(** One at or past it does not. *)
Lemma rounded_past_range x e n : e <= expo x -> e <= -24 -> 65520 * 2 ^ (- e) <= Z.abs (units x e) ->
  (forall j, Z.abs (units x e - n * 2 ^ (f16_unit x - e)) <= Z.abs (units x e - j * 2 ^ (f16_unit x - e)) /\
     (Z.abs (units x e - n * 2 ^ (f16_unit x - e)) = Z.abs (units x e - j * 2 ^ (f16_unit x - e)) -> j = n \/ Z.even n = true)) ->
  65536 * 2 ^ (- e) <= Z.abs (n * 2 ^ (f16_unit x - e)).
Proof.
  intros He H24 Hx Hn. pose proof (pow2_pos (- e) ltac:(lia)) as Hp.
  assert (mant x <> 0) as H0 by (intros H0; unfold units in Hx; rewrite H0 in Hx; cbn in Hx; lia).
  destruct (frexp_bounds x e He H0) as [H1 H2]. assert (16 <= dyadic_frexp x) as Hf.
  { destruct (Z_le_gt_dec 16 (dyadic_frexp x)); [done|]. destruct (Z_le_gt_dec 0 (dyadic_frexp x - e)).
    - assert (2 ^ (dyadic_frexp x - e) <= 2 ^ 15 * 2 ^ (- e)) as H3 by (rewrite <- pow2_split by lia; apply Z.pow_le_mono_r; lia).
      change (2 ^ 15) with 32768 in H3. lia.
    - rewrite (Z.pow_neg_r 2 (dyadic_frexp x - e)) in H2 by lia. lia. }
  assert (f16_unit x = dyadic_frexp x - 11) as Hfu by (unfold f16_unit; lia).
  assert (2 ^ (dyadic_frexp x - 1 - e) = 1024 * 2 ^ (f16_unit x - e)) as H3.
  { change 1024 with (2 ^ 10). rewrite <- pow2_split by lia. f_equal. lia. }
  rewrite H3 in H1. assert (2 ^ (f16_unit x - e) = 2 ^ (f16_unit x - 5) * (32 * 2 ^ (- e))) as HU.
  { change 32 with (2 ^ 5). rewrite <- !pow2_split by lia. f_equal. lia. }
  pose proof (pow2_pos (f16_unit x - 5) ltac:(lia)) as Hq. set (X := units x e) in *. set (P := 2 ^ (- e)) in *.
  destruct (decide (f16_unit x = 5)) as [H5|H5].
  - rewrite HU, H5 in Hn |- *. change (2 ^ (5 - 5)) with 1 in *. rewrite !Z.mul_1_l in *. rewrite Z.abs_mul, (Z.abs_eq (32 * P)) by lia.
    destruct (Z_le_gt_dec 2048 (Z.abs n)); [nia|]. exfalso.
    destruct (Z_lt_le_dec 0 X).
    + destruct (Hn 2048) as [A B]. assert (n = 2047) as -> by nia. assert (2048 = 2047 \/ Z.even 2047 = true) as [?|?] by (apply B; lia); done.
    + destruct (Hn (-2048)) as [A B]. assert (n = -2047) as -> by nia. assert (-2048 = -2047 \/ Z.even (-2047) = true) as [?|?] by (apply B; lia); done.
  - assert (2 ^ (f16_unit x - 5) >= 2) as Hq2.
    { assert (2 ^ 1 <= 2 ^ (f16_unit x - 5)) by (apply Z.pow_le_mono_r; lia). lia. }
    assert (64 * P <= 2 ^ (f16_unit x - e)) as HU2 by (rewrite HU; nia). set (U := 2 ^ (f16_unit x - e)) in *.
    rewrite Z.abs_mul, (Z.abs_eq U) by lia. destruct (Z_le_gt_dec 1024 (Z.abs n)); [nia|]. exfalso.
    destruct (Hn 1024) as [A _], (Hn (-1024)) as [B _]. destruct (Z_lt_le_dec 0 X); nia.
Qed.

(** C40: [nearest_f16] is rounding to [f16], to nearest with ties to even: of all
    numbers with 11 binary digits and an exponent no less than the smallest
    [f16]'s, its answer is one nearest to [x], and where two are equally near,
    the one whose last digit is even. The answer is a finite [f16] exactly when
    [x] is below the midpoint past the largest one, 65520: past it no [f16]
    equals the answer, so no spelling that overflows an [f16] is taken to read
    back as one. *)
Theorem nearest_f16_correct x e : e <= expo x -> e <= -24 ->
  let r := nearest_f16 dyadic_ops x in
  (exists n, units r e = n * 2 ^ (f16_unit x - e) /\
    forall v, Z.abs (mant v) < 2 ^ 11 -> -24 <= expo v ->
      Z.abs (units x e - units r e) <= Z.abs (units x e - units v e) /\
      (Z.abs (units x e - units r e) = Z.abs (units x e - units v e) -> units v e = units r e \/ Z.even n = true)) /\
  (Z.abs (units x e) < 65520 * 2 ^ (- e) <-> exists v, f16_value v /\ equal dyadic_ops r v = true).
Proof.
  intros He H24 r. destruct (nearest_multiple x e He H24) as (n & Hr & Her & Hn). fold r in Hr, Her. rewrite Hr. split.
  - exists n. split; [done|]. intros v Hv Hev. destruct (Z_lt_le_dec (expo v) (f16_unit x)) as [Hlt|Hge].
    + destruct (decide (mant x = 0)) as [H0|H0].
      * assert (units x e = 0) as -> by (unfold units; by rewrite H0). destruct (Hn 0) as [Ha _].
        assert (units x e = 0) as Hx0 by (unfold units; by rewrite H0). rewrite Hx0 in Ha. cbn in Ha. split; lia.
      * pose proof (finer_is_further x e n (mant v) (expo v) He H24 Hv Hev Hlt (fun j => proj1 (Hn j)) H0).
        change (mant v * 2 ^ (expo v - e)) with (units v e) in *. split; lia.
    + assert (units v e = mant v * 2 ^ (expo v - f16_unit x) * 2 ^ (f16_unit x - e)) as Hu.
      { unfold units. rewrite <- Z.mul_assoc, <- pow2_split by (unfold f16_unit in *; lia). do 2 f_equal. lia. }
      rewrite Hu. destruct (Hn (mant v * 2 ^ (expo v - f16_unit x))) as [A B]. split; [exact A|]. intros H. destruct (B H) as [->|]; auto.
  - cbn [equal dyadic_ops]. split.
    + intros Hx. destruct (rounded_in_range x e n He H24 Hx (fun j => proj1 (Hn j))) as (v & Hv & Hu). exists v. split; [done|].
      rewrite (dyadic_equal_units r v e) by (unfold f16_value in Hv; lia). congruence.
    + intros (v & [Hm Hx] & Heq). rewrite (dyadic_equal_units r v e) in Heq by lia. rewrite Hr in Heq.
      destruct (Z_lt_le_dec (Z.abs (units x e)) (65520 * 2 ^ (- e))) as [|Hge]; [done|]. exfalso.
      pose proof (rounded_past_range x e n He H24 Hge Hn) as Hbig. rewrite Heq in Hbig. unfold units in Hbig.
      rewrite Z.abs_mul, (Z.abs_eq (2 ^ _)) in Hbig by (pose proof (pow2_pos (expo v - e)); lia).
      assert (2 ^ (expo v - e) <= 2 ^ 5 * 2 ^ (- e)) as H5 by (rewrite <- pow2_split by lia; apply Z.pow_le_mono_r; lia).
      change (2 ^ 5) with 32 in H5. change (2 ^ 11) with 2048 in Hm. pose proof (pow2_pos (- e) ltac:(lia)). nia.
Qed.

(** * Concrete values *)

(** 2049, halfway between 2048 and 2050; 65519 and 65520 around the threshold;
    the least subnormal, and half of it. *)
Example rounded_values :
  dyadic_equal (nearest_f16 dyadic_ops (Dyadic 2049 0)) (Dyadic 2048 0) = true /\
  dyadic_equal (nearest_f16 dyadic_ops (Dyadic 65519 0)) (Dyadic 65504 0) = true /\
  dyadic_equal (nearest_f16 dyadic_ops (Dyadic 65520 0)) (Dyadic 65536 0) = true /\
  dyadic_equal (nearest_f16 dyadic_ops (Dyadic 3 (-25))) (Dyadic 1 (-23)) = true /\
  dyadic_equal (nearest_f16 dyadic_ops (Dyadic 1 (-25))) (Dyadic 0 0) = true.
Proof. vm_compute. by split_and!. Qed.

Lemma nearest_f16_correct_witness :
  let r := nearest_f16 dyadic_ops (Dyadic 2049 0) in
  (exists n, units r (-24) = n * 2 ^ (f16_unit (Dyadic 2049 0) - -24) /\
    forall v, Z.abs (mant v) < 2 ^ 11 -> -24 <= expo v ->
      Z.abs (units (Dyadic 2049 0) (-24) - units r (-24)) <= Z.abs (units (Dyadic 2049 0) (-24) - units v (-24)) /\
      (Z.abs (units (Dyadic 2049 0) (-24) - units r (-24)) = Z.abs (units (Dyadic 2049 0) (-24) - units v (-24)) ->
        units v (-24) = units r (-24) \/ Z.even n = true)) /\
  (Z.abs (units (Dyadic 2049 0) (-24)) < 65520 * 2 ^ (- -24) <-> exists v, f16_value v /\ equal dyadic_ops r v = true).
Proof. apply (nearest_f16_correct (Dyadic 2049 0) (-24)); cbn; lia. Defined.
