(* ===== verification/FormatFloatSpec.v ===== *)
(** What a float's text stands for: a decimal reader, and that laying a
    spelling out, or moving it one unit up, acts on that value. *)
From S2P Require Import Prelude Utf8 Utf8Codec Format FormatSpec FormatFloat.

(** * Decimal numbers *)

Definition is_digit (c : Z) : Prop := 48 <= c <= 57.

(** The number that decimal digits spell. *)
Definition number_from (acc : Z) (ds : bytes) : Z := foldl (fun n c => n * 10 + (c - 48)) acc ds.
Definition number (ds : bytes) : Z := number_from 0 ds.

Lemma number_from_eq acc ds : number_from acc ds = acc * 10 ^ zlen ds + number ds.
Proof.
  unfold number. revert acc. induction ds as [|c ds IH]; intros acc; [cbn; lia|]. unfold number_from in *. cbn [foldl].
  rewrite IH, (IH (0 * 10 + _)). cbn [length]. rewrite Nat2Z.inj_succ, Z.pow_succ_r by lia. lia.
Qed.

Lemma number_app ds es : number (ds ++ es) = number ds * 10 ^ zlen es + number es.
Proof. unfold number at 1, number_from. rewrite foldl_app. apply number_from_eq. Qed.

Lemma number_cons c ds : number (c :: ds) = (c - 48) * 10 ^ zlen ds + number ds.
Proof. change (c :: ds) with ([c] ++ ds). rewrite number_app. cbn. lia. Qed.

Lemma number_zeros k : number (replicate k 48) = 0.
Proof. induction k as [|k IH]; [done|]. cbn [replicate]. rewrite number_cons, IH. lia. Qed.

Lemma number_nines k : number (replicate k 57) = 10 ^ Z.of_nat k - 1.
Proof.
  induction k as [|k IH]; [done|]. cbn [replicate]. rewrite number_cons, IH, length_replicate, Nat2Z.inj_succ, Z.pow_succ_r; lia.
Qed.

Lemma number_nonneg ds : Forall is_digit ds -> 0 <= number ds.
Proof.
  intros Hd. induction Hd as [|c ds Hc _ IH]; [done|]. rewrite number_cons. unfold is_digit in Hc.
  pose proof (Z.pow_nonneg 10 (zlen ds)). nia.
Qed.

(** [m * 10 ^ x] and [m' * 10 ^ x'] are the same number. *)
Definition same (m x m' x' : Z) : Prop := m * 10 ^ (x - Z.min x x') = m' * 10 ^ (x' - Z.min x x').

Lemma same_refl m x : same m x m x.
Proof. done. Qed.

Lemma same_scale m k x x' : 0 <= k -> x' = x + k -> same (m * 10 ^ k) x m x'.
Proof.
  intros Hk ->. unfold same. rewrite Z.min_l by lia. rewrite Z.sub_diag. replace (x + k - x) with k by lia. lia.
Qed.

Lemma same_sym m x m' x' : same m x m' x' -> same m' x' m x.
Proof. unfold same. rewrite Z.min_comm. by intros ->. Qed.

Lemma same_at_scale b m x m' x' : b <= x -> b <= x' ->
  same m x m' x' <-> m * 10 ^ (x - b) = m' * 10 ^ (x' - b).
Proof.
  intros Hx Hx'. unfold same. set (k := Z.min x x').
  replace (x - b) with ((x - k) + (k - b)) by lia. replace (x' - b) with ((x' - k) + (k - b)) by lia.
  rewrite !Z.pow_add_r by lia. rewrite !Z.mul_assoc.
  assert (10 ^ (k - b) <> 0) by (apply Z.pow_nonzero; lia). split; [by intros ->|]. intros H0. by apply Z.mul_cancel_r in H0.
Qed.

Lemma same_trans m x m' x' m'' x'' : same m x m' x' -> same m' x' m'' x'' -> same m x m'' x''.
Proof.
  set (b := Z.min x (Z.min x' x'')). rewrite !(same_at_scale b) by lia. congruence.
Qed.

(** * The reader *)

Definition read_signed (text : bytes) : option Z :=
  match text with
  | [] => None
  | c :: rest => if c =? 45 then Z.opp <$> read_digits 10 rest else if c =? 43 then read_digits 10 rest else read_digits 10 text
  end.

(** Digits, at most one point, and an exponent, after the sign. *)
Fixpoint scan (text : bytes) (m : Z) (frac : option Z) : option (Z * Z) :=
  match text with
  | [] => Some (m, - default 0 frac)
  | c :: rest =>
      if c =? 46 then match frac with None => scan rest m (Some 0) | Some _ => None end
      else if c =? 101 then x ← read_signed rest; Some (m, x - default 0 frac)
      else if (48 <=? c) && (c <=? 57) then scan rest (m * 10 + (c - 48)) (Z.succ <$> frac)
      else None
  end.

(** [Some (negative, m, x)]: the text spells [m * 10 ^ x], or its opposite. *)
Definition read_decimal (text : bytes) : option (bool * Z * Z) :=
  match text with
  | [] => None
  | c :: rest =>
      if c =? 45 then '(m, x) ← scan rest 0 None; Some (true, m, x)
      else '(m, x) ← scan text 0 None; Some (false, m, x)
  end.

Lemma scan_digits ds rest m frac : Forall is_digit ds ->
  scan (ds ++ rest) m frac = scan rest (number_from m ds) ((fun f => f + zlen ds) <$> frac).
Proof.
  intros Hd. revert m frac. induction Hd as [|c ds Hc _ IH]; intros m frac.
  { cbn. destruct frac; [|done]. cbn. by rewrite Z.add_0_r. }
  cbn [app scan]. unfold is_digit in Hc.
  destruct (Z.eqb_spec c 46), (Z.eqb_spec c 101), (Z.leb_spec 48 c), (Z.leb_spec c 57); try lia. cbn [andb].
  rewrite IH. unfold number_from at 2. cbn [foldl]. f_equal. destruct frac; [|done]. cbn [fmap option_fmap option_map length]. f_equal. lia.
Qed.

Lemma scan_point rest m : scan (46 :: rest) m None = scan rest m (Some 0).
Proof. done. Qed.

(** * Spelling exponents *)

Lemma read_from_number ds acc : Forall is_digit ds -> read_from 10 acc ds = Some (number_from acc ds).
Proof.
  intros Hd. revert acc. induction Hd as [|c ds Hc _ IH]; intros acc; [done|]. cbn [read_from]. unfold is_digit in Hc.
  unfold digit_value. destruct (Z.leb_spec 48 c), (Z.leb_spec c 57); try lia. cbn.
  destruct (Z.ltb_spec (c - 48) 10); [|lia]. by rewrite IH.
Qed.

(** Base 10 uses only decimal digits. *)
Lemma read_from_digits ds acc v : Forall (fun c => c < 65) ds -> read_from 10 acc ds = Some v -> Forall is_digit ds.
Proof.
  intros Hs. revert acc. induction Hs as [|c ds Hc _ IH]; intros acc Hr; [constructor|]. cbn [read_from] in Hr. unfold digit_value in Hr.
  destruct (Z.leb_spec 48 c), (Z.leb_spec c 57), (Z.leb_spec 65 c), (Z.leb_spec 97 c); cbn in Hr; try (lia || done).
  constructor; [done|]. destruct (_ <? 10); [by eapply IH|done].
Qed.

Definition exp_ok (e : Z) : bool :=
  bool_decide (read_signed (print_int e) = Some e) && bool_decide (read_signed (print_exp e) = Some e) &&
  bool_decide (atoi (print_exp e) = e) && (zlen (print_int e) <=? 4) && (zlen (print_exp e) <=? 4).

Lemma exponents e : -450 <= e <= 450 ->
  read_signed (print_int e) = Some e /\ read_signed (print_exp e) = Some e /\ atoi (print_exp e) = e /\
  zlen (print_int e) <= 4 /\ zlen (print_exp e) <= 4.
Proof.
  intros He. assert (forallb exp_ok (seqZ (-450) 901) = true) as H by (vm_compute; reflexivity).
  rewrite forallb_forall in H. specialize (H e). unfold exp_ok in H. rewrite !andb_true_iff, !bool_decide_eq_true, !Z.leb_le in H.
  destruct H as ((((? & ?) & ?) & ?) & ?); [|done]. apply list_elem_of_In, elem_of_seqZ. lia.
Qed.

Lemma snprintf8_short text : zlen text <= 7 -> snprintf8 text = text.
Proof. intros H. unfold snprintf8. apply take_ge. lia. Qed.

(** * The C library's spelling *)

Definition sign_text (neg : bool) : bytes := if neg then [45] else [].
Definition mantissa (ds : bytes) : bytes :=
  match ds with [] => [] | d :: rest => d :: match rest with [] => [] | _ => 46 :: rest end end.

(** What [%.*e] writes: the digits [ds], the first before the point, and the
    exponent. *)
Definition sci_text (neg : bool) (ds : bytes) (e : Z) : bytes := sign_text neg ++ mantissa ds ++ 101 :: print_exp e.

Definition digits_ok (ds : bytes) : Prop := Forall is_digit ds /\ ds <> [].

Lemma digit_neq c : is_digit c -> c <> 46 /\ c <> 101 /\ c <> 45 /\ c <> 43.
Proof. unfold is_digit. lia. Qed.

Lemma split_e_spec m r : 101 ∉ m -> split_e (m ++ 101 :: r) = Some (m, r).
Proof.
  induction m as [|c m IH]; intros Hm; [done|]. apply not_elem_of_cons in Hm as [Hc Hm]. cbn.
  destruct (Z.eqb_spec c 101); [congruence|]. by rewrite IH.
Qed.

Lemma mantissa_no_e ds : Forall is_digit ds -> 101 ∉ mantissa ds.
Proof.
  intros Hd. assert (101 ∉ ds) as Hn by (intros H; rewrite Forall_forall in Hd; apply Hd, digit_neq in H; tauto).
  destruct ds as [|d [|d2 rest]]; cbn; [by apply not_elem_of_nil|done|]. set_solver.
Qed.

Lemma filter_digits ds : Forall is_digit ds -> filter (fun c => c <> 46) ds = ds.
Proof.
  intros Hd. induction Hd as [|c ds Hc _ IH]; [done|]. rewrite filter_cons_True by (apply digit_neq in Hc; tauto). by rewrite IH.
Qed.

Lemma mantissa_digits ds : Forall is_digit ds -> filter (fun c => c <> 46) (mantissa ds) = ds.
Proof.
  intros Hd. destruct ds as [|d [|d2 rest]]; [done|by apply (filter_digits [d])|]. cbn [mantissa].
  inversion_clear Hd as [|? ? H1 H2]. rewrite filter_cons_True by (apply digit_neq in H1; tauto).
  rewrite filter_cons_False by tauto. by rewrite filter_digits.
Qed.

Lemma read_sign neg text m x : (forall c rest, text = c :: rest -> c <> 45) -> text <> [] -> scan text 0 None = Some (m, x) ->
  read_decimal (sign_text neg ++ text) = Some (neg, m, x).
Proof.
  intros H45 Hne Hs. destruct neg; cbn [sign_text app].
  - cbn. by rewrite Hs.
  - destruct text as [|c rest]; [done|]. unfold read_decimal. destruct (Z.eqb_spec c 45) as [->|]; [by destruct (H45 45 rest)|].
    by rewrite Hs.
Qed.

(** Digits, then a point and digits, then an exponent or nothing. *)
Lemma scan_number ds fs tail m x : Forall is_digit ds -> Forall is_digit fs ->
  scan tail (number (ds ++ fs)) (Some (zlen fs)) = Some (m, x) -> scan (ds ++ 46 :: fs ++ tail) 0 None = Some (m, x).
Proof.
  intros Hd Hf Ht. rewrite scan_digits by done. cbn [fmap option_fmap option_map]. rewrite scan_point, scan_digits by done.
  cbn [fmap option_fmap option_map]. rewrite Z.add_0_l, <- Ht. f_equal. rewrite number_from_eq, number_app. done.
Qed.

Lemma scan_exponent text e m f : read_signed text = Some e -> scan (101 :: text) m f = Some (m, e - default 0 f).
Proof. intros He. cbn. by rewrite He. Qed.

Lemma sci_reads neg ds e : digits_ok ds -> -450 <= e <= 450 ->
  read_decimal (sci_text neg ds e) = Some (neg, number ds, e - (zlen ds - 1)).
Proof.
  intros [Hd Hne] He. destruct (exponents e He) as (_ & Hr & _). destruct ds as [|d rest]; [done|].
  pose proof Hd as Hd'. inversion_clear Hd as [|? ? H1 H2]. apply read_sign.
  - intros c r [= <- _]. apply digit_neq in H1. tauto.
  - done.
  - destruct rest as [|d2 rest].
    + change (mantissa [d] ++ 101 :: print_exp e) with ([d] ++ 101 :: print_exp e). rewrite scan_digits by done.
      rewrite (scan_exponent _ e) by done. done.
    + change (mantissa (d :: d2 :: rest) ++ 101 :: print_exp e) with ([d] ++ 46 :: (d2 :: rest) ++ 101 :: print_exp e).
      apply scan_number; [by constructor|done|]. rewrite (scan_exponent _ e) by done. cbn [app default from_option id length].
      do 2 f_equal. lia.
Qed.

(** * [spell_up] *)

Lemma nines_split ds : (exists k, ds = replicate k 57) \/ (exists l c k, ds = l ++ c :: replicate k 57 /\ c <> 57).
Proof.
  induction ds as [|c ds [[k ->]|(l & c' & k & -> & Hc)]]; [by left; exists 0%nat| |].
  - destruct (decide (c = 57)) as [->|Hc]; [by left; exists (S k)|by right; exists [], c, k].
  - right. by exists (c :: l), c', k.
Qed.

Lemma loop_nines k x before after : x <> 45 ->
  spell_up_loop (replicate k 57 ++ x :: before) after = spell_up_loop (x :: before) (replicate k 48 ++ after).
Proof.
  intros Hx. revert after. induction k as [|k IH]; intros after; [done|].
  cbn [replicate app spell_up_loop]. cbn [Z.eqb negb]. change (57 =? 46) with false. change (57 =? 57) with true. cbn [negb].
  assert (spell_up_loop (replicate k 57 ++ x :: before) (48 :: after) =
    spell_up_loop (x :: before) ((48 :: replicate k 48) ++ after)) as H.
  { rewrite IH. f_equal. change (48 :: after) with ([48] ++ after). rewrite app_assoc. f_equal.
    change [48] with (replicate 1 48). rewrite <- replicate_add, Nat.add_comm. done. }
  destruct k as [|k]; cbn [replicate app] in *.
  - destruct (Z.eqb_spec x 45); [done|]. exact H.
  - change (57 =? 45) with false. exact H.
Qed.

Lemma loop_stop c before after : is_digit c -> c <> 57 ->
  spell_up_loop (c :: before) after = Some (reverse before ++ c + 1 :: after, false).
Proof.
  intros Hc H. cbn. apply digit_neq in Hc. destruct (Z.eqb_spec c 46), (Z.eqb_spec c 57); (done || tauto).
Qed.

Lemma number_bump l c k : number (l ++ c + 1 :: replicate k 48) = number (l ++ c :: replicate k 57) + 1.
Proof.
  rewrite !number_app, !number_cons, number_zeros, number_nines. cbn [length]. rewrite !length_replicate. lia.
Qed.

(** What one unit more makes of the digits. *)
Definition up_of (ds : bytes) (e : Z) (ds' : bytes) (e' : Z) : Prop :=
  length ds' = length ds /\ digits_ok ds' /\
  ((e' = e /\ number ds' = number ds + 1) \/
   (e' = e + 1 /\ number ds + 1 = 10 ^ zlen ds /\ number ds' = 10 ^ (zlen ds - 1))).

Lemma loop_lead neg d after : is_digit d ->
  spell_up_loop (d :: sign_text neg) after =
    if decide (d = 57) then Some (sign_text neg ++ 49 :: after, true) else Some (sign_text neg ++ d + 1 :: after, false).
Proof.
  intros Hd. destruct (decide (d = 57)) as [->|Hne]; [by destruct neg|]. rewrite loop_stop by done. by destruct neg.
Qed.

Lemma reverse_sign neg : reverse (sign_text neg) = sign_text neg.
Proof. by destruct neg. Qed.

Lemma is_digit_up c : is_digit c -> c <> 57 -> is_digit (c + 1).
Proof. unfold is_digit. lia. Qed.

Lemma digits_replicate k c : is_digit c -> Forall is_digit (replicate k c).
Proof. intros Hc. by apply Forall_replicate. Qed.

(** The leading digit, when everything behind it was nines. *)
Lemma up_lead neg d k e : is_digit d ->
  exists ds' (carried : bool),
    spell_up_loop (d :: sign_text neg) (match k with O => [] | S _ => 46 :: replicate k 48 end) =
      Some (sign_text neg ++ mantissa ds', carried) /\
    up_of (d :: replicate k 57) e ds' (if carried then e + 1 else e).
Proof.
  intros Hd. rewrite loop_lead by done. destruct (decide (d = 57)) as [->|Hne].
  - exists (49 :: replicate k 48), true. split; [by destruct k|]. split_and!.
    + cbn. by rewrite !length_replicate.
    + split; [|done]. constructor; [done|by apply digits_replicate].
    + right. split; [done|]. rewrite !number_cons, number_nines, number_zeros. cbn [length]. rewrite !length_replicate, Nat2Z.inj_succ.
      rewrite Z.pow_succ_r by lia. replace (Z.succ (Z.of_nat k) - 1) with (Z.of_nat k) by lia. lia.
  - exists (d + 1 :: replicate k 48), false. split; [by destruct k|]. split_and!.
    + cbn. by rewrite !length_replicate.
    + split; [|done]. constructor; [by apply is_digit_up|by apply digits_replicate].
    + left. split; [done|]. apply (number_bump []).
Qed.

Lemma up_mantissa neg ds e : digits_ok ds ->
  exists ds' (carried : bool), spell_up_loop (reverse (sign_text neg ++ mantissa ds)) [] =
      Some (sign_text neg ++ mantissa ds', carried) /\ up_of ds e ds' (if carried then e + 1 else e).
Proof.
  intros [Hd Hne]. destruct ds as [|d rest]; [done|]. apply Forall_cons in Hd as [Hd Hr].
  rewrite reverse_app, reverse_sign. destruct rest as [|d2 rest]; [apply (up_lead neg d 0 e Hd)|].
  cbn [mantissa]. change (d :: 46 :: d2 :: rest) with ([d; 46] ++ d2 :: rest).
  rewrite reverse_app. change (reverse [d; 46]) with [46; d]. rewrite <- app_assoc. cbn [app].
  destruct (nines_split (d2 :: rest)) as [[k Hk]|(l & c & k & Hk & Hc)]; rewrite Hk in *.
  - rewrite reverse_replicate, loop_nines, app_nil_r by done. destruct k as [|k]; [done|].
    exact (up_lead neg d (S k) e Hd).
  - apply Forall_app in Hr as [Hl Hr]. apply Forall_cons in Hr as [Hcd _].
    rewrite reverse_app, reverse_cons, reverse_replicate, <- !app_assoc. cbn [app].
    rewrite loop_nines, app_nil_r by (apply digit_neq in Hcd; tauto). rewrite loop_stop by done.
    exists (d :: l ++ c + 1 :: replicate k 48), false. split.
    + f_equal. f_equal. rewrite reverse_app, reverse_involutive, !reverse_cons, reverse_sign, <- !app_assoc. cbn [app].
      f_equal. cbn [mantissa]. by destruct l.
    + split_and!.
      * cbn. rewrite !length_app. cbn. by rewrite !length_replicate.
      * split; [|done]. constructor; [done|]. apply Forall_app. split; [done|].
        constructor; [by apply is_digit_up|by apply digits_replicate].
      * left. split; [done|]. rewrite !app_comm_cons. apply number_bump.
Qed.

Lemma no_e_sign neg ds : Forall is_digit ds -> 101 ∉ sign_text neg ++ mantissa ds.
Proof.
  intros Hd. apply not_elem_of_app. split; [|by apply mantissa_no_e]. destruct neg; cbn; set_solver.
Qed.

(** One unit up in the last digit. *)
Lemma spell_up_spec neg ds e : digits_ok ds -> -449 <= e <= 449 ->
  exists ds' e', spell_up (sci_text neg ds e) = Some (sci_text neg ds' e') /\ up_of ds e ds' e'.
Proof.
  intros Hds He. destruct (up_mantissa neg ds e Hds) as (ds' & carried & Hup & Hof).
  exists ds', (if carried then e + 1 else e). split; [|done]. unfold spell_up, sci_text.
  rewrite app_assoc, split_e_spec by (apply no_e_sign, Hds). cbn [mbind option_bind]. rewrite Hup. cbn [mbind option_bind].
  rewrite <- app_assoc. do 4 f_equal. destruct (exponents e ltac:(lia)) as (_ & _ & Ha & _).
  destruct carried; [|done]. rewrite Ha. destruct (exponents (e + 1) ltac:(lia)) as (_ & _ & _ & _ & Hl).
  apply snprintf8_short. lia.
Qed.

(** * [spell_general] *)

Lemma trim_spec ds n : (n <= length ds)%nat ->
  exists k, take n ds = take (trim_count ds n) ds ++ replicate k 48 /\ (trim_count ds n <= n)%nat /\
    (1 <= n -> 1 <= trim_count ds n)%nat.
Proof.
  induction n as [|n IH]; intros Hn; [by exists 0%nat|]. destruct n as [|n]; [exists 0%nat; by rewrite app_nil_r|].
  change (trim_count ds (S (S n))) with (if bool_decide (ds !! S n = Some 48) then trim_count ds (S n) else S (S n)).
  destruct (bool_decide_reflect (ds !! S n = Some 48)) as [H|_]; [|exists 0%nat; rewrite app_nil_r; split; [done|lia]].
  destruct (IH ltac:(lia)) as (k & Hk & Hle & H1). exists (S k). split; [|lia].
  rewrite (take_S_r _ _ _ H), Hk, <- app_assoc. f_equal. by rewrite <- replicate_S_end.
Qed.

(** The loop of fixed notation, when the digits end before the point. *)
Lemma fixed_pad ds count exponent (fuel : nat) i out :
  0 <= count <= zlen ds -> count <= exponent + 1 -> 0 <= i <= exponent + 1 -> exponent + 1 - i <= Z.of_nat fuel ->
  fixed_loop fuel ds count exponent i out =
    Some (out ++ drop (Z.to_nat i) (take (Z.to_nat count) ds ++ replicate (Z.to_nat (exponent + 1 - count)) 48)).
Proof.
  intros Hc Hce. set (all := take _ ds ++ _).
  assert (length all = Z.to_nat (exponent + 1)) as Hall.
  { unfold all. rewrite length_app, length_take, length_replicate. lia. }
  revert i out. induction fuel as [|fuel IH]; intros i out Hi Hf; cbn [fixed_loop];
    destruct (Z.leb_spec i exponent), (Z.ltb_spec i count); cbn [orb]; try lia.
  1,4: rewrite drop_ge by lia; by rewrite app_nil_r.
  all: destruct (Z.eqb_spec i (exponent + 1)); [lia|].
  all: destruct (lookup_lt_is_Some_2 all (Z.to_nat i) ltac:(lia)) as [d Hd].
  all: assert (drop (Z.to_nat i) all = d :: drop (Z.to_nat (i + 1)) all) as Hdrop
    by (rewrite (drop_S _ _ _ Hd); do 2 f_equal; lia).
  - assert (at_index ds i = Some d) as ->.
    { rewrite at_index_lookup by lia. unfold all in Hd. rewrite lookup_app_l in Hd by (rewrite length_take; lia).
      by rewrite lookup_take_lt in Hd by lia. }
    cbn [mbind option_bind]. rewrite IH by lia. by rewrite Hdrop, <- app_assoc.
  - assert (d = 48) as ->.
    { unfold all in Hd. rewrite lookup_app_r in Hd by (rewrite length_take; lia). by apply lookup_replicate in Hd as [-> _]. }
    cbn [mbind option_bind]. rewrite IH by lia. by rewrite Hdrop, <- app_assoc.
Qed.

(** The same loop, when digits are left behind the point. *)
Lemma fixed_point ds count exponent (fuel : nat) i out :
  0 <= count <= zlen ds -> 0 <= exponent -> exponent + 1 < count -> 0 <= i <= count -> count - i <= Z.of_nat fuel ->
  let all := take (Z.to_nat (exponent + 1)) (take (Z.to_nat count) ds) ++ 46 :: drop (Z.to_nat (exponent + 1)) (take (Z.to_nat count) ds) in
  fixed_loop fuel ds count exponent i out =
    Some (out ++ drop (Z.to_nat (if i <=? exponent + 1 then i else i + 1)) all).
Proof.
  intros Hc He Hce Hi Hf all.
  assert (length all = S (Z.to_nat count)) as Hall.
  { unfold all. rewrite length_app. cbn [length]. rewrite length_take, length_drop, !length_take. lia. }
  assert (all !! Z.to_nat (exponent + 1) = Some 46) as H46.
  { unfold all. rewrite lookup_app_r by (rewrite !length_take; lia). rewrite !length_take. by replace (_ - _)%nat with 0%nat by lia. }
  assert (forall j, exponent + 1 <= j < count -> all !! Z.to_nat (j + 1) = at_index ds j) as Hback.
  { intros j Hj. unfold all. rewrite lookup_app_r by (rewrite !length_take; lia). rewrite !length_take.
    replace (Z.to_nat (j + 1) - _)%nat with (S (Z.to_nat (j - (exponent + 1)))) by lia.
    match goal with |- (_ :: ?l) !! S ?n = _ => change (l !! n = at_index ds j) end. rewrite lookup_drop, lookup_take_lt by lia. rewrite at_index_lookup by lia. f_equal. lia. }
  assert (forall j, 0 <= j <= exponent -> all !! Z.to_nat j = at_index ds j) as Hfront.
  { intros j Hj. unfold all. rewrite lookup_app_l by (rewrite !length_take; lia). rewrite !lookup_take_lt by lia.
    by rewrite at_index_lookup by lia. }
  revert i out Hi Hf. induction fuel as [|fuel IH]; intros i out Hi Hf; cbn [fixed_loop];
    destruct (Z.leb_spec i exponent), (Z.ltb_spec i count); cbn [orb]; try lia.
  1,4: destruct (Z.leb_spec i (exponent + 1)); [lia|]; rewrite drop_ge by lia; by rewrite app_nil_r.
  all: destruct (at_index_Some ds i ltac:(lia)) as [d Hd]; rewrite Hd; cbn [mbind option_bind]; rewrite IH by lia.
  - destruct (Z.eqb_spec i (exponent + 1)); [lia|]. destruct (Z.leb_spec i (exponent + 1)), (Z.leb_spec (i + 1) (exponent + 1)); try lia.
    rewrite <- (Hfront i) in Hd by lia. rewrite (drop_S _ _ _ Hd), <- app_assoc. do 3 f_equal. f_equal. lia.
  - rewrite <- (Hback i) in Hd by lia. destruct (Z.leb_spec (i + 1) (exponent + 1)); [lia|].
    destruct (Z.eqb_spec i (exponent + 1)) as [->|].
    + destruct (Z.leb_spec (exponent + 1) (exponent + 1)); [|lia]. rewrite (drop_S _ _ _ H46), <- !app_assoc. cbn [app].
      replace (S (Z.to_nat (exponent + 1))) with (Z.to_nat (exponent + 1 + 1)) by lia.
      rewrite (drop_S _ _ _ Hd). do 5 f_equal. lia.
    + destruct (Z.leb_spec i (exponent + 1)); [lia|]. rewrite (drop_S _ _ _ Hd), <- app_assoc. do 4 f_equal. lia.
Qed.

Definition strip_sign (sci : bytes) : bytes * bytes :=
  match sci with c :: rest => if c =? 45 then ([45], rest) else ([], sci) | [] => ([], []) end.

Lemma strip_sign_spec neg d text : is_digit d -> strip_sign (sign_text neg ++ d :: text) = (sign_text neg, d :: text).
Proof.
  intros Hd. destruct neg; [done|]. cbn. apply digit_neq in Hd. destruct (Z.eqb_spec d 45); [tauto|done].
Qed.

(** Text that stands for the digits [ds] with exponent [e], is short, and does
    not read as an integer. *)
Definition spells_float neg ds e (text : bytes) : Prop :=
  (exists m x, read_decimal text = Some (neg, m, x) /\ same m x (number ds) (e - (zlen ds - 1))) /\
  (46 ∈ text \/ 101 ∈ text) /\ zlen text < LOKE_RT_FLOAT_SPELLING_MAX.

Lemma spells_intro neg ds e body m x trimmed k :
  ds = trimmed ++ replicate k 48 -> (exists d r, body = d :: r /\ is_digit d) -> scan body 0 None = Some (m, x) ->
  same m x (number trimmed) (e - (zlen trimmed - 1)) -> 46 ∈ body \/ 101 ∈ body -> zlen body <= 30 ->
  spells_float neg ds e (sign_text neg ++ body).
Proof.
  intros -> (d & r & -> & Hd) Hs Hsame Hin Hl. split; [|split].
  - exists m, x. split.
    + apply read_sign; [|done|done]. intros c r' [= <- _]. apply digit_neq in Hd. tauto.
    + apply (same_trans _ _ (number trimmed) (e - (zlen trimmed - 1))); [done|].
      rewrite number_app, number_zeros, Z.add_0_r, length_app, !length_replicate. apply same_sym, same_scale; lia.
  - destruct Hin; [left|right]; by apply elem_of_app; right.
  - unfold LOKE_RT_FLOAT_SPELLING_MAX. rewrite length_app. destruct neg; cbn [sign_text length] in *; lia.
Qed.

(** The three layouts. *)
Lemma layout_exponent neg d rest n k e : digits_ok (d :: rest) -> zlen rest <= 23 -> -450 <= e <= 450 ->
  d :: rest = take (S n) (d :: rest) ++ replicate k 48 ->
  spells_float neg (d :: rest) e
    (sign_text neg ++ take 1 (d :: rest) ++ (if (1 <? S n)%nat then 46 :: take (S n - 1) (drop 1 (d :: rest)) else []) ++
     snprintf8 (101 :: print_int e)).
Proof.
  intros [[Hd Hr]%Forall_cons _] Hl He Hk. destruct (exponents e He) as (Hre & _ & _ & Hpl & _).
  rewrite snprintf8_short by (cbn [length]; lia). cbn [take drop app] in *. rewrite ?take_0, ?drop_0 in *. cbn [app].
  assert (Forall is_digit (take n rest)) as Hf by (by apply Forall_take).
  assert (length (take n rest) <= length rest)%nat as Hlt by (rewrite length_take; lia).
  destruct n as [|n].
  - change (1 <? 1)%nat with false. cbn [app]. eapply (spells_intro neg _ e _ _ _ [d] k Hk); [by exists d, (101 :: print_int e)| | | |].
    + change (d :: 101 :: print_int e) with ([d] ++ 101 :: print_int e). rewrite scan_digits by (by constructor).
      by apply scan_exponent.
    + match goal with |- same _ ?x _ ?y => replace y with x by (cbn; lia) end. apply same_refl.
    + right. set_solver.
    + cbn. lia.
  - change (1 <? S (S n))%nat with true. cbn [Nat.sub]. set (fs := take (S n) rest) in *.
    eapply (spells_intro neg _ e _ _ _ (d :: fs) k Hk); [by exists d, ((46 :: fs) ++ 101 :: print_int e)| | | |].
    + change (d :: (46 :: fs) ++ 101 :: print_int e) with ([d] ++ 46 :: fs ++ 101 :: print_int e).
      apply scan_number; [by constructor|done|]. by apply scan_exponent.
    + cbn [default from_option id app length]. replace (Z.of_nat (S (length fs)) - 1) with (zlen fs) by lia. apply same_refl.
    + left. set_solver.
    + rewrite app_comm_cons, !length_app. cbn [length]. lia.
Qed.

Lemma layout_small neg ds n k e : digits_ok ds -> zlen ds <= 24 -> -4 <= e < 0 -> ds = take n ds ++ replicate k 48 ->
  spells_float neg ds e (sign_text neg ++ [48; 46] ++ replicate (Z.to_nat (- e - 1)) 48 ++ take n ds).
Proof.
  intros [Hd _] Hl He Hk. set (zs := replicate (Z.to_nat (- e - 1)) 48).
  assert (zlen zs = - e - 1) as Hz by (unfold zs; rewrite length_replicate; lia).
  assert (Forall is_digit (zs ++ take n ds)) as Hf
    by (apply Forall_app; split; [by apply digits_replicate|by apply Forall_take]).
  assert (length (take n ds) <= length ds)%nat by (rewrite length_take; lia).
  eapply (spells_intro neg ds e _ _ _ (take n ds) k Hk); [by exists 48, (46 :: zs ++ take n ds)| | | |].
  - change ([48; 46] ++ zs ++ take n ds) with ([48] ++ 46 :: zs ++ take n ds). rewrite <- (app_nil_r (zs ++ take n ds)).
    apply scan_number; [by repeat constructor|done|done].
  - cbn [default from_option id app]. rewrite number_cons, number_app. unfold zs at 2. rewrite number_zeros.
    replace ((48 - 48) * _ + (0 * _ + number (take n ds))) with (number (take n ds)) by lia.
    replace (- zlen (zs ++ take n ds)) with (e - (zlen (take n ds) - 1)) by (rewrite length_app; lia). apply same_refl.
  - left. cbn. set_solver.
  - cbn [app length]. rewrite length_app. lia.
Qed.

Lemma layout_fixed neg ds n k e : digits_ok ds -> zlen ds <= 24 -> 0 <= e < 17 -> (1 <= n <= length ds)%nat ->
  ds = take n ds ++ replicate k 48 ->
  exists body, fixed_loop 41 ds (Z.of_nat n) e 0 (sign_text neg) = Some body /\
    spells_float neg ds e (body ++ (if Z.of_nat n <=? e + 1 then [46; 48] else [])).
Proof.
  intros [Hd _] Hl He Hn Hk. set (ts := take n ds) in *.
  assert (Forall is_digit ts) as Hf by (by apply Forall_take).
  assert (zlen ts = Z.of_nat n) as Hts by (unfold ts; rewrite length_take; lia).
  assert (exists d r, ts = d :: r /\ is_digit d) as (d & r & Hdr & Hdd).
  { destruct ts as [|d r]; [cbn in Hts; lia|]. exists d, r. split; [done|]. by apply Forall_cons in Hf as [? _]. }
  destruct (Z.leb_spec (Z.of_nat n) (e + 1)) as [Hle|Hgt].
  - rewrite fixed_pad by lia. rewrite Nat2Z.id. change (Z.to_nat 0) with 0%nat. rewrite drop_0. fold ts.
    set (zs := replicate _ 48). eexists. split; [done|]. rewrite <- app_assoc.
    assert (zlen zs = e + 1 - Z.of_nat n) as Hz by (unfold zs; rewrite length_replicate; lia).
    eapply (spells_intro neg ds e _ _ _ ts k Hk); [exists d, (r ++ zs ++ [46; 48]); by rewrite Hdr, <- app_assoc| | | |].
    + change [46; 48] with (46 :: [48] ++ []).
      apply scan_number; [apply Forall_app; split; [done|by apply digits_replicate]|by repeat constructor|done].
    + cbn [default from_option id]. rewrite !number_app. replace (number zs) with 0 by (unfold zs; by rewrite number_zeros). change (number [48]) with 0.
      replace ((number ts * 10 ^ zlen zs + 0) * 10 ^ zlen [48] + 0) with (number ts * 10 ^ (zlen zs + 1))
        by (rewrite Z.pow_add_r by lia; change (10 ^ zlen [48]) with (10 ^ 1); lia).
      apply same_scale; cbn; lia.
    + left. set_solver.
    + rewrite !length_app. cbn [length]. lia.
  - rewrite fixed_point by lia. change (0 <=? e + 1) with (0 <=? e + 1). destruct (Z.leb_spec 0 (e + 1)); [|lia].
    change (Z.to_nat 0) with 0%nat. rewrite drop_0, Nat2Z.id. fold ts. eexists. split; [done|]. rewrite app_nil_r.
    set (a := Z.to_nat (e + 1)).
    assert (number (take a ts ++ drop a ts) = number ts) as Hnum by (by rewrite take_drop).
    eapply (spells_intro neg ds e _ _ _ ts k Hk).
    + exists d, (take (a - 1) r ++ 46 :: drop a ts). split; [|done]. unfold a. rewrite Hdr.
      replace (Z.to_nat (e + 1)) with (S (Z.to_nat (e + 1) - 1)) at 1 by lia. done.
    + rewrite <- (app_nil_r (drop a ts)). apply scan_number; [by apply Forall_take|by apply Forall_drop|done].
    + cbn [default from_option id]. rewrite Hnum. replace (- zlen (drop a ts)) with (e - (zlen ts - 1)); [apply same_refl|].
      rewrite length_drop. lia.
    + left. set_solver.
    + rewrite length_app. cbn [length]. rewrite length_take, length_drop. lia.
Qed.

Lemma spell_general_spec neg ds e : digits_ok ds -> zlen ds <= 24 -> -450 <= e <= 450 ->
  exists text, spell_general (sci_text neg ds e) = Some text /\ spells_float neg ds e text.
Proof.
  intros Hds Hl He. pose proof Hds as [Hd Hne]. unfold spell_general.
  change (match sci_text neg ds e with c :: rest => if c =? 45 then ([45], rest) else ([], sci_text neg ds e) | [] => ([], []) end)
    with (strip_sign (sci_text neg ds e)).
  assert (strip_sign (sci_text neg ds e) = (sign_text neg, mantissa ds ++ 101 :: print_exp e)) as ->.
  { destruct ds as [|d rest]; [done|]. apply Forall_cons in Hd as [Hd _]. apply (strip_sign_spec neg d _ Hd). }
  rewrite split_e_spec by (by apply mantissa_no_e). cbn [mbind option_bind]. rewrite mantissa_digits by done.
  destruct (Z.ltb_spec 24 (zlen ds)); [lia|].
  destruct (Z.eqb_spec (zlen ds) 0) as [H0|_]; [destruct ds; [done|cbn in H0; lia]|]. cbn [orb].
  destruct (exponents e He) as (_ & _ & -> & _).
  destruct (trim_spec ds (length ds) ltac:(lia)) as (k & Hk & Hle & H1). rewrite firstn_all in Hk.
  set (n := trim_count ds (length ds)) in *.
  assert (1 <= n)%nat as Hn by (apply H1; destruct ds; [done|cbn; lia]).
  assert (forall out, spells_float neg ds e out ->
    exists text, (if zlen out <? LOKE_RT_FLOAT_SPELLING_MAX then Some out else None) = Some text /\ spells_float neg ds e text) as Hend.
  { intros out Hout. exists out. split; [|done]. destruct Hout as (_ & _ & Hlt). destruct (Z.ltb_spec (zlen out) LOKE_RT_FLOAT_SPELLING_MAX); [done|lia]. }
  destruct ((e <? -4) || (17 <=? e)) eqn:Hbig.
  - cbn [mbind option_bind]. apply Hend. destruct ds as [|d rest]; [done|]. destruct n as [|n]; [lia|].
    apply (layout_exponent neg d rest n k e Hds); [cbn [length] in *; lia|done|done].
  - apply orb_false_iff in Hbig as [Hb1%Z.ltb_ge Hb2%Z.leb_gt]. destruct (Z.ltb_spec e 0) as [Hneg|Hpos].
    + cbn [mbind option_bind]. apply Hend. by apply (layout_small neg ds n k e Hds).
    + destruct (layout_fixed neg ds n k e Hds) as (body & -> & Hsp); [lia|lia|lia|done|].
      cbn [mbind option_bind]. by apply Hend.
Qed.

(** * [spell_float] *)

Section float.
Context {F : Type} (isnan isinf negative : F -> bool).
Context (printf_e : F -> Z -> bytes) (strtod : bytes -> F) (ops : double_ops F).

Definition finite (v : F) : Prop := isnan v = false /\ isinf v = false.

(** [%.*e] writes one digit more than it is asked for fractional ones. *)
Context (printf_spec : forall v p, finite v -> 0 <= p <= 16 ->
  exists neg ds e, printf_e v p = sci_text neg ds e /\ digits_ok ds /\ zlen ds = p + 1 /\ -400 <= e <= 400).
(** [strtod] reads the number a text stands for. *)
Context (strtod_spec : forall t1 t2 neg m1 x1 m2 x2,
  read_decimal t1 = Some (neg, m1, x1) -> read_decimal t2 = Some (neg, m2, x2) -> same m1 x1 m2 x2 -> strtod t1 = strtod t2).
(** 5, 9 and 17 significant digits tell the floats of a width apart;
    [at_width bits v] is that [v] is one of them. *)
Context (at_width : Z -> F -> Prop).
Context (widest_exact : forall v bits, finite v -> at_width bits v -> same_at ops bits (strtod (printf_e v (widest bits - 1))) v = true).

Local Abbreviation loop := (float_loop printf_e strtod ops).
Local Abbreviation reads := (reads_back strtod ops).

Lemma widest_range bits : 1 <= widest bits <= 17.
Proof. unfold widest. destruct (bits =? 16), (bits =? 32); lia. Qed.

Lemma sci_text_short neg ds e : digits_ok ds -> zlen ds <= 17 -> -450 <= e <= 450 -> take 31 (sci_text neg ds e) = sci_text neg ds e.
Proof.
  intros _ Hl He. apply take_ge. destruct (exponents e He) as (_ & _ & _ & _ & Hp).
  unfold sci_text. rewrite !length_app. cbn [length].
  assert (length (sign_text neg) <= 1)%nat by (destruct neg; cbn; lia).
  assert (length (mantissa ds) <= S (length ds))%nat by (destruct ds as [|d [|]]; cbn; lia). lia.
Qed.

(** Below [p] neither the nearest spelling nor the one above it reads back. *)
Definition shorter_fail v bits (p : Z) : Prop := forall q, 1 <= q < p ->
  reads (printf_e v (q - 1)) v bits = false /\
  forall up, spell_up (printf_e v (q - 1)) = Some up -> reads up v bits = false.

(** The precision the loop stops at, and what it found there. *)
Definition chosen v bits (p : Z) (sci : bytes) : Prop :=
  1 <= p <= widest bits /\ reads sci v bits = true /\
  (exists neg ds e, sci = sci_text neg ds e /\ digits_ok ds /\ zlen ds = p /\ -449 <= e <= 449) /\
  shorter_fail v bits p.

(** [text] is the shortest spelling: the layout of the digits the loop chose,
    which as a decimal number stands for exactly them. *)
Definition shortest v bits (text : bytes) : Prop :=
  exists p neg ds e, chosen v bits p (sci_text neg ds e) /\ zlen ds = p /\
    spells_float neg ds e text /\ spell_general (sci_text neg ds e) = Some text.

Lemma loop_spec v bits fuel p : finite v -> at_width bits v -> 1 <= p <= widest bits -> widest bits - p < Z.of_nat fuel ->
  shorter_fail v bits p ->
  exists p' sci, loop fuel v bits p = Some sci /\ chosen v bits p' sci.
Proof.
  intros Hfin Hat. revert p. induction fuel as [|fuel IH]; intros p Hp Hf Hmin; [lia|]. cbn [float_loop].
  pose proof (widest_range bits) as Hw.
  destruct (printf_spec v (p - 1) Hfin ltac:(lia)) as (neg & ds & e & Heq & Hds & Hl & He).
  assert (take 31 (printf_e v (p - 1)) = printf_e v (p - 1)) as -> by (rewrite Heq; apply sci_text_short; [done|lia|lia]).
  destruct (decide (reads (printf_e v (p - 1)) v bits = true)) as [Hr|Hr].
  { rewrite Hr, orb_true_r. exists p, (printf_e v (p - 1)). split; [done|]. split_and!; [lia|lia|done| |done].
    exists neg, ds, e. split_and!; (done || lia). }
  apply not_true_is_false in Hr. rewrite Hr, orb_false_r.
  destruct (Z.eqb_spec p (widest bits)) as [->|Hne].
  { exfalso. unfold reads_back in Hr. by rewrite (widest_exact v bits Hfin Hat) in Hr. }
  destruct (spell_up_spec neg ds e Hds ltac:(lia)) as (ds' & e' & Hup & Hlen & Hds' & Hcase).
  rewrite Heq, Hup. cbn [mbind option_bind].
  destruct (reads (sci_text neg ds' e') v bits) eqn:Hr'.
  - exists p, (sci_text neg ds' e'). split; [done|]. split_and!; [lia|lia|done| |done].
    exists neg, ds', e'. split_and!; [done|done|lia|lia|lia].
  - apply IH; [lia|lia|]. intros q Hq. destruct (decide (q = p)) as [->|]; [|apply Hmin; lia].
    split; [done|]. intros up. rewrite Heq, Hup. by intros [= <-].
Qed.

Lemma spell_float_spec v bits : finite v -> at_width bits v ->
  exists text, spell_float isnan isinf negative printf_e strtod ops v bits = Some text /\
    shortest v bits text /\ reads text v bits = true /\ (46 ∈ text \/ 101 ∈ text) /\ zlen text < LOKE_RT_FLOAT_SPELLING_MAX /\
    exists neg m x, read_decimal text = Some (neg, m, x).
Proof.
  intros Hfin Hat. pose proof Hfin as [Hn Hi]. pose proof (widest_range bits). unfold spell_float. rewrite Hn, Hi.
  destruct (loop_spec v bits 17 1 Hfin Hat) as (p & sci & -> & Hch); [lia|lia|intros q Hq; lia|]. cbn [mbind option_bind].
  pose proof Hch as (Hp & Hr & (neg & ds & e & -> & Hds & Hl & He) & _).
  destruct (spell_general_spec neg ds e Hds) as (text & Hgen & Hsp); [lia|lia|].
  pose proof Hsp as ((m & x & Hread & Hsame) & Hin & Hlt).
  exists text. split_and!; [done|by exists p, neg, ds, e| |done|done|by exists neg, m, x].
  unfold reads_back in *. rewrite <- Hr. f_equal.
  apply (strtod_spec _ _ neg m x (number ds) (e - (zlen ds - 1))); [done|apply sci_reads; [done|lia]|done].
Qed.
End float.
