(* ===== verification/Ieee.v ===== *)
(** The C library and the arithmetic that [runtime/format.c] spells floats with,
    as IEEE 754 and the C standard define them: doubles with 53 binary digits,
    [%.*e] and [strtod] rounded correctly, and the exact steps of [nearest_f16].
    What [FormatFloat] takes as parameters is evaluated and proved over these. *)
From S2P Require Import Prelude Utf8 Format FormatSpec FormatFloat FormatFloatSpec Rounding Nearest.

(** * Doubles *)

Definition bounded (m e : Z) : bool := (0 <=? m) && (m <? 2 ^ 53) && (-1074 <=? e) && (e <=? 971).

(** [m * 2 ^ e] where finite, and its sign; zero has one too. *)
Inductive double :=
| NaN
| Infinite (neg : bool)
| Finite (neg : bool) (m e : Z) (ok : bounded m e = true).

Definition is_nan (v : double) : bool := match v with NaN => true | _ => false end.
Definition is_inf (v : double) : bool := match v with Infinite _ => true | _ => false end.
Definition is_negative (v : double) : bool := match v with NaN => false | Infinite neg | Finite neg _ _ _ => neg end.

(** What does not fit overflows. *)
Definition pack (neg : bool) (m e : Z) : double :=
  match Bool.bool_dec (bounded m e) true with
  | left ok => Finite neg m e ok
  | right _ => Infinite neg
  end.

(** The double nearest to [n / d]. *)
Definition double_of (neg : bool) (n d : Z) : double :=
  if n =? 0 then Finite neg 0 0 eq_refl
  else let '(q, u) := round_frac 53 (-1074) n d in if q =? 2 ^ 53 then pack neg (2 ^ 52) (u + 1) else pack neg q u.

(** * Arithmetic *)

Definition ieee_frexp (v : double) : Z :=
  match v with Finite _ m e _ => if m =? 0 then 0 else Z.log2 m + 1 + e | _ => 0 end.
Definition ieee_ldexp (v : double) (k : Z) : double :=
  match v with Finite neg m e _ => let '(a, c) := frac 2 m (e + k) in double_of neg a c | _ => v end.
Definition ieee_nearbyint (v : double) : double :=
  match v with Finite neg m e _ => if 0 <=? e then v else double_of neg (round_even m (2 ^ (- e))) 1 | _ => v end.

(** The conversion to [float]: 24 digits, finite below [2 ^ 128]. *)
Definition ieee_to_float (v : double) : double :=
  match v with
  | Finite neg m e _ =>
      if m =? 0 then v
      else
        let '(a, c) := frac 2 m e in
        let '(q, u) := round_frac 24 (-149) a c in
        if (104 <? u) || ((u =? 104) && (q =? 2 ^ 24)) then Infinite neg
        else let '(a, c) := frac 2 q u in double_of neg a c
  | _ => v
  end.

Definition signed (neg : bool) (m : Z) : Z := if neg then - m else m.
Definition ieee_equal (v w : double) : bool :=
  match v, w with
  | Finite n1 m1 e1 _, Finite n2 m2 e2 _ =>
      let b := Z.min e1 e2 in signed n1 m1 * 2 ^ (e1 - b) =? signed n2 m2 * 2 ^ (e2 - b)
  | Infinite n1, Infinite n2 => Bool.eqb n1 n2
  | _, _ => false
  end.

Definition ieee_ops : double_ops double :=
  DoubleOps double ieee_frexp ieee_ldexp ieee_nearbyint ieee_to_float ieee_equal.

(** * [%.*e] and [strtod] *)

(** The last [count] decimal digits of [n]. *)
Fixpoint fixed_digits (count : nat) (n : Z) (acc : bytes) : bytes :=
  match count with
  | O => acc
  | S count => fixed_digits count (n / 10) (48 + n `mod` 10 :: acc)
  end.

(** [n / d] to [prec + 1] significant digits: the digits and the exponent of the
    first. *)
Definition decimal_of (n d prec : Z) : Z * Z :=
  let k := floor_log 10 n d in
  let '(a, c) := scaled 10 n d (k - prec) in
  let q := round_even a c in
  if q =? 10 ^ (prec + 1) then (10 ^ prec, k + 1) else (q, k).

Definition ieee_printf_e (v : double) (prec : Z) : bytes :=
  match v with
  | NaN => lit "nan"
  | Infinite neg => sign_text neg ++ lit "inf"
  | Finite neg m e _ =>
      if m =? 0 then sci_text neg (fixed_digits (Z.to_nat (prec + 1)) 0 []) 0
      else
        let '(a, c) := frac 2 m e in
        let '(q, k) := decimal_of a c prec in
        sci_text neg (fixed_digits (Z.to_nat (prec + 1)) q []) k
  end.

(** Of a decimal number, an infinity or a NaN; the value, and what is left
    unread. *)
Definition ieee_strtod (text : bytes) : double * bytes :=
  match read_decimal text with
  | Some (neg, m, x) => let '(a, c) := frac 10 m x in (double_of neg a c, [])
  | None =>
      if bool_decide (text = lit "nan") then (NaN, [])
      else if bool_decide (text = lit "inf") then (Infinite false, [])
      else if bool_decide (text = lit "-inf") then (Infinite true, [])
      else (Finite false 0 0 eq_refl, text)
  end.

(** The finite values of a width. *)
Definition of_format (p emin emax : Z) (v : double) : Prop :=
  match v with
  | Finite _ m e _ => exists m' e', 0 <= m' < 2 ^ p /\ emin <= e' <= emax /\ same_value m e m' e'
  | _ => True
  end.
Definition ieee_width (bits : Z) (v : double) : Prop :=
  if bits =? 16 then of_format 11 (-24) 5 v else if bits =? 32 then of_format 24 (-149) 104 v else True.

(** The same double: the same sign too, zero's included. *)
Definition same_double (v w : double) : Prop :=
  match v, w with
  | NaN, NaN => True
  | Infinite n1, Infinite n2 => n1 = n2
  | Finite n1 m1 e1 _, Finite n2 m2 e2 _ => n1 = n2 /\ same_value m1 e1 m2 e2
  | _, _ => False
  end.
