(* ===== verification/IeeeSpec.v ===== *)
(** Correct rounding at work: the digits [%.*e] prints of a double are close to
    it, and reading them back rounds to it. *)
From S2P Require Import Prelude Utf8 Format FormatSpec FormatFloat FormatFloatSpec Rounding Nearest Ieee.

(** * Digits *)

Lemma fixed_digits_app count n acc : fixed_digits count n acc = fixed_digits count n [] ++ acc.
Proof.
  revert n acc. induction count as [|count IH]; intros n acc; [done|]. cbn [fixed_digits].
  rewrite IH, (IH _ [_]), <- app_assoc. done.
Qed.

Lemma fixed_digits_spec count n : 0 <= n < 10 ^ Z.of_nat count ->
  length (fixed_digits count n []) = count /\ Forall is_digit (fixed_digits count n []) /\ number (fixed_digits count n []) = n.
Proof.
  revert n. induction count as [|count IH]; intros n Hn; [cbn in *; split_and!; [done|constructor|lia]|]. cbn [fixed_digits].
  rewrite fixed_digits_app. pose proof (Z.mod_pos_bound n 10 eq_refl) as Hm. pose proof (Z.div_mod n 10 ltac:(lia)) as Hd.
  rewrite Nat2Z.inj_succ, Z.pow_succ_r in Hn by lia.
  destruct (IH (n / 10)) as (H1 & H2 & H3); [lia|]. split_and!.
  - rewrite length_app, H1. cbn. lia.
  - apply Forall_app. split; [done|]. constructor; [unfold is_digit; lia|constructor].
  - rewrite number_app, H3. unfold number, number_from. cbn. lia.
Qed.

(** * Printing *)

Lemma decimal_of_spec n d prec : 0 < n -> 0 < d -> 0 <= prec ->
  let '(q, k) := decimal_of n d prec in
  10 ^ prec <= q < 10 ^ (prec + 1) /\ (k = floor_log 10 n d \/ k = floor_log 10 n d + 1) /\
  forall p, 0 <= p -> 2 ^ p < 10 ^ prec ->
    let '(n', d') := frac 10 q (k - prec) in 0 < n' /\ 0 < d' /\ 2 ^ (p + 1) * Z.abs (n' * d - n * d') < n * d'.
Proof.
  intros Hn Hd Hp. unfold decimal_of. set (k := floor_log 10 n d).
  pose proof (floor_log_spec 10 n d ltac:(lia) Hn Hd) as Hk. fold k in Hk.
  set (b := Z.min 0 (k - prec)). destruct (Hk b ltac:(lia) ltac:(lia)) as [H1 H2].
  pose proof (scaled_units 10 n d (k - prec) b ltac:(lia) Hd ltac:(lia) ltac:(lia)) as Hs.
  destruct (scaled 10 n d (k - prec)) as [a c]. destruct Hs as (Hc & f & Hf & Ha & Hcf). set (q := round_even a c).
  pose proof (pow_pos 10 prec ltac:(lia) Hp) as Hpp. pose proof (pow_step 10 prec Hp) as Hps.
  assert (10 ^ (k - b) * d = 10 ^ prec * (c * f)) as E1.
  { rewrite <- Hcf. replace (k - b) with (prec + (k - prec - b)) by lia. rewrite pow_split by lia. lia. }
  assert (10 ^ (k + 1 - b) * d = 10 ^ (prec + 1) * (c * f)) as E2.
  { rewrite <- Hcf. replace (k + 1 - b) with (prec + 1 + (k - prec - b)) by lia. rewrite pow_split by lia. lia. }
  rewrite E1, Ha in H1. rewrite E2, Ha in H2.
  assert (10 ^ prec <= q <= 10 ^ (prec + 1)) as Hq by (apply round_even_range; [done|nia]).
  assert (forall q' k', b <= k' - prec -> q' * 10 ^ (k' - prec - b) = q * 10 ^ (k - prec - b) -> 0 < q' ->
    forall p, 0 <= p -> 2 ^ p < 10 ^ prec ->
    let '(n', d') := frac 10 q' (k' - prec) in 0 < n' /\ 0 < d' /\ 2 ^ (p + 1) * Z.abs (n' * d - n * d') < n * d') as Hclose.
  { intros q' k' Hb He Hq' p Hp0 Hp2. pose proof (frac_units 10 q' (k' - prec) b ltac:(lia) ltac:(lia) Hb) as Hu.
    pose proof (frac_numerator 10 q' (k' - prec) ltac:(lia) Hq') as Hn'.
    destruct (frac 10 q' (k' - prec)) as [n' d']. cbn [fst] in Hn'. destruct Hu as [Hd' Hu]. split_and!; [done..|].
    pose proof (pow_pos 10 (- b) ltac:(lia) ltac:(lia)) as Hb10. rewrite He in Hu. set (P := 10 ^ (- b)) in *.
    pose proof (round_even_half a c Hc) as Hh. fold q in Hh. pose proof (pow_step 2 p Hp0) as H2p. pose proof (pow_pos 2 p ltac:(lia) Hp0).
    apply (Z.mul_lt_mono_pos_r P); [done|]. rewrite <- (Z.mul_assoc (2 ^ (p + 1))).
    assert (Z.abs (n' * d - n * d') * P = Z.abs (a - q * c) * (f * d')) as ->.
    { rewrite <- (Z.abs_eq P) at 1 by lia. rewrite <- (Z.abs_eq (f * d')) by nia. rewrite <- !Z.abs_mul.
      rewrite <- (Z.abs_opp ((n' * d - n * d') * P)). f_equal.
      replace (- ((n' * d - n * d') * P)) with (n * P * d' - n' * P * d) by lia. rewrite Hu, Ha.
      replace (q * 10 ^ (k - prec - b) * d' * d) with (q * (d * 10 ^ (k - prec - b)) * d') by lia. rewrite Hcf. lia. }
    rewrite (Z.mul_assoc (2 ^ (p + 1))). replace (n * d' * P) with (a * f * d') by (rewrite <- Ha; lia). rewrite H2p.
    assert (2 * 2 ^ p * Z.abs (a - q * c) <= 2 ^ p * c) by nia. assert (2 ^ p * c < a) by nia.
    rewrite <- (Z.mul_assoc a). apply Z.mul_lt_mono_pos_r; [nia|]. lia. }
  destruct (Z.eqb_spec q (10 ^ (prec + 1))) as [Heq|Hne].
  - split; [lia|]. split; [by right|]. apply Hclose; [lia| |lia]. rewrite Heq, Hps.
    replace (k + 1 - prec - b) with (k - prec - b + 1) by lia. rewrite pow_step by lia. lia.
  - split; [lia|]. split; [by left|]. apply Hclose; [lia|done|lia].
Qed.

(** A double's decimal exponent has three digits. *)
Lemma double_exponent m e : 0 < m < 2 ^ 53 -> -1074 <= e <= 971 ->
  let '(n, d) := frac 2 m e in -324 <= floor_log 10 n d <= 308.
Proof.
  intros Hm He. pose proof (frac_value m e) as Hv. pose proof (frac_numerator 2 m e ltac:(lia) ltac:(lia)) as Hn.
  destruct (frac 2 m e) as [n d]. destruct Hv as [Hd Hv]. cbn [fst] in Hn.
  pose proof (floor_log_spec 10 n d ltac:(lia) Hn Hd) as Hk. set (k := floor_log 10 n d) in *.
  specialize (Hv (-1074) ltac:(lia) ltac:(lia)). change (- -1074) with 1074 in Hv.
  assert (1 <= 2 ^ (e - -1074)) as Hlo by (apply (pow_mono 2 0); lia).
  assert (2 ^ (e - -1074) <= 2 ^ 2045) as Hhi by (apply pow_mono; lia).
  set (P := 2 ^ (e - -1074)) in *. assert (1 <= m * P <= (2 ^ 53 - 1) * P) as HP by nia.
  assert (10 * 2 ^ 1074 < 10 ^ 325) as Hc1 by (vm_compute; reflexivity).
  assert (2 ^ 53 * 2 ^ 2045 < 10 ^ 309 * 2 ^ 1074) as Hc2 by (vm_compute; reflexivity).
  assert (0 < 2 ^ 1074) as Hc3 by (apply pow_pos; lia). change (2 ^ 53 - 1) with 9007199254740991 in HP.
  change (2 ^ 53) with 9007199254740992 in Hc2. revert Hv HP Hhi Hc1 Hc2 Hc3.
  generalize (2 ^ 1074) (2 ^ 2045). intros A B Hv HP Hhi Hc1 Hc2 Hc3. set (V := m * P) in *. split.
  - destruct (Z_le_gt_dec (-324) k) as [|Hgt]; [done|]. exfalso. destruct (Hk k ltac:(lia) ltac:(lia)) as [_ H2].
    replace (k + 1 - k) with 1 in H2 by lia. rewrite Z.pow_1_r in H2. pose proof (pow_mono 10 325 (- k) ltac:(lia) ltac:(lia)) as Hk10.
    revert Hc1 Hk10 H2. generalize (10 ^ 325) (10 ^ (- k)). intros C D Hc1 Hk10 H2. nia.
  - destruct (Z_le_gt_dec k 308) as [|Hgt]; [done|]. exfalso. destruct (Hk 0 ltac:(lia) ltac:(lia)) as [H1 _].
    rewrite Z.sub_0_r in H1. change (10 ^ (- 0)) with 1 in H1. pose proof (pow_mono 10 309 k ltac:(lia) ltac:(lia)) as Hk10.
    revert Hc2 Hk10 H1. generalize (10 ^ 309) (10 ^ k). intros C D Hc2 Hk10 H1.
    assert (C * d <= n) by nia. assert (C * d * A <= V * d) by nia. assert (C * A <= V) by nia. nia.
Qed.

(** * Rounding to a double *)

Lemma pack_ok neg m e : bounded m e = true -> exists ok, pack neg m e = Finite neg m e ok.
Proof. intros H. unfold pack. destruct (Bool.bool_dec _ _) as [ok|]; [by exists ok|done]. Qed.

Lemma bounded_spec m e : bounded m e = true <-> 0 <= m < 2 ^ 53 /\ -1074 <= e <= 971.
Proof. unfold bounded. rewrite !andb_true_iff, !Z.leb_le, Z.ltb_lt. lia. Qed.

(** A finite double of value [m * 2 ^ e]. *)
Definition stands_for (v : double) (neg : bool) (m e : Z) : Prop :=
  exists m1 e1 ok, v = Finite neg m1 e1 ok /\ same_value m1 e1 m e.

Lemma double_of_respects neg n d n' d' : 0 <= n -> 0 < d -> 0 <= n' -> 0 < d' -> n * d' = n' * d ->
  double_of neg n d = double_of neg n' d'.
Proof.
  intros Hn Hd Hn' Hd' He. unfold double_of. destruct (Z.eqb_spec n 0) as [H0|H0], (Z.eqb_spec n' 0) as [H0'|H0']; [done|nia|nia|].
  by rewrite (round_frac_respects 53 (-1074) n d n' d') by lia.
Qed.

Lemma double_rounded neg n d : 0 < n -> 0 < d ->
  let '(q, u) := round_frac 53 (-1074) n d in u <= 970 \/ (u = 971 /\ q < 2 ^ 53) -> stands_for (double_of neg n d) neg q u.
Proof.
  intros Hn Hd. unfold double_of. destruct (Z.eqb_spec n 0); [lia|].
  pose proof (round_frac_bounds 53 (-1074) n d ltac:(lia) Hn Hd) as Hb. destruct (round_frac 53 (-1074) n d) as [q u].
  destruct Hb as (Hu & Hq & _). intros Hmax. destruct (Z.eqb_spec q (2 ^ 53)) as [Heq|Hne].
  - destruct (pack_ok neg (2 ^ 52) (u + 1)) as [ok Hok]; [apply bounded_spec; lia|]. exists (2 ^ 52), (u + 1), ok. split; [done|].
    subst q. apply same_value_sym. apply (same_value_shift (2 ^ 52) u 1). lia.
  - destruct (pack_ok neg q u) as [ok Hok]; [apply bounded_spec; lia|]. by exists q, u, ok.
Qed.

(** Rounded to [p] digits, a number below [2 ^ (p + emax)] reaches no further. *)
Lemma same_value_top p q u m e emin emax : 1 <= p -> 2 ^ (p - 1) <= q \/ u = emin -> emin <= emax -> 0 <= q <= 2 ^ p -> 0 < m < 2 ^ p -> e <= emax ->
  same_value q u m e -> u < emax \/ (u = emax /\ q < 2 ^ p).
Proof.
  intros Hp Hq He Hq2 Hm Hmax Hs. destruct (Z_lt_le_dec u emax) as [|Hu]; [by left|]. right.
  set (b := Z.min e emax). specialize (Hs b ltac:(lia) ltac:(lia)).
  assert (q * 2 ^ (u - b) < 2 ^ p * 2 ^ (emax - b)) as Hlt.
  { rewrite Hs. pose proof (pow_mono 2 (e - b) (emax - b) ltac:(lia) ltac:(lia)). pose proof (pow_pos 2 (e - b)). nia. }
  destruct (decide (u = emax)) as [->|Hne].
  - split; [done|]. pose proof (pow_pos 2 (emax - b) ltac:(lia) ltac:(lia)). nia.
  - exfalso. destruct Hq as [Hq| ->]; [|lia]. replace (u - b) with (1 + (emax - b) + (u - emax - 1)) in Hlt by lia.
    rewrite !pow_split in Hlt by lia. replace p with (p - 1 + 1) in Hlt by lia. rewrite pow_step in Hlt by lia.
    pose proof (pow_pos 2 (emax - b) ltac:(lia) ltac:(lia)). pose proof (pow_pos 2 (u - emax - 1) ltac:(lia) ltac:(lia)).
    pose proof (pow_pos 2 (p - 1) ltac:(lia) ltac:(lia)). rewrite Z.pow_1_r in Hlt. set (A := 2 ^ (emax - b)) in *.
    set (B := 2 ^ (u - emax - 1)) in *. set (C := 2 ^ (p - 1)) in *. assert (A <= A * B) by nia. nia.
Qed.

Lemma double_close neg n d m e : 0 < d -> 0 < m < 2 ^ 53 -> -1074 <= e <= 971 -> close 53 n d m e ->
  stands_for (double_of neg n d) neg m e.
Proof.
  intros Hd Hm He Hc. pose proof (close_numerator 53 n d m e Hd ltac:(lia) ltac:(lia) Hc) as Hn.
  pose proof (round_frac_close 53 (-1074) n d m e Hd ltac:(lia) Hm ltac:(lia) Hc) as Hr.
  pose proof (round_frac_bounds 53 (-1074) n d ltac:(lia) Hn Hd) as Hb. pose proof (double_rounded neg n d Hn Hd) as Hf.
  destruct (round_frac 53 (-1074) n d) as [q u]. destruct Hr as (Hq & Hu & Hs), Hb as (_ & Hb & Hlow).
  destruct Hf as (m1 & e1 & ok & Hv & H1).
  { destruct (same_value_top 53 q u m e (-1074) 971); [lia|done|lia|done|done|lia|done|left; lia|by right]. }
  exists m1, e1, ok. split; [done|]. by eapply same_value_trans.
Qed.

Lemma double_exact neg n d m e : 0 < d -> 0 < m < 2 ^ 53 -> -1074 <= e <= 971 -> has_value n d m e ->
  stands_for (double_of neg n d) neg m e.
Proof. intros Hd Hm He Hv. apply double_close; [done..|]. apply value_close; [lia|done|done]. Qed.

(** * Comparison *)

Lemma ieee_equal_same neg m e ok m' e' ok' : same_value m e m' e' -> ieee_equal (Finite neg m e ok) (Finite neg m' e' ok') = true.
Proof.
  intros Hs. cbn. specialize (Hs (Z.min e e') ltac:(lia) ltac:(lia)). apply Z.eqb_eq. destruct neg; cbn [signed]; [|done].
  rewrite !Z.mul_opp_l. by rewrite Hs.
Qed.

(** * Reading *)

Lemma scan_nonneg text m f m' x : 0 <= m -> scan text m f = Some (m', x) -> 0 <= m'.
Proof.
  revert m f. induction text as [|c text IH]; intros m f Hm Hs; [by simplify_eq/=|]. cbn [scan] in Hs.
  destruct (c =? 46); [destruct f; [done|by eapply IH]|]. destruct (c =? 101).
  { destruct (read_signed text); [|done]. by simplify_eq/=. }
  destruct (Z.leb_spec 48 c), (Z.leb_spec c 57); cbn [andb] in Hs; try done. eapply IH; [|done]. lia.
Qed.

Lemma read_decimal_nonneg text neg m x : read_decimal text = Some (neg, m, x) -> 0 <= m.
Proof.
  destruct text as [|c rest]; [done|]. unfold read_decimal. intros H. destruct (c =? 45).
  - destruct (scan rest 0 None) as [[m1 x1]|] eqn:Hs; [|done]. cbn in H. injection H as <- <- <-. by eapply scan_nonneg in Hs.
  - destruct (scan (c :: rest) 0 None) as [[m1 x1]|] eqn:Hs; [|done]. cbn in H. injection H as <- <- <-. by eapply scan_nonneg in Hs.
Qed.

Lemma ieee_strtod_same t1 t2 neg m1 x1 m2 x2 :
  read_decimal t1 = Some (neg, m1, x1) -> read_decimal t2 = Some (neg, m2, x2) -> same m1 x1 m2 x2 ->
  (ieee_strtod t1).1 = (ieee_strtod t2).1.
Proof.
  intros H1 H2 Hs. unfold ieee_strtod. rewrite H1, H2. pose proof (read_decimal_nonneg _ _ _ _ H1). pose proof (read_decimal_nonneg _ _ _ _ H2).
  set (b := Z.min 0 (Z.min x1 x2)). rewrite (same_at_scale b) in Hs by lia.
  pose proof (frac_units 10 m1 x1 b ltac:(lia) ltac:(lia) ltac:(lia)) as F1. pose proof (frac_units 10 m2 x2 b ltac:(lia) ltac:(lia) ltac:(lia)) as F2.
  destruct (frac 10 m1 x1) as [a1 c1], (frac 10 m2 x2) as [a2 c2]. destruct F1 as [Hc1 F1], F2 as [Hc2 F2]. cbn [fst].
  pose proof (pow_pos 10 (- b) ltac:(lia) ltac:(lia)). pose proof (pow_pos 10 (x1 - b) ltac:(lia) ltac:(lia)). pose proof (pow_pos 10 (x2 - b) ltac:(lia) ltac:(lia)).
  apply double_of_respects; [nia|done|nia|done|]. apply (Z.mul_reg_r _ _ (10 ^ (- b))); [lia|].
  replace (a1 * c2 * 10 ^ (- b)) with (a1 * 10 ^ (- b) * c2) by lia. replace (a2 * c1 * 10 ^ (- b)) with (a2 * 10 ^ (- b) * c1) by lia.
  rewrite F1, F2, Hs. lia.
Qed.

(** * The conversion to [float] *)

Lemma positive_value m e m' e' : same_value m e m' e' -> 0 < m -> 0 < m'.
Proof.
  intros Hs Hm. set (b := Z.min e e'). specialize (Hs b ltac:(lia) ltac:(lia)). pose proof (pow_pos 2 (e - b) ltac:(lia) ltac:(lia)).
  pose proof (pow_pos 2 (e' - b) ltac:(lia) ltac:(lia)). nia.
Qed.

Lemma to_float_close neg m1 e1 ok m e : 0 < m1 -> 0 < m < 2 ^ 24 -> -149 <= e <= 104 ->
  (let '(a, c) := frac 2 m1 e1 in close 24 a c m e) -> stands_for (ieee_to_float (Finite neg m1 e1 ok)) neg m e.
Proof.
  intros Hm1 Hm He Hc. unfold ieee_to_float. destruct (Z.eqb_spec m1 0); [lia|].
  pose proof (frac_numerator 2 m1 e1 ltac:(lia) Hm1) as Ha. pose proof (frac_denominator 2 m1 e1 ltac:(lia)) as Hd.
  destruct (frac 2 m1 e1) as [a c]. cbn [fst snd] in *.
  pose proof (round_frac_close 24 (-149) a c m e Hd ltac:(lia) Hm ltac:(lia) Hc) as Hr.
  pose proof (round_frac_bounds 24 (-149) a c ltac:(lia) Ha Hd) as Hb. destruct (round_frac 24 (-149) a c) as [q u].
  destruct Hr as (Hq & Hu & Hs), Hb as (_ & Hb & Hlow).
  assert (u < 104 \/ (u = 104 /\ q < 2 ^ 24)) as Ht.
  { apply (same_value_top 24 q u m e (-149) 104); [lia|done|lia|done|done|lia|done]. }
  destruct (Z.ltb_spec 104 u), (Z.eqb_spec u 104), (Z.eqb_spec q (2 ^ 24)); try lia; cbn [orb andb].
  all: pose proof (frac_value q u) as Hv; destruct (frac 2 q u) as [n' d'], Hv as [Hd' Hv];
    apply double_exact; [done|lia|lia|by eapply has_value_same].
Qed.

(** * Rounding to [f16] *)

Lemma floor_log_exact m e : 0 < m -> let '(a, c) := frac 2 m e in floor_log 2 a c = Z.log2 m + e.
Proof.
  intros Hm. pose proof (frac_numerator 2 m e ltac:(lia) Hm) as Ha. pose proof (frac_value m e) as Hv.
  destruct (frac 2 m e) as [a c]. cbn [fst] in *. destruct Hv as [Hc Hv].
  eapply (scale_unique 2 a c _ a c); [lia|done|done|done|by apply floor_log_spec|]. intros b Hb H0.
  pose proof (Z.log2_nonneg m) as Hl. set (b2 := Z.min b e). destruct (Z.log2_spec m Hm) as [L1 L2].
  pose proof (Hv b2 ltac:(lia) ltac:(lia)) as H. pose proof (pow_pos 2 (b - b2) ltac:(lia) ltac:(lia)).
  pose proof (pow_pos 2 (e - b2) ltac:(lia) ltac:(lia)).
  assert (a * 2 ^ (- b) * 2 ^ (b - b2) = m * 2 ^ (e - b2) * c) as E1.
  { rewrite <- H, <- Z.mul_assoc, <- pow_split by lia. f_equal. f_equal. lia. }
  assert (2 ^ (Z.log2 m + e - b) * 2 ^ (b - b2) = 2 ^ Z.log2 m * 2 ^ (e - b2)) as E2 by (rewrite <- !pow_split by lia; f_equal; lia).
  assert (2 ^ (Z.log2 m + e + 1 - b) * 2 ^ (b - b2) = 2 ^ Z.succ (Z.log2 m) * 2 ^ (e - b2)) as E3 by (rewrite <- !pow_split by lia; f_equal; lia).
  revert E1 E2 E3 L1 L2. generalize (2 ^ (Z.log2 m + e - b)) (2 ^ (Z.log2 m + e + 1 - b)) (2 ^ Z.log2 m) (2 ^ Z.succ (Z.log2 m)) (2 ^ (- b)).
  intros A B C D F E1 E2 E3 L1 L2. set (P := 2 ^ (b - b2)) in *. set (R := 2 ^ (e - b2)) in *. split.
  - apply (Z.mul_le_mono_pos_r _ _ P); [done|]. rewrite E1. replace (A * c * P) with (A * P * c) by lia. rewrite E2.
    apply Z.mul_le_mono_nonneg_r; [lia|]. apply Z.mul_le_mono_nonneg_r; lia.
  - apply (Z.mul_lt_mono_pos_r P); [done|]. rewrite E1. replace (B * c * P) with (B * P * c) by lia. rewrite E3.
    apply Z.mul_lt_mono_pos_r; [done|]. apply Z.mul_lt_mono_pos_r; lia.
Qed.

Lemma ldexp_exact neg m1 e1 ok k m e : 0 < m < 2 ^ 53 -> -1074 <= e <= 971 -> same_value m1 (e1 + k) m e ->
  stands_for (ieee_ldexp (Finite neg m1 e1 ok) k) neg m e.
Proof.
  intros Hm He Hs. cbn [ieee_ldexp]. pose proof (frac_value m1 (e1 + k)) as Hv. destruct (frac 2 m1 (e1 + k)) as [a c], Hv as [Hd Hv].
  apply double_exact; [done..|]. by eapply has_value_same.
Qed.

(** [nearbyint] rounds any fraction of the same value. *)
Lemma nearbyint_even neg m1 e1 ok a c : 0 < c -> has_value a c m1 e1 -> 0 < round_even a c < 2 ^ 53 ->
  stands_for (ieee_nearbyint (Finite neg m1 e1 ok)) neg (round_even a c) 0.
Proof.
  intros Hc Hv Hq. cbn [ieee_nearbyint]. destruct (Z.leb_spec 0 e1) as [He|He].
  - exists m1, e1, ok. split; [done|]. apply (same_value_at 0); [lia|lia|].
    specialize (Hv 0 ltac:(lia) ltac:(lia)). change (2 ^ (- 0)) with 1 in Hv. rewrite Z.sub_0_r in *. change (2 ^ (0 - 0)) with 1.
    rewrite !Z.mul_1_r in *. symmetry. apply round_even_unique; [done|]. rewrite Hv, Z.sub_diag. cbn. lia.
  - specialize (Hv e1 ltac:(lia) ltac:(lia)). rewrite Z.sub_diag, Z.mul_1_r in Hv. pose proof (pow_pos 2 (- e1) ltac:(lia) ltac:(lia)) as Hp.
    rewrite (round_even_respects m1 (2 ^ (- e1)) a c) by lia. apply double_exact; [lia|done|lia|].
    intros b H0 Hb. by rewrite Z.mul_1_r.
Qed.

Lemma scaled_value n d m e u : 0 < d -> has_value n d m e ->
  let '(a, c) := scaled 2 n d u in 0 < c /\ has_value a c m (e + - u).
Proof.
  intros Hd Hv. unfold scaled. destruct (Z.leb_spec 0 u) as [Hu|Hu].
  - pose proof (pow_pos 2 u ltac:(lia) Hu). split; [nia|]. intros b H0 Hb.
    pose proof (Hv (Z.min b e) ltac:(lia) ltac:(lia)) as Hv'. set (b' := Z.min b e) in *.
    apply (Z.mul_reg_r _ _ (2 ^ (b - b'))); [pose proof (pow_pos 2 (b - b')); lia|].
    rewrite <- Z.mul_assoc, <- pow_split by lia. replace (- b + (b - b')) with (- b') by lia. rewrite Hv'.
    replace (e - b') with (u + (e + - u - b) + (b - b')) by lia. rewrite !pow_split by lia. lia.
  - split; [done|]. intros b H0 Hb. replace (n * 2 ^ (- u) * 2 ^ (- b)) with (n * 2 ^ (- (u + b))).
    + rewrite (Hv (u + b)) by lia. do 3 f_equal. lia.
    + rewrite <- Z.mul_assoc, <- pow_split by lia. do 2 f_equal. lia.
Qed.

Lemma nearest_f16_close neg m1 e1 ok m e : 0 < m1 -> 0 < m < 2 ^ 11 -> -24 <= e <= 5 ->
  (let '(a, c) := frac 2 m1 e1 in close 11 a c m e) -> stands_for (nearest_f16 ieee_ops (Finite neg m1 e1 ok)) neg m e.
Proof.
  intros Hm1 Hm He Hc. pose proof (bounded_spec m1 e1) as [Hb _]. specialize (Hb ok).
  pose proof (frac_numerator 2 m1 e1 ltac:(lia) Hm1) as Ha. pose proof (frac_value m1 e1) as Hv. pose proof (floor_log_exact m1 e1 Hm1) as Hl.
  destruct (frac 2 m1 e1) as [a c]. cbn [fst] in *. destruct Hv as [Hd Hv].
  pose proof (round_frac_close 11 (-24) a c m e Hd ltac:(lia) Hm ltac:(lia) Hc) as Hr.
  pose proof (round_frac_bounds 11 (-24) a c ltac:(lia) Ha Hd) as Hq. unfold round_frac, unit_of in Hr, Hq. rewrite Hl in Hr, Hq.
  unfold nearest_f16. cbn [frexp ldexp nearbyint ieee_ops ieee_frexp]. destruct (Z.eqb_spec m1 0); [lia|].
  set (u := Z.max (Z.log2 m1 + e1 - 11 + 1) (-24)) in *.
  assert ((if Z.log2 m1 + 1 + e1 - 11 <? -24 then -24 else Z.log2 m1 + 1 + e1 - 11) = u) as ->.
  { destruct (Z.ltb_spec (Z.log2 m1 + 1 + e1 - 11) (-24)); lia. }
  assert (0 <= Z.log2 m1 < 53) as Hlog.
  { split; [apply Z.log2_nonneg|]. apply Z.log2_lt_pow2; lia. }
  destruct (ldexp_exact neg m1 e1 ok (- u) m1 (e1 + - u)) as (m2 & e2 & ok2 & E2 & S2); [lia|lia|done|]. rewrite E2.
  pose proof (scaled_value a c m1 e1 u Hd Hv) as Hsv.
  destruct (scaled 2 a c u) as [n' d']. destruct Hsv as [Hd' Hsv], Hr as (Hq0 & Hu & Hs), Hq as (_ & Hq & _).
  change (2 ^ 11) with 2048 in Hq.
  destruct (nearbyint_even neg m2 e2 ok2 n' d' Hd') as (m3 & e3 & ok3 & E3 & S3); [|lia|].
  { eapply has_value_same; [done|exact Hsv|]. by apply same_value_sym. }
  rewrite E3. apply ldexp_exact; [lia|lia|]. eapply same_value_trans; [by apply same_value_scale|]. by rewrite Z.add_0_l.
Qed.

(** * Enough digits tell the floats of a width apart *)

Lemma widest_values bits : bits = 16 \/ bits = 32 \/ widest bits = 17 /\ (bits =? 16) = false /\ (bits =? 32) = false.
Proof. unfold widest. destruct (Z.eqb_spec bits 16), (Z.eqb_spec bits 32); tauto. Qed.

(** What [%.*e] prints, and what [strtod] makes of it. *)
Lemma printed_digits neg m e ok prec : 0 < m -> 0 <= prec <= 16 ->
  exists ds k, ieee_printf_e (Finite neg m e ok) prec = sci_text neg ds k /\ digits_ok ds /\ zlen ds = prec + 1 /\ -324 <= k <= 309 /\
    exists n' d', 0 < n' /\ 0 < d' /\ (ieee_strtod (sci_text neg ds k)).1 = double_of neg n' d' /\
      forall p m' e', 0 <= p -> 2 ^ p < 10 ^ prec -> same_value m e m' e' -> close p n' d' m' e'.
Proof.
  intros Hm Hp. pose proof (bounded_spec m e) as [Hb _]. specialize (Hb ok). unfold ieee_printf_e. destruct (Z.eqb_spec m 0); [lia|].
  pose proof (double_exponent m e ltac:(lia) ltac:(lia)) as Hk. pose proof (frac_numerator 2 m e ltac:(lia) Hm) as Ha.
  pose proof (frac_value m e) as Hv. destruct (frac 2 m e) as [a c]. cbn [fst] in Ha. destruct Hv as [Hc Hv].
  pose proof (decimal_of_spec a c prec Ha Hc ltac:(lia)) as Hd. destruct (decimal_of a c prec) as [q k].
  destruct Hd as (Hq & Hk' & Hclose). exists (fixed_digits (Z.to_nat (prec + 1)) q []), k.
  destruct (fixed_digits_spec (Z.to_nat (prec + 1)) q) as (Hl & Hds & Hn).
  { rewrite Z2Nat.id by lia. pose proof (pow_pos 10 prec). lia. }
  assert (digits_ok (fixed_digits (Z.to_nat (prec + 1)) q [])) as Hok.
  { split; [done|]. intros H. rewrite H in Hl. cbn in Hl. lia. }
  split_and!; [done|done|rewrite Hl; lia|lia|lia|]. unfold ieee_strtod.
  rewrite (sci_reads neg _ k Hok) by lia. rewrite Hn, Hl. replace (k - (Z.of_nat (Z.to_nat (prec + 1)) - 1)) with (k - prec) by lia.
  pose proof (Hclose 0 ltac:(lia)) as Hc0. pose proof (frac_numerator 10 q (k - prec) ltac:(lia)) as Hn'.
  pose proof (frac_denominator 10 q (k - prec) ltac:(lia)) as Hd'.
  destruct (frac 10 q (k - prec)) as [n' d']. cbn [fst snd] in *. exists n', d'. pose proof (pow_pos 10 prec ltac:(lia) ltac:(lia)).
  split_and!; [lia|done|done|]. intros p m' e' Hp0 Hpp Hs. specialize (Hclose p Hp0 Hpp) as (_ & _ & Hclose).
  apply (close_cross p a c); [done|done|by eapply has_value_same|done].
Qed.

Lemma printed_zero neg m e ok prec : m = 0 -> 0 <= prec <= 16 ->
  exists ds, ieee_printf_e (Finite neg m e ok) prec = sci_text neg ds 0 /\ digits_ok ds /\ zlen ds = prec + 1 /\
    (ieee_strtod (sci_text neg ds 0)).1 = Finite neg 0 0 eq_refl.
Proof.
  intros -> Hp. exists (fixed_digits (Z.to_nat (prec + 1)) 0 []). cbn [ieee_printf_e Z.eqb].
  destruct (fixed_digits_spec (Z.to_nat (prec + 1)) 0) as (Hl & Hds & Hn).
  { split; [done|]. apply Z.pow_pos_nonneg; lia. }
  assert (digits_ok (fixed_digits (Z.to_nat (prec + 1)) 0 [])) as Hok.
  { split; [done|]. intros H. rewrite H in Hl. cbn in Hl. lia. }
  split_and!; [done|done|rewrite Hl; lia|]. unfold ieee_strtod. rewrite (sci_reads neg _ 0 Hok) by lia. rewrite Hn.
  unfold frac, scaled. by destruct (0 <=? _).
Qed.

Lemma stands_equal v w neg m e : stands_for v neg m e -> stands_for w neg m e -> ieee_equal v w = true.
Proof.
  intros (m1 & e1 & ok1 & -> & H1) (m2 & e2 & ok2 & -> & H2). apply ieee_equal_same. eapply same_value_trans; [done|].
  by apply same_value_sym.
Qed.

Lemma stands_positive v neg m e : stands_for v neg m e -> 0 < m ->
  exists m1 e1 ok, v = Finite neg m1 e1 ok /\ 0 < m1 /\ same_value m1 e1 m e.
Proof.
  intros (m1 & e1 & ok & -> & Hs) Hm. exists m1, e1, ok. split_and!; [done| |done]. eapply positive_value; [|exact Hm]. by apply same_value_sym.
Qed.

(** A number of few digits, read from a text close to it: rounded to a double
    first, it is still close. *)
Lemma read_close neg n d m e p : 0 < n -> 0 < d -> 1 <= p <= 24 -> 0 < m < 2 ^ p -> -1000 <= e <= 900 -> close (p + 2) n d m e ->
  exists m1 e1 ok, double_of neg n d = Finite neg m1 e1 ok /\ 0 < m1 /\ (let '(a, c) := frac 2 m1 e1 in close p a c m e).
Proof.
  intros Hn Hd Hp Hm He Hc. pose proof (round_double_close p n d m e Hd Hp Hm ltac:(lia) Hc) as Hr.
  pose proof (double_rounded neg n d Hn Hd) as Hf. pose proof (round_frac_bounds 53 (-1074) n d ltac:(lia) Hn Hd) as Hb.
  destruct (round_frac 53 (-1074) n d) as [q u]. destruct Hb as (Hu & Hq & Hlow). pose proof (frac_value q u) as Hv.
  destruct (frac 2 q u) as [n' d'], Hv as [Hd' Hv].
  pose proof (close_numerator p n' d' m e Hd' ltac:(lia) ltac:(lia) Hr) as Hn'.
  assert (u <= 970) as Hu970.
  { destruct (Z_le_gt_dec u 970) as [|Hgt]; [done|]. exfalso. destruct Hlow as [Hlow|]; [|lia]. set (b := Z.min 0 e).
    specialize (Hr b ltac:(lia) ltac:(lia)). rewrite (Hv b) in Hr by lia. pose proof (pow_pos 2 (p + 1) ltac:(lia) ltac:(lia)).
    assert (2 ^ p <= 2 ^ 24) as H24 by (apply pow_mono; lia). pose proof (pow_mono 2 (e - b + 25) (u - b) ltac:(lia) ltac:(lia)) as Hpm.
    rewrite pow_split in Hpm by lia. pose proof (pow_pos 2 (e - b) ltac:(lia) ltac:(lia)). change (2 ^ 25) with (2 * 2 ^ 24) in Hpm.
    change (2 ^ (53 - 1)) with (2 ^ 52) in Hlow. pose proof (pow_pos 2 24 ltac:(lia) ltac:(lia)).
    assert (1 <= 2 ^ 52) by (apply (pow_mono 2 0); lia). assert (2 * (m * 2 ^ (e - b)) < q * 2 ^ (u - b)) by nia.
    set (X := q * 2 ^ (u - b)) in *. set (V := m * 2 ^ (e - b)) in *. nia. }
  destruct Hf as (m1 & e1 & ok & Hval & Hs); [lia|]. exists m1, e1, ok.
  assert (0 < q) as Hq0.
  { specialize (Hv (Z.min 0 u) ltac:(lia) ltac:(lia)). pose proof (pow_pos 2 (- Z.min 0 u) ltac:(lia) ltac:(lia)).
    pose proof (pow_pos 2 (u - Z.min 0 u) ltac:(lia) ltac:(lia)). assert (0 < q * 2 ^ (u - Z.min 0 u) * d') by nia. nia. }
  split_and!; [done|eapply positive_value; [by apply same_value_sym|done]|].
  pose proof (frac_value m1 e1) as Hv1. destruct (frac 2 m1 e1) as [a c], Hv1 as [Hc1 Hv1].
  apply (close_respects p n' d' a c); [done|done| |done]. eapply has_value_cross; [done|done|exact Hv|exact Hv1|]. by apply same_value_sym.
Qed.

Lemma value_frac_close p m e m' e' : 0 < m' -> same_value m e m' e' -> let '(a, c) := frac 2 m e in close p a c m' e'.
Proof.
  intros Hm Hs. pose proof (frac_value m e) as Hv. destruct (frac 2 m e) as [a c], Hv as [Hd Hv].
  apply value_close; [done|done|]. by eapply has_value_same.
Qed.

Lemma zero_same bits neg m e ok : m = 0 -> same_at ieee_ops bits (Finite neg 0 0 eq_refl) (Finite neg m e ok) = true.
Proof.
  intros ->. unfold same_at. destruct (bits =? 16); [|destruct (bits =? 32)].
  - by destruct neg; vm_compute.
  - by destruct neg; vm_compute.
  - by destruct neg; vm_compute.
Qed.

Lemma ieee_widest_exact v bits : finite is_nan is_inf v -> ieee_width bits v ->
  same_at ieee_ops bits (ieee_strtod (ieee_printf_e v (widest bits - 1))).1 v = true.
Proof.
  intros [Hn Hi] Hw. destruct v as [| |neg m e ok]; [done|done|]. pose proof (bounded_spec m e) as [Hb _]. specialize (Hb ok).
  destruct (decide (m = 0)) as [H0|H0].
  { destruct (printed_zero neg m e ok (widest bits - 1) H0) as (ds & -> & _ & _ & ->); [|by apply zero_same].
    unfold widest. repeat case_match; lia. }
  unfold ieee_width in Hw.
  destruct (widest_values bits) as [->|[->|(Hw17 & H16 & H32)]].
  - destruct Hw as (m' & e' & Hm' & He' & Hs). pose proof (positive_value _ _ _ _ Hs ltac:(lia)).
    change (widest 16 - 1) with 4. destruct (printed_digits neg m e ok 4) as (ds & k & -> & _ & _ & _ & n' & d' & Hn' & Hd' & -> & Hc); [lia|lia|].
    specialize (Hc 13 m' e' ltac:(lia) eq_refl Hs).
    destruct (read_close neg n' d' m' e' 11) as (m1 & e1 & ok1 & -> & Hm1 & Hc1); [done|done|lia|lia|lia|done|].
    unfold same_at. cbn [Z.eqb Pos.eqb equal ieee_ops]. apply (stands_equal _ _ neg m' e').
    + apply nearest_f16_close; (done || lia).
    + by exists m, e, ok.
  - destruct Hw as (m' & e' & Hm' & He' & Hs). pose proof (positive_value _ _ _ _ Hs ltac:(lia)).
    change (widest 32 - 1) with 8. destruct (printed_digits neg m e ok 8) as (ds & k & -> & _ & _ & _ & n' & d' & Hn' & Hd' & -> & Hc); [lia|lia|].
    specialize (Hc 26 m' e' ltac:(lia) eq_refl Hs).
    destruct (read_close neg n' d' m' e' 24) as (m1 & e1 & ok1 & -> & Hm1 & Hc1); [done|done|lia|lia|lia|done|].
    unfold same_at. cbn [Z.eqb Pos.eqb equal to_float ieee_ops]. apply (stands_equal _ _ neg m' e').
    + apply to_float_close; (done || lia).
    + apply to_float_close; [lia|lia|lia|]. by apply value_frac_close.
  - destruct (printed_digits neg m e ok 16) as (ds & k & Hpr & _ & _ & _ & n' & d' & Hn' & Hd' & Hr & Hc); [lia|lia|].
    rewrite Hw17. change (17 - 1) with 16. rewrite Hpr, Hr.
    specialize (Hc 53 m e ltac:(lia) eq_refl (same_value_refl m e)). unfold same_at. rewrite H16, H32. cbn [equal ieee_ops].
    apply (stands_equal _ _ neg m e); [apply double_close; (done || lia)|by exists m, e, ok].
Qed.

Lemma ieee_printf_ok v p : finite is_nan is_inf v -> 0 <= p <= 16 ->
  exists neg ds e, ieee_printf_e v p = sci_text neg ds e /\ digits_ok ds /\ zlen ds = p + 1 /\ -400 <= e <= 400.
Proof.
  intros [Hn Hi] Hp. destruct v as [| |neg m e ok]; [done|done|]. pose proof (bounded_spec m e) as [Hb _]. specialize (Hb ok).
  destruct (decide (m = 0)) as [H0|H0].
  - destruct (printed_zero neg m e ok p H0 Hp) as (ds & ? & ? & ? & _). exists neg, ds, 0. split_and!; (done || lia).
  - destruct (printed_digits neg m e ok p) as (ds & k & ? & ? & ? & ? & _); [lia|done|]. exists neg, ds, k. split_and!; (done || lia).
Qed.
