(* ===== verification/FormatClaims.v ===== *)
(** The properties of the formatters, each with a concrete sink. *)
From S2P Require Import Prelude Interfaces Utf8 Utf8Codec Format FormatSpec.

Section claims.
Context {E : Type} (sink_write : writer_v1 -> bytes -> M E unit).
Context (sink_behaves : forall w bs, well_behaved (sink_write w bs)).
Implicit Types (s : fstate E) (w : writer_v1).

(** C17: each integer formatter hands its sink one text that reads back as the
    value, in the base asked for or in base 10, at every width and sign,
    without leading zeros, and inside its buffer. *)
Theorem fmt_integers_roundtrip w c o s : w_witness w <> 0 -> call_ok c ->
  wp (run_call sink_write w c o)
    (fun _ s' => exists text, wrote s [text] s' /\ spells (base_of o) (call_value c) text /\ zlen text <= call_buffer c)
    (cut s) s.
Proof. intros. by apply run_call_spec. Qed.

(** C33: a quoted text is a literal that reads back as the same bytes, whatever
    they are: what a sink gets, in non-empty chunks, has its quote, backslashes
    and control bytes escaped and nothing else changed. *)
Theorem fmt_quoted_roundtrip w (bs : bytes) quote s : w_witness w <> 0 -> Forall is_byte bs -> quote_ok quote ->
  wp (quoted sink_write w bs (zlen bs) quote)
    (fun _ s' => exists new, wrote s new s' /\ unquote quote (concat new) = Some bs) (cut s) s.
Proof.
  intros Hw Hb Hq. eapply wp_conseq; [by apply quoted_spec| |done]. cbn beta. intros _ s' (new & Hnew & Hc).
  exists new. split; [done|]. rewrite Hc. by apply unquote_escaped.
Qed.

(** A rune is written as its encoding, and U+FFFD for what is not a scalar
    value, both bare and as a quoted literal. *)
Theorem fmt_rune_encodes w value s : w_witness w <> 0 -> - 2 ^ 31 <= value < 2 ^ 31 ->
  let text := if decide (is_scalar value) then encode_rune value else replacement_bytes in
  wp (fmt_rune sink_write w value) (fun _ s' => wrote s [text] s') (cut s) s /\
  wp (fmt_quoted_rune sink_write w value)
    (fun _ s' => exists new, wrote s new s' /\ unquote 39 (concat new) = Some text) (cut s) s.
Proof.
  intros Hw Hv text.
  assert (forall r, r = text -> Forall is_byte r -> r <> [] -> zlen r = zlen r ->
    wp (fmt_bytes sink_write w r (zlen r)) (fun _ s' => wrote s [text] s') (cut s) s /\
    wp (quoted sink_write w r (zlen r) 39) (fun _ s' => exists new, wrote s new s' /\ unquote 39 (concat new) = Some text) (cut s) s) as H.
  { intros r -> Hr Hne _. split; [by apply fmt_text_spec|]. apply fmt_quoted_roundtrip; [done|done|by right]. }
  unfold fmt_rune, fmt_quoted_rune. unfold text in *. destruct (decide (is_scalar value)) as [Hs|Hs].
  - pose proof (encode_rune_length value Hs). destruct (Z.eqb_spec (zlen (encode_rune value)) 0); [lia|].
    apply H; [done|by apply encode_rune_bytes|by apply encode_rune_nonempty|done].
  - rewrite (encode_rune_invalid value Hv Hs). cbn [length Z.of_nat Z.eqb].
    apply (H replacement_bytes); [done| |done|done]. repeat constructor; unfold is_byte; lia.
Qed.
End claims.

(** * A concrete sink *)

Definition quiet : writer_v1 -> bytes -> M unit unit := fun _ _ => ret tt.

Lemma quiet_behaves w bs : well_behaved (quiet w bs).
Proof. done. Qed.

Definition stdout_writer : writer_v1 := WriterV1 1 4096.
Definition nothing_yet : fstate unit := FState [] tt.

Definition shown {A} (m : M (fstate unit) A) : list bytes :=
  match m nothing_yet with Ok _ s => chunks s | _ => [] end.

(** The most negative value in base 2, and a 128-bit one in base 16. *)
Lemma fmt_integers_roundtrip_witness :
  shown (run_call quiet stdout_writer (I64 (- 2 ^ 63)) (Some (OptionsV1 2 0))) = [lit "-1" ++ replicate 63 48] /\
  shown (run_call quiet stdout_writer (I128 1 (2 ^ 64 - 1)) None) = [lit "-18446744073709551615"] /\
  wp (run_call quiet stdout_writer (I64 (- 2 ^ 63)) (Some (OptionsV1 2 0)))
    (fun _ s' => exists text, wrote nothing_yet [text] s' /\ spells 2 (- 2 ^ 63) text /\ zlen text <= 66)
    (cut nothing_yet) nothing_yet.
Proof.
  split; [vm_compute; reflexivity|]. split; [vm_compute; reflexivity|].
  apply (fmt_integers_roundtrip quiet quiet_behaves stdout_writer (I64 (- 2 ^ 63)) (Some (OptionsV1 2 0))); [done|].
  cbn. unfold is_i64, INT64_MIN, INT64_MAX. lia.
Defined.

(** A quote, a backslash, a newline, a control byte and a byte past ASCII. *)
Lemma fmt_quoted_roundtrip_witness :
  shown (quoted quiet stdout_writer [97; 34; 92; 10; 7; 200] 6 34) =
    [[34]; [97]; [92; 34]; [92; 92]; [92; 110]; lit "\x07"; [200]; [34]] /\
  wp (quoted quiet stdout_writer [97; 34; 92; 10; 7; 200] (zlen [97; 34; 92; 10; 7; 200]) 34)
    (fun _ s' => exists new, wrote nothing_yet new s' /\ unquote 34 (concat new) = Some [97; 34; 92; 10; 7; 200])
    (cut nothing_yet) nothing_yet.
Proof.
  split; [vm_compute; reflexivity|].
  apply (fmt_quoted_roundtrip quiet quiet_behaves); [done| |by left]. repeat constructor; unfold is_byte; lia.
Defined.

(** A lone surrogate prints as U+FFFD. *)
Lemma fmt_rune_encodes_witness :
  shown (fmt_rune quiet stdout_writer 0xD800) = [[0xEF; 0xBF; 0xBD]] /\
  shown (fmt_rune quiet stdout_writer 0x1F600) = [[0xF0; 0x9F; 0x98; 0x80]] /\
  (let text := if decide (is_scalar 0x1F600) then encode_rune 0x1F600 else replacement_bytes in
   wp (fmt_rune quiet stdout_writer 0x1F600) (fun _ s' => wrote nothing_yet [text] s') (cut nothing_yet) nothing_yet /\
   wp (fmt_quoted_rune quiet stdout_writer 0x1F600)
     (fun _ s' => exists new, wrote nothing_yet new s' /\ unquote 39 (concat new) = Some text) (cut nothing_yet) nothing_yet).
Proof.
  split; [vm_compute; reflexivity|]. split; [vm_compute; reflexivity|].
  apply (fmt_rune_encodes quiet quiet_behaves); [done|lia].
Defined.
