(* ===== verification/FloatClaims.v ===== *)
(** The properties of float text: what the formatters print over any C library
    that meets its specification, and that the one of [Ieee] does. *)
From S2P Require Import Prelude Interfaces Utf8 Utf8Codec Format FormatSpec FormatFloat NumericLocale FormatFloatSpec Rounding Nearest Ieee IeeeSpec FormatClaims.

Section float_claims.
Context {F E : Type} (isnan isinf negative : F -> bool).
Context (printf_e : Z -> F -> Z -> bytes) (strtod : Z -> bytes -> F * bytes) (ops : double_ops F).
Context (sink_write : writer_v1 -> bytes -> M E unit) (create_locale : M E (Z * Z)) (free_locale : Z -> M E unit)
  (published : E -> Z) (at_width : Z -> F -> Prop).
Implicit Types (s : lstate E) (w : writer_v1).

(** The C library in the locale [l]. *)
Record c_library (l : Z) : Prop := {
  printf_spec v p : finite isnan isinf v -> 0 <= p <= 16 ->
    exists neg ds e, printf_e l v p = sci_text neg ds e /\ digits_ok ds /\ zlen ds = p + 1 /\ -400 <= e <= 400;
  strtod_spec t1 t2 neg m1 x1 m2 x2 :
    read_decimal t1 = Some (neg, m1, x1) -> read_decimal t2 = Some (neg, m2, x2) -> same m1 x1 m2 x2 ->
    (strtod l t1).1 = (strtod l t2).1;
  widest_exact v bits : finite isnan isinf v -> at_width bits v -> same_at ops bits (strtod l (printf_e l v (widest bits - 1))).1 v = true;
}.

Definition kept s (h : halt) s' : Prop := cut (l_out s) h (l_out s').

Lemma with_env_kept {A} (m : M E A) (Q : A -> lstate E -> Prop) s0 s : well_behaved m -> chunks (l_out s) = chunks (l_out s0) ->
  (forall a e, Q a (LState (cached s) (FState (chunks (l_out s)) e))) -> wp (with_env m) Q (kept s0) s.
Proof.
  intros Hm Hs HQ. pose proof (Hm (f_env (l_out s))) as H. unfold wp, with_env in *.
  destruct (m (f_env (l_out s))); [apply HQ|unfold kept, cut; cbn; by rewrite Hs|done..].
Qed.

(** The locale a call gets is the shared one, and the one every later call
    gets. *)
Lemma try_c_numeric_spec s :
  well_behaved create_locale -> (forall l, well_behaved (free_locale l)) ->
  wp (try_c_numeric create_locale free_locale published)
    (fun r s' => chunks (l_out s') = chunks (l_out s) /\ (cached s <> 0 -> r.1 = cached s) /\
       if r.1 =? 0 then cached s' = cached s /\ (r.2 = LOKE_RT_NUMERIC_OUT_OF_MEMORY \/ r.2 = LOKE_RT_NUMERIC_UNAVAILABLE)
       else cached s' = r.1) (kept s) s.
Proof.
  intros Hc Hf. unfold try_c_numeric. apply wp_bind, wp_gets. destruct (Z.eqb_spec (cached s) 0) as [H0|H0]; cbn [negb].
  2: { apply wp_ret. split; [done|]. split; [done|]. cbn [fst]. by destruct (Z.eqb_spec (cached s) 0). }
  apply wp_bind, with_env_kept; [done|done|]. intros [made errno] e. destruct (Z.eqb_spec made 0) as [->|Hm].
  { apply wp_ret. split; [done|]. split; [done|]. split; [done|]. destruct (errno =? ENOMEM); [by left|by right]. }
  apply wp_bind, wp_get. cbn [l_out f_env]. destruct (Z.eqb_spec (published e) 0) as [Hp|Hp].
  - apply wp_bind, wp_modify, wp_ret. split; [done|]. split; [done|]. cbn [fst]. by destruct (Z.eqb_spec made 0).
  - apply wp_bind, wp_modify, wp_bind. apply with_env_kept; [apply Hf|done|]. intros _ e2. apply wp_ret.
    split; [done|]. split; [done|]. cbn [fst]. by destruct (Z.eqb_spec (published e) 0).
Qed.

(** C16: a float is printed as its shortest spelling: the text reads back as the
    same value at its width, and it lays out [p] digits such that with fewer than
    [p] neither the nearest spelling nor the one above it reads back; it has a
    point or an exponent and fits its buffer. It goes through the one shared C
    locale, whatever the locale of the process; NaN and the infinities need
    none. *)
Theorem fmt_float_reads_back w v bits s : w_witness w <> 0 -> at_width bits v ->
  (forall w bs, well_behaved (sink_write w bs)) -> well_behaved create_locale -> (forall l, well_behaved (free_locale l)) ->
  (forall l, l <> 0 -> c_library l) ->
  wp (fmt_float isnan isinf negative printf_e strtod ops sink_write create_locale free_locale published w v bits)
    (fun _ s' => exists text, wrote (l_out s) [text] (l_out s') /\
       if isnan v then text = lit "nan" /\ cached s' = cached s
       else if isinf v then text = (if negative v then lit "-inf" else lit "inf") /\ cached s' = cached s
       else cached s' <> 0 /\ (cached s <> 0 -> cached s' = cached s) /\
         same_at ops bits (strtod (cached s') text).1 v = true /\ (46 ∈ text \/ 101 ∈ text) /\ zlen text < LOKE_RT_FLOAT_SPELLING_MAX /\
         shortest (printf_e (cached s')) (fun t => (strtod (cached s') t).1) ops v bits text)
    (kept s) s.
Proof.
  intros Hw Hat Hsink Hcr Hfr Hlib. unfold fmt_float.
  assert (forall text s1, text <> [] -> chunks (l_out s1) = chunks (l_out s) ->
    wp (with_out (fmt_bytes sink_write w text (zlen text)))
      (fun _ s' => wrote (l_out s) [text] (l_out s') /\ cached s' = cached s1) (kept s) s1) as Hout.
  { intros text s1 Hne Heq. pose proof (fmt_text_spec sink_write Hsink w text (zlen text) (l_out s1) Hw eq_refl Hne) as H.
    unfold wp, with_out, wrote, kept, cut in *. rewrite <- Heq. by destruct (fmt_bytes _ _ _ _ _). }
  destruct (isnan v) eqn:Hn; [|destruct (isinf v) eqn:Hi]; cbn [orb].
  - apply wp_bind, wp_ret, wp_bind. apply (wp_need _ (lit "nan")); [unfold spell_in, spell_float; by rewrite Hn|].
    eapply wp_conseq; [by apply Hout| |done]. intros _ s' [? ?]. by exists (lit "nan").
  - apply wp_bind, wp_ret, wp_bind. apply (wp_need _ (if negative v then lit "-inf" else lit "inf"));
      [unfold spell_in, spell_float; by rewrite Hn, Hi|].
    eapply wp_conseq; [apply Hout; [by destruct (negative v)|done]| |done]. intros _ s' [? ?]. by eexists.
  - apply wp_bind. unfold c_numeric. apply wp_bind. eapply wp_conseq; [by apply try_c_numeric_spec| |done].
    intros [made f] s1 (Hch & Hsame & Hmade). cbn [fst] in *. destruct (Z.eqb_spec made 0) as [->|Hm0].
    { unfold panic. apply wp_stop. unfold kept, cut. by rewrite Hch. }
    apply wp_ret, wp_bind. destruct (Hlib made Hm0) as [L1 L2 L3].
    destruct (spell_float_spec isnan isinf negative (printf_e made) (fun t => (strtod made t).1) ops L1 L2 at_width L3 v bits)
      as (text & Hsp & Hch2 & Hr & Hin & Hlt & _); [by split|done|].
    apply (wp_need _ text); [exact Hsp|]. eapply wp_conseq; [apply (Hout text s1)| |done]; [|done|].
    { intros ->. destruct Hin as [Hin|Hin]; by apply elem_of_nil in Hin. }
    intros _ s' [Hwr Hcs]. exists text. split; [done|]. rewrite Hcs, Hmade. by split_and!.
Qed.
End float_claims.


(** * IEEE doubles *)

Lemma ieee_library l :
  c_library is_nan is_inf (fun _ => ieee_printf_e) (fun _ => ieee_strtod) ieee_ops ieee_width l.
Proof.
  split.
  - apply ieee_printf_ok.
  - apply ieee_strtod_same.
  - apply ieee_widest_exact.
Qed.

Lemma finite_bounds m e : bounded m e = true -> 0 <= m.
Proof. intros [H _]%bounded_spec. lia. Qed.

(** [==] tells doubles apart up to the sign of zero. *)
Lemma ieee_equal_double v neg m e ok : m <> 0 -> ieee_equal v (Finite neg m e ok) = true -> same_double v (Finite neg m e ok).
Proof.
  intros Hm He. destruct v as [| |neg1 m1 e1 ok1]; [done|done|]. pose proof (finite_bounds m e ok). pose proof (finite_bounds m1 e1 ok1) as Hm1.
  cbn in He. apply Z.eqb_eq in He. set (b := Z.min e1 e) in *. pose proof (pow_pos 2 (e1 - b) ltac:(lia) ltac:(lia)).
  pose proof (pow_pos 2 (e - b) ltac:(lia) ltac:(lia)). unfold signed in He. cbn.
  destruct neg1, neg; try (exfalso; nia); (split; [done|]; apply (same_value_at b); lia).
Qed.

Lemma ieee_reads_all text neg m x : read_decimal text = Some (neg, m, x) -> (ieee_strtod text).2 = [].
Proof. intros H. unfold ieee_strtod. rewrite H. by destruct (frac 10 m x). Qed.

(** What is spelled is read back whole, and is the same double. *)
Lemma ieee_spelling v : exists text,
  spell_float is_nan is_inf is_negative ieee_printf_e (fun t => (ieee_strtod t).1) ieee_ops v 64 = Some text /\
  zlen text < LOKE_RT_FLOAT_SPELLING_MAX /\ exists back, ieee_strtod text = (back, []) /\ same_double back v.
Proof.
  destruct v as [|neg|neg m e ok].
  - exists (lit "nan"). split; [done|]. split; [done|]. by exists NaN.
  - exists (if neg then lit "-inf" else lit "inf"). destruct neg; (split; [done|]; split; [done|]; by eexists).
  - destruct (decide (m = 0)) as [->|Hm].
    { exists (sign_text neg ++ lit "0.0"). split; [by destruct neg; vm_compute|]. split; [by destruct neg|].
      exists (Finite neg 0 0 eq_refl). split; [by destruct neg; vm_compute|]. split; [done|]. intros b _ _. lia. }
    destruct (ieee_library 0) as [L1 L2 L3].
    destruct (spell_float_spec is_nan is_inf is_negative ieee_printf_e (fun t => (ieee_strtod t).1) ieee_ops L1 L2 ieee_width L3
      (Finite neg m e ok) 64) as (text & Hsp & _ & Hr & _ & Hlt & n & m' & x & Hread); [by split|done|].
    exists text. split; [done|]. split; [done|]. exists (ieee_strtod text).1. split.
    + rewrite (surjective_pairing (ieee_strtod text)) at 1. by rewrite (ieee_reads_all text n m' x).
    + by apply ieee_equal_double.
Qed.

Section text_claims.
Context {E : Type} (create_locale : M E (Z * Z)) (free_locale : Z -> M E unit) (published : E -> Z).
Implicit Types (s : lstate E).

(** C10: the text of a double is the double: over correctly rounded C conversions
    what [try_spell_f64] writes fits its buffer and [try_parse_f64] reads it
    back, whole, to the same double, the sign of zero, the infinities and NaN
    included, unless the numeric locale cannot be made. *)
Theorem float_text_roundtrip v s : well_behaved create_locale -> (forall l, well_behaved (free_locale l)) ->
  wp (let! (out, n) := try_spell_f64 is_nan is_inf is_negative (fun _ => ieee_printf_e) (fun _ => ieee_strtod) ieee_ops
        create_locale free_locale published v in
      if n <? 0 then ret (out, n, 0, None)
      else
        let! (code, back) := try_parse_f64 (fun _ => ieee_strtod) create_locale free_locale published out in
        ret (out, n, code, back))
    (fun '(out, n, code, back) s' =>
       chunks (l_out s') = chunks (l_out s) /\
       if n <? 0 then finite is_nan is_inf v /\ cached s = 0 /\ (n = - LOKE_RT_NUMERIC_OUT_OF_MEMORY \/ n = - LOKE_RT_NUMERIC_UNAVAILABLE)
       else
         n = zlen out /\ n < LOKE_RT_FLOAT_SPELLING_MAX /\
         ((code = 0 /\ exists w, back = Some w /\ same_double w v) \/
          (~ finite is_nan is_inf v /\ back = None /\ cached s' = 0 /\ code <> 0)))
    (kept s) s.
Proof.
  intros Hcr Hfr. destruct (ieee_spelling v) as (text & Hsp & Hlt & back & Hback & Hsame).
  match goal with |- wp _ ?q _ _ => set (Q := q) end.
  (* The reading, where the spelling has given a text. *)
  assert (forall s1, chunks (l_out s1) = chunks (l_out s) -> cached s1 <> 0 \/ ~ finite is_nan is_inf v ->
    wp (let! (code, back) := try_parse_f64 (fun _ => ieee_strtod) create_locale free_locale published text in ret (text, zlen text, code, back))
      Q (kept s) s1) as Hparse.
  { intros s1 H1 Hloc. unfold try_parse_f64. apply wp_bind, wp_bind. eapply wp_conseq; [by apply try_c_numeric_spec| |].
    - intros [made f] s2 (Hch & Hkeep & Hmade). cbn [fst snd] in *. destruct (Z.eqb_spec made 0) as [->|Hm0].
      + apply wp_ret, wp_ret. unfold Q. split; [congruence|]. destruct (Z.ltb_spec (zlen text) 0); [lia|]. split_and!; [done|done|].
        right. destruct Hmade as [Hc2 Hf]. destruct Hloc as [Hloc|Hloc]; [exfalso; apply Hloc; symmetry; by apply Hkeep|].
        destruct (decide (cached s1 = 0)) as [H0|H0]; [|exfalso; apply H0; symmetry; by apply Hkeep].
        split_and!; [done|done|congruence|]. unfold LOKE_RT_NUMERIC_OUT_OF_MEMORY, LOKE_RT_NUMERIC_UNAVAILABLE in Hf. lia.
      + rewrite Hback. apply wp_ret, wp_ret. unfold Q. split; [congruence|]. destruct (Z.ltb_spec (zlen text) 0); [lia|].
        split_and!; [done|done|]. left. split; [done|]. by exists back.
    - intros h s2. unfold kept, cut. by rewrite H1. }
  unfold try_spell_f64. apply wp_bind. destruct (is_nan v) eqn:Hn; [|destruct (is_inf v) eqn:Hi]; cbn [negb andb].
  1-2: apply wp_bind, (wp_need _ text); [exact Hsp|]; apply wp_ret; destruct (Z.ltb_spec (zlen text) 0); [lia|]; apply Hparse; [done|right; intros [? ?]; congruence].
  apply wp_bind. eapply wp_conseq; [by apply try_c_numeric_spec| |done].
  intros [made f] s1 (Hch & Hkeep & Hmade). cbn [fst snd] in *. destruct (Z.eqb_spec made 0) as [->|Hm0].
  - apply wp_ret. destruct Hmade as [Hc1 Hf]. destruct (Z.ltb_spec (- f) 0) as [Hf0|Hf0].
    2: { unfold LOKE_RT_NUMERIC_OUT_OF_MEMORY, LOKE_RT_NUMERIC_UNAVAILABLE in Hf. lia. }
    apply wp_ret. unfold Q. split; [done|]. destruct (Z.ltb_spec (- f) 0); [|lia]. split; [done|]. split; [|lia].
    destruct (decide (cached s = 0)) as [|H0]; [done|]. exfalso; apply H0; symmetry; by apply Hkeep.
  - apply wp_bind, (wp_need _ text); [exact Hsp|]. apply wp_ret. destruct (Z.ltb_spec (zlen text) 0); [lia|].
    apply Hparse; [done|]. left. congruence.
Qed.
End text_claims.

(** C19: however [n] threads race to make the numeric locale, they are all done
    after at most [4 n] steps, and one that is not done can always take its next
    step; all that succeed
    answer the one cached locale, which is not freed; who lost the exchange frees
    its own and no other; and when all are done no locale but the cached one is
    left. *)
Theorem numeric_locale_shared n k t : nsteps race_step k (race_start n) t ->
  (k <= 4 * n)%nat /\
  (forall i c, callers t !! i = Some c -> (forall r, c <> Return r) -> exists t', race_step t t') /\
  (forall i r, callers t !! i = Some (Return r) -> r.1 <> 0 -> r.1 = shared t /\ r.1 ∈ live_locales t) /\
  (forall i l c, callers t !! i = Some (FreeLocale l c) -> l ∈ live_locales t /\ l <> shared t) /\
  (Forall (fun c => exists r, c = Return r) (callers t) -> live_locales t = published_locale (shared t)).
Proof.
  intros Hrun. pose proof (race_start_ok n) as H0. assert (race_ok t) as Ht by (eapply race_run_ok, H0; by eapply rtc_nsteps_2).
  split_and!.
  - pose proof (race_bound k _ _ Hrun H0) as Hb. rewrite race_start_left in Hb. lia.
  - intros i c. by apply race_moves.
  - intros i r. by apply race_answers.
  - intros i l c. by apply race_frees.
  - by apply race_settled.
Qed.

(** * Concrete floats *)

Definition fresh_locale : lstate unit := LState 0 nothing_yet.
Definition tenth : double := Eval vm_compute in (ieee_strtod (lit "0.1")).1.
(** A power of two, whose neighbours below are half as far as those above. *)
Definition power : double := Finite false 1 (-24) eq_refl.

Definition spelled (v : double) (bits : Z) : option bytes :=
  spell_float is_nan is_inf is_negative ieee_printf_e (fun t => (ieee_strtod t).1) ieee_ops v bits.

Example spelled_tenth : spelled tenth 64 = Some (lit "0.1").
Proof. vm_compute. reflexivity. Qed.
Example spelled_power : spelled power 64 = Some (lit "5.960464477539063e-8").
Proof. vm_compute. reflexivity. Qed.
Example spelled_least : spelled (Finite false 1 (-1074) eq_refl) 64 = Some (lit "5e-324").
Proof. vm_compute. reflexivity. Qed.
Example spelled_greatest : spelled (Finite true (2 ^ 53 - 1) 971 eq_refl) 64 = Some (lit "-1.7976931348623157e308").
Proof. vm_compute. reflexivity. Qed.
Example spelled_f16 : spelled (Finite false 2047 5 eq_refl) 16 = Some (lit "65500.0").
Proof. vm_compute. reflexivity. Qed.
Example spelled_f32 : spelled (ieee_to_float tenth) 32 = Some (lit "0.1").
Proof. vm_compute. reflexivity. Qed.

(** The first float makes the locale; another thread had published 77. *)
Lemma fmt_float_reads_back_witness :
  (match fmt_float is_nan is_inf is_negative (fun _ => ieee_printf_e) (fun _ => ieee_strtod) ieee_ops quiet (ret (55, 0))
      (fun _ => ret tt) (fun _ => 77) stdout_writer power 64 fresh_locale with
   | Ok _ s => chunks (l_out s) = [lit "5.960464477539063e-8"] /\ cached s = 77
   | _ => False
   end) /\
  wp (fmt_float is_nan is_inf is_negative (fun _ => ieee_printf_e) (fun _ => ieee_strtod) ieee_ops quiet (ret (55, 0))
      (fun _ => ret tt) (fun _ => 77) stdout_writer power 64)
    (fun _ s' => exists text, wrote nothing_yet [text] (l_out s') /\
       (cached s' <> 0 /\ (0 <> 0 -> cached s' = 0) /\
         same_at ieee_ops 64 (ieee_strtod text).1 power = true /\ (46 ∈ text \/ 101 ∈ text) /\ zlen text < LOKE_RT_FLOAT_SPELLING_MAX /\
         shortest ieee_printf_e (fun t => (ieee_strtod t).1) ieee_ops power 64 text))
    (kept fresh_locale) fresh_locale.
Proof.
  split; [vm_compute; by split|].
  apply (fmt_float_reads_back is_nan is_inf is_negative (fun _ => ieee_printf_e) (fun _ => ieee_strtod) ieee_ops quiet (ret (55, 0))
    (fun _ => ret tt) (fun _ => 77) ieee_width stdout_writer power 64 fresh_locale);
    [done|done|apply quiet_behaves|done|done|intros l _; apply ieee_library].
Defined.

(** Negative zero, whose sign [==] does not see. *)
Definition negative_zero : double := Finite true 0 0 eq_refl.

Lemma float_text_roundtrip_witness :
  (match try_spell_f64 is_nan is_inf is_negative (fun _ => ieee_printf_e) (fun _ => ieee_strtod) ieee_ops
      (ret (55, 0)) (fun _ => ret tt) (fun _ => 0) negative_zero fresh_locale with
   | Ok (out, n) s => out = lit "-0.0" /\ n = 4 /\ cached s = 55
   | _ => False
   end) /\
  wp (let! (out, n) := try_spell_f64 is_nan is_inf is_negative (fun _ => ieee_printf_e) (fun _ => ieee_strtod) ieee_ops
        (ret (55, 0)) (fun _ => ret tt) (fun _ => 0) negative_zero in
      if n <? 0 then ret (out, n, 0, None)
      else
        let! (code, back) := try_parse_f64 (fun _ => ieee_strtod) (ret (55, 0)) (fun _ => ret tt) (fun _ => 0) out in
        ret (out, n, code, back))
    (fun '(out, n, code, back) s' =>
       chunks (l_out s') = [] /\
       if n <? 0 then finite is_nan is_inf negative_zero /\ 0 = 0 /\ (n = - LOKE_RT_NUMERIC_OUT_OF_MEMORY \/ n = - LOKE_RT_NUMERIC_UNAVAILABLE)
       else
         n = zlen out /\ n < LOKE_RT_FLOAT_SPELLING_MAX /\
         ((code = 0 /\ exists w, back = Some w /\ same_double w negative_zero) \/
          (~ finite is_nan is_inf negative_zero /\ back = None /\ cached s' = 0 /\ code <> 0)))
    (kept fresh_locale) fresh_locale.
Proof.
  split; [vm_compute; by split_and!|].
  apply (float_text_roundtrip (ret (55, 0)) (fun _ => ret tt) (fun _ => 0) negative_zero fresh_locale); done.
Defined.

(** Two threads both make a locale, 71 and 72; the second wins the exchange. *)
Lemma numeric_locale_shared_witness :
  let t := Race 72 [72] [Return (72, 0); Return (72, 0)] in
  (7 <= 4 * 2)%nat /\
  (forall i c, callers t !! i = Some c -> (forall r, c <> Return r) -> exists t', race_step t t') /\
  (forall i r, callers t !! i = Some (Return r) -> r.1 <> 0 -> r.1 = shared t /\ r.1 ∈ live_locales t) /\
  (forall i l c, callers t !! i = Some (FreeLocale l c) -> l ∈ live_locales t /\ l <> shared t) /\
  (Forall (fun c => exists r, c = Return r) (callers t) -> live_locales t = published_locale (shared t)).
Proof.
  intros t. apply (numeric_locale_shared 2 7 t).
  eapply nsteps_l; [by eapply (race_load 0)|]. eapply nsteps_l; [by eapply (race_create 0 _ 71 0); [|vm_compute|set_solver]|].
  eapply nsteps_l; [by eapply (race_load 1)|]. eapply nsteps_l; [by eapply (race_create 1 _ 72 0); [|vm_compute|set_solver]|].
  eapply nsteps_l; [by eapply (race_exchange 1)|]. eapply nsteps_l; [by eapply (race_exchange 0)|].
  eapply nsteps_l; [by eapply (race_free 0 71 _ _ _ [72]); [|apply Permutation_swap]|]. apply nsteps_O.
Defined.
