(* ===== verification/Atomic.v ===== *)
(** The 128-bit atomic operations ([runtime/atomic.c]): each is a critical
    section of one spin lock, run here by threads whose steps interleave and
    whose stores are buffered, as those of x86-64 processors are. *)
From S2P Require Import Prelude.

(** * Code as steps

    [Lock] is the loop of [atomic_lock]: every step is one test-and-set, and the
    code goes on when the gate was open; [Release] is [__sync_lock_release], a
    plain store of 0. The 8-byte halves of a value are read
    and written one at a time, as [memcpy] may. *)
Inductive prog (A : Type) : Type :=
| Ret (a : A)
| Lock (k : prog A)
| Release (k : prog A)
| Barrier (k : prog A)
| Read (address : Z) (k : Z -> prog A)
| Write (address value : Z) (k : prog A).
Arguments Ret {A} a.
Arguments Lock {A} k.
Arguments Release {A} k.
Arguments Barrier {A} k.
Arguments Read {A} address k.
Arguments Write {A} address value k.

Definition halves : Type := (Z * Z)%type.

(** * The operations *)

Definition LOKE_RT_ORDER_RELAXED : Z := 0.
Definition LOKE_RT_ORDER_ACQUIRE : Z := 1.
Definition LOKE_RT_ORDER_RELEASE : Z := 2.
Definition LOKE_RT_ORDER_ACQ_REL : Z := 3.
Definition LOKE_RT_ORDER_SEQ_CST : Z := 4.

Definition order_acquires (order : Z) : bool :=
  (order =? LOKE_RT_ORDER_ACQUIRE) || (order =? LOKE_RT_ORDER_ACQ_REL) || (order =? LOKE_RT_ORDER_SEQ_CST).
Definition order_releases (order : Z) : bool :=
  (order =? LOKE_RT_ORDER_RELEASE) || (order =? LOKE_RT_ORDER_ACQ_REL) || (order =? LOKE_RT_ORDER_SEQ_CST).

Section code.
Context {A : Type}.
Implicit Types k : prog A.

Definition atomic_lock k : prog A := Lock k.
Definition atomic_unlock k : prog A := Release k.
Definition atomic_barrier k : prog A := Barrier k.

Definition enter (order : Z) k : prog A :=
  atomic_lock (if order_acquires order then atomic_barrier k else k).
Definition leave (order : Z) k : prog A :=
  if order_releases order then atomic_barrier (atomic_unlock k) else atomic_unlock k.

Definition read_halves (address : Z) (k : halves -> prog A) : prog A :=
  Read address (fun low => Read (address + 8) (fun high => k (low, high))).
Definition write_halves (address : Z) (v : halves) k : prog A :=
  Write address v.1 (Write (address + 8) v.2 k).
End code.

(** The answer of an operation: whether a compare-exchange swapped, and the
    value written through [out] or [expected]. *)
Record result := Result { swapped : bool; observed : halves }.

Definition atomic128_load (address order : Z) : prog result :=
  enter order (read_halves address (fun out => leave order (Ret (Result true out)))).

Definition atomic128_store (address : Z) (value : halves) (order : Z) : prog result :=
  enter order (write_halves address value (leave order (Ret (Result true value)))).

Definition atomic128_exchange (address : Z) (value : halves) (order : Z) : prog result :=
  enter order (read_halves address (fun out =>
    write_halves address value (leave order (Ret (Result true out))))).

Definition atomic128_compare_exchange (address : Z) (expected desired : halves) (success failure : Z) : prog result :=
  enter success (read_halves address (fun found =>
    if bool_decide (found = expected)
    then write_halves address desired (leave success (Ret (Result true expected)))
    else read_halves address (fun expected => leave failure (Ret (Result false expected))))).

(** The bodies of [LOKE_RT_ATOMIC128_RMW]. *)
Inductive rmw := Add | Sub | And | Or | Xor.

Definition rmw_body (op : rmw) (a b : halves) : halves :=
  let '(a_low, a_high) := a in
  let '(b_low, b_high) := b in
  match op with
  | Add =>
      let r_low := wrap64 (a_low + b_low) in
      (r_low, wrap64 (a_high + b_high + (if r_low <? a_low then 1 else 0)))
  | Sub => (wrap64 (a_low - b_low), wrap64 (a_high - b_high - (if a_low <? b_low then 1 else 0)))
  | And => (Z.land a_low b_low, Z.land a_high b_high)
  | Or => (Z.lor a_low b_low, Z.lor a_high b_high)
  | Xor => (Z.lxor a_low b_low, Z.lxor a_high b_high)
  end.

Definition atomic128_rmw (op : rmw) (address : Z) (value : halves) (order : Z) : prog result :=
  enter order (read_halves address (fun a =>
    write_halves address (rmw_body op a value) (leave order (Ret (Result true a))))).

Inductive operation :=
| OpLoad (address order : Z)
| OpStore (address : Z) (value : halves) (order : Z)
| OpExchange (address : Z) (value : halves) (order : Z)
| OpCompareExchange (address : Z) (expected desired : halves) (success failure : Z)
| OpRmw (op : rmw) (address : Z) (value : halves) (order : Z).

Definition code_of (op : operation) : prog result :=
  match op with
  | OpLoad a order => atomic128_load a order
  | OpStore a v order => atomic128_store a v order
  | OpExchange a v order => atomic128_exchange a v order
  | OpCompareExchange a e d success failure => atomic128_compare_exchange a e d success failure
  | OpRmw k a v order => atomic128_rmw k a v order
  end.

(** * Threads *)

(** A store a processor has made and memory has not yet: of a word, or of the 0
    that opens the gate. *)
Inductive store := StoreWord (address value : Z) | StoreGate.

Definition write_back (st : store) (m : gmap Z Z) : gmap Z Z :=
  match st with StoreWord a v => <[a := v]> m | StoreGate => m end.

(** Memory as the thread sees it that made these stores, oldest first. *)
Definition view (m : gmap Z Z) (stores : list store) : gmap Z Z := foldl (fun m st => write_back st m) m stores.

(** One step of code, from the gate, memory and the stores its thread has
    buffered. A store goes to the end of the buffer; a read takes the newest
    buffered value of its word, and memory's where there is none; the
    test-and-set, a locked instruction, and the barrier wait until the buffer is
    empty. [None] where the code ended, waits, or accesses memory that is not
    there. *)
Definition code_step (gate : Z) (m : gmap Z Z) (stores : list store) (p : prog result) : option (Z * list store * prog result) :=
  match p with
  | Ret _ => None
  | Lock k => match stores with [] => Some (1, [], if gate =? 0 then k else p) | _ => None end
  | Release k => Some (gate, stores ++ [StoreGate], k)
  | Barrier k => match stores with [] => Some (gate, [], k) | _ => None end
  | Read a k => v ← view m stores !! a; Some (gate, stores, k v)
  | Write a v k => _ ← view m stores !! a; Some (gate, stores ++ [StoreWord a v], k)
  end.

(** A thread: the operations it is still to call, the call it is in, the answers
    it has, and its store buffer. *)
Record thread := Thread {
  todo : list operation;
  now : option (operation * prog result);
  answers : list (operation * result);
  stores : list store;
}.

(** [log] records the calls in the order they let go of the lock. *)
Record config := Config {
  gate : Z;
  words : gmap Z Z;
  pool : list thread;
  log : list (nat * operation * result);
}.

Definition released (i : nat) (op : operation) (p : prog result) : list (nat * operation * result) :=
  match p with Release (Ret r) => [(i, op, r)] | _ => [] end.

Definition set_thread (i : nat) (t : thread) (c : config) : config :=
  Config (gate c) (words c) (<[i := t]> (pool c)) (log c).

(** The oldest store of a buffer reaches memory, whenever the processor likes. *)
Definition retire (i : nat) (t : thread) (st : store) (rest : list store) (c : config) : config :=
  Config (match st with StoreGate => 0 | _ => gate c end) (write_back st (words c))
    (<[i := Thread (todo t) (now t) (answers t) rest]> (pool c)) (log c).

Inductive step : config -> config -> Prop :=
| step_call c i t op rest :
    pool c !! i = Some t -> now t = None -> todo t = op :: rest ->
    step c (set_thread i (Thread rest (Some (op, code_of op)) (answers t) (stores t)) c)
| step_code c i t op p g b p' :
    pool c !! i = Some t -> now t = Some (op, p) -> code_step (gate c) (words c) (stores t) p = Some (g, b, p') ->
    step c (Config g (words c) (<[i := Thread (todo t) (Some (op, p')) (answers t) b]> (pool c)) (log c ++ released i op p))
| step_answer c i t op r :
    pool c !! i = Some t -> now t = Some (op, Ret r) ->
    step c (set_thread i (Thread (todo t) None (answers t ++ [(op, r)]) (stores t)) c)
| step_retire c i t st rest :
    pool c !! i = Some t -> stores t = st :: rest -> step c (retire i t st rest c).

Definition steps : config -> config -> Prop := rtc step.

(** Steps as functions: a turn of a thread, or of the store buffer of one. *)
Inductive turn := Run (i : nat) | Retire (i : nat).

Definition run_thread (i : nat) (t : thread) (c : config) : option config :=
  match now t, todo t with
  | None, [] => None
  | None, op :: rest => Some (set_thread i (Thread rest (Some (op, code_of op)) (answers t) (stores t)) c)
  | Some (op, Ret r), _ => Some (set_thread i (Thread (todo t) None (answers t ++ [(op, r)]) (stores t)) c)
  | Some (op, p), _ =>
      '(g, b, p') ← code_step (gate c) (words c) (stores t) p;
      Some (Config g (words c) (<[i := Thread (todo t) (Some (op, p')) (answers t) b]> (pool c)) (log c ++ released i op p))
  end.

Definition advance (n : turn) (c : config) : option config :=
  match n with
  | Run i => t ← pool c !! i; run_thread i t c
  | Retire i => t ← pool c !! i; match stores t with st :: rest => Some (retire i t st rest c) | [] => None end
  end.

Fixpoint schedule (l : list turn) (c : config) : option config :=
  match l with [] => Some c | n :: l => c' ← advance n c; schedule l c' end.

(** Threads about to run these calls over this memory. *)
Definition start (m : gmap Z Z) (calls : list (list operation)) : config :=
  Config 0 m ((fun ops => Thread ops None [] []) <$> calls) [].

Definition reachable (m : gmap Z Z) (calls : list (list operation)) (c : config) : Prop := steps (start m calls) c.

Definition quiescent (c : config) : Prop := Forall (fun t => todo t = [] /\ now t = None /\ stores t = []) (pool c).
