(* ===== verification/AtomicSpec.v ===== *)
(** The 128-bit atomics against single 128-bit values: what each operation does
    when it runs alone. *)
From S2P Require Import Prelude Utf8 Atomic.

(** * Values *)

Definition value (v : halves) : Z := v.2 * 2 ^ 64 + v.1.
Definition halves_ok (v : halves) : Prop := is_u64 v.1 /\ is_u64 v.2.
Definition is_value (x : Z) : Prop := 0 <= x < 2 ^ 128.

Lemma value_range v : halves_ok v -> is_value (value v).
Proof. intros [H1 H2]. unfold is_value, value, is_u64, UINT64_MAX in *. lia. Qed.

Lemma value_split v : halves_ok v -> value v mod 2 ^ 64 = v.1 /\ value v / 2 ^ 64 = v.2.
Proof.
  intros [H1 H2]. unfold value, is_u64, UINT64_MAX in *.
  rewrite Z.add_comm, Z.mod_add, Z.div_add, Z.mod_small, Z.div_small by lia. lia.
Qed.

Lemma value_inj v w : halves_ok v -> halves_ok w -> value v = value w -> v = w.
Proof.
  intros Hv Hw H. destruct (value_split v Hv) as [V1 V2], (value_split w Hw) as [W1 W2]. rewrite H in *.
  destruct v, w; cbn in *. congruence.
Qed.

Lemma value_bits v i : halves_ok v -> 0 <= i ->
  Z.testbit (value v) i = if i <? 64 then Z.testbit v.1 i else Z.testbit v.2 (i - 64).
Proof.
  intros [H1 H2] Hi. unfold value. rewrite <- (lor_add v.2 v.1 64) by (unfold is_u64, UINT64_MAX in H1; lia).
  rewrite Z.lor_spec, <- Z.shiftl_mul_pow2, Z.shiftl_spec by lia. destruct (Z.ltb_spec i 64).
  - by rewrite (Z.testbit_neg_r v.2) by lia.
  - assert (Z.testbit v.1 i = false) as ->; [|by rewrite orb_false_r].
    destruct (decide (v.1 = 0)) as [->|]; [apply Z.testbit_0_l|].
    apply Z.bits_above_log2; [unfold is_u64 in H1; lia|].
    assert (Z.log2 v.1 < 64); [|lia]. apply Z.log2_lt_pow2; unfold is_u64, UINT64_MAX in H1; lia.
Qed.

(** ** The read-modify-writes, on whole values *)

Definition wrap128 (x : Z) : Z := x mod 2 ^ 128.

Definition rmw_value (op : rmw) (x y : Z) : Z :=
  match op with
  | Add => wrap128 (x + y)
  | Sub => wrap128 (x - y)
  | And => Z.land x y
  | Or => Z.lor x y
  | Xor => Z.lxor x y
  end.

Lemma bitwise_halves (f : Z -> Z -> Z) (g : bool -> bool -> bool) a b :
  (forall x y i, 0 <= i -> Z.testbit (f x y) i = g (Z.testbit x i) (Z.testbit y i)) -> (forall x y, is_u64 x -> is_u64 y -> is_u64 (f x y)) ->
  halves_ok a -> halves_ok b -> halves_ok (f a.1 b.1, f a.2 b.2) /\ value (f a.1 b.1, f a.2 b.2) = f (value a) (value b).
Proof.
  intros Hf Hr Ha Hb. assert (halves_ok (f a.1 b.1, f a.2 b.2)) as Hok by (destruct Ha, Hb; split; cbn; auto).
  split; [done|]. apply Z.bits_inj'. intros i Hi. rewrite Hf, !value_bits by done. cbn [fst snd].
  destruct (Z.ltb_spec i 64); by rewrite Hf by lia.
Qed.

Lemma u64_of_bits x : 0 <= x -> (forall i, 64 <= i -> Z.testbit x i = false) -> is_u64 x.
Proof.
  intros H0 Hx. unfold is_u64, UINT64_MAX. split; [done|]. destruct (decide (x < 2 ^ 64)); [lia|].
  assert (0 < x) by lia. exfalso. pose proof (Z.bit_log2 x ltac:(lia)) as Hb.
  rewrite Hx in Hb; [done|]. apply Z.log2_le_pow2; lia.
Qed.

Lemma u64_bits x i : is_u64 x -> 64 <= i -> Z.testbit x i = false.
Proof.
  intros Hx Hi. unfold is_u64, UINT64_MAX in Hx. destruct (decide (x = 0)) as [->|]; [apply Z.testbit_0_l|].
  apply Z.bits_above_log2; [lia|]. assert (Z.log2 x < 64); [|lia]. apply Z.log2_lt_pow2; lia.
Qed.

Lemma rmw_exact op a b : halves_ok a -> halves_ok b ->
  halves_ok (rmw_body op a b) /\ value (rmw_body op a b) = rmw_value op (value a) (value b).
Proof.
  intros Ha Hb. pose proof Ha as [Ha1 Ha2]. pose proof Hb as [Hb1 Hb2]. destruct a as [al ah], b as [bl bh]. cbn [fst snd] in *.
  destruct op; cbn [rmw_body rmw_value].
  - split; [split; apply wrap64_range|]. unfold value, wrap128, wrap64, is_u64, UINT64_MAX in *. cbn [fst snd].
    assert ((al + bl) mod 2 ^ 64 = if al + bl <? 2 ^ 64 then al + bl else al + bl - 2 ^ 64) as ->.
    { destruct (Z.ltb_spec (al + bl) (2 ^ 64)); [by rewrite Z.mod_small by lia|].
      symmetry. apply (Z.mod_unique _ _ 1); lia. }
    set (c := if al + bl <? 2 ^ 64 then 0 else 1).
    assert ((if (if al + bl <? 2 ^ 64 then al + bl else al + bl - 2 ^ 64) <? al then 1 else 0) = c) as ->.
    { unfold c. destruct (Z.ltb_spec (al + bl) (2 ^ 64)); [destruct (Z.ltb_spec (al + bl) al)|destruct (Z.ltb_spec (al + bl - 2 ^ 64) al)]; lia. }
    pose proof (Z.div_mod (ah + bh + c) (2 ^ 64) ltac:(lia)). pose proof (Z.mod_pos_bound (ah + bh + c) (2 ^ 64) ltac:(lia)).
    apply (Z.mod_unique _ _ ((ah + bh + c) / 2 ^ 64)); [left|];
      unfold c in *; destruct (Z.ltb_spec (al + bl) (2 ^ 64)); lia.
  - split; [split; apply wrap64_range|]. unfold value, wrap128, wrap64, is_u64, UINT64_MAX in *. cbn [fst snd].
    assert ((al - bl) mod 2 ^ 64 = if al <? bl then al - bl + 2 ^ 64 else al - bl) as ->.
    { destruct (Z.ltb_spec al bl); [|by rewrite Z.mod_small by lia]. symmetry. apply (Z.mod_unique _ _ (-1)); lia. }
    set (c := if al <? bl then 1 else 0).
    pose proof (Z.div_mod (ah - bh - c) (2 ^ 64) ltac:(lia)). pose proof (Z.mod_pos_bound (ah - bh - c) (2 ^ 64) ltac:(lia)).
    apply (Z.mod_unique _ _ ((ah - bh - c) / 2 ^ 64)); [left|]; unfold c in *; destruct (Z.ltb_spec al bl); lia.
  - apply (bitwise_halves Z.land andb (al, ah) (bl, bh)); [intros; apply Z.land_spec| |done|done].
    intros x y Hx Hy. apply u64_of_bits; [apply Z.land_nonneg; left; apply Hx|]. intros i Hi.
    by rewrite Z.land_spec, (u64_bits x) by done.
  - apply (bitwise_halves Z.lor orb (al, ah) (bl, bh)); [intros; apply Z.lor_spec| |done|done].
    intros x y Hx Hy. apply u64_of_bits; [apply Z.lor_nonneg; split; [apply Hx|apply Hy]|]. intros i Hi.
    by rewrite Z.lor_spec, (u64_bits x), (u64_bits y) by done.
  - apply (bitwise_halves Z.lxor xorb (al, ah) (bl, bh)); [intros; apply Z.lxor_spec| |done|done].
    intros x y Hx Hy. apply u64_of_bits; [apply Z.lxor_nonneg; split; intros; [apply Hy|apply Hx]|]. intros i Hi.
    by rewrite Z.lxor_spec, (u64_bits x), (u64_bits y) by done.
Qed.

(** * Operations *)

Definition address_of (op : operation) : Z :=
  match op with
  | OpLoad a _ | OpStore a _ _ | OpExchange a _ _ | OpCompareExchange a _ _ _ _ | OpRmw _ a _ _ => a
  end.

(** An answer, with the value observed as one number. *)
Definition answer : Type := (bool * Z)%type.
Definition answer_of (r : result) : answer := (swapped r, value (observed r)).

(** What an operation is to do to the value it finds, and its answer. *)
Definition atomic_spec (op : operation) (x : Z) : Z * answer :=
  match op with
  | OpLoad _ _ => (x, (true, x))
  | OpStore _ v _ => (value v, (true, value v))
  | OpExchange _ v _ => (value v, (true, x))
  | OpCompareExchange _ expected desired _ _ => if x =? value expected then (value desired, (true, x)) else (x, (false, x))
  | OpRmw k _ v _ => (rmw_value k x (value v), (true, x))
  end.

Definition value_at (m : gmap Z Z) (a : Z) : Z := value (default 0 (m !! a), default 0 (m !! (a + 8))).
Definition set_value (a x : Z) (m : gmap Z Z) : gmap Z Z := <[a + 8 := x / 2 ^ 64]> (<[a := x mod 2 ^ 64]> m).

(** One whole operation at a time. *)
Definition seq_step (op : operation) (m : gmap Z Z) : gmap Z Z * answer :=
  let '(x, r) := atomic_spec op (value_at m (address_of op)) in (set_value (address_of op) x m, r).

Fixpoint seq_run (ops : list operation) (m : gmap Z Z) : gmap Z Z * list answer :=
  match ops with
  | [] => (m, [])
  | op :: ops => let '(m, r) := seq_step op m in let '(m, rs) := seq_run ops m in (m, r :: rs)
  end.

Lemma seq_run_snoc ops op m :
  seq_run (ops ++ [op]) m =
    let '(m1, rs) := seq_run ops m in let '(m2, r) := seq_step op m1 in (m2, rs ++ [r]).
Proof.
  revert m. induction ops as [|o ops IH]; intros m; cbn; [by destruct (seq_step op m)|].
  destruct (seq_step o m) as [m1 r]. rewrite IH. destruct (seq_run ops m1) as [m2 rs]. by destruct (seq_step op m2).
Qed.

(** Memory of 64-bit words that has both halves at every address used. *)
Definition has_value (m : gmap Z Z) (a : Z) : Prop := is_Some (m !! a) /\ is_Some (m !! (a + 8)).
Definition memory_ok (m : gmap Z Z) : Prop := map_Forall (fun _ x => is_u64 x) m.
Definition operands (op : operation) : list halves :=
  match op with
  | OpLoad _ _ => []
  | OpStore _ v _ | OpExchange _ v _ | OpRmw _ _ v _ => [v]
  | OpCompareExchange _ e d _ _ => [e; d]
  end.
Definition operation_ok (m : gmap Z Z) (op : operation) : Prop :=
  has_value m (address_of op) /\ Forall halves_ok (operands op).

Lemma value_at_halves m a low high : m !! a = Some low -> m !! (a + 8) = Some high -> value_at m a = value (low, high).
Proof. unfold value_at. by intros -> ->. Qed.

Lemma set_value_halves m a v : halves_ok v -> set_value a (value v) m = <[a + 8 := v.2]> (<[a := v.1]> m).
Proof. intros Hv. unfold set_value. by destruct (value_split v Hv) as [-> ->]. Qed.

Lemma set_value_same m a low high : m !! a = Some low -> m !! (a + 8) = Some high -> halves_ok (low, high) ->
  set_value a (value (low, high)) m = m.
Proof.
  intros H1 H2 Hv. rewrite set_value_halves by done. cbn [fst snd]. rewrite (insert_id m a) by done. by apply insert_id.
Qed.

(** The critical section of an operation, run to its end with nobody else. *)
Fixpoint solo (p : prog result) (m : gmap Z Z) : option (gmap Z Z * result) :=
  match p with
  | Ret _ | Lock _ => None
  | Release k => match k with Ret r => Some (m, r) | _ => None end
  | Barrier k => solo k m
  | Read a k => v ← m !! a; solo (k v) m
  | Write a v k => _ ← m !! a; solo k (<[a := v]> m)
  end.

Lemma solo_leave order r m : solo (leave order (Ret r)) m = Some (m, r).
Proof. unfold leave. by destruct (order_releases order). Qed.

Lemma solo_read a low high (k : halves -> prog result) m : m !! a = Some low -> m !! (a + 8) = Some high ->
  solo (read_halves a k) m = solo (k (low, high)) m.
Proof. intros H1 H2. cbn. rewrite H1. cbn. by rewrite H2. Qed.

Lemma solo_write a v (k : prog result) m : has_value m a -> solo (write_halves a v k) m = solo k (<[a + 8 := v.2]> (<[a := v.1]> m)).
Proof.
  intros [[x Hx] [y Hy]]. cbn. rewrite Hx. cbn. rewrite lookup_insert_ne by lia. by rewrite Hy.
Qed.

(** Every operation is one critical section, which does what the operation is
    to do. *)
Lemma code_alone op : exists k, code_of op = Lock k /\
  forall m, memory_ok m -> operation_ok m op ->
    exists r, solo k m = Some ((seq_step op m).1, r) /\ answer_of r = (seq_step op m).2.
Proof.
  assert (forall order (k : prog result) m, solo (if order_acquires order then atomic_barrier k else k) m = solo k m) as Hent
    by (intros order k m; by destruct (order_acquires order)).
  destruct op as [a o|a v o|a v o|a e d o o2|k a v o]; eexists; split; try reflexivity; intros m Hm [[[low H1] [high H2]] Hops];
    pose proof (value_at_halves m a low high H1 H2) as Hval; unfold seq_step; cbn [address_of]; rewrite Hval, Hent;
    assert (halves_ok (low, high)) as Hlh by (split; cbn; [by apply (Hm a)|by apply (Hm (a + 8))]);
    assert (has_value m a) as Hhas by (split; eauto); cbn [operands] in Hops.
  - cbn [atomic_spec fst snd]. rewrite (solo_read a low high) by done. rewrite solo_leave.
    rewrite set_value_same by done. eauto.
  - apply Forall_cons in Hops as [Hops _]. cbn [atomic_spec fst snd]. rewrite solo_write, solo_leave by done.
    rewrite set_value_halves by done. eauto.
  - apply Forall_cons in Hops as [Hops _]. cbn [atomic_spec fst snd]. rewrite (solo_read a low high) by done.
    rewrite solo_write, solo_leave by done. rewrite set_value_halves by done. eauto.
  - apply Forall_cons in Hops as [He [Hd _]%Forall_cons]. cbn [atomic_spec]. rewrite (solo_read a low high) by done. cbn beta.
    case_bool_decide as Hne; [subst e|].
    + rewrite Z.eqb_refl. cbn [fst snd]. rewrite solo_write, solo_leave by done. rewrite set_value_halves by done. eauto.
    + destruct (Z.eqb_spec (value (low, high)) (value e)) as [Heq|_]; [by apply value_inj in Heq|]. cbn [fst snd].
      rewrite (solo_read a low high), solo_leave, set_value_same by done. eauto.
  - apply Forall_cons in Hops as [Hops _]. cbn [atomic_spec fst snd]. rewrite (solo_read a low high) by done.
    destruct (rmw_exact k (low, high) v Hlh Hops) as [Hok Hv]. rewrite <- Hv.
    rewrite solo_write, solo_leave by done. rewrite set_value_halves by done. eauto.
Qed.

Lemma seq_step_ok op m : memory_ok m -> operation_ok m op ->
  memory_ok (seq_step op m).1 /\ dom (seq_step op m).1 = dom m.
Proof.
  intros Hm [[[low H1] [high H2]] Hops]. unfold seq_step.
  assert (halves_ok (low, high)) as Hlh by (split; cbn; [by apply (Hm (address_of op))|by apply (Hm (address_of op + 8))]).
  rewrite (value_at_halves m _ low high H1 H2). destruct (atomic_spec op (value (low, high))) as [x r] eqn:Hs. cbn [fst].
  assert (exists v, halves_ok v /\ x = value v) as (v & Hv & ->).
  { destruct op as [a o|a v o|a v o|a e d o o2|k a v o]; cbn in Hs, Hops.
    - injection Hs as <- _. eauto.
    - injection Hs as <- _. apply Forall_cons in Hops as [Hops _]. eauto.
    - injection Hs as <- _. apply Forall_cons in Hops as [Hops _]. eauto.
    - apply Forall_cons in Hops as [He [Hd _]%Forall_cons]. destruct (_ =? _); injection Hs as <- _; eauto.
    - injection Hs as <- _. apply Forall_cons in Hops as [Hops _]. exists (rmw_body k (low, high) v).
      destruct (rmw_exact k (low, high) v Hlh Hops). split; [done|]. by symmetry. }
  rewrite set_value_halves by done. split.
  - destruct Hv. apply map_Forall_insert_2; [done|]. by apply map_Forall_insert_2.
  - rewrite !dom_insert_L. apply elem_of_dom_2 in H1, H2. set_solver.
Qed.

Lemma operation_ok_dom m m' op : dom m' = dom m -> operation_ok m op -> operation_ok m' op.
Proof.
  intros Hd [[H1 H2] Hops]. split; [|done]. unfold has_value. rewrite <- !elem_of_dom, Hd. rewrite !elem_of_dom. done.
Qed.

(** A scheduled run is a run. *)
Lemma run_thread_step i t c c' : pool c !! i = Some t -> run_thread i t c = Some c' -> step c c'.
Proof.
  intros Hi. unfold run_thread.
  destruct (now t) as [[op p]|] eqn:Hn; [|destruct (todo t) as [|op rest] eqn:Ht; [done|]; intros [= <-]; by apply step_call].
  destruct p as [r|k|k|k|a k|a v k]; [intros [= <-]; by apply (step_answer _ i t)|..];
    destruct (code_step _ _ _ _) as [[[g b] p']|] eqn:Hs; intros [= <-];
    match type of Hn with _ = Some (_, ?p) => by apply (step_code c i t op p g b p') end.
Qed.

Lemma advance_step n c c' : advance n c = Some c' -> step c c'.
Proof.
  destruct n as [i|i]; cbn; (destruct (pool c !! i) as [t|] eqn:Hi; [|done]); cbn; [by apply run_thread_step|].
  destruct (stores t) as [|st rest] eqn:Hs; [done|]. intros [= <-]. by apply step_retire.
Qed.

Lemma schedule_steps l : forall c c', schedule l c = Some c' -> steps c c'.
Proof.
  induction l as [|i l IH]; intros c c' H; cbn in H; [by injection H as ->; apply rtc_refl|].
  destruct (advance i c) as [c1|] eqn:Ha; [|done]. apply rtc_l with c1; [by apply (advance_step i)|by apply IH].
Qed.
