(* ===== verification/AtomicSafe.v ===== *)
(** Threads that run 128-bit atomics: the lock lets one in at a time, and what
    they do is what one thread running whole operations would do. *)
From S2P Require Import Prelude Atomic AtomicSpec.

Section safe.
Context (m0 : gmap Z Z) (calls : list (list operation)).
Context (Hm0 : memory_ok m0) (Hcalls : Forall (Forall (operation_ok m0)) calls).
Implicit Types (c : config) (t : thread) (lg : list (nat * operation * result)).

Definition ops_of lg : list operation := (fun e => e.1.2) <$> lg.
Definition answers_of lg : list answer := (fun e => answer_of e.2) <$> lg.
Definition of_thread (i : nat) lg : list (operation * result) :=
  omap (fun e => if decide (e.1.1 = i) then Some (e.1.2, e.2) else None) lg.

(** The memory after the operations of the log. *)
Definition after lg : gmap Z Z := (seq_run (ops_of lg) m0).1.

(** A call whose lock was released but whose answer is not yet delivered. *)
Definition pending t : list (operation * result) :=
  match now t with Some (op, Ret r) => [(op, r)] | _ => [] end.
Definition current t : list operation := match now t with Some (op, _) => [op] | None => [] end.

(** Outside the critical section: between calls, at the lock, or past it. *)
Definition outside_section t : Prop :=
  match now t with None => True | Some (op, p) => p = code_of op \/ exists r, p = Ret r end.
(** With nothing left to reach memory either. *)
Definition idle t : Prop := outside_section t /\ stores t = [].
Definition others_idle c (i : nat) : Prop := forall j t, j <> i -> pool c !! j = Some t -> idle t.

Definition is_word (st : store) : Prop := match st with StoreWord _ _ => True | StoreGate => False end.

Definition thread_ok lg (i : nat) t : Prop :=
  calls !! i = Some ((answers t).*1 ++ current t ++ todo t) /\ of_thread i lg = answers t ++ pending t.

(** Nobody has the lock, and memory is what the log made it. *)
Definition lock_free c lg : Prop :=
  gate c = 0 /\ words c = after lg /\ forall j t, pool c !! j = Some t -> idle t.

(** Thread [i] is in its critical section, and what is left of it, run over
    memory as this thread sees it, finishes the operation it is in. *)
Definition holds_lock c lg (i : nat) : Prop :=
  gate c = 1 /\ others_idle c i /\ exists t op p r, pool c !! i = Some t /\ now t = Some (op, p) /\
    Forall is_word (stores t) /\ solo p (view (words c) (stores t)) = Some ((seq_step op (after lg)).1, r) /\
    answer_of r = (seq_step op (after lg)).2.

(** Thread [i] has let go, but its last store, which opens the gate, waits
    behind the others in its buffer. *)
Definition lets_go c lg (i : nat) : Prop :=
  gate c = 1 /\ others_idle c i /\ exists t ws, pool c !! i = Some t /\ outside_section t /\
    stores t = ws ++ [StoreGate] /\ Forall is_word ws /\ view (words c) ws = after lg.

Definition phase c lg : Prop := lock_free c lg \/ exists i, holds_lock c lg i \/ lets_go c lg i.

Record safe c : Prop := {
  safe_threads i t : pool c !! i = Some t -> thread_ok (log c) i t;
  safe_answers : (seq_run (ops_of (log c)) m0).2 = answers_of (log c);
  safe_memory : memory_ok (after (log c)) /\ dom (after (log c)) = dom m0;
  safe_phase : phase c (log c);
}.

Lemma call_ok_of i lg t op : thread_ok lg i t -> op ∈ current t ++ todo t -> operation_ok m0 op.
Proof.
  intros [Hc _] Hin. rewrite Forall_forall in Hcalls.
  pose proof (Hcalls _ (list_elem_of_lookup_2 _ _ _ Hc)) as H. rewrite Forall_forall in H. apply H, elem_of_app. by right.
Qed.

Lemma code_of_lock op : exists k, code_of op = Lock k.
Proof. destruct (code_alone op) as (k & Hk & _). eauto. Qed.

Lemma pending_lock t op : now t = Some (op, code_of op) -> pending t = [].
Proof. intros Hn. unfold pending. rewrite Hn. by destruct (code_of_lock op) as [k ->]. Qed.

(** ** One thread changes *)

Lemma threads_update c lg i t t' :
  (forall j u, pool c !! j = Some u -> thread_ok lg j u) -> pool c !! i = Some t -> thread_ok lg i t' ->
  forall j u, <[i := t']> (pool c) !! j = Some u -> thread_ok lg j u.
Proof.
  intros Hall Hi Ht j u [(<- & -> & _)|[Hne Hj]]%list_lookup_insert_Some; [done|by apply Hall].
Qed.

Lemma others_update c i t' g m lg : others_idle c i -> others_idle (Config g m (<[i := t']> (pool c)) lg) i.
Proof. intros Ho j u Hne. cbn [pool]. rewrite list_lookup_insert_ne by done. by apply Ho. Qed.

Lemma others_idle_update c i j t' g m lg : others_idle c j -> idle t' -> others_idle (Config g m (<[i := t']> (pool c)) lg) j.
Proof.
  intros Ho Ht k u Hne [(<- & -> & _)|[_ Hk]]%list_lookup_insert_Some; [done|by apply (Ho k)].
Qed.

Lemma pool_updated c i t t' : pool c !! i = Some t -> <[i := t']> (pool c) !! i = Some t'.
Proof. intros H. apply list_lookup_insert_eq. by apply lookup_lt_Some in H. Qed.

Lemma pool_kept c i j (t t' : thread) : j <> i -> pool c !! j = Some t -> <[i := t']> (pool c) !! j = Some t.
Proof. intros Hne H. by rewrite list_lookup_insert_ne. Qed.

Lemma holder_not_outside c lg i t : holds_lock c lg i -> pool c !! i = Some t -> ~ outside_section t.
Proof.
  intros (_ & _ & t' & op & p & r & Hi & Hn & _ & Hs & _) Ht Hout. rewrite Hi in Ht. injection Ht as <-.
  unfold outside_section in Hout. rewrite Hn in Hout. destruct (code_of_lock op) as [k Hk].
  destruct Hout as [->|[r' ->]]; [by rewrite Hk in Hs|done].
Qed.

(** Memory as the threads last saw it: what the log made of it. *)
Lemma view_snoc m ss st : view m (ss ++ [st]) = write_back st (view m ss).
Proof. unfold view. by rewrite foldl_app. Qed.

(** A step that leaves the lock, memory and the buffer, and a thread outside. *)
Lemma phase_update c i t t' lg :
  phase c lg -> pool c !! i = Some t -> outside_section t -> outside_section t' -> stores t' = stores t ->
  phase (set_thread i t' c) lg.
Proof.
  intros Hph Hi Hti Ht' Hst. assert (idle t -> idle t') as Hidle by (unfold idle; rewrite Hst; tauto).
  destruct Hph as [(Hg & Hw & Hout)|(j & [Hh|Hl])].
  - left. split_and!; [done|done|]. intros k u [(<- & -> & _)|[_ Hk]]%list_lookup_insert_Some; [by apply Hidle, (Hout i)|by apply (Hout k)].
  - assert (j <> i) as Hne by (intros ->; by apply (holder_not_outside c lg i t)).
    destruct Hh as (Hg & Ho & tj & op & p & r & Hj & Hrest). right. exists j. left. split; [done|].
    split; [by apply others_idle_update, Hidle, (Ho i)|]. exists tj, op, p, r. split; [by apply pool_kept|done].
  - destruct Hl as (Hg & Ho & tj & ws & Hj & Hout & Hs & Hrest). right. exists j. right. split; [done|].
    destruct (decide (j = i)) as [->|Hne].
    + rewrite Hi in Hj. injection Hj as <-. split; [by apply others_update|]. exists t', ws.
      split_and!; [by eapply pool_updated|done|by rewrite Hst|apply Hrest|apply Hrest].
    + split; [by apply others_idle_update, Hidle, (Ho i)|]. exists tj, ws. split; [by apply pool_kept|done].
Qed.

Lemma safe_call c i t op rest : safe c -> pool c !! i = Some t -> now t = None -> todo t = op :: rest ->
  safe (set_thread i (Thread rest (Some (op, code_of op)) (answers t) (stores t)) c).
Proof.
  intros [Hth Han Hmem Hph] Hi Hn Ht. split; cbn [pool log set_thread]; [|done|done|].
  - apply (threads_update c _ i t); [done|done|]. destruct (Hth i t Hi) as [H1 H2]. split.
    + unfold current in H1. rewrite Hn, Ht in H1. exact H1.
    + rewrite H2. unfold pending at 1. rewrite Hn, (pending_lock _ op); done.
  - apply (phase_update c i t); [done|done| |by left|done]. unfold outside_section. by rewrite Hn.
Qed.

Lemma safe_answer c i t op r : safe c -> pool c !! i = Some t -> now t = Some (op, Ret r) ->
  safe (set_thread i (Thread (todo t) None (answers t ++ [(op, r)]) (stores t)) c).
Proof.
  intros [Hth Han Hmem Hph] Hi Hn. split; cbn [pool log set_thread]; [|done|done|].
  - apply (threads_update c _ i t); [done|done|]. destruct (Hth i t Hi) as [H1 H2]. split; cbn [answers todo].
    + unfold current in *. cbn [now]. rewrite Hn in H1. by rewrite fmap_app, <- app_assoc.
    + rewrite H2. unfold pending. rewrite Hn. by rewrite app_nil_r.
  - apply (phase_update c i t); [done|done| |done|done]. unfold outside_section. rewrite Hn. by right; eauto.
Qed.

Lemma released_none i op p : (forall r, p <> Release (Ret r)) -> released i op p = [].
Proof. destruct p as [r|k|k|k|a k|a v k]; try done. destruct k; try done. intros H. by destruct (H a). Qed.

(** A step inside the critical section, up to the release. *)
Lemma section_step g m ss p g' ss' p' fin : code_step g m ss p = Some (g', ss', p') -> Forall is_word ss -> solo p (view m ss) = Some fin ->
  g' = g /\
  ((exists r, p = Release (Ret r) /\ ss' = ss ++ [StoreGate] /\ p' = Ret r /\ fin = (view m ss, r)) \/
   ((forall r, p <> Release (Ret r)) /\ Forall is_word ss' /\ solo p' (view m ss') = Some fin)).
Proof.
  intros Hs Hw Hsolo. destruct p as [r|k|k|k|a k|a v k]; cbn in *; try done.
  - destruct k as [r|k|k|k|a k|a v k]; try done. injection Hs as <- <- <-. injection Hsolo as <-. split; [done|]. left. eauto 10.
  - destruct ss; [|done]. injection Hs as <- <- <-. split; [done|]. by right.
  - destruct (view m ss !! a); [|done]. injection Hs as <- <- <-. split; [done|]. by right.
  - destruct (view m ss !! a); [|done]. injection Hs as <- <- <-. split; [done|]. right.
    split_and!; [done|apply Forall_app; by split; [|constructor]|]. by rewrite view_snoc.
Qed.

Lemma thread_moved lg i t op p p' ss : thread_ok lg i t -> now t = Some (op, p) -> (forall r, p <> Ret r) -> (forall r, p' <> Ret r) ->
  thread_ok lg i (Thread (todo t) (Some (op, p')) (answers t) ss).
Proof.
  intros [H1 H2] Hn Hp Hp'. split.
  - unfold current in *. rewrite Hn in H1. exact H1.
  - rewrite H2. unfold pending. cbn [now]. rewrite Hn. destruct p; try (by destruct (Hp a)); by destruct p'; try (by destruct (Hp' a)).
Qed.

(** Taking the lock. *)
Lemma safe_acquire c i t op k : safe c -> pool c !! i = Some t -> now t = Some (op, code_of op) -> code_of op = Lock k -> gate c = 0 ->
  safe (Config 1 (words c) (<[i := Thread (todo t) (Some (op, k)) (answers t) []]> (pool c)) (log c)).
Proof.
  intros [Hth Han Hmem Hph] Hi Hn Hk Hg. destruct Hph as [(_ & Hw & Hout)|(j & [(Hg1 & _)|(Hg1 & _)])]; [|lia|lia].
  assert (operation_ok (after (log c)) op) as Hop.
  { apply (operation_ok_dom m0); [apply Hmem|]. apply (call_ok_of i (log c) t); [by apply Hth|]. unfold current. rewrite Hn. by left. }
  destruct (code_alone op) as (k' & Hk' & Hrun). rewrite Hk in Hk'. injection Hk' as <-.
  destruct (Hrun _ (proj1 Hmem) Hop) as (r & Hs & Ha). split; cbn [pool log]; [|done|done|].
  - apply (threads_update c _ i t); [done|done|]. apply (thread_moved _ _ _ op (code_of op)); [by apply Hth|done|by rewrite Hk|].
    intros r' ->. done.
  - right. exists i. left. split; [done|]. split; [intros j u Hj; cbn [pool]; rewrite list_lookup_insert_ne by done; apply Hout|].
    exists (Thread (todo t) (Some (op, k)) (answers t) []), op, k, r. split_and!; [by eapply pool_updated|done|constructor| |exact Ha].
    cbn [words stores]. rewrite Hw. exact Hs.
Qed.

Lemma ops_of_snoc lg i op r : ops_of (lg ++ [(i, op, r)]) = ops_of lg ++ [op].
Proof. unfold ops_of. by rewrite fmap_app. Qed.

Lemma answers_of_snoc lg i op r : answers_of (lg ++ [(i, op, r)]) = answers_of lg ++ [answer_of r].
Proof. unfold answers_of. by rewrite fmap_app. Qed.

Lemma of_thread_snoc lg i j op r :
  of_thread j (lg ++ [(i, op, r)]) = of_thread j lg ++ (if decide (i = j) then [(op, r)] else []).
Proof. unfold of_thread. rewrite omap_app. cbn. by destruct (decide (i = j)). Qed.

Lemma after_snoc lg i op r : after (lg ++ [(i, op, r)]) = (seq_step op (after lg)).1.
Proof.
  unfold after. rewrite ops_of_snoc, seq_run_snoc. destruct (seq_run (ops_of lg) m0) as [m rs]. cbn. by destruct (seq_step op m).
Qed.

(** Letting go of the lock: the operation takes its place in the log. *)
Lemma safe_release c i t op r : safe c -> holds_lock c (log c) i -> pool c !! i = Some t -> now t = Some (op, Release (Ret r)) ->
  safe (Config (gate c) (words c) (<[i := Thread (todo t) (Some (op, Ret r)) (answers t) (stores t ++ [StoreGate])]> (pool c))
    (log c ++ [(i, op, r)])).
Proof.
  intros [Hth Han Hmem _] (Hg & Ho & t' & op' & p & r' & Hi' & Hn' & Hwd & Hs & Ha) Hi Hn.
  rewrite Hi in Hi'. injection Hi' as <-. rewrite Hn in Hn'. injection Hn' as <- <-. cbn in Hs. injection Hs as Hw <-.
  pose proof (Hth i t Hi) as Hti.
  assert (operation_ok (after (log c)) op) as Hop.
  { apply (operation_ok_dom m0); [apply Hmem|]. apply (call_ok_of i (log c) t); [done|]. unfold current. rewrite Hn. by left. }
  destruct (seq_step_ok op (after (log c)) (proj1 Hmem) Hop) as [Hok Hdom]. split; cbn [pool log].
  - intros j u Hj. apply list_lookup_insert_Some in Hj as [(<- & <- & _)|[Hne Hj]].
    + destruct Hti as [H1 H2]. split.
      * unfold current in *. rewrite Hn in H1. exact H1.
      * rewrite of_thread_snoc, decide_True, H2 by done. unfold pending. rewrite Hn. cbn. by rewrite app_nil_r.
    + destruct (Hth j u Hj) as [H1 H2]. split; [done|]. by rewrite of_thread_snoc, decide_False, app_nil_r.
  - rewrite ops_of_snoc, answers_of_snoc, seq_run_snoc. unfold after in Ha. destruct (seq_run (ops_of (log c)) m0) as [m rs].
    cbn [fst snd] in *. rewrite Ha. destruct (seq_step op m) as [m' a]. cbn. by rewrite Han.
  - rewrite after_snoc. split; [done|]. rewrite Hdom. apply Hmem.
  - right. exists i. right. split; [done|]. split; [by apply others_update|]. eexists _, (stores t).
    split_and!; [by eapply pool_updated|by right; eauto|done|done|]. by rewrite after_snoc.
Qed.

(** A step of the holder. *)
Lemma safe_inside c i t op p g b p' : safe c -> holds_lock c (log c) i -> pool c !! i = Some t -> now t = Some (op, p) ->
  code_step (gate c) (words c) (stores t) p = Some (g, b, p') ->
  safe (Config g (words c) (<[i := Thread (todo t) (Some (op, p')) (answers t) b]> (pool c)) (log c ++ released i op p)).
Proof.
  intros Hsafe Hh Hi Hn Hstep. pose proof Hsafe as [Hth Han Hmem _].
  pose proof Hh as (Hg & Ho & t' & op' & q & r & Hi' & Hn' & Hwd & Hs & Ha).
  rewrite Hi in Hi'. injection Hi' as <-. rewrite Hn in Hn'. injection Hn' as <- <-.
  destruct (section_step _ _ _ _ _ _ _ _ Hstep Hwd Hs) as [-> [(r' & -> & -> & -> & He)|(Hnr & Hwd' & Hs')]].
  - by apply (safe_release c i t op r').
  - rewrite released_none, app_nil_r by done. split; cbn [pool log]; [|done|done|].
    + apply (threads_update c _ i t); [done|done|]. apply (thread_moved _ _ _ op p); [by apply Hth|done| |].
      * intros q Hq. by rewrite Hq in Hs.
      * intros q Hq. by rewrite Hq in Hs'.
    + right. exists i. left. split; [done|]. split; [by apply others_update|].
      exists (Thread (todo t) (Some (op, p')) (answers t) b), op, p', r. split_and!; [by eapply pool_updated|done..].
Qed.

(** A thread whose call is outside its section only spins, or enters. *)
Lemma safe_outside c i t op p g b p' : safe c -> pool c !! i = Some t -> now t = Some (op, p) -> outside_section t ->
  code_step (gate c) (words c) (stores t) p = Some (g, b, p') ->
  safe (Config g (words c) (<[i := Thread (todo t) (Some (op, p')) (answers t) b]> (pool c)) (log c ++ released i op p)).
Proof.
  intros Hsafe Hi Hn Hout Hstep. unfold outside_section in Hout. rewrite Hn in Hout. destruct Hout as [->|[r ->]]; [|done].
  destruct (code_of_lock op) as [k Hk]. pose proof Hn as Hn0. rewrite Hk in *. cbn [released]. rewrite app_nil_r. cbn [code_step] in Hstep.
  destruct (stores t) as [|st rest] eqn:Hst; [|done]. injection Hstep as <- <- <-. destruct (Z.eqb_spec (gate c) 0) as [Hg|Hg].
  - apply (safe_acquire c i t op k); [done|done|by rewrite Hk|done|done].
  - destruct Hsafe as [Hth Han Hmem Hph].
    assert (gate c = 1) as Hg1 by (destruct Hph as [(? & _)|(j & [(? & _)|(? & _)])]; done).
    assert (Thread (todo t) (Some (op, Lock k)) (answers t) [] = t) as -> by (destruct t; cbn in *; congruence).
    rewrite list_insert_id by done. destruct c as [g0 w l lg]. cbn in Hg1. subst g0. by split.
Qed.

(** A store reaches memory. *)
Lemma safe_retire c i t st rest : safe c -> pool c !! i = Some t -> stores t = st :: rest -> safe (retire i t st rest c).
Proof.
  intros [Hth Han Hmem Hph] Hi Hst. split; cbn [pool log retire]; [|done|done|].
  { apply (threads_update c _ i t); [done|done|]. exact (Hth i t Hi). }
  destruct Hph as [(_ & _ & Hout)|(j & Hj)]; [by rewrite (proj2 (Hout i t Hi)) in Hst|].
  assert (others_idle c j) as Ho by (by destruct Hj as [(_ & Ho & _)|(_ & Ho & _)]).
  destruct (decide (i = j)) as [<-|Hne]; [|by rewrite (proj2 (Ho i t Hne Hi)) in Hst].
  destruct Hj as [(Hg & _ & t' & op & p & r & Hi' & Hn & Hwd & Hs & Ha)|(Hg & _ & t' & ws & Hi' & Hout & Hss & Hwd & Hv)];
    rewrite Hi in Hi'; injection Hi' as <-.
  - rewrite Hst in Hwd, Hs. apply Forall_cons in Hwd as [Hst1 Hwd]. right. exists i. left.
    destruct st as [a v|]; [|done]. split; [done|]. split; [by apply others_update|].
    exists (Thread (todo t) (now t) (answers t) rest), op, p, r. by split_and!; [eapply pool_updated|..].
  - rewrite Hst in Hss. destruct ws as [|w ws]; cbn in Hss; injection Hss as -> ->.
    + left. split_and!; [done|exact Hv|]. intros k u [(<- & <- & _)|[Hne Hk]]%list_lookup_insert_Some; [done|by apply (Ho k)].
    + apply Forall_cons in Hwd as [Hw1 Hwd]. right. exists i. right. destruct w as [a v|]; [|done]. split; [done|].
      split; [by apply others_update|]. exists (Thread (todo t) (now t) (answers t) (ws ++ [StoreGate])), ws.
      by split_and!; [eapply pool_updated|..].
Qed.

Lemma safe_step c c' : step c c' -> safe c -> safe c'.
Proof.
  intros [c1 i t op rest Hi Hn Ht|c1 i t op p g b p' Hi Hn Hstep|c1 i t op r Hi Hn|c1 i t st rest Hi Hst] Hs.
  - by apply (safe_call c1 i t op rest).
  - destruct (safe_phase c1 Hs) as [(_ & _ & Hout)|(j & Hj)]; [apply (safe_outside c1 i t); try done; by apply (Hout i)|].
    destruct (decide (i = j)) as [->|Hne].
    + destruct Hj as [Hh|(_ & _ & t' & ws & Hj & Hout & _)]; [by apply (safe_inside c1 j t)|].
      rewrite Hi in Hj. injection Hj as <-. by apply (safe_outside c1 j t).
    + apply (safe_outside c1 i t); try done. destruct Hj as [(_ & Ho & _)|(_ & Ho & _)]; by apply (Ho i).
  - by apply (safe_answer c1 i t).
  - by apply safe_retire.
Qed.

Lemma safe_start : safe (start m0 calls).
Proof.
  assert (forall i t, pool (start m0 calls) !! i = Some t -> exists ops, calls !! i = Some ops /\ t = Thread ops None [] []) as Hp.
  { intros i t H. cbn in H. apply list_lookup_fmap_Some in H as (ops & -> & H). eauto. }
  split.
  - intros i t (ops & Hc & ->)%Hp. by split.
  - done.
  - done.
  - left. split_and!; [done|done|]. by intros i t (ops & Hc & ->)%Hp.
Qed.

Lemma reachable_safe c : reachable m0 calls c -> safe c.
Proof.
  unfold reachable, steps. pose proof safe_start as Hs. revert Hs. generalize (start m0 calls).
  intros c1 Hs H. induction H as [c1|c1 c2 c3 H1 H IH]; [done|]. apply IH. by apply (safe_step c1).
Qed.
End safe.

(** The log only grows: a call that has its answer comes before any call made
    after it. *)
Lemma steps_log c c' : steps c c' -> log c `prefix_of` log c'.
Proof.
  induction 1 as [c|c1 c2 c3 H _ IH]; [done|]. etrans; [|exact IH]. destruct H; cbn; (done || by apply prefix_app_r).
Qed.
