(* ===== verification/AtomicLive.v ===== *)
(** Threads that run 128-bit atomics are never stuck: buffered stores can reach
    memory and the thread in the critical section can leave it, so from any
    state some steps finish every call. *)
From S2P Require Import Prelude Atomic AtomicSpec AtomicSafe.

(** * What is left to do *)

Definition weight (t : thread) : nat :=
  3 * length (todo t) + match now t with None => 0 | Some (_, Ret _) => 1 | Some _ => 2 end.
#[local] Arguments weight : simpl never.
Definition weights (l : list thread) : nat := sum_list (weight <$> l).

#[local] Arguments weights : simpl never.

Lemma weights_cons t l : weights (t :: l) = (weight t + weights l)%nat.
Proof. reflexivity. Qed.

Lemma weights_insert l i t t' : l !! i = Some t -> (weights (<[i := t']> l) + weight t = weights l + weight t')%nat.
Proof.
  revert i. induction l as [|u l IH]; intros [|i] Hi; try done.
  - injection Hi as ->. cbn. rewrite !weights_cons. lia.
  - specialize (IH i Hi). change (<[S i := t']> (u :: l)) with (u :: <[i := t']> l). rewrite !weights_cons. lia.
Qed.

Lemma weights_zero l : weights l = 0%nat -> Forall (fun t => todo t = [] /\ now t = None) l.
Proof.
  induction l as [|t l IH]; [constructor|]. rewrite weights_cons. intros H. constructor; [|apply IH; lia].
  assert (weight t = 0%nat) as Ht by lia. clear H. unfold weight in Ht.
  destruct t as [[|op ops] [[op' []]|] answers ss]; cbn in Ht; (done || lia).
Qed.

Lemma weights_positive l : (0 < weights l)%nat -> exists i t, l !! i = Some t /\ (0 < weight t)%nat.
Proof.
  induction l as [|t l IH]; [by intros ?%Nat.lt_irrefl|]. rewrite weights_cons. intros H.
  destruct (decide (0 < weight t)%nat); [by exists 0%nat, t|].
  destruct IH as (i & u & Hi & Hu); [lia|]. by exists (S i), u.
Qed.

Lemma step_length c c' : step c c' -> length (pool c') = length (pool c).
Proof. intros []; cbn; by rewrite length_insert. Qed.

Lemma steps_length c c' : steps c c' -> length (pool c') = length (pool c).
Proof. induction 1 as [|c1 c2 c3 H _ IH]; [done|]. rewrite IH. by apply step_length. Qed.

(** A critical section that finishes alone is never stuck, and shrinks. *)
Fixpoint section_left (p : prog result) (m : gmap Z Z) : nat :=
  match p with
  | Ret _ | Lock _ | Release _ => 0
  | Barrier k => S (section_left k m)
  | Read a k => S (match m !! a with Some v => section_left (k v) m | None => 0 end)
  | Write a v k => S (section_left k (<[a := v]> m))
  end.

Lemma section_moves g m p fin : solo p m = Some fin -> (forall r, p <> Release (Ret r)) ->
  exists ss p', code_step g m [] p = Some (g, ss, p') /\ Forall is_word ss /\ solo p' (view m ss) = Some fin /\
    (section_left p' (view m ss) < section_left p m)%nat.
Proof.
  destruct p as [r|k|k|k|a k|a v k]; cbn; try done; intros H Hr.
  - destruct k as [r| | | | |]; try done. by destruct (Hr r).
  - do 2 eexists. split_and!; [done|constructor|done|cbn; lia].
  - destruct (m !! a) as [v|]; [|done]. do 2 eexists. split_and!; [done|constructor|done|cbn; lia].
  - destruct (m !! a) as [w|]; [|done]. do 2 eexists. split_and!; [done|by repeat constructor|done|cbn; lia].
Qed.

Lemma release_or_not (p : prog result) : (exists r, p = Release (Ret r)) \/ forall r, p <> Release (Ret r).
Proof. destruct p as [r|k|k|k|a k|a v k]; try by right. destruct k as [r| | | | |]; (by right) || (left; by exists r). Qed.

Lemma weight_inside t op p ss : (forall r, p <> Ret r) -> weight (Thread (todo t) (Some (op, p)) (answers t) ss) = (3 * length (todo t) + 2)%nat.
Proof. intros Hr. unfold weight. cbn [todo now]. destruct p; try done. by destruct (Hr a). Qed.

Lemma weight_now t op p : now t = Some (op, p) -> (forall r, p <> Ret r) -> weight t = (3 * length (todo t) + 2)%nat.
Proof. intros Hn Hr. rewrite <- (weight_inside t op p (stores t) Hr). unfold weight. cbn [todo now]. by rewrite Hn. Qed.

(** [t] with an empty buffer. *)
Definition retired (t : thread) : thread := Thread (todo t) (now t) (answers t) [].

(** A buffer can empty. *)
Lemma retire_all i t c : pool c !! i = Some t ->
  exists c', steps c c' /\ pool c' = <[i := retired t]> (pool c) /\ words c' = view (words c) (stores t) /\ log c' = log c /\
    (Forall is_word (stores t) -> gate c' = gate c) /\ (forall ws, stores t = ws ++ [StoreGate] -> gate c' = 0).
Proof.
  remember (stores t) as ss eqn:Hss. revert t c Hss. induction ss as [|st ss IH]; intros t c Hss Hi.
  { exists c. split; [done|]. split_and!; [|done|done|done|by intros [|]].
    unfold retired. rewrite Hss. rewrite list_insert_id; [done|]. by destruct t. }
  pose proof (step_retire c i t st ss Hi (eq_sym Hss)) as Hst.
  destruct (IH (Thread (todo t) (now t) (answers t) ss) (retire i t st ss c) eq_refl) as (c' & H1 & H2 & H3 & H4 & H5 & H6).
  { cbn. by eapply pool_updated. }
  exists c'. split; [by apply rtc_l with (1 := Hst)|]. split_and!.
  - rewrite H2. cbn [retire pool]. unfold retired at 1. cbn [todo now answers]. by rewrite list_insert_insert_eq.
  - by rewrite H3.
  - by rewrite H4.
  - intros [Hw Hws]%Forall_cons. rewrite H5 by done. by destruct st.
  - intros [|w ws] He; cbn in He; injection He as -> ->; [by rewrite H5|by eapply H6].
Qed.

Lemma weights_retired l i t : l !! i = Some t -> weights (<[i := retired t]> l) = weights l.
Proof. intros Hi. pose proof (weights_insert l i t (retired t) Hi) as H. change (weight (retired t)) with (weight t) in H. lia. Qed.

Section live.
Context (m0 : gmap Z Z) (calls : list (list operation)).
Context (Hm0 : memory_ok m0) (Hcalls : Forall (Forall (operation_ok m0)) calls).
Notation safe := (safe m0 calls).
Notation lock_free c := (lock_free m0 c (log c)).
Notation holds_lock c := (holds_lock m0 c (log c)).
Notation safe_step := (safe_step m0 calls Hcalls).

Lemma steps_safe c c' : steps c c' -> safe c -> safe c'.
Proof. induction 1 as [|c1 c2 c3 H _ IH]; [done|]. intros Hs. by apply IH, (safe_step c1). Qed.

Lemma free_of_gate c : safe c -> gate c = 0 -> lock_free c.
Proof. intros Hs Hg. destruct (safe_phase _ _ c Hs) as [H|(i & [(Hg1 & _)|(Hg1 & _)])]; [done|lia|lia]. Qed.

(** The thread in the section can run to the release, and the gate open. *)
Lemma drain n : forall c i t op p fin, (section_left p (view (words c) (stores t)) <= n)%nat -> safe c -> gate c = 1 ->
  pool c !! i = Some t -> now t = Some (op, p) -> Forall is_word (stores t) -> solo p (view (words c) (stores t)) = Some fin ->
  exists c', steps c c' /\ lock_free c' /\ (weights (pool c') < weights (pool c))%nat.
Proof.
  induction n as [n IH] using lt_wf_ind. intros c i t op p fin Hle Hs Hg Hi Hn Hwd Hsolo.
  destruct (retire_all i t c Hi) as (c1 & H1 & Hp1 & Hw1 & Hl1 & Hg1 & _). specialize (Hg1 Hwd).
  pose proof (steps_safe _ _ H1 Hs) as Hs1. rewrite <- Hw1 in Hsolo, Hle.
  assert (pool c1 !! i = Some (retired t)) as Hi1 by (rewrite Hp1; by eapply pool_updated).
  assert (weights (pool c1) = weights (pool c)) as Hwt by (rewrite Hp1; by apply weights_retired).
  assert (forall r, p <> Ret r) as Hret by (intros r ->; done).
  pose proof (weight_now (retired t) op p Hn Hret) as Hwn.
  destruct (release_or_not p) as [(r & ->)|Hr].
  - pose proof (step_code c1 i (retired t) op _ (gate c1) [StoreGate] (Ret r) Hi1 Hn eq_refl) as Hst.
    set (t2 := Thread _ _ _ [StoreGate]) in Hst. set (c2 := Config _ _ _ _) in Hst.
    destruct (retire_all i t2 c2) as (c3 & H3 & Hp3 & _ & _ & _ & Hg3); [by eapply pool_updated|].
    pose proof (steps_safe _ _ H3 (safe_step _ _ Hst Hs1)) as Hs3.
    exists c3. split; [etrans; [exact H1|]; by apply rtc_l with (1 := Hst)|].
    split; [by apply free_of_gate, (Hg3 [])|]. rewrite Hp3, weights_retired by (by eapply pool_updated).
    pose proof (weights_insert _ _ _ t2 Hi1) as Hw. unfold weight at 2 in Hw. cbn in Hw, Hwn. cbn [c2 pool]. lia.
  - destruct (section_moves (gate c1) _ _ _ Hsolo Hr) as (ss & p2 & Hstep & Hwd2 & Hsolo2 & Hleft).
    pose proof (step_code c1 i (retired t) op _ _ _ _ Hi1 Hn Hstep) as Hst.
    set (t2 := Thread _ _ _ ss) in Hst. set (c2 := Config _ _ _ _) in Hst.
    destruct (IH (section_left p2 (view (words c1) ss)) ltac:(lia) c2 i t2 op p2 fin (le_n (section_left p2 (view (words c1) ss)))
      (safe_step _ _ Hst Hs1) (eq_trans Hg1 Hg) (pool_updated c1 i _ t2 Hi1) eq_refl Hwd2 Hsolo2) as (c3 & H3 & Hf3 & Hwt3).
    exists c3. split; [etrans; [exact H1|]; by apply rtc_l with (1 := Hst)|]. split; [done|].
    assert (forall r, p2 <> Ret r) as Hret2 by (by intros r ->).
    pose proof (weights_insert _ _ _ t2 Hi1) as Hw. unfold t2 in Hw. rewrite weight_inside in Hw by done.
    unfold c2 in Hwt3. cbn [pool] in Hwt3. fold t2 in Hw. cbn [retired todo] in Hw, Hwn. lia.
Qed.

(** From the lock, a call can be carried through. *)
Lemma through_lock c i t op : safe c -> lock_free c -> pool c !! i = Some t -> now t = Some (op, code_of op) ->
  exists c', steps c c' /\ lock_free c' /\ (weights (pool c') < weights (pool c))%nat.
Proof.
  intros Hs Hf Hi Hn. pose proof Hf as (Hg & Hw & Hidle). destruct (Hidle i t Hi) as [_ Hss].
  destruct (code_alone op) as (k & Hk & Hrun). pose proof (step_code c i t op (Lock k) 1 [] k Hi) as Hst.
  rewrite Hn, Hk, Hss in Hst. cbn [code_step] in Hst. rewrite Hg in Hst. specialize (Hst eq_refl eq_refl).
  pose proof Hs as [Hth _ [Hmem Hd] _].
  assert (operation_ok (words c) op) as Hop.
  { rewrite Hw. apply (operation_ok_dom m0); [done|]. apply (call_ok_of m0 calls Hcalls i (log c) t); [by apply Hth|].
    unfold current. rewrite Hn. by left. }
  rewrite <- Hw in Hmem. destruct (Hrun (words c) Hmem Hop) as (r & Hsolo & _).
  set (t1 := Thread _ _ _ []) in Hst. set (c1 := Config 1 _ _ _) in Hst.
  destruct (drain (section_left k (words c)) c1 i t1 op k _ (le_n (section_left k (words c))) (safe_step _ _ Hst Hs) eq_refl
    (pool_updated c i t t1 Hi) eq_refl (List.Forall_nil _) Hsolo) as (c' & H1 & H2 & H3).
  exists c'. split; [by apply rtc_l with (1 := Hst)|]. split; [done|]. pose proof (weights_insert _ _ _ t1 Hi) as Hwt.
  unfold t1 in Hwt. rewrite weight_inside, (weight_now t op (Lock k)) in Hwt; [|by rewrite Hn, Hk|done|by intros r' ->].
  unfold c1 in H3. cbn [pool] in H3. fold t1 in Hwt. lia.
Qed.

(** When the lock is free, a thread with something left to do gets on. *)
Lemma gets_on c : safe c -> lock_free c -> (0 < weights (pool c))%nat ->
  exists c', steps c c' /\ lock_free c' /\ (weights (pool c') < weights (pool c))%nat.
Proof.
  intros Hs Hf Hpos. pose proof Hf as (Hg & _ & Hidle). destruct (weights_positive _ Hpos) as (i & t & Hi & Ht).
  destruct (Hidle i t Hi) as [Hout _]. unfold outside_section in Hout. destruct (now t) as [[op p]|] eqn:Hn.
  - destruct Hout as [->|[r ->]]; [by apply (through_lock c i t op)|].
    pose proof (step_answer c i t op r Hi Hn) as Hst. eexists. split; [by apply rtc_once|].
    split; [apply free_of_gate; [by apply (safe_step _ _ Hst)|done]|].
    pose proof (weights_insert _ _ _ (Thread (todo t) None (answers t ++ [(op, r)]) (stores t)) Hi) as Hw.
    unfold weight in Hw. cbn [todo now] in Hw. rewrite Hn in Hw. cbn [pool set_thread]. lia.
  - destruct (todo t) as [|op rest] eqn:Htodo; [unfold weight in Ht; rewrite Hn, Htodo in Ht; cbn in Ht; lia|].
    pose proof (step_call c i t op rest Hi Hn Htodo) as Hst. eexists. split; [by apply rtc_once|].
    split; [apply free_of_gate; [by apply (safe_step _ _ Hst)|done]|].
    pose proof (weights_insert _ _ _ (Thread rest (Some (op, code_of op)) (answers t) (stores t)) Hi) as Hw.
    destruct (code_of_lock op) as [k Hk]. unfold weight in Hw. cbn [todo now] in Hw. rewrite Hn, Htodo, Hk in Hw. cbn [length] in Hw.
    cbn [pool set_thread]. rewrite Hk. lia.
Qed.

Lemma finish n : forall c, (weights (pool c) <= n)%nat -> safe c -> lock_free c ->
  exists c', steps c c' /\ quiescent c' /\ lock_free c'.
Proof.
  induction n as [n IH] using lt_wf_ind. intros c Hle Hs Hf. destruct (decide (weights (pool c) = 0)%nat) as [H0|H0].
  { exists c. split; [done|]. split; [|done]. apply weights_zero in H0. apply Forall_forall. intros t Ht.
    rewrite Forall_forall in H0. destruct (H0 t Ht). apply list_elem_of_lookup in Ht as [i Hi]. split_and!; [done|done|]. by apply Hf in Hi as [_ ?]. }
  destruct (gets_on c Hs Hf ltac:(lia)) as (c1 & H1 & H2 & H3).
  destruct (IH (weights (pool c1)) ltac:(lia) c1 ltac:(done) ltac:(by eapply steps_safe) H2) as (c2 & H4 & H5).
  exists c2. split; [by etrans|done].
Qed.

Lemma can_finish c : safe c -> exists c', steps c c' /\ quiescent c' /\ lock_free c'.
Proof.
  intros Hs. assert (exists c1, steps c c1 /\ lock_free c1) as (c1 & H1 & H2).
  { destruct (safe_phase _ _ c Hs) as [Hf|(i & [Hh|Hl])]; [by exists c| |].
    - destruct Hh as (Hg & _ & t & op & p & r & Hi & Hn & Hwd & Hsolo & _).
      destruct (drain _ c i t op p _ (le_n _) Hs Hg Hi Hn Hwd Hsolo) as (c1 & H1 & H2 & _). by exists c1.
    - destruct Hl as (Hg & _ & t & ws & Hi & _ & Hss & _). destruct (retire_all i t c Hi) as (c1 & H1 & _ & _ & _ & _ & Hg1).
      exists c1. split; [done|]. apply free_of_gate; [by apply (steps_safe c)|by apply (Hg1 ws)]. }
  destruct (finish _ c1 (le_n _)) as (c2 & H3 & H4); [by apply (steps_safe c)|done|]. exists c2. split; [by etrans|done].
Qed.

(** At the end every thread has the answers to all its calls. *)
Lemma quiescent_answers c : safe c -> quiescent c -> length (pool c) = length calls -> (fun t => (answers t).*1) <$> pool c = calls.
Proof.
  intros [Hth _ _ _] Hq Hlen. apply (list_eq_same_length _ _ (length calls)); [done|by rewrite length_fmap|].
  intros i x y _ Hx Hy. apply list_lookup_fmap_Some in Hx as (t & -> & Ht). destruct (Hth i t Ht) as [Hc _].
  unfold quiescent in Hq. rewrite Forall_forall in Hq. destruct (Hq t) as (H1 & H2 & _); [by apply list_elem_of_lookup_2 in Ht|].
  unfold current in Hc. rewrite H1, H2, app_nil_r in Hc. congruence.
Qed.
End live.
