(* ===== verification/AtomicClaims.v ===== *)
(** What threads can rely on in the 128-bit atomics of [runtime/atomic.c]. *)
From S2P Require Import Prelude Utf8 Atomic AtomicSpec AtomicSafe AtomicLive.

(** C6: Linearizability. Let any number of threads make any calls of the 128-bit
    operations over a memory, their steps interleaved in any way and their stores
    buffered by their processors for as long as those like. In every state
    reached, the calls in the order they let go of the lock are a run of whole
    operations, one at a time, that gives every call the answer it got; whenever
    the lock is free, memory is what that run leaves. The calls of one thread
    are in that run in the order the thread made them, with the answers it has,
    and a call answered at an earlier point of the run comes before every call
    made after that point: nothing is torn, lost, repeated or reordered. *)
Theorem atomic_linearizable m calls c :
  memory_ok m -> Forall (Forall (operation_ok m)) calls -> reachable m calls c ->
  exists m', seq_run (ops_of (log c)) m = (m', answers_of (log c)) /\ (gate c = 0 -> words c = m') /\
    (forall earlier, steps earlier c -> log earlier `prefix_of` log c) /\
    forall i t, pool c !! i = Some t ->
      calls !! i = Some ((answers t).*1 ++ current t ++ todo t) /\ of_thread i (log c) = answers t ++ pending t.
Proof.
  intros Hm Hcalls H. destruct (reachable_safe m calls Hm Hcalls c H) as [Hth Han _ Hph].
  exists (after m (log c)). split_and!; [|by destruct Hph as [(_ & Hw & _)|(i & [(Hg & _)|(Hg & _)])]; [|lia..]|intros earlier; apply steps_log|exact Hth].
  unfold after. rewrite <- Han. by destruct (seq_run _ m).
Qed.

(** Mutual exclusion. In every state reached, at most one thread is between
    taking the lock and letting it go, and then the gate is closed: a thread at
    the gate can only spin. *)
Theorem atomic_exclusive m calls c i j t u :
  memory_ok m -> Forall (Forall (operation_ok m)) calls -> reachable m calls c ->
  pool c !! i = Some t -> pool c !! j = Some u -> ~ outside_section t -> ~ outside_section u ->
  i = j /\ gate c = 1.
Proof.
  intros Hm Hcalls H Hi Hj Ht Hu.
  destruct (safe_phase _ _ c (reachable_safe m calls Hm Hcalls c H)) as [(_ & _ & Hout)|(k & Hk)]; [destruct Ht; by apply (Hout i)|].
  assert (gate c = 1 /\ others_idle c k) as [Hg Ho] by (destruct Hk as [(? & ? & _)|(? & ? & _)]; done).
  assert (forall n v, pool c !! n = Some v -> ~ outside_section v -> n = k) as Hone
    by (intros n v Hn Hv; destruct (decide (n = k)); [done|]; destruct Hv; by apply (Ho n)).
  split; [by rewrite (Hone i t), (Hone j u)|done].
Qed.

(** C23: The arithmetic written over two 64-bit halves is 128-bit arithmetic:
    [add] and [sub] carry and borrow into the high half and wrap at 2^128,
    [and], [or] and [xor] act on all 128 bits. Inside its critical section a
    read-modify-write leaves that value, whole, at its address, touches nothing
    else, and answers the value it found. *)
Theorem atomic_rmw_exact op m a low high v order :
  m !! a = Some low -> m !! (a + 8) = Some high -> halves_ok (low, high) -> halves_ok v ->
  exists section m', atomic128_rmw op a v order = Lock section /\ solo section m = Some (m', Result true (low, high)) /\
    value_at m' a = rmw_value op (value (low, high)) (value v) /\ is_value (value_at m' a) /\
    forall b, b <> a -> b <> a + 8 -> m' !! b = m !! b.
Proof.
  intros H1 H2 Hlh Hv. destruct (rmw_exact op (low, high) v Hlh Hv) as [Hok Hval].
  eexists _, (<[a + 8 := (rmw_body op (low, high) v).2]> (<[a := (rmw_body op (low, high) v).1]> m)).
  split; [reflexivity|]. assert (value_at (<[a + 8 := (rmw_body op (low, high) v).2]> (<[a := (rmw_body op (low, high) v).1]> m)) a = value (rmw_body op (low, high) v)) as Hat.
  { rewrite (value_at_halves _ a (rmw_body op (low, high) v).1 (rmw_body op (low, high) v).2); [by destruct (rmw_body op (low, high) v)| |].
    - rewrite lookup_insert_ne by lia. apply lookup_insert_eq.
    - apply lookup_insert_eq. }
  split_and!; [|by rewrite Hat|rewrite Hat; by apply value_range|].
  - assert (forall k : prog result, solo (if order_acquires order then atomic_barrier k else k) m = solo k m) as -> by (by destruct (order_acquires order)).
    rewrite (solo_read a low high) by done. rewrite solo_write, solo_leave by (split; eauto). done.
  - intros b Hb1 Hb2. by rewrite !lookup_insert_ne.
Qed.

(** C22: Progress. No state is a deadlock: from every state the threads can
    reach, some steps let every thread finish all its calls and every store reach
    memory; then each thread has exactly one answer to each call it made, in
    order, the gate is open, and memory is what those calls, run one at a time,
    leave. *)
Theorem atomic_progress m calls c :
  memory_ok m -> Forall (Forall (operation_ok m)) calls -> reachable m calls c ->
  exists c', steps c c' /\ quiescent c' /\ (fun t => (answers t).*1) <$> pool c' = calls /\
    gate c' = 0 /\ words c' = (seq_run (ops_of (log c')) m).1.
Proof.
  intros Hm Hcalls H. pose proof (reachable_safe m calls Hm Hcalls c H) as Hs.
  destruct (can_finish m calls Hcalls c Hs) as (c' & Hsteps & Hq & Hg & Hw & _). exists c'. split_and!; [done|done| |done|done].
  apply (quiescent_answers m); [by apply (steps_safe m calls Hcalls c)|done|].
  rewrite (steps_length c) by done. rewrite (steps_length _ c H). cbn. by rewrite length_fmap.
Qed.

(** * Witnesses *)

(** Two threads add to one value, and one of them reads it. *)
Definition two_threads : list (list operation) :=
  [[OpRmw Add 0 (1, 0) LOKE_RT_ORDER_SEQ_CST]; [OpRmw Add 0 (1, 0) LOKE_RT_ORDER_SEQ_CST; OpLoad 0 LOKE_RT_ORDER_ACQUIRE]].
Definition carry_memory : gmap Z Z := {[ 0 := UINT64_MAX; 8 := 0 ]}.
(** Thread 0 has the lock and its low word waits in its buffer, while thread 1
    spins. *)
Definition at_the_carry : list turn := [Run 0; Run 0; Run 1; Run 1; Run 0; Run 0; Run 1; Run 0; Run 0].
Definition to_the_end : list turn := at_the_carry ++
  [Run 0; Retire 0; Run 1; Retire 0; Run 0; Run 0; Run 1; Run 0; Retire 0] ++
  replicate 6 (Run 1) ++ [Retire 1; Retire 1; Run 1; Run 1; Retire 1; Run 1] ++
  replicate 6 (Run 1) ++ [Retire 1; Run 1].

Lemma carry_memory_ok : memory_ok carry_memory.
Proof. apply map_Forall_insert_2; [unfold is_u64, UINT64_MAX; cbn; lia|]. apply map_Forall_singleton. unfold is_u64, UINT64_MAX; cbn; lia. Qed.

Lemma two_threads_ok : Forall (Forall (operation_ok carry_memory)) two_threads.
Proof.
  assert (has_value carry_memory 0) as Hh by (split; eexists; vm_compute; reflexivity).
  assert (halves_ok (1, 0)) as Hv by (split; unfold is_u64, UINT64_MAX; cbn; lia). repeat constructor; cbn; try apply Hh; try apply Hv.
Qed.

(** The state a schedule reaches; thread states hold functions, so only what is
    asked of it is ever computed. *)
Definition scheduled (l : list turn) : config :=
  default (start ∅ []) (schedule l (start carry_memory two_threads)).

Lemma scheduled_reachable l :
  is_Some (schedule l (start carry_memory two_threads)) ->
  reachable carry_memory two_threads (scheduled l).
Proof.
  unfold scheduled. intros [c Hc]. rewrite Hc. by apply (schedule_steps l).
Qed.

Definition carrying : config := scheduled at_the_carry.
Definition ended : config := scheduled to_the_end.

Lemma carrying_reachable : reachable carry_memory two_threads carrying.
Proof. apply scheduled_reachable. apply (bool_decide_unpack (is_Some _)). vm_compute. exact I. Qed.

Lemma ended_reachable : reachable carry_memory two_threads ended.
Proof. apply scheduled_reachable. apply (bool_decide_unpack (is_Some _)). vm_compute. exact I. Qed.

Definition in_section (t : thread) : bool :=
  match now t with None | Some (_, Ret _) | Some (_, Lock _) => false | _ => true end.

Lemma in_section_inside t : in_section t = true -> ~ outside_section t.
Proof.
  unfold in_section, outside_section. destruct (now t) as [[op p]|]; [|done]. intros H [->|[r ->]]; [|done].
  by destruct (code_of_lock op) as [k Hk]; rewrite Hk in H.
Qed.

Lemma carrying_inside : exists t, pool carrying !! 0%nat = Some t /\ ~ outside_section t.
Proof.
  assert ((in_section <$> pool carrying !! 0%nat) = Some true) as H by (vm_compute; reflexivity).
  destruct (pool carrying !! 0%nat) as [t|]; [|done]. injection H as H. exists t. split; [done|by apply in_section_inside].
Qed.

(** A store that waits is not in memory yet. *)
Example carrying_state : words carrying = carry_memory /\ (fun t => stores t) <$> pool carrying = [[StoreWord 0 0]; []].
Proof. by vm_compute. Qed.

(** Both additions count, carried into the high half, and the read comes after. *)
Example ended_state :
  words ended = {[ 0 := 1; 8 := 1 ]} /\ (fun e => (e.1.1, answer_of e.2)) <$> log ended =
    [(0%nat, (true, 2 ^ 64 - 1)); (1%nat, (true, 2 ^ 64)); (1%nat, (true, 2 ^ 64 + 1))].
Proof. by vm_compute. Qed.

Lemma atomic_linearizable_witness :
  exists m', seq_run (ops_of (log ended)) carry_memory = (m', answers_of (log ended)) /\ (gate ended = 0 -> words ended = m') /\
    (forall earlier, steps earlier ended -> log earlier `prefix_of` log ended) /\
    forall i t, pool ended !! i = Some t ->
      two_threads !! i = Some ((answers t).*1 ++ current t ++ todo t) /\ of_thread i (log ended) = answers t ++ pending t.
Proof. exact (atomic_linearizable carry_memory two_threads ended carry_memory_ok two_threads_ok ended_reachable). Defined.

Lemma atomic_exclusive_witness : (0 = 0)%nat /\ gate carrying = 1.
Proof.
  destruct carrying_inside as (t & Ht & Hin).
  exact (atomic_exclusive carry_memory two_threads carrying 0 0 t t carry_memory_ok two_threads_ok carrying_reachable Ht Ht Hin Hin).
Defined.

Lemma atomic_rmw_exact_witness :
  exists section m', atomic128_rmw Sub 0 (1, 0) 4 = Lock section /\ solo section {[ 0 := 0; 8 := 0 ]} = Some (m', Result true (0, 0)) /\
    value_at m' 0 = rmw_value Sub 0 1 /\ is_value (value_at m' 0) /\
    forall b, b <> 0 -> b <> 8 -> m' !! b = ({[ 0 := 0; 8 := 0 ]} : gmap Z Z) !! b.
Proof. apply (atomic_rmw_exact Sub {[ 0 := 0; 8 := 0 ]} 0 0 0 (1, 0) 4); [vm_compute; reflexivity..| |]; split; unfold is_u64, UINT64_MAX; cbn; lia. Defined.

Lemma atomic_progress_witness :
  exists c', steps carrying c' /\ quiescent c' /\ (fun t => (answers t).*1) <$> pool c' = two_threads /\
    gate c' = 0 /\ words c' = (seq_run (ops_of (log c')) carry_memory).1.
Proof. exact (atomic_progress carry_memory two_threads carrying carry_memory_ok two_threads_ok carrying_reachable). Defined.
